(* ===== verification/_CoqProject ===== *)
-Q . S2P
Prelude.v
Cosmos.v
Strings.v
Voting.v
Objects.v
Names.v
AccountIds.v
AnsObjects.v
Fees.v
Ownership.v
Ans.v
AnsProofs.v
AnsClient.v
Registry.v
ModuleKeys.v
RegistryProofs.v
RegistryLifecycle.v
RegistryAccess.v
Clients.v
ModuleFactory.v
Account.v
Ibc.v
IbcClient.v
RegistryUpgrade.v
IbcClientProofs.v
IbcHost.v
Sdk.v
SdkApis.v
Adapter.v
App.v
SdkModules.v
PfmMemo.v
SdkStargate.v
Subscription.v
Challenge.v
Calendar.v
DexStandard.v
Dex.v
Payment.v
MoneyMarketStandard.v
MoneyMarket.v
DexIntegrations.v
SdkBank.v
MiniAstrovault.v
StakingStandard.v
StakingIntegrations.v
CwStaking.v
DexAstro.v
IcaClient.v
MoneyMarketIntegrations.v
AccountProofs.v
AccountAdmin.v
AccountModules.v
AccountInstall.v
IbcHostProofs.v
AdapterProofs.v
AppProofs.v
SubscriptionProofs.v
ChallengeProofs.v
CalendarProofs.v
DexProofs.v
PingPong.v
SdkStargateProofs.v
TendermintStaking.v
IbcExamples.v
AccountExamples.v
ModuleExamples.v
SubscriptionExamples.v
ChallengeExamples.v
CalendarExamples.v
DexExamples.v
PaymentProofs.v
MoneyMarketProofs.v
StakingProofs.v
DexAstroProofs.v
IcaClientProofs.v
PingPongProofs.v
IcaOwner.v
IcaOwnerProofs.v
TendermintStakingProofs.v
