(* ===== verification/Prelude.v ===== *)
(** * Abstract: a verification library for the contracts of the Abstract framework

    The repository holds the CosmWasm contracts of Abstract: smart accounts that
    install modules, the registry of accounts and modules, the name service, the
    contracts that carry calls of an account to other chains, the SDK the modules
    are built with, and modules built with it.  This library models the contracts
    as executable functions on their storage, and proves what makes them correct.
    Paths below are under src/framework unless they say otherwise.

    ** How contracts are modelled

    A call is a function of the monad [M S E] of Prelude.v: from the storage [S]
    to a result and the storage after, an error of [E], or a trap.  The
    [overflow-checks] of the workspaces make an arithmetic overflow a trap, as
    [unwrap] of [None] and [todo!()] are; errors and traps both discard the
    writes ([commit]).  Storage is a record with one field per [Item] (an
    [option]) and per [Map] (a [gmap]).  Fixed-width integers are [Z] with the
    checks of [add_u], [sub_u], [mul_u] and [wrap_u] of Cosmos.v.  What a call
    sends is a list of messages in its answer ([Response]); the chain delivers
    them after the call, and a submessage that is replied to names its handler.
    Other contracts are reached by classes that give the state at an address
    ([Registries], [AnsHosts], [Accounts]) or the answer of the chain
    ([Querier]).  Rust's traits that a module implements are a record of handlers
    ([AbstractContract] of Sdk.v); traits with several implementations are
    classes ([Resolve], [ContractError]).

    Packages that are not in the repository are classes with their documented
    laws: [DecimalOps], [Semver], [CwOwnable], [Api], [Instantiate2] (Cosmos.v),
    [CwAsset] (Ans.v), [CwAssetMsgs] (SdkApis.v), [CoinsOps], [Sha256] and the
    JSON texts where a contract reads or writes them.  Each has a reference
    instance that the examples evaluate with.

    ** The parts, from the bottom up

    - Prelude.v: outcomes, the monad, tactics that invert successful runs
      ([inv_ok], [case_ok]), the rules of [Preserves] to prove invariants
      through binds and loops, lemmas on lists and maps.
      Cosmos.v: blocks, messages, coins, integers, time; the interfaces of the
      packages underneath.  Strings.v: splitting, joining, parsing of the texts
      the contracts use.
    - packages/abstract-std/src/objects: Voting.v (voting.rs), Names.v (module
      names, versions, namespaces, validation), AccountIds.v (account ids, traces
      and chain names), AnsObjects.v (names of assets, contracts, channels and
      pools), Fees.v (fee.rs, time_weighted_average.rs), Ownership.v
      (ownership/*.rs, nested_admin.rs), Objects.v (modules and their
      references).  AccountIds.v and AnsObjects.v prove that keys and texts are
      read back as they were written.
    - contracts/native/ans-host: Ans.v, with AnsProofs.v; its client and the
      resolution of names is AnsClient.v.
    - contracts/native/registry: Registry.v; RegistryProofs.v (namespaces, local
      accounts), RegistryLifecycle.v (the life of a module version),
      RegistryAccess.v (who may call what), RegistryUpgrade.v (migration, from the
      layout of version 0.24 too, and the dispatch of queries).  Clients.v: the clients of the
      registry and the module factory, and the messages contracts exchange.
      ModuleFactory.v: contracts/native/module-factory.
    - contracts/account: Account.v; AccountProofs.v (authorization, whitelist),
      AccountAdmin.v (administrator calls), AccountModules.v (the graph of
      dependencies), AccountInstall.v (creation and installation, with the
      factory and the registry).
    - contracts/native/ibc-client and ibc-host: Ibc.v (messages of
      abstract-std/src/native/ibc), IbcClient.v, IbcHost.v with
      IbcClientProofs.v and IbcHostProofs.v.
    - The SDK: Sdk.v (abstract-sdk/src/base), SdkApis.v (bank and executor),
      SdkBank.v (deposits, withdrawals, messages with coins, calls with a reply),
      SdkModules.v (the APIs of modules, adapters, apps, accounts, splits and
      interchain calls), SdkStargate.v with SdkStargateProofs.v (authz, fee grants,
      distribution), PfmMemo.v (memos of packet forwarding); ModuleKeys.v (the
      storage keys of modules, from abstract-std).
      Adapter.v (abstract-adapter) with AdapterProofs.v, App.v (abstract-app and
      abstract-standalone) with AppProofs.v.
    - Apps of src/modules/contracts/apps, each with a file of proofs:
      Subscription.v, Challenge.v (it runs the voting object of Voting.v inside its
      storage), Calendar.v, Payment.v, PingPong.v (the apps of several chains).
    - The exchange: DexStandard.v (packages/standards/dex), Dex.v
      (src/modules/contracts/adapters/dex), and the exchanges of src/integrations:
      DexIntegrations.v (Kujira, Wyndex, Neutron, Osmosis) and DexAstro.v
      (Astroport, Astrovault); DexProofs.v and DexAstroProofs.v.
    - Money markets: MoneyMarketStandard.v, MoneyMarket.v, MoneyMarketIntegrations.v
      (Ghost, Mars), MoneyMarketProofs.v.
    - Staking: StakingStandard.v, CwStaking.v, StakingIntegrations.v (Bow, Wyndex,
      Osmosis, Astroport, Astrovault; MiniAstrovault.v has the messages of the
      last), StakingProofs.v; TendermintStaking.v with its proofs.
    - Interchain accounts of other kinds of chains: IcaClient.v
      (contracts/native/ica-client) with IcaClientProofs.v, IcaOwner.v
      (src/modules/contracts/standalones/ica-owner) with IcaOwnerProofs.v.
    - Concrete runs, to which the theorems are applied, are in *Examples.v and in
      the Examples module at the end of the other files of proofs.

    ** How they interact

    An account is created by the registry's rules (AccountInstall.v): its address
    and those of its modules are computed by Ownership.v and Clients.v before
    they exist.  The account asks the factory for modules, which collects fees
    with Fees.v and instantiates apps for the account.  An adapter asks the
    registry whether its caller is an account (Sdk.v), an app keeps its account
    as administrator.  A call to another chain goes from the account to the IBC
    client, over polytone to the IBC host there, and to the account of the same
    id; the answer comes back to the client as a callback.  Transfers wait in the
    client for their acknowledgement.

    ** The theorems

    Each property of the manifest is named C1, C2, ... in its comment.
    - Registry: namespaces and accounts correspond one to one
      ([namespaces_bijection]); a version of a module moves from pending to
      registered to yanked and never changes its reference ([module_lifecycle]);
      account ids are given out in sequence; who can change what; when an upgrade
      keeps the namespaces one to one ([registry_upgrade_bijection]).
    - Account: only the owner, whitelisted modules or itself act
      ([account_authorization]); an administrator call never outlives its
      message ([admin_calls_transient]); a module others depend on is not
      uninstalled.
    - Name service: pools are indexed by their pairs exactly ([pools_indexed]),
      and the update of pools refines an abstract registry of pools
      ([update_pools_refines]).
    - Interchain: actions of one chain cannot reach accounts of another
      ([host_actions_isolated]); an account that does not exist is created and
      then acted on, in a bounded number of steps ([created_then_acted]); every
      transfer is settled once ([transfers_settled_once]).
    - Modules: adapters are called by those an account authorised
      ([adapter_calls_authorized]); an app belongs to one account for ever
      ([app_keeps_account]); subscriptions and their emissions
      ([emissions_bounded], [subscribers_counted], [paid_time_honoured]); challenges
      are charged once and pay their penalty out exactly; the calendar holds the
      stakes of its meetings ([stakes_held]); tips ([tip_exact]); the wins of
      ping-pong never exceed the losses, over all chains ([wins_are_losses]).
    - Exchanges, money markets and staking: what an action of an adapter sends and
      charges, exactly ([dex_action_exact], [dex_fee_governed]), that a simulation is
      the swap, that an app trades for its account, deposits in the order of the pool
      ([stable_deposit_in_pool_order]), every asset is staked
      ([stakes_every_asset]), and queries that cannot be answered
      ([amount_queries_fail]).
    - Interchain accounts: actions follow the notes of the owner
      ([ica_actions_follow_notes]); controllers keep their numbers
      ([ica_owner_keeps_controllers]); memos of packet forwarding are read back
      ([memo_reads_back]).
    - Objects: votes are tallied exactly and a verdict is final; texts and keys
      round-trip.

    ** Bounds and fuel

    Recursion is structural almost everywhere.  Nested ownership is followed
    with the code's own bound [MAX_ADMIN_RECURSION], where code and model stop
    and answer the address they reached.  Interchain runs are lists of steps.
    Version parsing and page limits follow the code's constants.

    ** Not modelled

    Event attributes (only the ping-pong app reads them; those it reads are modelled),
    gas, and the storage
    layout of maps beyond their order of iteration and the keys of ModuleKeys.v and
    AccountIds.v.  JSON and protobuf texts are parameters.  The xion feature of the
    account is off.  Packages that deploy or test (abstract-interface,
    abstract-client, abstract-testing, abstract-integration-tests, the testers of the
    adapters, the mock exchange, interchain, scripts) and the procedural macros only
    call the contracts, or run outside of the chain.  The builders of contract
    objects (with_execute and the like) fill in the records of handlers. *)

From stdpp Require Export base gmap sets list strings fin_maps pretty sorting.
From Stdlib Require Export ZArith Lia.

#[global] Set Default Goal Selector "!".
#[global] Open Scope Z_scope.
#[global] Set Warnings "-clear-no-such-hyp".

(** ** Outcomes of a contract call

    A CosmWasm entry point returns [Ok], returns an error, or traps: the
    workspace is built with [overflow-checks = true] and [panic = 'abort'], so
    an arithmetic overflow, an [unwrap] of [None], [todo!()] or
    [unimplemented!()] aborts the transaction.  An error and a trap both
    discard the writes of the call. *)
Inductive outcome (E A : Type) : Type :=
  | Ok (a : A)
  | Err (e : E)
  | Panic.
Arguments Ok {E A} a.
Arguments Err {E A} e.
Arguments Panic {E A}.

(** Computations over a contract storage [S] with errors in [E]. *)
Definition M (S E A : Type) : Type := S → outcome E (A * S).

#[export] Instance outcome_ret E : MRet (outcome E) := λ A a, Ok a.
#[export] Instance outcome_bind E : MBind (outcome E) := λ A B f m,
  match m with Ok a => f a | Err e => Err e | Panic => Panic end.
#[export] Instance outcome_fmap E : FMap (outcome E) := λ A B f m,
  match m with Ok a => Ok (f a) | Err e => Err e | Panic => Panic end.

#[export] Instance M_ret S E : MRet (M S E) := λ A a s, Ok (a, s).
#[export] Instance M_bind S E : MBind (M S E) := λ A B f m s,
  match m s with Ok (a, s') => f a s' | Err e => Err e | Panic => Panic end.

Section monad_ops.
Context {S E : Type}.

(** Reading and writing the storage. *)
Definition gets {A} (f : S → A) : M S E A := λ s, Ok (f s, s).
Definition modify (f : S → S) : M S E unit := λ s, Ok (tt, f s).
(** A pure, possibly failing, computation. *)
Definition lift {A} (o : outcome E A) : M S E A := λ s,
  match o with Ok a => Ok (a, s) | Err e => Err e | Panic => Panic end.
Definition fail {A} (e : E) : M S E A := λ _, Err e.
(** A trap of the contract. *)
Definition trap {A} : M S E A := λ _, Panic.

(** [f] of a component whose storage is a part of this one. *)
Definition zoom {T A} (get : S → T) (set : T → S → S) (m : M T E A) : M S E A := λ s,
  match m (get s) with Ok (a, t) => Ok (a, set t s) | Err e => Err e | Panic => Panic end.

(** [for x in l { f(x)?; }] *)
Fixpoint mfor {A} (l : list A) (f : A → M S E unit) : M S E unit :=
  match l with
  | [] => mret tt
  | x :: l => f x ≫= λ _, mfor l f
  end.

(** [for x in l { acc = f(acc, x)?; }] *)
Fixpoint mfold {A B} (l : list A) (acc : B) (f : B → A → M S E B) : M S E B :=
  match l with
  | [] => mret acc
  | x :: l => f acc x ≫= λ acc', mfold l acc' f
  end.
End monad_ops.

(** [ensure!(b, e)] of cosmwasm_std, in the pure and the stateful monad. *)
Definition guard_or {E} (b : bool) (e : E) : outcome E unit :=
  if b then Ok tt else Err e.
Definition ensure {S E} (b : bool) (e : E) : M S E unit := lift (guard_or b e).
(** [o.ok_or(e)?] *)
Definition ok_or {E A} (o : option A) (e : E) : outcome E A :=
  match o with Some a => Ok a | None => Err e end.
(** [o.unwrap()] *)
Definition unwrap {E A} (o : option A) : outcome E A :=
  match o with Some a => Ok a | None => Panic end.
(** [r.map_err(f)], which is what [?] does through [From]. *)
Definition map_err {E F A} (f : E → F) (o : outcome E A) : outcome F A :=
  match o with Ok a => Ok a | Err e => Err (f e) | Panic => Panic end.
(** The same for a computation on the storage. *)
Definition within {S E F A} (f : E → F) (m : M S E A) : M S F A := λ s, map_err f (m s).
(** [r.is_ok()]; a trap inside [r] is still a trap, so this is used on
    computations that cannot trap. *)
Definition is_ok {E A} (o : outcome E A) : bool :=
  match o with Ok _ => true | _ => false end.
(** [r.ok()] *)
Definition ok {E A} (o : outcome E A) : option A :=
  match o with Ok a => Some a | _ => None end.

(** [iter.map(f).collect::<Result<Vec<_>, _>>()] *)
Fixpoint omapM {E A B} (f : A → outcome E B) (l : list A) : outcome E (list B) :=
  match l with
  | [] => Ok []
  | x :: l => y ← f x; ys ← omapM f l; Ok (y :: ys)
  end.

(** [iter.try_for_each(f)] *)
Fixpoint ofor {E A} (l : list A) (f : A → outcome E unit) : outcome E unit :=
  match l with
  | [] => Ok tt
  | x :: l => f x ≫= λ _, ofor l f
  end.

(** [for x in l { acc = f(acc, x)?; }] without storage *)
Fixpoint ofold {E A B} (l : list A) (acc : B) (f : B → A → outcome E B) : outcome E B :=
  match l with
  | [] => Ok acc
  | x :: l => f acc x ≫= λ acc', ofold l acc' f
  end.

(** The state a transaction leaves: an error or a trap rolls back. *)
Definition commit {S E A} (s : S) (o : outcome E (A * S)) : S :=
  match o with Ok (_, s') => s' | _ => s end.

(** ** Division *)

(** [lia] on goals with division and remainder by constants. *)
Ltac div_lia := Z.to_euclidean_division_equations; lia.

Lemma div_lt_iff a b q : 0 < b → a / b < q ↔ a < q * b.
Proof.
  intros Hb. split; intros Hlt.
  - pose proof (Z.mod_pos_bound a b Hb). pose proof (Z.div_mod a b). nia.
  - apply Z.div_lt_upper_bound; lia.
Qed.

(** ** Inversion of successful computations *)

Section inversion.
Context {S E : Type}.

Lemma bind_Ok {A B} (m : M S E A) (f : A → M S E B) s b s2 :
  (m ≫= f) s = Ok (b, s2) ↔ ∃ a s1, m s = Ok (a, s1) ∧ f a s1 = Ok (b, s2).
Proof.
  unfold mbind, M_bind. destruct (m s) as [[a s1]|e|]; split; try naive_solver.
Qed.

Lemma obind_Ok {A B} (o : outcome E A) (f : A → outcome E B) b :
  (o ≫= f) = Ok b ↔ ∃ a, o = Ok a ∧ f a = Ok b.
Proof. unfold mbind, outcome_bind. destruct o; split; naive_solver. Qed.

Lemma lift_Ok {A} (o : outcome E A) (s : S) a s' :
  lift o s = Ok (a, s') ↔ o = Ok a ∧ s' = s.
Proof. unfold lift. destruct o; split; naive_solver. Qed.

Lemma gets_Ok {A} (f : S → A) (s : S) a s' :
  gets (E:=E) f s = Ok (a, s') ↔ a = f s ∧ s' = s.
Proof. unfold gets. split; naive_solver. Qed.

Lemma modify_Ok (f : S → S) (s : S) u s' :
  modify (E:=E) f s = Ok (u, s') ↔ s' = f s.
Proof. unfold modify. destruct u. split; naive_solver. Qed.

Lemma ret_Ok {A} (a : A) (s : S) a' s' :
  mret (M:=M S E) a s = Ok (a', s') ↔ a' = a ∧ s' = s.
Proof. unfold mret, M_ret. split; naive_solver. Qed.

Lemma oret_Ok {A} (a a' : A) : mret (M:=outcome E) a = Ok a' ↔ a' = a.
Proof. unfold mret, outcome_ret. split; naive_solver. Qed.

Lemma guard_or_Ok b (e : E) u : guard_or b e = Ok u ↔ b = true.
Proof. unfold guard_or. destruct b, u; split; naive_solver. Qed.

Lemma ensure_Ok b (e : E) (s : S) u s' :
  ensure b e s = Ok (u, s') ↔ b = true ∧ s' = s.
Proof. unfold ensure. rewrite lift_Ok, guard_or_Ok. done. Qed.

Lemma ok_or_Ok {A} (o : option A) (e : E) a : ok_or o e = Ok a ↔ o = Some a.
Proof. unfold ok_or. destruct o; split; naive_solver. Qed.

Lemma unwrap_Ok {A} (o : option A) a : unwrap (E:=E) o = Ok a ↔ o = Some a.
Proof. unfold unwrap. destruct o; split; naive_solver. Qed.

Lemma map_err_Ok {F A} (f : E → F) (o : outcome E A) a :
  map_err f o = Ok a ↔ o = Ok a.
Proof. unfold map_err. destruct o; split; naive_solver. Qed.

Lemma within_Ok {F A} (f : E → F) (m : M S E A) s x : within f m s = Ok x ↔ m s = Ok x.
Proof. apply map_err_Ok. Qed.

Lemma zoom_Ok {T A} (get : S → T) (set : T → S → S) (m : M T E A) s a s' :
  zoom get set m s = Ok (a, s') ↔ ∃ t, m (get s) = Ok (a, t) ∧ s' = set t s.
Proof. unfold zoom. destruct (m (get s)) as [[b t]|e|]; split; naive_solver. Qed.

Lemma fail_Ok {A} (e : E) (s : S) (r : A * S) : fail e s = Ok r ↔ False.
Proof. unfold fail. split; naive_solver. Qed.

Lemma trap_Ok {A} (s : S) (r : A * S) : trap (E:=E) s = Ok r ↔ False.
Proof. unfold trap. split; naive_solver. Qed.

Lemma is_ok_true {A} (o : outcome E A) : is_ok o = true ↔ ∃ a, o = Ok a.
Proof. unfold is_ok. destruct o; split; naive_solver. Qed.

Lemma ok_Some {A} (o : outcome E A) a : ok o = Some a ↔ o = Ok a.
Proof. unfold ok. destruct o; split; naive_solver. Qed.
End inversion.

(** [inv_ok] turns every hypothesis "this computation returned [Ok]" into the
    facts it implies, one monadic operation at a time. *)
Ltac inv_ok_step :=
  match goal with
  | H : False |- _ => destruct H
  | H : Ok _ = Err _ |- _ => discriminate H
  | H : Ok _ = Panic |- _ => discriminate H
  | H : Err _ = Ok _ |- _ => discriminate H
  | H : Panic = Ok _ |- _ => discriminate H
  | H : Ok _ = Ok _ |- _ => injection H as H; subst
  | H : (_, _) = (_, _) |- _ => injection H as ? ?; subst
  | H : @mbind (M _ _) _ _ _ _ _ _ = Ok _ |- _ =>
      apply bind_Ok in H; destruct H as (? & ? & ? & ?)
  | H : @mbind (outcome _) _ _ _ _ _ = Ok _ |- _ =>
      apply obind_Ok in H; destruct H as (? & ? & ?)
  | H : lift _ _ = Ok _ |- _ => apply lift_Ok in H; first [destruct H as [? ->] | destruct H as [? _]]
  | H : gets _ _ = Ok _ |- _ => apply gets_Ok in H; first [destruct H as [-> ->] | destruct H as [? ->]]
  | H : modify _ _ = Ok _ |- _ => apply modify_Ok in H; subst
  | H : @mret (M _ _) _ _ _ _ = Ok _ |- _ => apply ret_Ok in H; first [destruct H as [-> ->] | destruct H as [? ->]]
  | H : @mret (outcome _) _ _ _ = Ok _ |- _ => apply oret_Ok in H; subst
  | H : ensure _ _ _ = Ok _ |- _ => apply ensure_Ok in H; first [destruct H as [? ->] | destruct H as [? _]]
  | H : guard_or _ _ = Ok _ |- _ => apply guard_or_Ok in H
  | H : ok_or _ _ = Ok _ |- _ => apply ok_or_Ok in H
  | H : unwrap _ = Ok _ |- _ => apply unwrap_Ok in H
  | H : map_err _ _ = Ok _ |- _ => apply map_err_Ok in H
  | H : within _ _ _ = Ok _ |- _ => apply within_Ok in H
  | H : zoom _ _ _ _ = Ok _ |- _ => apply zoom_Ok in H; destruct H as (? & ? & ->)
  | H : fail _ _ = Ok _ |- _ => apply fail_Ok in H
  | H : trap _ = Ok _ |- _ => apply trap_Ok in H
  | H : ?x = ?x |- _ => clear H
  end.
Ltac inv_ok := repeat (inv_ok_step; simpl in * ).
(** Case analysis on the scrutinee of a successful computation. *)
Ltac case_ok :=
  match goal with
  | H : match ?x with _ => _ end = Ok _ |- _ => destruct x eqn:?
  | H : match ?x with _ => _ end _ = Ok _ |- _ => destruct x eqn:?
  end.
Ltac solve_ok := repeat (first [progress inv_ok | case_ok]).

(** ** Preservation of a storage invariant

    [Preserves I m]: whatever the result, if the storage satisfies [I] and the
    call succeeds, the new storage satisfies [I].  Loops and binds compose. *)
Definition Preserves {S E A} (I : S → Prop) (m : M S E A) : Prop :=
  ∀ s a s', I s → m s = Ok (a, s') → I s'.

Section preserves.
Context {S E : Type} (I : S → Prop).

Lemma preserves_bind {A B} (m : M S E A) (f : A → M S E B) :
  Preserves I m → (∀ a, Preserves I (f a)) → Preserves I (m ≫= f).
Proof. intros Hm Hf s b s2 HI H. apply bind_Ok in H as (a & s1 & H1 & H2).
  exact (Hf a s1 b s2 (Hm s a s1 HI H1) H2). Qed.

Lemma preserves_lift {A} (o : outcome E A) : Preserves I (lift o).
Proof. intros s a s' HI H. inv_ok. done. Qed.
Lemma preserves_lift_bind {A B} (o : outcome E A) (f : A → M S E B) :
  (∀ a, o = Ok a → Preserves I (f a)) → Preserves I (lift o ≫= f).
Proof. intros Hf s b s' HI H. apply bind_Ok in H as (a & s1 & [Ha ->]%lift_Ok & H2).
  exact (Hf a Ha s b s' HI H2). Qed.
Lemma preserves_gets {A} (f : S → A) : Preserves I (gets (E:=E) f).
Proof. intros s a s' HI H. inv_ok. done. Qed.
Lemma preserves_ret {A} (a : A) : Preserves I (mret (M:=M S E) a).
Proof. intros s a' s' HI H. inv_ok. done. Qed.
Lemma preserves_fail {A} (e : E) : Preserves I (fail (A:=A) e).
Proof. intros s a s' HI H. inv_ok. Qed.
Lemma preserves_ensure b (e : E) : Preserves I (ensure b e).
Proof. intros s a s' HI H. inv_ok. done. Qed.
Lemma preserves_modify (f : S → S) :
  (∀ s, I s → I (f s)) → Preserves I (modify (E:=E) f).
Proof. intros Hf s a s' HI H. inv_ok. auto. Qed.

Lemma preserves_within {F A} (f : E → F) (m : M S E A) : Preserves I m → Preserves I (within f m).
Proof. intros Hm s a s' HI H%within_Ok. by eapply Hm. Qed.

Lemma preserves_mfor {A} (l : list A) (f : A → M S E unit) :
  (∀ x, x ∈ l → Preserves I (f x)) → Preserves I (mfor l f).
Proof.
  induction l as [|x l IH]; simpl; intros Hf.
  - apply preserves_ret.
  - apply preserves_bind; [apply Hf; left|intros _; apply IH; intros y Hy; apply Hf; by right].
Qed.

Lemma preserves_mfold {A B} (l : list A) (f : B → A → M S E B) :
  (∀ x b, x ∈ l → Preserves I (f b x)) → ∀ b, Preserves I (mfold l b f).
Proof.
  induction l as [|x l IH]; simpl; intros Hf b.
  - apply preserves_ret.
  - apply preserves_bind; [apply Hf; left|intros b'; apply IH; intros y c Hy; apply Hf; by right].
Qed.
End preserves.

(** [Establishes I m]: whatever the storage was, it satisfies [I] after a
    successful call. *)
Definition Establishes {S E A} (I : S → Prop) (m : M S E A) : Prop :=
  ∀ s a s', m s = Ok (a, s') → I s'.
Lemma establishes_now {S E A B} (I : S → Prop) (m : M S E A) (f : A → M S E B) :
  Establishes I m → (∀ a, Preserves I (f a)) → Establishes I (m ≫= f).
Proof. intros Hm Hf s b s' H. apply bind_Ok in H as (a & s1 & H1 & H2).
  exact (Hf a s1 b s' (Hm s a s1 H1) H2). Qed.
Lemma establishes_later {S E A B} (I : S → Prop) (m : M S E A) (f : A → M S E B) :
  (∀ a, Establishes I (f a)) → Establishes I (m ≫= f).
Proof. intros Hf s b s' H. apply bind_Ok in H as (a & s1 & _ & H2). exact (Hf a s1 b s' H2). Qed.

Create HintDb preserves discriminated.
#[export] Hint Resolve preserves_lift preserves_gets preserves_ret preserves_fail
  preserves_ensure : preserves.
#[export] Hint Resolve preserves_bind preserves_mfor : preserves.

(** Rolling back on failure keeps an invariant too. *)
Lemma commit_preserves {S E A} (I : S → Prop) (m : M S E A) s :
  Preserves I m → I s → I (commit s (m s)).
Proof. intros Hm HI. destruct (m s) as [[a s']|e|] eqn:Heq; simpl; [|done..]. by eapply Hm. Qed.

(** Follows the monadic structure of a handler down to its writes. *)
Ltac preserve_step :=
  match goal with
  | |- Preserves _ (lift _) => apply preserves_lift
  | |- Preserves _ (gets _) => apply preserves_gets
  | |- Preserves _ (mret _) => apply preserves_ret
  | |- Preserves _ (fail _) => apply preserves_fail
  | |- Preserves _ (ensure _ _) => apply preserves_ensure
  | |- Preserves _ (modify _) =>
      apply preserves_modify; let s := fresh "s" in let Hs := fresh "Hs" in intros s Hs; exact Hs
  | |- Preserves _ (within _ _) => apply preserves_within
  | |- Preserves _ (mfor _ _) => apply preserves_mfor; intros ? _
  | |- Preserves _ (mfold _ _ _) => apply preserves_mfold; intros ? ? _
  | |- Preserves _ (_ ≫= _) => apply preserves_bind; [|intros ?]
  | |- Preserves _ (match ?x with _ => _ end) => destruct x
  | |- Preserves _ (let _ := _ in _) => cbv zeta
  end.
Ltac preserve := intros; repeat preserve_step.

(** A loop that succeeds ran its body successfully on every element. *)
Lemma mfor_Ok_cons {S E A} (x : A) l (f : A → M S E unit) s u s' :
  mfor (x :: l) f s = Ok (u, s') ↔ ∃ s1, f x s = Ok (tt, s1) ∧ mfor l f s1 = Ok (u, s').
Proof.
  simpl. rewrite bind_Ok. split.
  - intros ([] & s1 & ? & ?). eauto.
  - intros (s1 & ? & ?). eauto.
Qed.

(** What holds of the accumulator and the storage before a loop, and after an
    iteration when it held before it, holds after the loop. *)
Lemma mfold_ind {S E A B} (P : B → S → Prop) (l : list A) (f : B → A → M S E B) :
  (∀ x b s b' s', x ∈ l → P b s → f b x s = Ok (b', s') → P b' s') →
  ∀ b s b' s', P b s → mfold l b f s = Ok (b', s') → P b' s'.
Proof.
  induction l as [|x l IH]; intros Hf b s b' s' HP Hrun; simpl in Hrun; [by inv_ok|].
  apply bind_Ok in Hrun as (b1 & s1 & H1 & Hrun). eapply (IH ltac:(intros; eapply Hf; [by right|done..])); [|exact Hrun].
  eapply Hf; [by left|done..].
Qed.

(** Loops whose body cannot fail are folds of its effect. *)
Lemma mfor_total {S E A} (f : A → M S E unit) (g : S → A → S) l s :
  (∀ x s, f x s = Ok (tt, g s x)) → mfor l f s = Ok (tt, foldl g s l).
Proof.
  intros Hf. revert s. induction l as [|x l IH]; intros s; [done|].
  simpl. unfold mbind, M_bind. rewrite Hf. apply IH.
Qed.
Lemma foldl_bind {A B C} (g : B → C → B) (f : A → list C) l b :
  foldl (λ b x, foldl g b (f x)) b l = foldl g b (l ≫= f).
Proof.
  revert b. induction l as [|x l IH]; intros b; [done|].
  simpl. rewrite foldl_app. apply IH.
Qed.

Lemma ofor_Ok {E A} (l : list A) (f : A → outcome E unit) :
  ofor l f = Ok tt ↔ Forall (λ x, f x = Ok tt) l.
Proof.
  induction l as [|x l IH]; simpl; [by split; [constructor|]|].
  rewrite obind_Ok, Forall_cons, <-IH. split.
  - intros ([] & ? & ?). done.
  - intros [? ?]. eauto.
Qed.

Lemma omapM_Ok {E A B} (f : A → outcome E B) l ys :
  omapM f l = Ok ys ↔ Forall2 (λ x y, f x = Ok y) l ys.
Proof.
  revert ys. induction l as [|x l IH]; intros ys; simpl.
  - split; intros H.
    + injection H as <-. constructor.
    + by inversion H.
  - split.
    + intros H. inv_ok. constructor; [done|]. by apply IH.
    + intros H. inversion H as [|? y ? ys' Hy Hys]; subst.
      apply obind_Ok. exists y; split; [done|]. apply obind_Ok. exists ys'.
      split; [by apply IH|done].
Qed.

(** ** Counting the entries of a finite map *)

Section count.
Context {K V : Type} `{Countable K} (P : K * V → Prop) `{!∀ x, Decision (P x)}.

Definition count_map (m : gmap K V) : nat := size (filter P m).

Lemma count_map_empty : count_map ∅ = 0%nat.
Proof. unfold count_map. rewrite map_filter_empty. apply map_size_empty. Qed.

Lemma count_map_insert_None m k v :
  m !! k = None →
  count_map (<[k:=v]> m) = ((if decide (P (k, v)) then 1 else 0) + count_map m)%nat.
Proof.
  intros Hk. unfold count_map.
  assert (filter P m !! k = None) as Hf.
  { apply map_lookup_filter_None. by left. }
  case_decide.
  - rewrite map_filter_insert_True by done. by rewrite map_size_insert_None.
  - rewrite map_filter_insert_False by done. by rewrite delete_id.
Qed.

Lemma count_map_delete m k v :
  m !! k = Some v →
  count_map m = ((if decide (P (k, v)) then 1 else 0) + count_map (delete k m))%nat.
Proof.
  intros Hk. rewrite <-(insert_delete_id m k v) at 1 by done.
  apply count_map_insert_None, lookup_delete_eq.
Qed.

Lemma count_map_insert_Some m k v w :
  m !! k = Some w →
  (count_map (<[k:=v]> m) + (if decide (P (k, w)) then 1 else 0)
   = count_map m + (if decide (P (k, v)) then 1 else 0))%nat.
Proof.
  intros Hk. rewrite (count_map_delete m k w) by done.
  rewrite <-insert_delete_eq.
  rewrite count_map_insert_None by apply lookup_delete_eq. lia.
Qed.

Lemma count_map_none m : (∀ k v, m !! k = Some v → ¬ P (k, v)) → count_map m = 0%nat.
Proof.
  intros Hm. unfold count_map. apply map_size_empty_iff, map_empty. intros k.
  apply map_lookup_filter_None. right. eauto.
Qed.

Lemma count_map_le_size m : (count_map m ≤ size m)%nat.
Proof. unfold count_map. apply map_subseteq_size, map_filter_subseteq. Qed.
End count.

(** Two exclusive kinds of entries are at most as many as the entries of a
    kind that contains both. *)
Lemma count_map_disjoint `{Countable K} {V} (P Q R : K * V → Prop)
    `{!∀ x, Decision (P x)} `{!∀ x, Decision (Q x)} `{!∀ x, Decision (R x)} (m : gmap K V) :
  (∀ x, P x → R x ∧ ¬ Q x) → (∀ x, Q x → R x) →
  (count_map P m + count_map Q m ≤ count_map R m)%nat.
Proof.
  intros HP HQ. induction m as [|k v m Hk IH] using map_ind.
  - by rewrite !count_map_empty.
  - rewrite !count_map_insert_None by done.
    repeat case_decide; try lia; exfalso; naive_solver.
Qed.

(** ** Two maps that are inverse to each other *)

(** Adding and removing one pair of the correspondence. *)
Lemma inverse_add {K A V} `{Countable K, Countable A} (f : V → A) (m : gmap K V) (r : gmap A K) k v :
  (∀ k a, f <$> m !! k = Some a ↔ r !! a = Some k) → m !! k = None → r !! f v = None →
  ∀ k' a, f <$> <[k := v]> m !! k' = Some a ↔ <[f v := k]> r !! a = Some k'.
Proof.
  intros Hinv Hk Hv k' a. destruct (decide (k = k')) as [<-|Hne], (decide (f v = a)) as [<-|Hna];
    rewrite ?lookup_insert_eq, ?lookup_insert_ne by done; simpl; [done|..|by apply Hinv].
  - split; [congruence|]. intros Hr%Hinv. by rewrite Hk in Hr.
  - split; [|congruence]. intros Hr%Hinv. congruence.
Qed.
Lemma inverse_delete {K A V} `{Countable K, Countable A} (f : V → A) (m : gmap K V) (r : gmap A K) k v :
  (∀ k a, f <$> m !! k = Some a ↔ r !! a = Some k) → m !! k = Some v →
  ∀ k' a, f <$> delete k m !! k' = Some a ↔ delete (f v) r !! a = Some k'.
Proof.
  intros Hinv Hk k' a.
  assert (r !! f v = Some k) as Hr by (apply Hinv; by rewrite Hk).
  destruct (decide (k = k')) as [<-|Hne], (decide (f v = a)) as [<-|Hna];
    rewrite ?lookup_delete_eq, ?lookup_delete_ne by done; simpl; [done|..|by apply Hinv].
  - split; [done|]. intros Hr'%Hinv. rewrite Hk in Hr'. simpl in Hr'. congruence.
  - split; [|done]. intros Hr'%Hinv. congruence.
Qed.

(** ** Sums *)

Definition zsum (l : list Z) : Z := foldr Z.add 0 l.
Lemma zsum_app l k : zsum (l ++ k) = zsum l + zsum k.
Proof. unfold zsum. induction l as [|x l IH]; simpl; lia. Qed.
Lemma zsum_insert l i x y : l !! i = Some x → zsum (<[i := y]> l) = zsum l - x + y.
Proof.
  unfold zsum. revert i. induction l as [|z l IH]; intros [|i] Hi; simplify_eq/=; [lia|].
  rewrite (IH i) by done. lia.
Qed.
Lemma zsum_nonneg l : Forall (λ x, 0 ≤ x) l → 0 ≤ zsum l.
Proof. unfold zsum. induction 1; simpl; lia. Qed.

Section map_sum.
Context {K V} `{Countable K} (f : V → Z).
(** The sum over the values of a map. *)
Definition map_sum (m : gmap K V) : Z := map_fold (λ _ v n, f v + n) 0 m.
Lemma map_sum_empty : map_sum ∅ = 0.
Proof. apply map_fold_empty. Qed.
Lemma map_sum_insert_None m k v : m !! k = None → map_sum (<[k := v]> m) = f v + map_sum m.
Proof.
  intros Hk. unfold map_sum. rewrite map_fold_insert_L; [done| |done]. intros. lia.
Qed.
Lemma map_sum_insert m k v : map_sum (<[k := v]> m) = map_sum m - from_option f 0 (m !! k) + f v.
Proof.
  destruct (m !! k) as [w|] eqn:Hk; simpl; [|rewrite map_sum_insert_None by done; lia].
  rewrite <-(insert_delete_id m k w Hk) at 2. rewrite <-insert_delete_eq.
  rewrite !map_sum_insert_None by apply lookup_delete_eq. lia.
Qed.
Lemma map_sum_nonneg m : map_Forall (λ _ v, 0 ≤ f v) m → 0 ≤ map_sum m.
Proof.
  induction m as [|k v m Hk IH] using map_ind; intros Hall; [by rewrite map_sum_empty|].
  apply map_Forall_insert in Hall as [Hv Hall]; [|done]. rewrite map_sum_insert_None by done.
  pose proof (IH Hall). lia.
Qed.
End map_sum.
