(* ===== verification/Cosmos.v ===== *)
(** * The CosmWasm environment

    The data a contract call receives (block, sender, funds), fixed-width
    arithmetic with its traps, and the interfaces of the packages the
    framework builds on, as type classes: [cosmwasm_std] fixed-point
    arithmetic, the [semver] crate, [cw_ownable], and address validation.
    Nothing of those packages is defined here: a client takes the class as an
    argument, and its laws state the documented behaviour it relies on. *)

From S2P Require Import Prelude.

(** Validated addresses are strings. *)
Abbreviation Addr := string (only parsing).

Record Coin := mkCoin { denom : string; amount : Z }.
Record BlockInfo := mkBlock { height : Z; time : Z; chain_id : string }.
Record Env := mkEnv { block : BlockInfo; contract_address : Addr }.
Record MessageInfo := mkInfo { sender : Addr; funds : list Coin }.

#[export] Instance Coin_eq_dec : EqDecision Coin.
Proof. solve_decision. Defined.

(** [StdError] of cosmwasm_std, as far as callers can tell its values apart. *)
Inductive StdError : Type :=
  | StdNotFound (item : string)
  | StdMsg (msg : string)
  | StdOverflow.
#[export] Instance StdError_eq_dec : EqDecision StdError.
Proof. solve_decision. Defined.

(** ** Fixed-width unsigned arithmetic with overflow checks *)

Definition in_u (w x : Z) : Prop := 0 ≤ x < 2 ^ w.
#[export] Instance in_u_dec w x : Decision (in_u w x).
Proof. unfold in_u. apply _. Defined.

Definition add_u {E} (w a b : Z) : outcome E Z :=
  if decide (a + b < 2 ^ w) then Ok (a + b) else Panic.
Definition sub_u {E} (a b : Z) : outcome E Z :=
  if decide (b ≤ a) then Ok (a - b) else Panic.
Definition mul_u {E} (w a b : Z) : outcome E Z :=
  if decide (a * b < 2 ^ w) then Ok (a * b) else Panic.
(** [a.checked_sub(b)] *)
Definition checked_sub (a b : Z) : option Z :=
  if decide (b ≤ a) then Some (a - b) else None.
(** [x as uw], [a.wrapping_add(b)], [a.wrapping_sub(b)] *)
Definition wrap_u (w x : Z) : Z := x mod 2 ^ w.

Lemma add_u_Ok {E} w a b c : add_u (E:=E) w a b = Ok c ↔ c = a + b ∧ a + b < 2 ^ w.
Proof. unfold add_u. case_decide; split; naive_solver. Qed.
Lemma sub_u_Ok {E} a b c : sub_u (E:=E) a b = Ok c ↔ c = a - b ∧ b ≤ a.
Proof. unfold sub_u. case_decide; split; naive_solver. Qed.
Lemma mul_u_Ok {E} w a b c : mul_u (E:=E) w a b = Ok c ↔ c = a * b ∧ a * b < 2 ^ w.
Proof. unfold mul_u. case_decide; split; naive_solver. Qed.
Lemma checked_sub_Some a b c : checked_sub a b = Some c ↔ c = a - b ∧ b ≤ a.
Proof. unfold checked_sub. case_decide; split; naive_solver. Qed.

Lemma add_u_small {E} w a b : a + b < 2 ^ w → add_u (E:=E) w a b = Ok (a + b).
Proof. intros ?. by apply add_u_Ok. Qed.
Lemma sub_u_small {E} a b : b ≤ a → sub_u (E:=E) a b = Ok (a - b).
Proof. intros ?. by apply sub_u_Ok. Qed.

(** ** Time: nanoseconds since the epoch in a [u64] *)

Definition NANOS : Z := 1000000000.
(** [Timestamp::seconds] *)
Definition seconds (t : Z) : Z := t / NANOS.
(** [Timestamp::plus_seconds]: both the product and the sum trap on overflow. *)
Definition plus_seconds {E} (t s : Z) : outcome E Z :=
  n ← mul_u 64 s NANOS; add_u 64 t n.

Lemma plus_seconds_Ok {E} t s t' :
  0 ≤ s → plus_seconds (E:=E) t s = Ok t' → t' = t + s * NANOS ∧ t ≤ t'.
Proof.
  intros Hs. unfold plus_seconds. intros H. inv_ok.
  repeat match goal with
  | H : mul_u _ _ _ = Ok _ |- _ => apply mul_u_Ok in H as [-> ?]
  | H : add_u _ _ _ = Ok _ |- _ => apply add_u_Ok in H as [-> ?]
  end. unfold NANOS in *. lia.
Qed.

(** [cw_utils::Expiration], as documented in ownership/cw721.rs: it expires
    when the block height (time) is at or above the bound. *)
Inductive Expiration : Type :=
  | AtHeight (h : Z)
  | AtTime (t : Z)
  | Never.
#[export] Instance Expiration_eq_dec : EqDecision Expiration.
Proof. solve_decision. Defined.
Definition is_expired (e : Expiration) (b : BlockInfo) : bool :=
  match e with
  | AtHeight h => bool_decide (h ≤ height b)
  | AtTime t => bool_decide (t ≤ time b)
  | Never => false
  end.

(** ** Interfaces of the packages underneath *)

(** [Decimal] is a [u128] count of 10^-18; only its raw value is used here. *)
Definition DECIMAL_ONE : Z := 10 ^ 18.

(** [UintW::mul_floor(Decimal)] and [Decimal::from_ratio]; [None] is a trap. *)
Class DecimalOps := {
  uint_mul_floor : Z → Z → Z → option Z;
  decimal_from_ratio : Z → Z → option Z
}.
Class DecimalLaws `{DecimalOps} : Prop := {
  mul_floor_spec w a d :
    0 ≤ a → 0 ≤ d →
    uint_mul_floor w a d =
      if decide (a * d / DECIMAL_ONE < 2 ^ w) then Some (a * d / DECIMAL_ONE) else None;
  from_ratio_spec n d :
    0 ≤ n → 0 < d →
    decimal_from_ratio n d =
      if decide (n * DECIMAL_ONE / d < 2 ^ 128) then Some (n * DECIMAL_ONE / d) else None;
  from_ratio_zero n : decimal_from_ratio n 0 = None
}.

(** [UintW::multiply_ratio]; [None] is a trap, as a zero
    denominator is. *)
Class UintRatio := { uint_multiply_ratio : Z → Z → Z → Z → option Z }.
Class UintRatioLaws `{UintRatio} : Prop := {
  multiply_ratio_spec w a n d : 0 ≤ a → 0 ≤ n → 0 < d →
    uint_multiply_ratio w a n d = if decide (a * n / d < 2 ^ w) then Some (a * n / d) else None;
  multiply_ratio_zero w a n : uint_multiply_ratio w a n 0 = None
}.

(** [deps.api.addr_validate]: a valid human address is returned unchanged. *)
Class Api := { addr_validate : string → option Addr }.
Class ApiLaws `{Api} : Prop := {
  addr_validate_id s a : addr_validate s = Some a → a = s
}.
Definition addr_validate_r `{Api} (s : string) : outcome StdError Addr :=
  ok_or (addr_validate s) (StdMsg "invalid address").

(** Canonical addresses and [instantiate2_address] of cosmwasm_std, and the
    checksum of the blob contract every framework contract is created from. *)
Class Instantiate2 := {
  canonical_addr : Type;
  addr_canonicalize : string → option canonical_addr;
  addr_humanize : canonical_addr → option Addr;
  instantiate2_address : string → canonical_addr → string → option canonical_addr;
  BLOB_CHECKSUM : string
}.

(** The [semver] crate: versions with their components, the strict order on
    them, and comparators of a version requirement. *)
Class Semver := {
  version : Type;
  version_eq_dec :: EqDecision version;
  parse_version : string → option version;
  show_version : version → string;
  ver_major : version → Z;
  ver_minor : version → Z;
  (** no pre-release part *)
  ver_release : version → bool;
  version_ltb : version → version → bool;
  comparator : Type;
  comparator_eq_dec :: EqDecision comparator;
  comparator_matches : comparator → version → bool
}.
Class SemverLaws `{Semver} : Prop := {
  version_lt_irrefl v : version_ltb v v = false;
  version_lt_trans u v w :
    version_ltb u v = true → version_ltb v w = true → version_ltb u w = true;
  version_lt_total u v : u ≠ v → version_ltb u v = true ∨ version_ltb v u = true;
  version_lt_major u v : version_ltb u v = true → ver_major u ≤ ver_major v;
  parse_show v : parse_version (show_version v) = Some v
}.

(** [cw_ownable]: the ownership cell of a contract. *)
Inductive OwnershipError : Type := CwNoOwner | CwNotOwner | CwOther.
#[export] Instance OwnershipError_eq_dec : EqDecision OwnershipError.
Proof. solve_decision. Defined.
Class CwOwnable := {
  ownable : Type;
  cw_action : Type;
  cw_no_ownership : ownable;
  cw_initialize_owner : string → option ownable;
  cw_owner : ownable → option Addr;
  cw_assert_owner : ownable → Addr → outcome OwnershipError unit;
  cw_update_ownership : ownable → BlockInfo → Addr → cw_action → outcome OwnershipError ownable
}.
Class CwOwnableLaws `{CwOwnable} : Prop := {
  cw_assert_owner_spec o a : cw_assert_owner o a = Ok tt ↔ cw_owner o = Some a
}.
(** [cw_ownable::is_owner] *)
Definition cw_is_owner `{CwOwnable} (o : ownable) (a : Addr) : bool :=
  bool_decide (cw_owner o = Some a).

(** ** Responses

    A response carries its action name, the messages it sends in order, and
    the reply requested for each.  Event attributes are not modelled. *)
Inductive SubMsg (Msg : Type) : Type :=
  | send (m : Msg)
  | reply_on_success (m : Msg) (id : Z).
Arguments send {Msg} m.
Arguments reply_on_success {Msg} m id.
(** The message a submessage carries. *)
Definition msg_of {Msg} (m : SubMsg Msg) : Msg := match m with send m | reply_on_success m _ => m end.
Record Response (Msg : Type) := mkResponse { action : string; messages : list (SubMsg Msg) }.
Arguments mkResponse {Msg} action messages.
Arguments action {Msg} r.
Arguments messages {Msg} r.

(** ** Reference instances, used by the examples *)

Definition decimal_ref : DecimalOps := {|
  uint_mul_floor w a d :=
    let r := a * d / DECIMAL_ONE in if decide (r < 2 ^ w) then Some r else None;
  decimal_from_ratio n d :=
    if decide (d = 0) then None else
    let r := n * DECIMAL_ONE / d in if decide (r < 2 ^ 128) then Some r else None
|}.
Lemma decimal_ref_laws : @DecimalLaws decimal_ref.
Proof.
  split.
  - done.
  - intros n d ? ?. simpl. by rewrite decide_False by lia.
  - done.
Qed.

Definition ratio_ref : UintRatio := {|
  uint_multiply_ratio w a n d :=
    if decide (0 < d ∧ a * n / d < 2 ^ w) then Some (a * n / d) else None
|}.
Lemma ratio_ref_laws : @UintRatioLaws ratio_ref.
Proof.
  split; [|done]. intros w a n d _ _ Hd. simpl. repeat case_decide; naive_solver.
Qed.

(** A semver instance to evaluate examples with: versions are their own text,
    compared as text, with one-character components. *)
Definition semver_ref : Semver := {|
  version := string;
  parse_version := Some;
  show_version v := v;
  ver_major v := match v with String a _ => Z.of_nat (Ascii.nat_of_ascii a) | _ => 0 end;
  ver_minor v :=
    match v with String _ (String _ (String b _)) => Z.of_nat (Ascii.nat_of_ascii b) | _ => 0 end;
  ver_release v := negb (bool_decide (Ascii.ascii_of_nat 45 ∈ String.list_ascii_of_string v));
  version_ltb u v := bool_decide (u ≠ v ∧ String.le u v);
  comparator := string;
  comparator_matches c v := bool_decide (c = v)
|}.
Lemma semver_ref_laws : @SemverLaws semver_ref.
Proof.
  split; simpl.
  - intros v. apply bool_decide_eq_false. naive_solver.
  - intros u v w. rewrite !bool_decide_eq_true. intros [Hn H1] [Hn' H2]. split.
    + intros <-. apply Hn. by apply (anti_symm String.le).
    + by trans v.
  - intros u v Hn. rewrite !bool_decide_eq_true. destruct (total String.le u v); naive_solver.
  - intros u v. rewrite bool_decide_eq_true. intros [_ Hle].
    destruct u as [|a u], v as [|b v]; try lia; [by destruct Hle|].
    unfold String.le, String.leb in Hle. simpl in Hle.
    unfold Ascii.nat_of_ascii. rewrite !N_nat_Z. unfold Ascii.compare in Hle.
    destruct (N.compare_spec (Ascii.N_of_ascii a) (Ascii.N_of_ascii b)); [lia..|done].
  - done.
Qed.

(** Address functions to evaluate examples with. *)
Definition api_ref : Api := {| addr_validate s := Some s |}.
Lemma api_ref_laws : @ApiLaws api_ref.
Proof. split. simpl. congruence. Qed.
Definition instantiate2_ref : Instantiate2 := {|
  canonical_addr := string;
  addr_canonicalize := Some;
  addr_humanize := Some;
  instantiate2_address checksum creator salt := Some (creator +:+ "/" +:+ salt);
  BLOB_CHECKSUM := "blob"
|}.
