(* ===== verification/Strings.v ===== *)
(** * Strings as the Rust code uses them

    A Rust [String] is its UTF-8 bytes, here a [string] of 8-bit characters:
    [len()] counts bytes, and splitting on or testing for ASCII characters is
    the same on bytes and on characters.  [to_lowercase] is modelled on ASCII,
    which is exact for ASCII strings. *)

From S2P Require Import Prelude.
From Stdlib Require Import Ascii String.

Definition slen (s : string) : Z := Z.of_nat (String.length s).

Definition is_ascii_lowercase (c : ascii) : bool :=
  let n := nat_of_ascii c in (Nat.leb 97 n && Nat.leb n 122)%bool.
Definition is_ascii_uppercase (c : ascii) : bool :=
  let n := nat_of_ascii c in (Nat.leb 65 n && Nat.leb n 90)%bool.
Definition is_ascii_digit (c : ascii) : bool :=
  let n := nat_of_ascii c in (Nat.leb 48 n && Nat.leb n 57)%bool.
Definition is_ascii_alphanumeric (c : ascii) : bool :=
  (is_ascii_lowercase c || is_ascii_uppercase c || is_ascii_digit c)%bool.
Definition lower (c : ascii) : ascii :=
  if is_ascii_uppercase c then ascii_of_nat (nat_of_ascii c + 32) else c.

(** [s.chars().all(p)] *)
Fixpoint sall (p : ascii → bool) (s : string) : bool :=
  match s with EmptyString => true | String c s => (p c && sall p s)%bool end.
Fixpoint to_lowercase (s : string) : string :=
  match s with EmptyString => EmptyString | String c s => String (lower c) (to_lowercase s) end.
(** [s.split(c)] *)
Fixpoint split_on (c : ascii) (s : string) : list string :=
  match s with
  | EmptyString => [EmptyString]
  | String a s' =>
      if decide (a = c) then EmptyString :: split_on c s'
      else match split_on c s' with
           | h :: t => String a h :: t
           | [] => [String a EmptyString]
           end
  end.
(** [s.split_once(c)] *)
Fixpoint split_once (c : ascii) (s : string) : option (string * string) :=
  match s with
  | EmptyString => None
  | String a s' =>
      if decide (a = c) then Some (EmptyString, s')
      else '(h, t) ← split_once c s'; Some (String a h, t)
  end.
(** [s.rsplitn(2, c).last()]: what precedes the last [c], or all of [s]. *)
Fixpoint before_last (c : ascii) (s : string) : option string :=
  match s with
  | EmptyString => None
  | String a s' =>
      match before_last c s' with
      | Some h => Some (String a h)
      | None => if decide (a = c) then Some EmptyString else None
      end
  end.
(** [s.starts_with(p)] *)
Definition starts_with (p s : string) : bool := String.prefix p s.
(** [v.join(sep)] *)
Definition join (c : ascii) (l : list string) : string := String.concat (String c EmptyString) l.

Definition no_char (c : ascii) (s : string) : Prop := sall (λ a, negb (bool_decide (a = c))) s = true.

Lemma sall_app p s t : sall p (s +:+ t) = (sall p s && sall p t)%bool.
Proof. induction s as [|a s IH]; simpl; [done|]. by rewrite IH, andb_assoc. Qed.

Lemma sall_impl (p q : ascii → bool) s :
  (∀ c, p c = true → q c = true) → sall p s = true → sall q s = true.
Proof.
  intros Hpq. induction s as [|a s IH]; simpl; [done|].
  rewrite !andb_true_iff. naive_solver.
Qed.

Lemma string_app_assoc (s t u : string) : s +:+ t +:+ u = (s +:+ t) +:+ u.
Proof. induction s as [|a s IH]; [done|]. exact (f_equal (String a) IH). Qed.

Lemma split_on_nil c s : split_on c s ≠ [].
Proof. destruct s as [|a s]; simpl; [done|]. case_decide; [done|]. by destruct (split_on c s). Qed.

Lemma split_on_no_char c s : no_char c s → split_on c s = [s].
Proof.
  unfold no_char. induction s as [|a s IH]; simpl; [done|].
  rewrite andb_true_iff, negb_true_iff, bool_decide_eq_false. intros [? Hs].
  rewrite decide_False by done. by rewrite IH.
Qed.

Lemma split_on_app c s t :
  no_char c s → split_on c (s +:+ String c t) = s :: split_on c t.
Proof.
  unfold no_char. induction s as [|a s IH]; simpl.
  - intros _. by rewrite decide_True.
  - rewrite andb_true_iff, negb_true_iff, bool_decide_eq_false. intros [? Hs].
    rewrite decide_False by done. by rewrite IH.
Qed.

(** Joining pieces without the separator, then splitting, gives them back. *)
Lemma split_join c l : l ≠ [] → Forall (no_char c) l → split_on c (join c l) = l.
Proof.
  intros Hne Hl. induction Hl as [|s l Hs Hl IH]; [done|].
  destruct l as [|t l].
  - by apply split_on_no_char.
  - change (join c (s :: t :: l)) with (s +:+ String c (join c (t :: l))).
    rewrite split_on_app by done. by rewrite IH.
Qed.

Lemma split_once_app c s t : no_char c s → split_once c (s +:+ String c t) = Some (s, t).
Proof.
  unfold no_char. induction s as [|a s IH]; simpl.
  - intros _. by rewrite decide_True.
  - rewrite andb_true_iff, negb_true_iff, bool_decide_eq_false. intros [? Hs].
    rewrite decide_False by done. by rewrite IH.
Qed.

Lemma sall_no_char (p : ascii → bool) c s : p c = false → sall p s = true → no_char c s.
Proof.
  intros Hc. apply sall_impl. intros a Ha. rewrite negb_true_iff, bool_decide_eq_false.
  intros ->. congruence.
Qed.

Lemma lower_id c : is_ascii_uppercase c = false → lower c = c.
Proof. unfold lower. by intros ->. Qed.

(** [s = s.to_lowercase()] says there is no uppercase letter. *)
Lemma lower_fix c : lower c = c ↔ is_ascii_uppercase c = false.
Proof.
  split; [|apply lower_id]. unfold lower. destruct (is_ascii_uppercase c) eqn:Hu; [|done].
  intros Hc. exfalso. unfold is_ascii_uppercase in Hu.
  apply andb_true_iff in Hu as [H1%Nat.leb_le H2%Nat.leb_le].
  apply (f_equal nat_of_ascii) in Hc. rewrite nat_ascii_embedding in Hc; lia.
Qed.
Lemma to_lowercase_fix s :
  to_lowercase s = s ↔ sall (λ c, negb (is_ascii_uppercase c)) s = true.
Proof.
  induction s as [|c s IH]; simpl; [done|].
  rewrite andb_true_iff, negb_true_iff, <-lower_fix, <-IH. split; [|intros [-> ->]; done].
  by intros [= -> ->].
Qed.

(** ** Iterating over a storage map *)

(** The order of storage keys: an element that is not the last is preceded by
    its length in two bytes, the last one is compared as text. *)
Definition prefixed_lt (a b : string) : Prop :=
  slen a < slen b ∨ slen a = slen b ∧ a ≠ b ∧ String.le a b.
Definition text_lt (a b : string) : Prop := a ≠ b ∧ String.le a b.
#[export] Instance prefixed_lt_dec a b : Decision (prefixed_lt a b).
Proof. unfold prefixed_lt. apply _. Defined.
#[export] Instance text_lt_dec a b : Decision (text_lt a b).
Proof. unfold text_lt. apply _. Defined.

(** [range(start, None, Ascending)]: sorted by key, after an exclusive bound. *)
Definition range {K V} (lt : K → K → Prop) `{!∀ x y, Decision (lt x y)} (start : option K)
    (l : list (K * V)) : list (K * V) :=
  let l := match start with Some b => filter (λ x, lt b x.1) l | None => l end in
  merge_sort (λ x y, ¬ lt y.1 x.1) l.
Lemma elem_of_range {K V} (lt : K → K → Prop) `{!∀ x y, Decision (lt x y)} start (l : list (K * V)) x :
  x ∈ range lt start l → x ∈ l.
Proof.
  unfold range. intros Hx. rewrite merge_sort_Permutation in Hx. destruct start; [|done]. by apply list_elem_of_filter in Hx as [_ Hx].
Qed.
