(* ===== verification/Voting.v ===== *)
(** * Simple voting (packages/abstract-std/src/objects/voting.rs)

    The voting object embedded in application contracts: proposals with a
    whitelist of voters, votes that may be changed, an optional veto period
    after the end of the vote, and the count.  The storage cells of
    [SimpleVoting] are the fields of [SimpleVoting] below; every method is a
    computation over it. *)

From S2P Require Import Prelude Cosmos Strings.

(** ** Data *)

Inductive ProposalOutcome : Type := Passed | Failed | Canceled | Vetoed.

Inductive ProposalStatus : Type :=
  | Active
  | VetoPeriod (expiration : Z)
  | WaitingForCount
  | Finished (outcome : ProposalOutcome).

Inductive Threshold : Type :=
  | Majority
  | Percentage (percent : Z).

Record VoteConfig := mkVoteConfig {
  threshold : Threshold;
  veto_duration_seconds : option Z
}.

Record ProposalInfo := mkProposal {
  total_voters : Z;
  votes_for : Z;
  votes_against : Z;
  status : ProposalStatus;
  config : VoteConfig;
  end_timestamp : Z
}.

Record Vote := mkVote { vote : bool; memo : option string }.

Inductive VoteError : Type :=
  | VoteStd (e : StdError)
  | DuplicateAddrs
  | NoProposalById
  | ProposalNotActive (s : ProposalStatus)
  | ThresholdError (msg : string)
  | NotVeto (s : ProposalStatus)
  | VotingNotOver
  | Unauthorized.

#[export] Instance ProposalOutcome_eq_dec : EqDecision ProposalOutcome.
Proof. solve_decision. Defined.
#[export] Instance ProposalStatus_eq_dec : EqDecision ProposalStatus.
Proof. solve_decision. Defined.
#[export] Instance Vote_eq_dec : EqDecision Vote.
Proof. solve_decision. Defined.

(** The four storage cells of [SimpleVoting]. *)
Record SimpleVoting := mkVoting {
  next_proposal_id : option Z;
  proposals : gmap (Z * string) (option Vote);
  proposals_info : gmap Z ProposalInfo;
  vote_config : option VoteConfig
}.

Definition empty_voting : SimpleVoting := mkVoting None ∅ ∅ None.

Definition set_next_proposal_id (n : Z) (s : SimpleVoting) : SimpleVoting :=
  mkVoting (Some n) (proposals s) (proposals_info s) (vote_config s).
Definition set_vote_config (c : VoteConfig) (s : SimpleVoting) : SimpleVoting :=
  mkVoting (next_proposal_id s) (proposals s) (proposals_info s) (Some c).
Definition save_vote (k : Z * string) (v : option Vote) (s : SimpleVoting) : SimpleVoting :=
  mkVoting (next_proposal_id s) (<[k:=v]> (proposals s)) (proposals_info s) (vote_config s).
Definition save_proposal (id : Z) (p : ProposalInfo) (s : SimpleVoting) : SimpleVoting :=
  mkVoting (next_proposal_id s) (proposals s) (<[id:=p]> (proposals_info s)) (vote_config s).

Abbreviation VoteM := (M SimpleVoting VoteError).

(** ** Proposal and threshold methods *)

(** [ProposalInfo::new] *)
Definition proposal_new (initial_voters : Z) (c : VoteConfig) (end_ : Z) : ProposalInfo :=
  mkProposal initial_voters 0 0 Active c end_.

(** [ProposalStatus::assert_is_active] *)
Definition assert_is_active (s : ProposalStatus) : outcome VoteError unit :=
  match s with Active => Ok tt | _ => Err (ProposalNotActive s) end.

(** [ProposalInfo::assert_active_proposal] *)
Definition assert_active_proposal (p : ProposalInfo) : outcome VoteError unit :=
  assert_is_active (status p).

Definition set_votes (p : ProposalInfo) (f a : Z) : ProposalInfo :=
  mkProposal (total_voters p) f a (status p) (config p) (end_timestamp p).

(** [ProposalInfo::vote_update]; the [u32] counters trap on overflow. *)
Definition vote_update (p : ProposalInfo) (previous_vote : option Vote) (new_vote : Vote)
    : outcome VoteError ProposalInfo :=
  match vote <$> previous_vote, vote new_vote with
  | Some true, true | Some false, false => Ok p
  | Some true, false =>
      a ← add_u 32 (votes_against p) 1; f ← sub_u (votes_for p) 1; Ok (set_votes p f a)
  | Some false, true =>
      f ← add_u 32 (votes_for p) 1; a ← sub_u (votes_against p) 1; Ok (set_votes p f a)
  | None, true => f ← add_u 32 (votes_for p) 1; Ok (set_votes p f (votes_against p))
  | None, false => a ← add_u 32 (votes_against p) 1; Ok (set_votes p (votes_for p) a)
  end.

Definition set_status (p : ProposalInfo) (st : ProposalStatus) : ProposalInfo :=
  mkProposal (total_voters p) (votes_for p) (votes_against p) st (config p) (end_timestamp p).

(** [ProposalInfo::finish_vote] *)
Definition finish_vote (p : ProposalInfo) (o : ProposalOutcome) (b : BlockInfo) : ProposalInfo :=
  mkProposal (total_voters p) (votes_for p) (votes_against p) (Finished o) (config p) (time b).

(** [Threshold::validate_percentage] *)
Definition validate_percentage (t : Threshold) : outcome VoteError unit :=
  match t with
  | Percentage percent =>
      if decide (percent = 0) then Err (ThresholdError "can't be 0%")
      else if decide (DECIMAL_ONE < percent)
      then Err (ThresholdError "not possible to reach >100% votes")
      else Ok tt
  | Majority => Ok tt
  end.

(** ** Storage methods *)

Section methods.
Context `{DecimalOps}.

(** [SimpleVoting::instantiate] *)
Definition instantiate (c : VoteConfig) : VoteM unit :=
  lift (validate_percentage (threshold c)) ≫= λ _,
  modify (set_next_proposal_id 0) ≫= λ _,
  modify (set_vote_config c).

(** [SimpleVoting::update_vote_config] *)
Definition update_vote_config (c : VoteConfig) : VoteM unit := modify (set_vote_config c).

(** [SimpleVoting::load_config] *)
Definition load_config : VoteM VoteConfig :=
  c ← gets vote_config; lift (ok_or c (VoteStd (StdNotFound "vote_config"))).

(** [SimpleVoting::new_proposal]; the number of voters is cast to [u32]. *)
Definition new_proposal (end_ : Z) (initial_voters : list Addr) : VoteM Z :=
  ensure (bool_decide (NoDup initial_voters)) DuplicateAddrs ≫= λ _,
  id ← gets next_proposal_id;
  id ← lift (ok_or id (VoteStd (StdNotFound "next_proposal_id")));
  proposal_id ← lift (add_u 64 id 1);
  modify (set_next_proposal_id proposal_id) ≫= λ _,
  config ← load_config;
  modify (save_proposal proposal_id
    (proposal_new (wrap_u 32 (Z.of_nat (length initial_voters))) config end_)) ≫= λ _,
  mfor initial_voters (λ voter, modify (save_vote (proposal_id, voter) None)) ≫= λ _,
  mret proposal_id.

(** [SimpleVoting::load_proposal]: the stored status is brought up to date
    with the block time. *)
Definition refresh (b : BlockInfo) (p : ProposalInfo) : outcome VoteError ProposalInfo :=
  match status p with
  | Active =>
      veto_expiration ← plus_seconds (end_timestamp p)
        (default 0 (veto_duration_seconds (config p)));
      if decide (end_timestamp p ≤ time b) then
        if decide (time b < veto_expiration)
        then Ok (set_status p (VetoPeriod veto_expiration))
        else Ok (set_status p WaitingForCount)
      else Ok p
  | _ => Ok p
  end.
Definition load_proposal (b : BlockInfo) (id : Z) : VoteM ProposalInfo :=
  m ← gets proposals_info;
  proposal ← lift (ok_or (m !! id) NoProposalById);
  lift (refresh b proposal).

(** [SimpleVoting::cast_vote] *)
Definition cast_vote (b : BlockInfo) (id : Z) (voter : Addr) (v : Vote) : VoteM ProposalInfo :=
  proposal_info ← load_proposal b id;
  lift (assert_active_proposal proposal_info) ≫= λ _,
  votes ← gets proposals;
  previous_vote ← lift (ok_or (votes !! (id, voter)) Unauthorized);
  proposal_info ← lift (vote_update proposal_info previous_vote v);
  modify (save_vote (id, voter) (Some v)) ≫= λ _,
  modify (save_proposal id proposal_info) ≫= λ _,
  mret proposal_info.

(** [SimpleVoting::cancel_proposal] *)
Definition cancel_proposal (b : BlockInfo) (id : Z) : VoteM ProposalInfo :=
  proposal_info ← load_proposal b id;
  lift (assert_active_proposal proposal_info) ≫= λ _,
  let proposal_info := finish_vote proposal_info Canceled b in
  modify (save_proposal id proposal_info) ≫= λ _,
  mret proposal_info.

(** The threshold computed by [count_votes]. *)
Definition vote_threshold (p : ProposalInfo) : outcome VoteError Z :=
  match threshold (config p) with
  | Majority => add_u 32 (total_voters p / 2) 1
  | Percentage decimal => unwrap (uint_mul_floor 128 (total_voters p) decimal)
  end.

(** [SimpleVoting::count_votes] *)
Definition count_votes (b : BlockInfo) (id : Z) : VoteM (ProposalInfo * ProposalOutcome) :=
  proposal_info ← load_proposal b id;
  ensure (bool_decide (status proposal_info = WaitingForCount)) VotingNotOver ≫= λ _,
  threshold ← lift (vote_threshold proposal_info);
  let outcome := if decide (threshold ≤ votes_for proposal_info) then Passed else Failed in
  let proposal_info := finish_vote proposal_info outcome b in
  modify (save_proposal id proposal_info) ≫= λ _,
  mret (proposal_info, outcome).

(** [SimpleVoting::veto_proposal] *)
Definition veto_proposal (b : BlockInfo) (id : Z) : VoteM ProposalInfo :=
  proposal_info ← load_proposal b id;
  match status proposal_info with
  | VetoPeriod _ =>
      let proposal_info := set_status proposal_info (Finished Vetoed) in
      modify (save_proposal id proposal_info) ≫= λ _, mret proposal_info
  | st => fail (NotVeto st)
  end.

(** [SimpleVoting::load_vote] *)
Definition load_vote (id : Z) (voter : Addr) : VoteM (option Vote) :=
  votes ← gets proposals;
  lift (ok_or (votes !! (id, voter)) (VoteStd (StdNotFound "vote"))).

(** [SimpleVoting::query_by_id], [query_list]; [limit as usize] on a 32-bit
    target *)
Definition DEFAULT_LIMIT : Z := 25.
Definition vote_limit (limit : option Z) : nat := Z.to_nat (wrap_u 32 (default DEFAULT_LIMIT limit)).
Definition vote_key_lt (a b : Z * Addr) : Prop := a.1 < b.1 ∨ (a.1 = b.1 ∧ text_lt a.2 b.2).
#[export] Instance vote_key_lt_dec a b : Decision (vote_key_lt a b).
Proof. unfold vote_key_lt. apply _. Defined.
Definition query_by_id (s : SimpleVoting) (id : Z) (start_after : option Addr) (limit : option Z) :
    list (Addr * option Vote) :=
  take (vote_limit limit) (range text_lt start_after
    ((λ x, (x.1.2, x.2)) <$> filter (λ x, x.1.1 = id) (map_to_list (proposals s)))).
Definition query_list (s : SimpleVoting) (start_after : option (Z * Addr)) (limit : option Z) :
    list ((Z * Addr) * option Vote) :=
  take (vote_limit limit) (range vote_key_lt start_after (map_to_list (proposals s))).

(** One call of the object by the contract that embeds it. *)
Inductive VoteCall : Type :=
  | CallUpdateConfig (c : VoteConfig)
  | CallNewProposal (end_ : Z) (voters : list Addr)
  | CallCastVote (b : BlockInfo) (id : Z) (voter : Addr) (v : Vote)
  | CallCancel (b : BlockInfo) (id : Z)
  | CallCount (b : BlockInfo) (id : Z)
  | CallVeto (b : BlockInfo) (id : Z).
Definition run_call (c : VoteCall) : VoteM unit :=
  match c with
  | CallUpdateConfig c => update_vote_config c
  | CallNewProposal e vs => _ ← new_proposal e vs; mret tt
  | CallCastVote b id a v => _ ← cast_vote b id a v; mret tt
  | CallCancel b id => _ ← cancel_proposal b id; mret tt
  | CallCount b id => _ ← count_votes b id; mret tt
  | CallVeto b id => _ ← veto_proposal b id; mret tt
  end.
(** A sequence of transactions: a call that fails leaves no trace. *)
Definition run_calls (cs : list VoteCall) (s : SimpleVoting) : SimpleVoting :=
  foldl (λ s c, commit s (run_call c s)) s cs.
End methods.

(** ** The tally invariant *)

(** Entries of the vote map: the voters of a proposal, and those whose
    current vote is [c]. *)
Definition voter_of (id : Z) (kv : Z * string * option Vote) : Prop := kv.1.1 = id.
Definition voted (id : Z) (c : bool) (kv : Z * string * option Vote) : Prop :=
  kv.1.1 = id ∧ vote <$> kv.2 = Some c.
#[export] Instance voter_of_dec id kv : Decision (voter_of id kv).
Proof. unfold voter_of. apply _. Defined.
#[export] Instance voted_dec id c kv : Decision (voted id c kv).
Proof. unfold voted. apply _. Defined.

Definition voters_count (id : Z) (s : SimpleVoting) : Z :=
  Z.of_nat (count_map (voter_of id) (proposals s)).
Definition tally (id : Z) (c : bool) (s : SimpleVoting) : Z :=
  Z.of_nat (count_map (voted id c) (proposals s)).

(** What every stored proposal satisfies: the counters are the number of
    voters whose current vote is for (against), the number of voters is the
    size of the whitelist, and the stored status is never an intermediate
    one. *)
Record proposal_ok (s : SimpleVoting) (id : Z) (p : ProposalInfo) : Prop := {
  ok_for : votes_for p = tally id true s;
  ok_against : votes_against p = tally id false s;
  ok_total : total_voters p = wrap_u 32 (voters_count id s);
  ok_status : status p = Active ∨ ∃ o, status p = Finished o
}.
Record voting_inv (s : SimpleVoting) : Prop := {
  inv_next : ∃ n, next_proposal_id s = Some n ∧ 0 ≤ n ∧
    ∀ id, is_Some (proposals_info s !! id) → id ≤ n;
  inv_votes id a : is_Some (proposals s !! (id, a)) → is_Some (proposals_info s !! id);
  inv_proposals id p : proposals_info s !! id = Some p → proposal_ok s id p
}.

Lemma tally_sum_le id s : tally id true s + tally id false s ≤ voters_count id s.
Proof.
  unfold tally, voters_count.
  assert (count_map (voted id true) (proposals s) + count_map (voted id false) (proposals s)
    ≤ count_map (voter_of id) (proposals s))%nat; [|lia].
  apply count_map_disjoint; unfold voted, voter_of; [|naive_solver].
  intros x [? Hx]. split; [done|]. rewrite Hx. naive_solver.
Qed.

(** A vote changes only the tallies of its own proposal. *)
Lemma tally_save_vote_ne id id' a c v s :
  id ≠ id' → tally id' c (save_vote (id, a) v s) = tally id' c s.
Proof.
  intros Hne. unfold tally. f_equal. simpl.
  destruct (proposals s !! (id, a)) as [w|] eqn:Hl.
  - pose proof (count_map_insert_Some (voted id' c) (proposals s) (id, a) v w Hl) as Hc.
    rewrite !decide_False in Hc by (unfold voted; naive_solver). lia.
  - rewrite count_map_insert_None by done.
    rewrite decide_False by (unfold voted; naive_solver). done.
Qed.
Lemma voters_save_vote_ne id id' a v s :
  id ≠ id' → voters_count id' (save_vote (id, a) v s) = voters_count id' s.
Proof.
  intros Hne. unfold voters_count. f_equal. simpl.
  destruct (proposals s !! (id, a)) as [w|] eqn:Hl.
  - pose proof (count_map_insert_Some (voter_of id') (proposals s) (id, a) v w Hl) as Hc.
    rewrite !decide_False in Hc by (unfold voter_of; naive_solver). lia.
  - rewrite count_map_insert_None by done.
    rewrite decide_False by (unfold voter_of; naive_solver). done.
Qed.

(** The effect of replacing an existing vote [w] by [v]. *)
Lemma tally_replace id a c v w s :
  proposals s !! (id, a) = Some w →
  tally id c (save_vote (id, a) v s) =
    tally id c s - (if decide (vote <$> w = Some c) then 1 else 0)
                 + (if decide (vote <$> v = Some c) then 1 else 0).
Proof.
  intros Hl. unfold tally. simpl.
  pose proof (count_map_insert_Some (voted id c) (proposals s) (id, a) v w Hl) as Hc.
  repeat case_decide; unfold voted in *; simpl in *; try naive_solver; lia.
Qed.
Lemma voters_replace id a v w s :
  proposals s !! (id, a) = Some w →
  voters_count id (save_vote (id, a) v s) = voters_count id s.
Proof.
  intros Hl. unfold voters_count. simpl.
  pose proof (count_map_insert_Some (voter_of id) (proposals s) (id, a) v w Hl) as Hc.
  rewrite !decide_True in Hc by done. lia.
Qed.
Lemma tally_new_voter id a c s :
  proposals s !! (id, a) = None → tally id c (save_vote (id, a) None s) = tally id c s.
Proof.
  intros Hl. unfold tally. simpl. rewrite count_map_insert_None by done.
  by rewrite decide_False by (unfold voted; naive_solver).
Qed.
Lemma voters_new_voter id a v s :
  proposals s !! (id, a) = None →
  voters_count id (save_vote (id, a) v s) = voters_count id s + 1.
Proof.
  intros Hl. unfold voters_count. simpl. rewrite count_map_insert_None by done.
  rewrite decide_True by done. lia.
Qed.

(** The counters after a vote are those of the vote map after it. *)
Lemma vote_update_tally p s id a prev v p' :
  proposals s !! (id, a) = Some prev →
  votes_for p = tally id true s → votes_against p = tally id false s →
  vote_update p prev v = Ok p' →
  p' = set_votes p (tally id true (save_vote (id, a) (Some v) s))
                   (tally id false (save_vote (id, a) (Some v) s)).
Proof.
  intros Hl Hf Ha. rewrite !(tally_replace id a _ _ prev s Hl).
  unfold vote_update. destruct p; simpl in *; subst.
  destruct prev as [[[] ?]|], v as [[] ?]; simpl; intros H; inv_ok;
    repeat match goal with
    | H : add_u _ _ _ = Ok _ |- _ => apply add_u_Ok in H as [-> ?]
    | H : sub_u _ _ = Ok _ |- _ => apply sub_u_Ok in H as [-> ?]
    end; unfold set_votes; simpl; f_equal; lia.
Qed.

(** A voter who has not voted yet is in neither tally. *)
Lemma tally_unvoted id a s :
  proposals s !! (id, a) = Some None →
  tally id true s + tally id false s + 1 ≤ voters_count id s.
Proof.
  intros Hl. unfold tally, voters_count.
  rewrite !(count_map_delete _ (proposals s) (id, a) None) by done.
  rewrite !decide_False by (unfold voted; simpl; naive_solver). rewrite decide_True by done.
  enough (count_map (voted id true) (delete (id, a) (proposals s)) +
    count_map (voted id false) (delete (id, a) (proposals s)) ≤
    count_map (voter_of id) (delete (id, a) (proposals s)))%nat by lia.
  apply count_map_disjoint; unfold voted, voter_of; [|naive_solver].
  intros x [? Hx]. split; [done|]. rewrite Hx. naive_solver.
Qed.
Lemma tally_voted id a s w :
  proposals s !! (id, a) = Some (Some w) → 1 ≤ tally id (vote w) s.
Proof.
  intros Hl. unfold tally. rewrite (count_map_delete _ _ (id, a) (Some w)) by done.
  rewrite decide_True by done. lia.
Qed.
Lemma tally_nonneg id c s : 0 ≤ tally id c s.
Proof. unfold tally. lia. Qed.

(** Within an electorate below 2^32 the counters never trap. *)
Lemma vote_update_total p s id a prev v :
  proposals s !! (id, a) = Some prev → voters_count id s < 2 ^ 32 →
  votes_for p = tally id true s → votes_against p = tally id false s →
  ∃ q, vote_update p prev v = Ok q.
Proof.
  intros Hl Hv Hf Ha. pose proof (tally_sum_le id s) as Hsum.
  pose proof (tally_nonneg id true s). pose proof (tally_nonneg id false s).
  unfold vote_update. destruct prev as [w|].
  - pose proof (tally_voted id a s w Hl). destruct w as [[] m], (vote v); simpl in *;
      try by eexists.
    + rewrite add_u_small by lia. simpl. rewrite sub_u_small by lia. by eexists.
    + rewrite add_u_small by lia. simpl. rewrite sub_u_small by lia. by eexists.
  - pose proof (tally_unvoted id a s Hl).
    destruct (vote v); simpl; rewrite add_u_small by lia; by eexists.
Qed.

(** Registering the whitelist of proposal [id]. *)
Lemma register_voters id vs s u s' :
  mfor (S:=SimpleVoting) (E:=VoteError) vs (λ a, modify (save_vote (id, a) None)) s = Ok (u, s') →
  NoDup vs → (∀ a, a ∈ vs → proposals s !! (id, a) = None) →
  next_proposal_id s' = next_proposal_id s ∧ proposals_info s' = proposals_info s ∧
  vote_config s' = vote_config s ∧
  (∀ id' c, tally id' c s' = tally id' c s) ∧
  (∀ id', id' ≠ id → voters_count id' s' = voters_count id' s) ∧
  voters_count id s' = voters_count id s + Z.of_nat (length vs) ∧
  (∀ id' a, is_Some (proposals s' !! (id', a)) → is_Some (proposals s !! (id', a)) ∨ id' = id).
Proof.
  revert s. induction vs as [|a vs IH]; intros s H Hnd Hnone.
  - simpl in H. inv_ok. repeat split; simpl; auto; lia.
  - apply mfor_Ok_cons in H as (s1 & H1 & H). inv_ok.
    inversion Hnd as [|?? Ha Hnd']; subst.
    assert (proposals s !! (id, a) = None) as Hl by (apply Hnone; left).
    destruct (IH (save_vote (id, a) None s)) as (Hn & Hi & Hc & Ht & Hv & Hvi & Hd); auto.
    { intros b Hb. simpl. rewrite lookup_insert_ne by naive_solver. apply Hnone. by right. }
    split_and!; auto.
    + intros id' c. rewrite Ht. destruct (decide (id = id')) as [<-|].
      * by apply tally_new_voter.
      * by apply tally_save_vote_ne.
    + intros id' Hne. rewrite Hv by done. by apply voters_save_vote_ne.
    + rewrite Hvi, voters_new_voter by done. simpl length. lia.
    + intros id' b Hb. destruct (Hd _ _ Hb) as [Hb'|]; [|by right].
      simpl in Hb'. destruct (decide ((id, a) = (id', b))) as [Heq|Hne].
      * right. naive_solver.
      * rewrite lookup_insert_ne in Hb' by done. by left.
Qed.

Section invariant.
Context `{DecimalOps}.

(** What [refresh] can do to a stored proposal. *)
Lemma refresh_Ok b p p' :
  refresh b p = Ok p' →
  p' = p ∨ (status p = Active ∧ ∃ st, st ≠ Active ∧ p' = set_status p st ∧
    ((∃ e, st = VetoPeriod e) ∨ st = WaitingForCount)).
Proof.
  unfold refresh. intros Hr. destruct (status p) eqn:Hst; inv_ok; auto.
  repeat case_decide; inv_ok; auto; right; (split; [done|]);
    eexists; split_and!; try done; eauto.
Qed.
Lemma refresh_active b p p' :
  refresh b p = Ok p' → status p' = Active → p' = p.
Proof.
  intros [->|(_ & st & Hne & -> & _)]%refresh_Ok; [done|]. simpl. naive_solver.
Qed.

Lemma load_proposal_Ok b id s p s' :
  load_proposal b id s = Ok (p, s') ↔
  s' = s ∧ ∃ p0, proposals_info s !! id = Some p0 ∧ refresh b p0 = Ok p.
Proof.
  unfold load_proposal. rewrite bind_Ok. split.
  - intros (m & s1 & H1 & H2). inv_ok. eauto.
  - intros [-> (p0 & Hp & Hr)]. exists (proposals_info s), s. split; [done|].
    rewrite Hp. simpl. unfold mbind, M_bind, lift. simpl. by rewrite Hr.
Qed.

Ltac inv_load := repeat match goal with
  | Hl : load_proposal _ _ _ = Ok _ |- _ =>
      apply load_proposal_Ok in Hl as (-> & ? & ? & ?)
  | Ha : assert_active_proposal ?p = Ok _ |- _ =>
      unfold assert_active_proposal, assert_is_active in Ha;
      destruct (status p) eqn:?; try discriminate Ha; clear Ha
  end.

(** Replacing the record of an existing proposal by one with the same
    counters and a stored status keeps the invariant. *)
Lemma save_proposal_inv s id p p' :
  voting_inv s → proposals_info s !! id = Some p → proposal_ok s id p' →
  voting_inv (save_proposal id p' s).
Proof.
  intros [(n & Hn & Hpos & Hle) Hv Hp] Hl Hok. split; simpl.
  - exists n. split_and!; auto. intros id' Hs. apply Hle.
    destruct (decide (id = id')) as [<-|]; [by eexists|]. by rewrite lookup_insert_ne in Hs.
  - intros id' a Ha. destruct (decide (id = id')) as [<-|].
    + rewrite lookup_insert_eq. by eexists.
    + rewrite lookup_insert_ne by done. eauto.
  - intros id' q Hq. destruct (decide (id = id')) as [<-|].
    + rewrite lookup_insert_eq in Hq. injection Hq as <-. by destruct Hok; split.
    + rewrite lookup_insert_ne in Hq by done. by destruct (Hp _ _ Hq); split.
Qed.

(** Changing a vote together with the counters keeps the invariant. *)
Lemma change_vote_inv s id p a prev v :
  voting_inv s → proposals_info s !! id = Some p → proposals s !! (id, a) = Some prev →
  let s1 := save_vote (id, a) (Some v) s in
  voting_inv (save_proposal id (set_votes p (tally id true s1) (tally id false s1)) s1).
Proof.
  intros [(n & Hn & Hpos & Hle) Hv Hp] Hl Hvote s1. split; simpl.
  - exists n. split_and!; auto. intros id' Hs. apply Hle.
    destruct (decide (id = id')) as [<-|]; [by eexists|]. by rewrite lookup_insert_ne in Hs.
  - intros id' a' Ha. destruct (decide (id = id')) as [<-|].
    + rewrite lookup_insert_eq. by eexists.
    + rewrite lookup_insert_ne by done. rewrite lookup_insert_ne in Ha by naive_solver. eauto.
  - intros id' q Hq. destruct (decide (id = id')) as [<-|Hne].
    + rewrite lookup_insert_eq in Hq. injection Hq as <-.
      destruct (Hp id p Hl) as [Hf Ha Ht Hs]. split; simpl; try done.
      rewrite Ht. f_equal. symmetry. exact (voters_replace id a (Some v) prev s Hvote).
    + rewrite lookup_insert_ne in Hq by done. destruct (Hp id' q Hq) as [Hf Ha Ht Hs].
      split; [rewrite Hf|rewrite Ha|rewrite Ht|done]; symmetry.
      * by apply tally_save_vote_ne.
      * by apply tally_save_vote_ne.
      * f_equal. by apply voters_save_vote_ne.
Qed.

Lemma cast_vote_inv b id a v : Preserves voting_inv (cast_vote b id a v).
Proof.
  intros s r s' Hinv Hc. unfold cast_vote in Hc. inv_ok. inv_load.
  match goal with Hr : refresh _ ?p0 = Ok ?p |- _ =>
    pose proof (refresh_active _ _ _ Hr ltac:(done)) as -> end.
  match goal with Hp : proposals_info s !! id = Some ?p, Hu : vote_update ?p ?prev v = Ok ?q |- _ =>
    destruct (inv_proposals s Hinv id p Hp) as [Hf Ha _ _];
    pose proof (vote_update_tally p s id a prev v q ltac:(done) Hf Ha Hu) as -> end.
  by eapply change_vote_inv.
Qed.

(** Finishing a proposal, whatever the outcome. *)
Lemma finish_inv b id p0 p s o t :
  voting_inv s → proposals_info s !! id = Some p0 → refresh b p0 = Ok p →
  voting_inv (save_proposal id
    (mkProposal (total_voters p) (votes_for p) (votes_against p) (Finished o) (config p) t) s).
Proof.
  intros Hinv Hl Hr. eapply save_proposal_inv; [done|done|].
  destruct (inv_proposals s Hinv id p0 Hl) as [Hf Ha Ht Hs].
  apply refresh_Ok in Hr as [->|(_ & st & _ & -> & _)]; split; simpl; eauto.
Qed.

Lemma cancel_proposal_inv b id : Preserves voting_inv (cancel_proposal b id).
Proof.
  intros s r s' Hinv Hc. unfold cancel_proposal in Hc. inv_ok. inv_load.
  by eapply finish_inv.
Qed.
Lemma count_votes_inv b id : Preserves voting_inv (count_votes b id).
Proof.
  intros s r s' Hinv Hc. unfold count_votes in Hc. inv_ok. inv_load.
  by eapply finish_inv.
Qed.
Lemma veto_proposal_inv b id : Preserves voting_inv (veto_proposal b id).
Proof.
  intros s r s' Hinv Hc. unfold veto_proposal in Hc. inv_ok. inv_load.
  case_ok; inv_ok. by eapply finish_inv.
Qed.

Lemma new_proposal_inv e vs : Preserves voting_inv (new_proposal e vs).
Proof.
  intros s r s' Hinv Hc. unfold new_proposal, load_config in Hc. inv_ok.
  repeat match goal with H : bool_decide _ = true |- _ => apply bool_decide_eq_true in H end.
  match goal with H : add_u _ _ _ = Ok _ |- _ => apply add_u_Ok in H as [-> ?] end.
  match goal with H : mfor _ _ _ = Ok _ |- _ => rename H into Hfor end.
  destruct (inv_next s Hinv) as (n & Hn & Hpos & Hle).
  match goal with H : next_proposal_id s = Some ?m |- _ =>
    tryif constr_eq m n then fail else assert (m = n) as -> by congruence end.
  assert (proposals_info s !! (n + 1) = None) as Hfresh.
  { apply eq_None_not_Some. intros Hs. specialize (Hle _ Hs). lia. }
  assert (∀ a, proposals s !! (n + 1, a) = None) as Hnovote.
  { intros a. apply eq_None_not_Some. intros Hs%(inv_votes s Hinv).
    rewrite Hfresh in Hs. by destruct Hs. }
  apply register_voters in Hfor as (Hn' & Hi' & Hc' & Ht & Hv & Hvi & Hd); [|done|naive_solver].
  simpl in *.
  assert (∀ c, tally (n + 1) c s = 0 ∧ voters_count (n + 1) s = 0) as Hzero.
  { intros c. unfold tally, voters_count.
    rewrite !count_map_none; [done|..];
      intros [i a] w Hw; unfold voted, voter_of; simpl;
      first [intros -> | intros [Hi _]; subst i]; by rewrite Hnovote in Hw. }
  split.
  - exists (n + 1). split_and!; [done|lia|]. rewrite Hi'. intros id' Hs.
    destruct (decide (id' = n + 1)) as [->|]; [lia|].
    rewrite lookup_insert_ne in Hs by done. specialize (Hle _ Hs). lia.
  - intros id' a Hs. rewrite Hi'. destruct (decide (id' = n + 1)) as [->|].
    + rewrite lookup_insert_eq. by eexists.
    + rewrite lookup_insert_ne by done.
      destruct (Hd _ _ Hs) as [Hs'|]; [|done]. by apply (inv_votes s Hinv) in Hs'.
  - intros id' q Hq. rewrite Hi' in Hq. destruct (decide (id' = n + 1)) as [->|].
    + rewrite lookup_insert_eq in Hq. injection Hq as <-.
      split; simpl; rewrite ?Ht; try (symmetry; apply (Hzero true)); [..|by left].
      * symmetry; apply (Hzero false).
      * rewrite Hvi. destruct (Hzero true) as [_ Hz]. unfold voters_count in *. simpl.
        rewrite Hz. by f_equal.
    + rewrite lookup_insert_ne in Hq by done.
      destruct (inv_proposals s Hinv id' q Hq) as [Hf Ha Htot Hs].
      split; rewrite ?Ht, ?Hv by done; done.
Qed.

Lemma run_call_inv c : Preserves voting_inv (run_call c).
Proof.
  intros s r s' Hinv Hc. destruct c; simpl in Hc; unfold update_vote_config in Hc; inv_ok.
  - destruct Hinv as [Hn Hv Hp]. split; [done|done|].
    intros id p Hq. destruct (Hp id p Hq). by split.
  - by eapply new_proposal_inv.
  - by eapply cast_vote_inv.
  - by eapply cancel_proposal_inv.
  - by eapply count_votes_inv.
  - by eapply veto_proposal_inv.
Qed.

Lemma run_calls_inv cs s : voting_inv s → voting_inv (run_calls cs s).
Proof.
  revert s. induction cs as [|c cs IH]; intros s Hs; [done|]. simpl. apply IH.
  unfold commit. destruct (run_call c s) as [[u s']| |] eqn:Hc; try done.
  by eapply run_call_inv.
Qed.

Lemma instantiate_inv c s : instantiate c empty_voting = Ok (tt, s) → voting_inv s.
Proof.
  unfold instantiate. intros Hi. inv_ok. split; simpl.
  - exists 0. split_and!; [done|lia|]. intros id [? Hx]. by rewrite lookup_empty in Hx.
  - intros id a [? Hx]. by rewrite lookup_empty in Hx.
  - intros id p Hx. by rewrite lookup_empty in Hx.
Qed.
End invariant.

(** ** Finished proposals *)

Section finished.
Context `{DecimalOps}.

(** A call on a finished proposal cannot change it, and a call on another
    proposal does not reach it. *)
Lemma run_call_finished c s u s' id p o :
  voting_inv s → proposals_info s !! id = Some p → status p = Finished o →
  run_call c s = Ok (u, s') → proposals_info s' !! id = Some p.
Proof.
  intros Hinv Hp Hst Hc.
  assert (∀ b id' q s2, load_proposal b id' s = Ok (q, s2) →
    (∀ o', status q ≠ Finished o') → id' ≠ id) as Hload.
  { intros b id' q s2 (-> & q0 & Hq0 & Hr)%load_proposal_Ok Hne ->. simplify_eq.
    unfold refresh in Hr. rewrite Hst in Hr. injection Hr as <-. naive_solver. }
  assert (∀ b id' q s2 v, load_proposal b id' s = Ok (q, s2) →
    assert_active_proposal q = Ok v → id' ≠ id) as Hact.
  { intros b id' q s2 v Hl Ha. eapply Hload; [done|].
    intros o' Hq. unfold assert_active_proposal in Ha. by rewrite Hq in Ha. }
  destruct c; simpl in Hc; unfold update_vote_config in Hc; inv_ok; auto.
  - unfold new_proposal, load_config in *. inv_ok.
    match goal with H : bool_decide _ = true |- _ => apply bool_decide_eq_true in H end.
    match goal with H : add_u _ _ _ = Ok _ |- _ => apply add_u_Ok in H as [-> ?] end.
    destruct (inv_next s Hinv) as (n & Hn & Hpos & Hle).
    assert (id ≤ n) by (apply Hle; by eexists). simplify_eq.
    match goal with H : mfor _ _ _ = Ok _ |- _ =>
      apply register_voters in H as (_ & -> & _) end; simpl; [|done|].
    { rewrite lookup_insert_ne; [done|]. intros <-. lia. }
    intros a _. apply eq_None_not_Some. intros Hs%(inv_votes s Hinv)%Hle. lia.
  - unfold cast_vote in *. inv_ok.
    rewrite lookup_insert_ne by (by eapply Hact).
    by match goal with H : load_proposal _ _ _ = Ok _ |- _ =>
      apply load_proposal_Ok in H as (-> & _) end.
  - unfold cancel_proposal in *. inv_ok.
    rewrite lookup_insert_ne by (by eapply Hact).
    by match goal with H : load_proposal _ _ _ = Ok _ |- _ =>
      apply load_proposal_Ok in H as (-> & _) end.
  - unfold count_votes in *. inv_ok.
    match goal with H : bool_decide _ = true |- _ => apply bool_decide_eq_true in H end.
    rewrite lookup_insert_ne by (eapply Hload; [done|congruence]).
    by match goal with H : load_proposal _ _ _ = Ok _ |- _ =>
      apply load_proposal_Ok in H as (-> & _) end.
  - unfold veto_proposal in *. inv_ok. case_ok; inv_ok.
    rewrite lookup_insert_ne by (eapply Hload; [done|congruence]).
    by match goal with H : load_proposal _ _ _ = Ok _ |- _ =>
      apply load_proposal_Ok in H as (-> & _) end.
Qed.

Lemma run_calls_finished cs s id p o :
  voting_inv s → proposals_info s !! id = Some p → status p = Finished o →
  proposals_info (run_calls cs s) !! id = Some p.
Proof.
  revert s. induction cs as [|c cs IH]; intros s Hs Hp Ho; [done|]. simpl.
  unfold commit. destruct (run_call c s) as [[u s']| |] eqn:Hc; auto.
  apply IH; auto; [by eapply run_call_inv|by eapply run_call_finished].
Qed.
End finished.

(** ** Properties *)

Section properties.
Context `{DecimalLaws}.

(** The threshold in terms of the votes it requires. *)
Lemma vote_threshold_spec p :
  in_u 32 (total_voters p) →
  (∀ pc, threshold (config p) = Percentage pc → 0 ≤ pc ≤ DECIMAL_ONE) →
  ∃ t, vote_threshold p = Ok t ∧
    match threshold (config p) with
    | Majority => t ≤ votes_for p ↔ total_voters p < 2 * votes_for p
    | Percentage pc => t ≤ votes_for p ↔ total_voters p * pc < (votes_for p + 1) * DECIMAL_ONE
    end.
Proof.
  intros [Hn0 Hn] Hpc. unfold vote_threshold.
  destruct (threshold (config p)) as [|pc] eqn:Hth.
  - rewrite add_u_small by div_lia. eexists; split; [done|]. div_lia.
  - specialize (Hpc pc eq_refl). rewrite mul_floor_spec by lia.
    assert (total_voters p * pc / DECIMAL_ONE ≤ total_voters p).
    { unfold DECIMAL_ONE in *. apply Z.div_le_upper_bound; nia. }
    rewrite decide_True by lia. eexists; split; [done|].
    rewrite <-(div_lt_iff _ DECIMAL_ONE) by done. lia.
Qed.

(** C35.  However the votes of a proposal are cast, changed, counted, vetoed
    or cancelled, the stored counters are exact: [votes_for] and
    [votes_against] are the numbers of whitelisted voters whose current vote
    is for and against, so together they never exceed the electorate, and
    the stored status is never one of the intermediate phases. *)
Theorem voting_tally_exact c s0 cs id p :
  instantiate c empty_voting = Ok (tt, s0) →
  proposals_info (run_calls cs s0) !! id = Some p →
  votes_for p = tally id true (run_calls cs s0) ∧
  votes_against p = tally id false (run_calls cs s0) ∧
  votes_for p + votes_against p ≤ voters_count id (run_calls cs s0) ∧
  total_voters p = voters_count id (run_calls cs s0) mod 2 ^ 32 ∧
  (status p = Active ∨ ∃ o, status p = Finished o).
Proof.
  intros Hi Hp. pose proof (run_calls_inv cs s0 (instantiate_inv c s0 Hi)) as Hinv.
  destruct (inv_proposals _ Hinv id p Hp) as [Hf Ha Ht Hs].
  split_and!; auto. rewrite Hf, Ha. apply tally_sum_le.
Qed.

(**  A finished proposal is final: once its outcome (passed, failed,
    cancelled or vetoed) is stored, no later sequence of calls, at any block
    times and by anyone, changes its record. *)
Theorem voting_finished_final c s0 cs1 cs2 id p o :
  instantiate c empty_voting = Ok (tt, s0) →
  proposals_info (run_calls cs1 s0) !! id = Some p → status p = Finished o →
  proposals_info (run_calls cs2 (run_calls cs1 s0)) !! id = Some p.
Proof.
  intros Hi Hp Ho. eapply run_calls_finished; [|done|done].
  by eapply run_calls_inv, instantiate_inv.
Qed.

Ltac use_load Hload :=
  match goal with
  | Hl : load_proposal _ _ _ = Ok _ |- _ =>
      destruct (Hload _ _ Hl) as [[? ?]|[[? ?]|[? ?]]]; simpl in *; try congruence; try lia
  end.

(**  The phases of an active proposal are consecutive time windows:
    votes and cancellation only before the end, veto only from the end until
    the veto period is over, and the count only after it. *)
Theorem voting_phase_windows s b id p d :
  proposals_info s !! id = Some p → status p = Active →
  d = default 0 (veto_duration_seconds (config p)) → 0 ≤ d →
  (∀ a v r, cast_vote b id a v s = Ok r → time b < end_timestamp p) ∧
  (∀ r, cancel_proposal b id s = Ok r → time b < end_timestamp p) ∧
  (∀ r, veto_proposal b id s = Ok r →
     end_timestamp p ≤ time b < end_timestamp p + d * NANOS) ∧
  (∀ r, count_votes b id s = Ok r → end_timestamp p + d * NANOS ≤ time b).
Proof.
  intros Hp Hst -> Hd.
  assert (∀ q s2, load_proposal b id s = Ok (q, s2) →
    let e := end_timestamp p in
    let ve := e + default 0 (veto_duration_seconds (config p)) * NANOS in
    (time b < e ∧ status q = Active) ∨
    (e ≤ time b < ve ∧ status q = VetoPeriod ve) ∨
    (ve ≤ time b ∧ status q = WaitingForCount)) as Hload.
  { intros q s2 (-> & q0 & Hq & Hr)%load_proposal_Ok. simplify_eq.
    unfold refresh in Hr. rewrite Hst in Hr. inv_ok.
    match goal with H : plus_seconds _ _ = Ok _ |- _ =>
      apply plus_seconds_Ok in H as [-> ?]; [|done] end.
    repeat case_decide; inv_ok; simpl; rewrite ?Hst; auto with lia. }
  split_and!.
  - intros a v [r s'] Hc. unfold cast_vote in Hc. inv_ok.
    unfold assert_active_proposal, assert_is_active in *. case_ok; try done. use_load Hload.
  - intros [r s'] Hc. unfold cancel_proposal in Hc. inv_ok.
    unfold assert_active_proposal, assert_is_active in *. case_ok; try done. use_load Hload.
  - intros [r s'] Hc. unfold veto_proposal in Hc. inv_ok. case_ok; inv_ok. use_load Hload.
  - intros [r s'] Hc. unfold count_votes in Hc. inv_ok.
    match goal with H : bool_decide _ = true |- _ => apply bool_decide_eq_true in H end.
    use_load Hload.
Qed.

(**  Casting a vote in time always works and counts exactly: for a
    reachable state and a proposal with fewer than 2^32 voters, a
    whitelisted voter's vote before the end is accepted (the [u32] counters
    cannot overflow or underflow, whatever the earlier votes), it becomes
    that voter's vote, every other vote and proposal is untouched, and the
    new counters are the tallies of the new votes. *)
Theorem cast_vote_accepted c s0 cs id p b a v :
  let s := run_calls cs s0 in
  instantiate c empty_voting = Ok (tt, s0) →
  proposals_info s !! id = Some p → status p = Active →
  time b < end_timestamp p →
  0 ≤ default 0 (veto_duration_seconds (config p)) →
  end_timestamp p + default 0 (veto_duration_seconds (config p)) * NANOS < 2 ^ 64 → 0 ≤ end_timestamp p →
  is_Some (proposals s !! (id, a)) → voters_count id s < 2 ^ 32 →
  let s1 := save_vote (id, a) (Some v) s in
  let p' := set_votes p (tally id true s1) (tally id false s1) in
  cast_vote b id a v s = Ok (p', save_proposal id p' s1).
Proof.
  intros s Hi Hp Hst Ht Hd He Hpos [prev Hprev] Hv s1 p'.
  pose proof (run_calls_inv cs s0 (instantiate_inv c s0 Hi)) as Hinv. fold s in Hinv.
  destruct (inv_proposals _ Hinv id p Hp) as [Hf Ha _ _].
  assert (refresh b p = Ok p) as Hr.
  { unfold refresh, plus_seconds, mul_u, add_u. rewrite Hst. unfold NANOS in *.
    rewrite decide_True by lia. unfold mbind, outcome_bind.
    rewrite decide_True by lia. by rewrite decide_False by lia. }
  destruct (vote_update_total p s id a prev v) as [q Hq]; auto.
  pose proof (vote_update_tally p s id a prev v q Hprev Hf Ha Hq) as ->.
  unfold cast_vote, mbind, M_bind.
  rewrite (proj2 (load_proposal_Ok b id s p s)) by eauto.
  unfold lift, assert_active_proposal, assert_is_active. rewrite Hst. simpl.
  rewrite Hprev. simpl. by rewrite Hq.
Qed.

(**  The count decides as configured.  Once the vote and the veto period
    are over, counting an active proposal succeeds, stores it as finished
    with the outcome it returns, and closes it at the block time.  With a
    majority threshold it passes exactly when more than half of all voters
    are for; with a percentage it passes exactly when the votes for exceed
    the configured share less one vote, since the threshold is rounded
    down. *)
Theorem count_votes_verdict s b id p d :
  proposals_info s !! id = Some p → status p = Active →
  d = default 0 (veto_duration_seconds (config p)) → 0 ≤ d → 0 ≤ end_timestamp p →
  end_timestamp p + d * NANOS < 2 ^ 64 → end_timestamp p + d * NANOS ≤ time b →
  in_u 32 (total_voters p) →
  (∀ pc, threshold (config p) = Percentage pc → 0 ≤ pc ≤ DECIMAL_ONE) →
  ∃ o s',
    count_votes b id s = Ok ((finish_vote p o b, o), s') ∧
    proposals_info s' = <[id:=finish_vote p o b]> (proposals_info s) ∧
    proposals s' = proposals s ∧ (o = Passed ∨ o = Failed) ∧
    match threshold (config p) with
    | Majority => o = Passed ↔ total_voters p < 2 * votes_for p
    | Percentage pc => o = Passed ↔ total_voters p * pc < (votes_for p + 1) * DECIMAL_ONE
    end.
Proof.
  intros Hp Hst -> Hd He Hov Ht [Hn0 Hn] Hpc.
  assert (refresh b p = Ok (set_status p WaitingForCount)) as Hr.
  { unfold refresh, plus_seconds. rewrite Hst. unfold mul_u, add_u, NANOS in *.
    rewrite decide_True by lia. unfold mbind, outcome_bind. rewrite decide_True by lia.
    rewrite decide_True by lia. by rewrite decide_False by lia. }
  destruct (vote_threshold_spec (set_status p WaitingForCount)) as (t & Ht1 & Ht2); [done..|].
  simpl in Ht2.
  exists (if decide (t ≤ votes_for p) then Passed else Failed).
  eexists. split_and!.
  - unfold count_votes, mbind, M_bind.
    rewrite (proj2 (load_proposal_Ok b id s _ s)) by eauto.
    unfold ensure, lift, guard_or. rewrite bool_decide_true by done.
    rewrite Ht1. unfold mret, M_ret. simpl. reflexivity.
  - done.
  - done.
  - case_decide; auto.
  - destruct (threshold (config p)); rewrite <-Ht2; case_decide; naive_solver.
Qed.
End properties.

(** ** Examples *)

Module VotingExamples.
#[local] Existing Instance decimal_ref.

Definition cfg : VoteConfig := mkVoteConfig Majority (Some 10).
Definition s0 : SimpleVoting := commit empty_voting (instantiate cfg empty_voting).
Definition at_second (t : Z) : BlockInfo := mkBlock 1 (t * NANOS) "chain-1".
Definition vote_yes : Vote := mkVote true None.
Definition vote_no : Vote := mkVote false None.
(** Three voters, one of whom changes their mind. *)
Definition calls : list VoteCall :=
  [ CallNewProposal (100 * NANOS) ["alice"; "bob"; "carol"]%string;
    CallCastVote (at_second 5) 1 "alice"%string vote_no;
    CallCastVote (at_second 6) 1 "bob"%string vote_yes;
    CallCastVote (at_second 7) 1 "mallory"%string vote_yes;
    CallCastVote (at_second 8) 1 "alice"%string vote_yes;
    CallCastVote (at_second 101) 1 "carol"%string vote_no ].
Definition prop1 : ProposalInfo := mkProposal 3 2 0 Active cfg (100 * NANOS).

Lemma voting_tally_exact_witness :
  votes_for prop1 = tally 1 true (run_calls calls s0) ∧ votes_for prop1 = 2.
Proof.
  split; [|done].
  apply (voting_tally_exact cfg s0 calls 1 prop1); vm_compute; reflexivity.
Defined.

(** Counted after the veto period: passed, and later calls are rejected. *)
Definition counted : ProposalInfo := mkProposal 3 2 0 (Finished Passed) cfg (120 * NANOS).
Lemma voting_finished_final_witness :
  proposals_info (run_calls
    [CallCastVote (at_second 50) 1 "carol"%string vote_no; CallCancel (at_second 50) 1;
     CallVeto (at_second 105) 1; CallCount (at_second 130) 1]
    (run_calls (calls ++ [CallCount (at_second 120) 1]) s0)) !! 1 = Some counted.
Proof.
  apply (voting_finished_final cfg s0 (calls ++ [CallCount (at_second 120) 1]) _ 1 counted Passed);
    vm_compute; reflexivity.
Defined.

Lemma voting_phase_windows_witness :
  100 * NANOS ≤ time (at_second 105) < 100 * NANOS + 10 * NANOS.
Proof.
  destruct (voting_phase_windows (run_calls calls s0) (at_second 105) 1 prop1 10)
    as (_ & _ & Hveto & _); [vm_compute; reflexivity|reflexivity|reflexivity|lia|].
  eapply Hveto. vm_compute. reflexivity.
Defined.

Lemma cast_vote_accepted_witness :
  ∃ r, cast_vote (at_second 9) 1 "carol"%string vote_no (run_calls calls s0) = Ok r ∧
       votes_against r.1 = 1.
Proof.
  eexists. split.
  - apply (cast_vote_accepted cfg s0 calls 1 prop1 (at_second 9) "carol"%string vote_no);
      try (vm_compute; reflexivity); try (vm_compute; discriminate).
    vm_compute. by eexists.
  - vm_compute. reflexivity.
Defined.

(** A single voter, against: at a 50% threshold the rounded-down share is
    zero and the proposal passes. *)
Definition half : VoteConfig := mkVoteConfig (Percentage (5 * 10 ^ 17)) None.
Definition against : ProposalInfo := mkProposal 1 0 1 Active half (100 * NANOS).
Definition s_against : SimpleVoting :=
  run_calls [CallNewProposal (100 * NANOS) ["alice"%string];
             CallCastVote (at_second 5) 1 "alice"%string vote_no]
    (commit empty_voting (instantiate half empty_voting)).
Lemma count_votes_verdict_witness :
  votes_for against = 0 ∧ ∃ s', count_votes (at_second 100) 1 s_against =
    Ok ((finish_vote against Passed (at_second 100), Passed), s').
Proof.
  split; [done|].
  destruct (@count_votes_verdict decimal_ref decimal_ref_laws s_against (at_second 100) 1 against 0)
    as (o & s' & Hc & _ & _ & _ & Hpass).
  - vm_compute. reflexivity.
  - reflexivity.
  - reflexivity.
  - lia.
  - vm_compute; discriminate.
  - vm_compute; reflexivity.
  - vm_compute; discriminate.
  - split; vm_compute; [discriminate|reflexivity].
  - intros pc [= <-]. split; vm_compute; discriminate.
  - simpl in Hpass. assert (o = Passed) as -> by (apply Hpass; vm_compute; reflexivity).
    by exists s'.
Defined.
End VotingExamples.
