(* ===== verification/Objects.v ===== *)
(** * Objects of the framework: data shared by every contract

    Module names and references, account identifiers, ownership, module data
    and the framework's errors (packages/abstract-std/src/objects and
    error.rs), with the queries a contract can make to other contracts as the
    class [Querier].  A human-readable message inside an error is kept as the
    constant text of the source without its interpolated values. *)

From S2P Require Import Prelude Cosmos.

(** ** Modules (objects/module.rs, module_reference.rs, namespace.rs) *)

(** [Namespace(String)] *)
Definition Namespace : Type := string.

Inductive ModuleVersion : Type :=
  | Latest
  | Version (v : string).

Record ModuleInfo := mkModuleInfo {
  mi_namespace : Namespace;
  mi_name : string;
  mi_version : ModuleVersion
}.

Inductive ModuleStatus : Type := Registered | Pending | Yanked.

Inductive ModuleReference : Type :=
  | RefAccount (code_id : Z)
  | RefNative (a : Addr)
  | RefAdapter (a : Addr)
  | RefApp (code_id : Z)
  | RefStandalone (code_id : Z)
  | RefService (a : Addr).

Record Module_ := mkModule { mod_info : ModuleInfo; mod_reference : ModuleReference }.

(** [FixedFee { fee: Coin }] *)
Record FixedFee := mkFixedFee { ff_fee : Coin }.
Inductive Monetization : Type := MonetizationNone | InstallFee (f : FixedFee).

(** ** Accounts (objects/account, truncated_chain_id.rs) *)

(** [TruncatedChainId(String)] *)
Definition TruncatedChainId : Type := string.

Inductive AccountTrace : Type :=
  | Local
  | Remote (chains : list TruncatedChainId).

Record AccountId := mkAccountId { acc_trace : AccountTrace; acc_seq : Z }.

#[export] Instance ModuleVersion_eq_dec : EqDecision ModuleVersion.
Proof. solve_decision. Defined.
#[export] Instance ModuleInfo_eq_dec : EqDecision ModuleInfo.
Proof. solve_decision. Defined.
#[export] Instance ModuleReference_eq_dec : EqDecision ModuleReference.
Proof. solve_decision. Defined.
#[export] Instance Module_eq_dec : EqDecision Module_.
Proof. solve_decision. Defined.
#[export] Instance FixedFee_eq_dec : EqDecision FixedFee.
Proof. solve_decision. Defined.
#[export] Instance Monetization_eq_dec : EqDecision Monetization.
Proof. solve_decision. Defined.
#[export] Instance AccountTrace_eq_dec : EqDecision AccountTrace.
Proof. solve_decision. Defined.
#[export] Instance AccountId_eq_dec : EqDecision AccountId.
Proof. solve_decision. Defined.

(** ** Errors *)

(** [objects::registry::RegistryError], the errors of queries to the registry. *)
Inductive RegistryQueryError : Type :=
  | RqModuleNotFound (m : ModuleInfo)
  | RqFailedToQueryAccountId (a : Addr)
  | RqStandaloneNotFound (code_id : Z)
  | RqUnknownAccountId (id : AccountId)
  | RqNotAccount (a : Addr) (id : AccountId)
  | RqQueryFailed (method_name : string)
  | RqServiceNotFound (a : Addr)
  | RqInvalidReference (m : ModuleInfo).

(** [objects::ans_host::AnsHostError]; an entry that was not found is carried
    as its text. *)
Inductive AnsHostError : Type :=
  | AnsContractNotFound (contract : string) (ans_host : Addr)
  | AnsAssetNotFound (asset : string) (ans_host : Addr)
  | AnsCwAssetNotFound (ans_host : Addr)
  | AnsChannelNotFound (channel : string) (ans_host : Addr)
  | AnsDexPairingNotFound (pairing : string) (ans_host : Addr)
  | AnsPoolMetadataNotFound (pool : Z) (ans_host : Addr)
  | AnsFormattingError (object expected actual : string)
  | AnsQueryFailed (method_name : string)
  | AnsParseError (e : StdError).

(** [AbstractError] (packages/abstract-std/src/error.rs) *)
Inductive AbstractError : Type :=
  | AbsStd (e : StdError)
  | AbsAsset
  | AbsRegistry (e : RegistryQueryError)
  | AbsAnsHost (e : AnsHostError)
  | AbsInstantiate2Address
  | AbsSemver
  | EntryFormattingError (actual expected : string)
  | FormattingError (object expected actual : string)
  | CannotDowngradeContract (contract from to : string)
  | ContractNameMismatch (from to : string)
  | AppNotInstalled (id : string)
  | MissingVersion (s : string)
  | Assert (msg : string)
  | Fee (msg : string)
  | UnequalModuleData (cw2 module : string)
  | CannotSkipVersion (contract from to : string).
#[export] Instance RegistryQueryError_eq_dec : EqDecision RegistryQueryError.
Proof. solve_decision. Defined.
#[export] Instance AnsHostError_eq_dec : EqDecision AnsHostError.
Proof. solve_decision. Defined.
#[export] Instance AbstractError_eq_dec : EqDecision AbstractError.
Proof. solve_decision. Defined.

(** [ValidationError] (objects/validation/error.rs) *)
Inductive ValidationError : Type :=
  | DescriptionInvalidShort (n : Z)
  | DescriptionInvalidLong (n : Z)
  | DescriptionContainsDangerousCharacters
  | LinkInvalidShort (n : Z)
  | LinkInvalidLong (n : Z)
  | LinkInvalidFormat
  | LinkContainsDangerousCharacters
  | TitleInvalidShort (n : Z)
  | TitleInvalidLong (n : Z)
  | TitleContainsDangerousCharacters.
#[export] Instance ValidationError_eq_dec : EqDecision ValidationError.
Proof. solve_decision. Defined.

(** ** Ownership (objects/gov_type.rs, ownership/gov_ownable.rs) *)

Inductive GovernanceDetails (T : Type) : Type :=
  | Monarchy (monarch : T)
  | SubAccount (account : T)
  | External (governance_address : T) (governance_type : string)
  | NFT (collection_addr : T) (token_id : string)
  | AbstractAccount (address : Addr)
  | Renounced.
Arguments Monarchy {T} monarch.
Arguments SubAccount {T} account.
Arguments External {T} governance_address governance_type.
Arguments NFT {T} collection_addr token_id.
Arguments AbstractAccount {T} address.
Arguments Renounced {T}.

Record Ownership (T : Type) := mkOwnership {
  owner : GovernanceDetails T;
  pending_owner : option (GovernanceDetails T);
  pending_expiry : option Expiration
}.
Arguments mkOwnership {T} owner pending_owner pending_expiry.
Arguments owner {T} o.
Arguments pending_owner {T} o.
Arguments pending_expiry {T} o.

#[export] Instance GovernanceDetails_eq_dec `{EqDecision T} : EqDecision (GovernanceDetails T).
Proof. solve_decision. Defined.
#[export] Instance Ownership_eq_dec `{EqDecision T} : EqDecision (Ownership T).
Proof. solve_decision. Defined.

(** ** Module data kept by a module contract (objects/module_version.rs) *)

Section module_data.
Context `{Semver}.
Record Dependency := mkDependency { dep_id : string; version_req : list comparator }.
#[export] Instance Dependency_eq_dec : EqDecision Dependency.
Proof. solve_decision. Defined.
Record ModuleData := mkModuleData {
  md_module : string;
  md_version : string;
  md_dependencies : list Dependency;
  md_metadata : option string
}.
End module_data.

(** ** Queries

    What a contract can learn about the rest of the chain: contract and code
    infos of the wasm module, and raw storage queries of other contracts.
    [None] is a failed query. *)
Record ContractInfo := mkContractInfo { ci_code_id : Z; ci_admin : option Addr }.
Record CodeInfo := mkCodeInfo { code_creator : Addr; code_checksum : string }.
(** [cw2::ContractVersion] *)
Record ContractVersion := mkContractVersion { cv_contract : string; cv_version : string }.
#[export] Instance ContractVersion_eq_dec : EqDecision ContractVersion.
Proof. solve_decision. Defined.

Class Querier `{Semver} := {
  wasm_contract_info : string → option ContractInfo;
  wasm_code_info : Z → option CodeInfo;
  cw2_contract : Addr → option ContractVersion;
  account_id_of : Addr → option AccountId;
  module_data_of : Addr → option ModuleData;
  ownership_of : Addr → option (Ownership Addr);
  nft_owner_of : Addr → string → option string;
  calling_to_as_admin_of : Addr → option Addr;
  (** [ACCOUNT_ADDRESSES] of a registry: outer [None] if there is no contract *)
  registry_account_of : Addr → AccountId → option (option Addr)
}.
