(* ===== verification/Names.v ===== *)
(** * Module names, versions and references

    objects/namespace.rs, module.rs, module_reference.rs, module_version.rs
    and validation/verifiers.rs of packages/abstract-std: the checks on names,
    the conversions between a module info, its id and its cw2 data, and the
    consistency check of a module contract against the data it claims. *)

From S2P Require Import Prelude Cosmos Strings Objects.
From Stdlib Require Import Ascii String.

#[local] Open Scope string_scope.
#[local] Open Scope Z_scope.

(** ** Constants (constants.rs) *)
Definition ACCOUNT : string := "abstract:account".
Definition REGISTRY : string := "abstract:registry".
Definition MODULE_FACTORY : string := "abstract:module-factory".
Definition ANS_HOST : string := "abstract:ans-host".
Definition IBC_CLIENT : string := "abstract:ibc-client".
Definition ICA_CLIENT : string := "abstract:ica-client".
Definition IBC_HOST : string := "abstract:ibc-host".
Definition ABSTRACT_NAMESPACE : string := "abstract".
Definition ATTRIBUTE_DELIMITER : ascii := ":"%char.

(** ** Names *)

Definition MAX_LENGTH : Z := 64.

(** The characters [validate_name] accepts before the lowercase check. *)
Definition name_char (c : ascii) : bool :=
  (is_ascii_alphanumeric c || bool_decide (c = "-"%char))%bool.

(** [module::validate_name] *)
Definition validate_name (name : string) : outcome AbstractError unit :=
  if decide (name = "") then
    Err (FormattingError "module name" "with content" "empty")
  else if decide (MAX_LENGTH < slen name) then
    Err (FormattingError "module name" "at most 64 characters" (pretty (slen name)))
  else if negb (sall name_char name) then
    Err (FormattingError "module name" "alphanumeric characters and hyphens" name)
  else if decide (name ≠ to_lowercase name) then
    Err (FormattingError "module name" (to_lowercase name) name)
  else Ok tt.

(** [Namespace::new] and the [TryFrom] conversions; [Namespace::validate] *)
Definition namespace_new (ns : string) : outcome AbstractError Namespace :=
  validate_name ns ≫= λ _, Ok ns.
Definition namespace_validate (ns : Namespace) : outcome AbstractError unit := validate_name ns.

(** [Namespace::from_id] *)
Definition namespace_from_id (module_id : string) : outcome AbstractError Namespace :=
  match split_on ATTRIBUTE_DELIMITER module_id with
  | [ns; _] => namespace_new ns
  | _ => Err (FormattingError "module_id" "namespace:module" module_id)
  end.

(** ** Module infos *)

(** [ModuleInfo::module_id], [Display for ModuleVersion], [id_with_version] *)
Definition module_id (m : ModuleInfo) : string := mi_namespace m +:+ ":" +:+ mi_name m.
Definition show_module_version (v : ModuleVersion) : string :=
  match v with Latest => "latest" | Version v => v end.
Definition id_with_version (m : ModuleInfo) : string :=
  module_id m +:+ ":" +:+ show_module_version (mi_version m).

(** [ModuleInfo::from_id] *)
Definition module_info_from_id (id : string) (v : ModuleVersion) : outcome AbstractError ModuleInfo :=
  match split_on ATTRIBUTE_DELIMITER id with
  | [ns; name] =>
      ns ← namespace_new ns; Ok (mkModuleInfo ns (to_lowercase name) v)
  | _ => Err (FormattingError "contract id" "namespace:contract_name" id)
  end.
Definition module_info_from_id_latest (id : string) : outcome AbstractError ModuleInfo :=
  module_info_from_id id Latest.

(** [TryFrom<ModuleInfo> for ContractVersion] *)
Definition contract_version_of (m : ModuleInfo) : outcome AbstractError ContractVersion :=
  match mi_version m with
  | Version v => Ok (mkContractVersion (mi_namespace m +:+ ":" +:+ mi_name m) v)
  | Latest => Err (MissingVersion "module")
  end.

(** [TryFrom<ContractVersion> for ModuleInfo] *)
Definition module_info_of_contract (c : ContractVersion) : outcome AbstractError ModuleInfo :=
  match split_on ATTRIBUTE_DELIMITER (cv_contract c) with
  | [ns; name] =>
      ns ← namespace_new ns; Ok (mkModuleInfo ns (to_lowercase name) (Version (cv_version c)))
  | _ => Err (FormattingError "contract id" "namespace:contract_name" (cv_contract c))
  end.

(** [Module::should_be_whitelisted] *)
Definition should_be_whitelisted (m : Module_) : bool :=
  match mod_reference m with
  | RefAdapter _ | RefApp _ => true
  | RefNative _ => bool_decide (module_id (mod_info m) = IBC_CLIENT)
  | _ => false
  end.

Section semver.
Context `{Semver}.

(** [ModuleVersion::validate] *)
Definition module_version_validate (v : ModuleVersion) : outcome AbstractError unit :=
  match v with
  | Latest => Ok tt
  | Version v => _ ← ok_or (parse_version v) AbsSemver; Ok tt
  end.
(** [FromStr for ModuleVersion] *)
Definition module_version_from_str (s : string) : outcome AbstractError ModuleVersion :=
  if decide (s = "latest") then Ok Latest
  else module_version_validate (Version s) ≫= λ _, Ok (Version s).
(** [TryInto<Version> for ModuleVersion] *)
Definition module_version_try_into (v : ModuleVersion) : outcome AbstractError version :=
  match v with
  | Latest => Err (MissingVersion "module")
  | Version v => ok_or (parse_version v) AbsSemver
  end.

(** [ModuleInfo::validate] *)
Definition module_info_validate (m : ModuleInfo) : outcome AbstractError unit :=
  namespace_validate (mi_namespace m) ≫= λ _,
  validate_name (mi_name m) ≫= λ _,
  map_err (λ _, AbsStd (StdMsg "Invalid version for module"))
    (module_version_validate (mi_version m)).

(** [ModuleInfo::assert_version_variant] *)
Definition assert_version_variant (m : ModuleInfo) : outcome AbstractError unit :=
  match mi_version m with
  | Latest => Err (Assert "Module version must be set to a specific version")
  | Version v => _ ← ok_or (parse_version v) AbsSemver; Ok tt
  end.
End semver.

(** ** Module references (module_reference.rs) *)

Definition unwrap_account (r : ModuleReference) : outcome AbstractError Z :=
  match r with RefAccount v => Ok v | _ => Err (Assert "module reference not an account module.") end.
Definition unwrap_native (r : ModuleReference) : outcome AbstractError Addr :=
  match r with RefNative a => Ok a | _ => Err (Assert "module reference not a native module.") end.
Definition unwrap_adapter (r : ModuleReference) : outcome AbstractError Addr :=
  match r with RefAdapter a => Ok a | _ => Err (Assert "module reference not an api module.") end.
Definition unwrap_app (r : ModuleReference) : outcome AbstractError Z :=
  match r with RefApp v => Ok v | _ => Err (Assert "module reference not an app module.") end.
Definition unwrap_standalone (r : ModuleReference) : outcome AbstractError Z :=
  match r with
  | RefStandalone v => Ok v | _ => Err (Assert "module reference not a standalone module.")
  end.
Definition unwrap_service (r : ModuleReference) : outcome AbstractError Addr :=
  match r with RefService a => Ok a | _ => Err (Assert "module reference not a service module.") end.
(** [ModuleReference::unwrap_addr] *)
Definition unwrap_addr (r : ModuleReference) : outcome AbstractError Addr :=
  match r with
  | RefNative a | RefAdapter a | RefService a => Ok a
  | _ => Err (Assert "module reference not a native or api module.")
  end.
(** [ModuleReference::unwrap_code_id] *)
Definition unwrap_code_id (r : ModuleReference) : outcome AbstractError Z :=
  match r with
  | RefAccount c | RefApp c | RefStandalone c => Ok c
  | _ => Err (Assert "module reference not account, app or standalone")
  end.
(** [ModuleReference::validate] *)
Definition module_reference_validate `{Api} (r : ModuleReference) : outcome AbstractError unit :=
  match r with
  | RefNative a | RefAdapter a | RefService a =>
      _ ← map_err AbsStd (addr_validate_r a); Ok tt
  | _ => Ok tt
  end.

(** ** Consistency of a module contract with the module it claims to be *)

(** [module::assert_module_data_validity] *)
Definition assert_module_data_validity `{Querier} (module_claim : Module_)
    (module_address : option Addr) : outcome AbstractError unit :=
  let info := mod_info module_claim in
  match ok (unwrap_addr (mod_reference module_claim)), module_address with
  | None, None => Ok tt
  | Some addr, _ | None, Some addr =>
      match mi_version info with
      | Latest => Panic
      | Version v =>
          let cw_2_data_res := cw2_contract addr in
          match mod_reference module_claim with
          | RefStandalone _ | RefService _ =>
              match cw_2_data_res with
              | Some cw_2_data =>
                  guard_or (bool_decide (v = cv_version cw_2_data))
                    (UnequalModuleData (cv_version cw_2_data) v)
              | None => Ok tt
              end
          | r =>
              cw_2_data ← ok_or cw_2_data_res (AbsStd (StdNotFound "contract_info"));
              guard_or (bool_decide (module_id info = cv_contract cw_2_data))
                (UnequalModuleData (cv_contract cw_2_data) (module_id info)) ≫= λ _,
              guard_or (bool_decide (v = cv_version cw_2_data))
                (UnequalModuleData (cv_version cw_2_data) v) ≫= λ _,
              match r with
              | RefAccount _ | RefNative _ | RefService _ => Ok tt
              | _ =>
                  module_data ← ok_or (module_data_of addr) (AbsStd (StdNotFound "module_data"));
                  guard_or (bool_decide (md_module module_data = cv_contract cw_2_data))
                    (UnequalModuleData (cv_contract cw_2_data) (md_module module_data)) ≫= λ _,
                  guard_or (bool_decide (md_version module_data = cv_version cw_2_data))
                    (UnequalModuleData (cv_version cw_2_data) (md_version module_data))
              end
          end
      end
  end.

(** ** Contract upgrades (module_version.rs) *)

Section upgrade.
Context `{Semver}.

(** [assert_contract_upgrade]; the stored version is parsed with [unwrap]. *)
Definition assert_contract_upgrade (stored : option ContractVersion)
    (to_contract : string) (to_version : version) : outcome AbstractError unit :=
  cv ← ok_or stored (AbsStd (StdNotFound "contract_info"));
  let contract := cv_contract cv in
  guard_or (bool_decide (contract = to_contract))
    (ContractNameMismatch contract to_contract) ≫= λ _,
  from_version ← unwrap (parse_version (cv_version cv));
  guard_or (version_ltb from_version to_version)
    (CannotDowngradeContract contract (show_version from_version) (show_version to_version)) ≫= λ _,
  let major_diff := checked_sub (ver_major to_version) (ver_major from_version) in
  let minor_diff := checked_sub (ver_minor to_version) (ver_minor from_version) in
  let no_skips :=
    match major_diff, minor_diff with
    | Some 1, _ => true
    | Some 0, Some 1 => true
    | Some 0, Some 0 => true
    | _, _ => false
    end in
  guard_or no_skips
    (CannotSkipVersion contract (show_version from_version) (show_version to_version)).

(** [set_module_data] and [migrate_module_data] on the [MODULE] item *)
Definition set_module_data (name ver : string) (dependencies : list Dependency)
    (metadata : option string) : ModuleData :=
  mkModuleData name ver dependencies metadata.
Definition migrate_module_data (old : option ModuleData) (name ver : string)
    (metadata : option string) : ModuleData :=
  match old with
  | None => mkModuleData name ver [] None
  | Some data =>
      mkModuleData name ver (md_dependencies data)
        (match metadata with Some m => Some m | None => md_metadata data end)
  end.
End upgrade.

(** ** Validation of descriptions, links and titles (validation/verifiers.rs) *)

Definition MIN_DESC_LENGTH : Z := 1.
Definition MAX_DESC_LENGTH : Z := 1024.
Definition MIN_LINK_LENGTH : Z := 11.
Definition MAX_LINK_LENGTH : Z := 128.
Definition MIN_TITLE_LENGTH : Z := 1.
Definition MAX_TITLE_LENGTH : Z := 64.
(** Double quote, single quote, [=], [>] and [<]. *)
Definition DANGEROUS_CHARS : list ascii := Ascii.ascii_of_nat <$> [34; 39; 61; 62; 60]%nat.

Definition contains_dangerous_characters (s : string) : bool :=
  negb (sall (λ c, negb (bool_decide (c ∈ DANGEROUS_CHARS))) s).
Definition is_valid_url (link : string) : bool :=
  (starts_with "http://" link || starts_with "https://" link || starts_with "ipfs://" link)%bool.

(** [validate_link] *)
Definition validate_link (link : option string) : outcome ValidationError unit :=
  match link with
  | None => Ok tt
  | Some link =>
      if decide (slen link < MIN_LINK_LENGTH) then Err (LinkInvalidShort MIN_LINK_LENGTH)
      else if decide (MAX_LINK_LENGTH < slen link) then Err (LinkInvalidLong MAX_LINK_LENGTH)
      else if negb (is_valid_url link) then Err LinkInvalidFormat
      else if contains_dangerous_characters link then Err LinkContainsDangerousCharacters
      else Ok tt
  end.
(** [validation::validate_name], of account names *)
Definition validate_title (title : string) : outcome ValidationError unit :=
  if decide (slen title < MIN_TITLE_LENGTH) then Err (TitleInvalidShort MIN_TITLE_LENGTH)
  else if decide (MAX_TITLE_LENGTH < slen title) then Err (TitleInvalidLong MAX_TITLE_LENGTH)
  else if contains_dangerous_characters title then Err TitleContainsDangerousCharacters
  else Ok tt.
(** [validate_description] *)
Definition validate_description (d : option string) : outcome ValidationError unit :=
  match d with
  | None => Ok tt
  | Some d =>
      if decide (slen d < MIN_DESC_LENGTH) then Err (DescriptionInvalidShort MIN_DESC_LENGTH)
      else if decide (MAX_DESC_LENGTH < slen d) then Err (DescriptionInvalidLong MAX_DESC_LENGTH)
      else if contains_dangerous_characters d then Err DescriptionContainsDangerousCharacters
      else Ok tt
  end.

(** ** Lemmas *)

(** What [validate_name] lets through, in one test per character. *)
Definition valid_name_char (c : ascii) : bool :=
  (is_ascii_lowercase c || is_ascii_digit c || bool_decide (c = "-"%char))%bool.

Lemma upper_not_lower c :
  is_ascii_uppercase c = true → is_ascii_lowercase c = false ∧ is_ascii_digit c = false.
Proof.
  unfold is_ascii_uppercase, is_ascii_lowercase, is_ascii_digit.
  rewrite !andb_true_iff, !andb_false_iff, !Nat.leb_le, !Nat.leb_gt. lia.
Qed.

Lemma valid_name_char_spec c :
  valid_name_char c = (name_char c && negb (is_ascii_uppercase c))%bool.
Proof.
  unfold valid_name_char, name_char, is_ascii_alphanumeric.
  destruct (is_ascii_uppercase c) eqn:Hu.
  - destruct (upper_not_lower c Hu) as [-> ->]. simpl.
    apply bool_decide_eq_false. intros ->. vm_compute in Hu. done.
  - by rewrite orb_false_r, andb_true_r.
Qed.

Lemma sall_andb p q s : sall (λ c, p c && q c)%bool s = (sall p s && sall q s)%bool.
Proof. induction s as [|c s IH]; simpl; [done|]. rewrite IH. destruct (p c), (q c), (sall p s); done. Qed.
Lemma sall_ext (p q : ascii → bool) s : (∀ c, p c = q c) → sall p s = sall q s.
Proof. intros He. induction s as [|c s IH]; simpl; [done|]. by rewrite He, IH. Qed.

Lemma validate_name_Ok name :
  validate_name name = Ok tt ↔ 1 ≤ slen name ≤ MAX_LENGTH ∧ sall valid_name_char name = true.
Proof.
  rewrite (sall_ext _ _ name valid_name_char_spec), sall_andb, andb_true_iff, <-to_lowercase_fix.
  unfold validate_name.
  destruct (decide (name = "")) as [->|Hne].
  { split; [done|]. intros [? _]. change (slen "") with 0 in *. lia. }
  assert (1 ≤ slen name) by (unfold slen; destruct name; [done|simpl; lia]).
  destruct (decide (MAX_LENGTH < slen name)); [split; [done|lia]|].
  destruct (sall name_char name); simpl; [|split; naive_solver].
  destruct (decide (name ≠ to_lowercase name)) as [Hl|Hl]; split; [done|naive_solver| |done].
  intros _. split_and!; [lia|lia|done|]. symmetry. by apply dec_stable.
Qed.

Lemma valid_name_no_delimiter s : sall valid_name_char s = true → no_char ATTRIBUTE_DELIMITER s.
Proof. by apply sall_no_char. Qed.
Lemma valid_name_lowercase s : sall valid_name_char s = true → to_lowercase s = s.
Proof.
  intros Hs. apply to_lowercase_fix. eapply sall_impl; [|exact Hs].
  intros c. rewrite valid_name_char_spec, andb_true_iff. tauto.
Qed.

Lemma namespace_new_Ok ns ns' : namespace_new ns = Ok ns' ↔ ns' = ns ∧ validate_name ns = Ok tt.
Proof.
  unfold namespace_new. rewrite obind_Ok. split.
  - intros ([] & ? & [= ->]). done.
  - intros [-> ?]. eauto.
Qed.

Lemma split_id ns name :
  validate_name ns = Ok tt → validate_name name = Ok tt →
  split_on ATTRIBUTE_DELIMITER (ns +:+ ":" +:+ name) = [ns; name].
Proof.
  intros [_ Hns]%validate_name_Ok [_ Hn]%validate_name_Ok.
  change (ns +:+ ":" +:+ name) with (ns +:+ String ATTRIBUTE_DELIMITER name).
  rewrite split_on_app by by apply valid_name_no_delimiter.
  by rewrite split_on_no_char by by apply valid_name_no_delimiter.
Qed.

Lemma module_info_validate_Ok `{Semver} m :
  module_info_validate m = Ok tt ↔
  validate_name (mi_namespace m) = Ok tt ∧ validate_name (mi_name m) = Ok tt ∧
  module_version_validate (mi_version m) = Ok tt.
Proof.
  unfold module_info_validate, namespace_validate. rewrite obind_Ok. setoid_rewrite obind_Ok.
  setoid_rewrite map_err_Ok. split.
  - intros ([] & ? & [] & ? & ?). done.
  - intros (? & ? & ?). eauto.
Qed.

(** The names the framework accepts: between 1 and 64 bytes, each a lowercase
    ASCII letter, a digit or a hyphen. *)
Theorem validate_name_spec (name : string) :
  validate_name name = Ok tt ↔
  1 ≤ slen name ≤ 64 ∧
  sall (λ c, is_ascii_lowercase c || is_ascii_digit c || bool_decide (c = "-"%char))%bool name = true.
Proof. apply validate_name_Ok. Qed.

(** A module info that passes [validate] is determined by its id and version:
    parsing its id gives it back, and when it carries a version so does its
    conversion to the cw2 contract version and back; two validated infos with
    the same id and version are equal. *)
Theorem module_info_roundtrip `{Semver} (m : ModuleInfo) (Hvalid : module_info_validate m = Ok tt) :
  module_info_from_id (module_id m) (mi_version m) = Ok m ∧
  (mi_version m ≠ Latest →
     (contract_version_of m ≫= module_info_of_contract) = Ok m) ∧
  (∀ m', module_info_validate m' = Ok tt → module_id m' = module_id m →
     mi_version m' = mi_version m → m' = m).
Proof.
  assert (∀ m, module_info_validate m = Ok tt →
    module_info_from_id (module_id m) (mi_version m) = Ok m) as Hid.
  { intros [ns name v] (Hns & Hn & _)%module_info_validate_Ok. simpl in *.
    unfold module_info_from_id, module_id. simpl. rewrite split_id by done.
    unfold namespace_new. rewrite Hns. cbn.
    apply validate_name_Ok in Hn as [_ Hn]. by rewrite valid_name_lowercase. }
  split_and!; [by apply Hid| |].
  - destruct m as [ns name [|v]]; simpl; [done|]. intros _.
    apply module_info_validate_Ok in Hvalid as (Hns & Hn & _). simpl in *.
    unfold contract_version_of, module_info_of_contract. cbn. rewrite split_id by done.
    unfold namespace_new. rewrite Hns. cbn.
    apply validate_name_Ok in Hn as [_ Hn]. by rewrite valid_name_lowercase.
  - intros m' Hm' He Hv. pose proof (Hid m Hvalid) as H1. pose proof (Hid m' Hm') as H2.
    rewrite He, Hv, H1 in H2. by injection H2.
Qed.

(** A stored contract may be upgraded exactly when the name is the same, the
    version is strictly greater and either the major version grows by one, or
    it is the same and the minor version grows by at most one.  Every other
    case is one of the errors, except an unparsable stored version, which
    traps. *)
Theorem assert_contract_upgrade_spec `{SemverLaws} (cv : ContractVersion) (to_contract : string)
    (from_version to_version : version)
    (Hparse : parse_version (cv_version cv) = Some from_version) :
  assert_contract_upgrade (Some cv) to_contract to_version = Ok tt ↔
  cv_contract cv = to_contract ∧ version_ltb from_version to_version = true ∧
  (ver_major to_version = ver_major from_version + 1 ∨
   (ver_major to_version = ver_major from_version ∧
    ver_minor from_version ≤ ver_minor to_version ≤ ver_minor from_version + 1)).
Proof.
  unfold assert_contract_upgrade. cbn [ok_or mbind outcome_bind]. rewrite Hparse.
  unfold mbind, outcome_bind, guard_or, unwrap.
  destruct (bool_decide_reflect (cv_contract cv = to_contract)) as [?|Hn]; [|naive_solver].
  destruct (version_ltb from_version to_version) eqn:Hlt; [|naive_solver].
  pose proof (version_lt_major _ _ Hlt).
  unfold checked_sub. rewrite (decide_True (P:=_ ≤ _)) by done.
  case_decide; (destruct (ver_major to_version - ver_major from_version) as [|[]|] eqn:Hd;
    try destruct (ver_minor to_version - ver_minor from_version) as [|[]|] eqn:Hm);
    split; try done; try (intros _; split_and!; done || lia); intros (_ & _ & ?); lia.
Qed.

Module NameExamples.
#[local] Existing Instance semver_ref.
#[local] Existing Instance semver_ref_laws.

Definition info : ModuleInfo := mkModuleInfo "abstract" "dex" (Version "1.2.3").

Lemma module_info_roundtrip_witness :
  module_info_from_id "abstract:dex" (Version "1.2.3") = Ok info ∧
  (contract_version_of info ≫= module_info_of_contract) = Ok info.
Proof.
  assert (module_info_validate info = Ok tt) as Hv by (vm_compute; done).
  destruct (module_info_roundtrip info Hv) as (H1 & H2 & _). split; [exact H1|by apply H2].
Defined.

Lemma assert_contract_upgrade_spec_witness :
  assert_contract_upgrade (Some (mkContractVersion "abstract:dex" "1.2.3")) "abstract:dex" "1.3.0" = Ok tt.
Proof.
  apply (@assert_contract_upgrade_spec semver_ref semver_ref_laws
           (mkContractVersion "abstract:dex" "1.2.3") "abstract:dex" "1.2.3" "1.3.0" eq_refl).
  split_and!; [done|vm_compute; done|right; vm_compute; split_and!; done].
Defined.

(** A skipped minor version is refused. *)
Example skip_refused :
  assert_contract_upgrade (Some (mkContractVersion "abstract:dex" "1.2.3")) "abstract:dex" "1.4.0" =
  Err (CannotSkipVersion "abstract:dex" "1.2.3" "1.4.0").
Proof. vm_compute. reflexivity. Qed.
End NameExamples.
