(* ===== verification/AccountIds.v ===== *)
(** * Account identifiers

    objects/truncated_chain_id.rs, objects/account/account_trace.rs and
    objects/account/account_id.rs of packages/abstract-std: chain names, the
    trace of an interchain account, account ids, their strings and their
    storage keys.

    Storage keys are bytes.  The layout cw-storage-plus gives a composite key
    and the encoding of a [u32] are the class [KeyCodec]; the framework's own
    decoder [split_first_key] is translated. *)

From S2P Require Import Prelude Cosmos Strings Objects.
From Stdlib Require Import Ascii String.

#[local] Open Scope string_scope.
#[local] Open Scope list_scope.
#[local] Open Scope Z_scope.

(** ** Truncated chain ids *)

Definition MAX_CHAIN_NAME_LENGTH : Z := 20.
Definition MIN_CHAIN_NAME_LENGTH : Z := 3.
Definition CHAIN_DELIMITER : ascii := ">"%char.

(** [TruncatedChainId::from_chain_id]: [rsplitn(2, '-').last()] *)
Definition from_chain_id (chain_id : string) : TruncatedChainId :=
  match before_last "-"%char chain_id with Some name => name | None => chain_id end.
(** [TruncatedChainId::new] *)
Definition chain_id_new (env : Env) : TruncatedChainId := from_chain_id (chain_id (block env)).

Definition chain_char (c : ascii) : bool :=
  (is_ascii_lowercase c || bool_decide (c = "-"%char))%bool.

(** [TruncatedChainId::verify] *)
Definition chain_verify (c : TruncatedChainId) : outcome AbstractError unit :=
  if (bool_decide (c = "") || bool_decide (slen c < MIN_CHAIN_NAME_LENGTH)
      || bool_decide (MAX_CHAIN_NAME_LENGTH < slen c))%bool
  then Err (FormattingError "chain-seq" "between 3 and 20" (pretty (slen c)))
  else if negb (sall chain_char c)
  then Err (FormattingError "chain_name" "chain-name" c)
  else Ok tt.
(** [TruncatedChainId::from_string], [FromStr for TruncatedChainId] *)
Definition chain_from_string (value : string) : outcome AbstractError TruncatedChainId :=
  chain_verify value ≫= λ _, Ok value.

(** ** Account traces *)

Definition MAX_TRACE_LENGTH : nat := 6.
Definition LOCAL : string := "local".

(** [AccountTrace::verify] *)
Definition verify (t : AccountTrace) : outcome AbstractError unit :=
  match t with
  | Local => Ok tt
  | Remote chain_trace =>
      guard_or (bool_decide (List.length chain_trace ≤ MAX_TRACE_LENGTH)%nat)
        (FormattingError "chain-seq" "between 1 and 6" (pretty (List.length chain_trace))) ≫= λ _,
      ofor chain_trace (λ chain,
        chain_verify chain ≫= λ _,
        guard_or (negb (bool_decide (chain = LOCAL)))
          (FormattingError "chain-seq" "not 'local'" chain))
  end.
(** [AccountTrace::verify_remote], [verify_local] *)
Definition verify_remote (t : AccountTrace) : outcome AbstractError unit :=
  if decide (t = Local) then Err (AbsStd (StdMsg "expected remote account trace")) else verify t.
Definition verify_local (t : AccountTrace) : outcome AbstractError unit :=
  match t with
  | Remote _ => Err (AbsStd (StdMsg "expected local account trace"))
  | Local => Ok tt
  end.
(** [AccountTrace::push_chain], [push_local_chain] *)
Definition push_chain (t : AccountTrace) (chain_name : TruncatedChainId) : AccountTrace :=
  match t with
  | Local => Remote [chain_name]
  | Remote path => Remote (path ++ [chain_name])
  end.
Definition push_local_chain (t : AccountTrace) (env : Env) : AccountTrace :=
  push_chain t (chain_id_new env).

(** [Display for AccountTrace] *)
Definition show_trace (t : AccountTrace) : string :=
  match t with
  | Local => LOCAL
  | Remote chain_name => join CHAIN_DELIMITER (reverse chain_name)
  end.
(** [account_trace_from_str] *)
Definition account_trace_from_str (trace : string) : AccountTrace :=
  if decide (trace = LOCAL) then Local
  else Remote (reverse (split_on CHAIN_DELIMITER trace)).
(** [AccountTrace::from_str] *)
Definition trace_from_str (trace : string) : outcome AbstractError AccountTrace :=
  let acc := account_trace_from_str trace in
  verify acc ≫= λ _, Ok acc.

(** ** Account ids *)

(** [AccountId::new], [AccountId::local], [AccountId::remote] *)
Definition account_id_new (seq : Z) (trace : AccountTrace) : outcome AbstractError AccountId :=
  verify trace ≫= λ _, Ok (mkAccountId trace seq).
Definition account_id_local (seq : Z) : AccountId := mkAccountId Local seq.
Definition account_id_remote (seq : Z) (trace : list TruncatedChainId) :
    outcome AbstractError AccountId :=
  verify (Remote trace) ≫= λ _, Ok (mkAccountId (Remote trace) seq).
Definition is_local (id : AccountId) : bool :=
  match acc_trace id with Local => true | Remote _ => false end.
Definition is_remote (id : AccountId) : bool := negb (is_local id).

(** [AccountId::into_remote_account_id] *)
Definition into_remote_account_id (id : AccountId) (client_chain host_chain : TruncatedChainId) :
    AccountId :=
  match acc_trace id with
  | Remote chains =>
      if decide (last chains ≠ Some host_chain) then
        mkAccountId (Remote (chains ++ [client_chain])) (acc_seq id)
      else
        let chains := removelast chains in
        mkAccountId (if decide (chains = []) then Local else Remote chains) (acc_seq id)
  | Local => mkAccountId (Remote [client_chain]) (acc_seq id)
  end.

(** [Display for AccountId] *)
Definition show_account_id (id : AccountId) : string :=
  show_trace (acc_trace id) +:+ "-" +:+ pretty (Z.to_N (acc_seq id)).

(** [str::parse::<u32>]: an optional plus sign, then digits. *)
Definition digit_of (c : ascii) : option Z :=
  if is_ascii_digit c then Some (Z.of_nat (nat_of_ascii c) - 48) else None.
Fixpoint parse_digits (w acc : Z) (s : string) : option Z :=
  match s with
  | EmptyString => Some acc
  | String c s =>
      d ← digit_of c;
      if decide (acc * 10 + d < 2 ^ w) then parse_digits w (acc * 10 + d) s else None
  end.
Definition parse_u (w : Z) (s : string) : option Z :=
  match s with
  | EmptyString => None
  | String c s' =>
      if decide (c = "+"%char) then
        match s' with EmptyString => None | _ => parse_digits w 0 s' end
      else parse_digits w 0 s
  end.

(** [FromStr for AccountId] *)
Definition account_id_from_str (value : string) : outcome AbstractError AccountId :=
  '(trace_str, seq_str) ← ok_or (split_once "-"%char value)
    (FormattingError "AccountId" "trace-999" value);
  seq ← unwrap (parse_u 32 seq_str);
  if starts_with LOCAL value then Ok (mkAccountId Local seq)
  else Ok (mkAccountId (account_trace_from_str trace_str) seq).

(** ** Storage keys *)

(** Raw key bytes. *)
Definition bytes : Type := list ascii.
Definition as_bytes (s : string) : bytes := list_ascii_of_string s.
Definition from_bytes (b : bytes) : string := string_of_list_ascii b.
(** [u16::to_be_bytes], [u16::from_be_bytes] *)
Definition be16 (n : nat) : bytes := [ascii_of_nat (n / 256); ascii_of_nat (n mod 256)].
Definition of_be16 (b : bytes) : nat :=
  match b with
  | [h; l] => (nat_of_ascii h * 256 + nat_of_ascii l)%nat
  | _ => 0%nat
  end.

(** [cw_storage_plus]: the layout of a key made of several elements, of a
    [u32] element, and of UTF-8 text.  [None] is a decoding error. *)
Class KeyCodec := {
  joined_key : list bytes → bytes;
  u32_key : Z → bytes;
  u32_from_vec : bytes → option Z;
  from_utf8 : bytes → option string
}.
Class KeyCodecLaws `{KeyCodec} : Prop := {
  joined_key_one k : joined_key [k] = k;
  joined_key_cons k k' ks :
    Z.of_nat (List.length k) < 65536 →
    joined_key (k :: k' :: ks) = be16 (List.length k) ++ k ++ joined_key (k' :: ks);
  u32_roundtrip n : in_u 32 n → u32_from_vec (u32_key n) = Some n;
  from_utf8_ascii b :
    Forall (λ c, (nat_of_ascii c < 128)%nat) b → from_utf8 b = Some (from_bytes b)
}.

(** [deser::split_first_key]: slicing out of bounds is a panic. *)
Fixpoint split_first_go (key_elems : nat) (first_key value : bytes) :
    outcome StdError (bytes * bytes) :=
  match key_elems with
  | O => Ok (first_key, value)
  | S rest_elems =>
      if decide (List.length value < 2)%nat then Panic else
      let len_slice := take 2 value in
      let value := drop 2 value in
      let is_last_key := bool_decide (rest_elems = 0%nat) in
      let first_key := if is_last_key then first_key else first_key ++ len_slice in
      let subkey_len := of_be16 len_slice in
      if decide (List.length value < subkey_len)%nat then Panic else
      split_first_go rest_elems (first_key ++ take subkey_len value) (drop subkey_len value)
  end.
Definition split_first_key (key_elems : nat) (value : bytes) : outcome StdError (bytes * bytes) :=
  split_first_go key_elems [] value.

Section keys.
Context `{KeyCodec}.

(** [AccountTrace::key] *)
Definition trace_key (t : AccountTrace) : list bytes :=
  let serialization_result :=
    match t with
    | Local => [as_bytes LOCAL]
    | Remote chain_name => as_bytes <$> chain_name
    end in
  serialization_result ++ replicate (MAX_TRACE_LENGTH - List.length serialization_result) [].
(** [AccountId::key] *)
Definition account_id_key (id : AccountId) : list bytes :=
  trace_key (acc_trace id) ++ [u32_key (acc_seq id)].

(** [AccountTrace::from_vec], with [n] iterations left of [i in 0..5] *)
Fixpoint trace_from_vec_go (n i : nat) (trace : list TruncatedChainId) (value : bytes) :
    outcome StdError AccountTrace :=
  match n with
  | O => Ok (Remote trace)
  | S n =>
      '(current_chain, remainder) ← split_first_key 1 value;
      if decide (current_chain = []) then trace_from_vec_go n (S i) trace remainder else
      chain ← ok_or (from_utf8 current_chain) (StdMsg "invalid utf-8");
      if decide (i = 0%nat ∧ chain = LOCAL) then Ok Local else
      name ← unwrap (ok (chain_from_string chain));
      trace_from_vec_go n (S i) (trace ++ [name]) remainder
  end.
Definition trace_from_vec (value : bytes) : outcome StdError AccountTrace :=
  trace_from_vec_go (MAX_TRACE_LENGTH - 1) 0 [] value.

(** [AccountId::from_vec] *)
Definition account_id_from_vec (value : bytes) : outcome StdError AccountId :=
  '(trace, seq) ← split_first_key MAX_TRACE_LENGTH value;
  seq ← ok_or (u32_from_vec seq) (StdMsg "u32 key");
  trace ← trace_from_vec trace;
  Ok (mkAccountId trace seq).
End keys.

(** ** Lemmas *)

Lemma as_from_bytes s : from_bytes (as_bytes s) = s.
Proof. apply string_of_list_ascii_of_string. Qed.
Lemma as_bytes_nil s : as_bytes s = [] ↔ s = "".
Proof. by destruct s. Qed.
Lemma as_bytes_length s : Z.of_nat (List.length (as_bytes s)) = slen s.
Proof. unfold slen, as_bytes. induction s; simpl in *; lia. Qed.

Lemma of_be16_be16 n : Z.of_nat n < 65536 → of_be16 (be16 n) = n.
Proof.
  intros Hn. unfold of_be16, be16.
  assert (n / 256 < 256)%nat by (apply Nat.Div0.div_lt_upper_bound; lia).
  rewrite !nat_ascii_embedding by (try apply Nat.mod_upper_bound; lia).
  pose proof (Nat.div_mod_eq n 256). lia.
Qed.

Lemma chain_verify_Ok c :
  chain_verify c = Ok tt ↔
  MIN_CHAIN_NAME_LENGTH ≤ slen c ≤ MAX_CHAIN_NAME_LENGTH ∧ sall chain_char c = true.
Proof.
  unfold chain_verify.
  destruct (bool_decide (c = "") || _ || _)%bool eqn:Hl.
  - split; [done|]. intros [? _]. rewrite !orb_true_iff, !bool_decide_eq_true in Hl.
    unfold MIN_CHAIN_NAME_LENGTH, MAX_CHAIN_NAME_LENGTH in *.
    destruct Hl as [[->|]|]; [change (slen "") with 0 in *|..]; lia.
  - rewrite !orb_false_iff, !bool_decide_eq_false in Hl.
    destruct (sall chain_char c); simpl; split; naive_solver lia.
Qed.

Lemma chain_char_ascii c : chain_char c = true → (nat_of_ascii c < 128)%nat.
Proof.
  unfold chain_char, is_ascii_lowercase. rewrite orb_true_iff, andb_true_iff, bool_decide_eq_true.
  intros [[_ ?%Nat.leb_le]| ->]; [lia|]. vm_compute. lia.
Qed.
Lemma sall_bytes p s : sall p s = true → Forall (λ c, p c = true) (as_bytes s).
Proof.
  induction s as [|a s IH]; [constructor|]. simpl. rewrite andb_true_iff. intros [? ?].
  constructor; auto.
Qed.

Lemma verify_Remote l :
  verify (Remote l) = Ok tt ↔
  (List.length l ≤ MAX_TRACE_LENGTH)%nat ∧ Forall (λ c, chain_verify c = Ok tt ∧ c ≠ LOCAL) l.
Proof.
  unfold verify. rewrite obind_Ok. setoid_rewrite ofor_Ok. setoid_rewrite guard_or_Ok.
  setoid_rewrite bool_decide_eq_true.
  assert (∀ c, (chain_verify c ≫= λ _, guard_or (negb (bool_decide (c = LOCAL)))
     (FormattingError "chain-seq" "not 'local'" c)) = Ok tt ↔ chain_verify c = Ok tt ∧ c ≠ LOCAL) as Hc.
  { intros c. rewrite obind_Ok. setoid_rewrite guard_or_Ok.
    setoid_rewrite negb_true_iff. setoid_rewrite bool_decide_eq_false.
    split; [intros ([] & ? & ?); done|intros [? ?]; by exists tt]. }
  setoid_rewrite Hc. split; [intros (_ & ? & ?); done|intros [? ?]; by exists tt].
Qed.

Section key_lemmas.
Context `{KeyCodecLaws}.

Definition short (k : bytes) : Prop := Z.of_nat (List.length k) < 65536.

Lemma split_first_step n acc k rest :
  short k →
  split_first_go (S n) acc (be16 (List.length k) ++ k ++ rest) =
  split_first_go n (acc ++ (if decide (n = 0%nat) then [] else be16 (List.length k)) ++ k) rest.
Proof.
  intros Hk. cbn [split_first_go].
  rewrite decide_False by (unfold be16; simpl; lia).
  change (take 2 (be16 (List.length k) ++ k ++ rest)) with (be16 (List.length k)).
  change (drop 2 (be16 (List.length k) ++ k ++ rest)) with (k ++ rest).
  rewrite of_be16_be16 by done. rewrite decide_False by (rewrite length_app; lia).
  rewrite take_app_length, drop_app_length. case_decide as Hn.
  - by rewrite bool_decide_true.
  - rewrite bool_decide_false by done. by rewrite <-app_assoc.
Qed.

(** Splitting off the first [length ks] elements of a key. *)
Lemma split_first_joined ks r acc :
  ks ≠ [] → Forall short ks →
  split_first_go (List.length ks) acc (joined_key (ks ++ [r])) = Ok (acc ++ joined_key ks, r).
Proof.
  intros Hne Hks. revert acc. induction Hks as [|k ks Hk Hks IH]; intros acc; [done|].
  destruct ks as [|k' ks].
  - cbn [app List.length]. rewrite joined_key_cons, split_first_step by done.
    rewrite joined_key_one. simpl. by rewrite joined_key_one.
  - change ((k :: k' :: ks) ++ [r]) with (k :: (k' :: (ks ++ [r]))).
    rewrite joined_key_cons by done. cbn [List.length].
    rewrite split_first_step by done. rewrite decide_False by done.
    rewrite (IH ltac:(done)), (joined_key_cons k k' ks) by done. by rewrite <-!app_assoc.
Qed.

Definition placeholder_or_chain (k : bytes) : Prop :=
  k = [] ∨ ∃ c, k = as_bytes c ∧ chain_verify c = Ok tt ∧ c ≠ LOCAL.

Lemma chain_bytes c : chain_verify c = Ok tt → as_bytes c ≠ [] ∧ short (as_bytes c) ∧
  from_utf8 (as_bytes c) = Some c.
Proof.
  rewrite chain_verify_Ok. unfold MIN_CHAIN_NAME_LENGTH, MAX_CHAIN_NAME_LENGTH, short.
  intros [? Hs]. rewrite as_bytes_length. split_and!; [|lia|].
  - rewrite as_bytes_nil. intros ->. unfold slen in *. simpl in *. lia.
  - rewrite from_utf8_ascii; [by rewrite as_from_bytes|].
    eapply Forall_impl; [by apply sall_bytes|]. apply chain_char_ascii.
Qed.

(** The decoder of a trace reads back the first [n] elements of the key. *)
Lemma trace_from_vec_go_joined ks n i tr :
  (n < List.length ks)%nat → Forall placeholder_or_chain (take n ks) →
  trace_from_vec_go n i tr (joined_key ks) =
  Ok (Remote (tr ++ (from_bytes <$> filter (.≠ []) (take n ks)))).
Proof.
  revert i tr ks. induction n as [|n IH]; intros i tr ks Hn Hks.
  - rewrite take_0. simpl. by rewrite app_nil_r.
  - destruct ks as [|k [|k' ks]]; [simpl in *; lia..|].
    rewrite firstn_cons in *. inversion_clear Hks as [|?? Hk Hks'].
    assert (short k) as Hs.
    { destruct Hk as [->|(c & -> & Hc & _)]; [done|]. by apply chain_bytes. }
    rewrite joined_key_cons by done. cbn [trace_from_vec_go]. unfold split_first_key.
    rewrite split_first_step by done. simpl split_first_go.
    unfold mbind at 1, outcome_bind at 1. cbn [app].
    destruct Hk as [->|(c & -> & Hc & Hl)].
    + rewrite decide_True by done. rewrite IH by (simpl in *; auto; lia). done.
    + destruct (chain_bytes c Hc) as (Hne & _ & Hu). rewrite decide_False by done.
      rewrite Hu. simpl. rewrite decide_False by naive_solver.
      unfold chain_from_string. rewrite Hc. simpl. rewrite IH by (simpl in *; auto; lia).
      rewrite filter_cons_True by done. rewrite fmap_cons, as_from_bytes, <-app_assoc. done.
Qed.
End key_lemmas.

(** The keys of a trace that passes [verify]: six elements, all decodable. *)
Lemma trace_key_length `{KeyCodec} t :
  verify t = Ok tt → List.length (trace_key t) = MAX_TRACE_LENGTH.
Proof.
  unfold trace_key, MAX_TRACE_LENGTH. destruct t as [|l].
  - done.
  - rewrite verify_Remote. unfold MAX_TRACE_LENGTH. intros [? _].
    rewrite length_app, length_replicate, !length_fmap. unfold TruncatedChainId in *. lia.
Qed.
Lemma remote_key_elements `{KeyCodec} l :
  verify (Remote l) = Ok tt → Forall placeholder_or_chain (trace_key (Remote l)).
Proof.
  rewrite verify_Remote. intros [_ Hl]. unfold trace_key. apply Forall_app. split.
  - apply Forall_fmap. eapply Forall_impl; [exact Hl|]. intros c [? ?]. right. by exists c.
  - apply Forall_replicate. by left.
Qed.
Lemma trace_key_short `{KeyCodecLaws} t : verify t = Ok tt → Forall short (trace_key t).
Proof.
  intros Ht. destruct t as [|l]; [repeat (constructor; [done|]); constructor|].
  eapply Forall_impl; [by apply remote_key_elements|].
  intros k [->|(c & -> & Hc & _)]; [done|]. by apply chain_bytes.
Qed.
Lemma chains_of_key `{KeyCodecLaws} n l :
  Forall (λ c, chain_verify c = Ok tt ∧ c ≠ LOCAL) l →
  from_bytes <$> filter (.≠ []) (take n ((as_bytes <$> l) ++ replicate (MAX_TRACE_LENGTH - List.length (as_bytes <$> l)) [])) = take n l.
Proof.
  generalize (MAX_TRACE_LENGTH - List.length (as_bytes <$> l))%nat as p. intros p Hl.
  revert n. induction Hl as [|c l [Hc _] Hl IH]; intros n.
  - simpl. rewrite take_nil. rewrite take_replicate.
    induction (n `min` p)%nat as [|q IH]; [done|]. simpl. by rewrite filter_cons_False by naive_solver.
  - destruct n as [|n]; [done|]. rewrite fmap_cons. cbn [app take].
    rewrite filter_cons_True by (by apply chain_bytes).
    rewrite fmap_cons, as_from_bytes. f_equal. apply IH.
Qed.

(** Decoding the storage key of a verified trace. *)
Lemma trace_key_decode `{KeyCodecLaws} t :
  verify t = Ok tt →
  trace_from_vec (joined_key (trace_key t)) =
    Ok (match t with Local => Local | Remote l => Remote (take (MAX_TRACE_LENGTH - 1) l) end).
Proof.
  intros Ht. unfold trace_from_vec. destruct t as [|l].
  - change (trace_key Local) with (as_bytes LOCAL :: [] :: replicate 4 []).
    rewrite joined_key_cons by done. cbn [trace_from_vec_go MAX_TRACE_LENGTH Nat.sub].
    unfold split_first_key. rewrite split_first_step by done. simpl split_first_go.
    unfold mbind at 1, outcome_bind at 1. cbn [app].
    rewrite decide_False by done.
    rewrite from_utf8_ascii by (repeat (constructor; [by apply Nat.ltb_lt|]); constructor).
    done.
  - pose proof (remote_key_elements l Ht) as Hk. pose proof (trace_key_length _ Ht) as Hn.
    rewrite trace_from_vec_go_joined; [|rewrite Hn; unfold MAX_TRACE_LENGTH; lia|by apply Forall_take].
    apply verify_Remote in Ht as [_ Hl]. unfold trace_key.
    by rewrite chains_of_key.
Qed.

(** The storage key of an account id reads back as the account id, for every
    local account and every remote account whose trace passes [verify] and has
    at most five chains.  [from_vec] reads the key elements [0..5] of the six
    that [key] writes, so of a trace with six chains, which [verify] allows,
    the last one is lost. *)
Theorem account_id_key_roundtrip `{KeyCodecLaws} (id : AccountId)
    (Hverify : verify (acc_trace id) = Ok tt) (Hseq : in_u 32 (acc_seq id)) :
  account_id_from_vec (joined_key (account_id_key id)) =
  Ok (mkAccountId
        (match acc_trace id with
         | Local => Local
         | Remote chains => Remote (take (MAX_TRACE_LENGTH - 1) chains)
         end) (acc_seq id)).
Proof.
  unfold account_id_from_vec, account_id_key, split_first_key.
  pose proof (trace_key_length _ Hverify) as Hn.
  rewrite <-Hn at 1. rewrite split_first_joined; [|by destruct (trace_key _)|by apply trace_key_short].
  unfold mbind, outcome_bind. rewrite u32_roundtrip by done. simpl ok_or. cbn iota.
  cbn [app]. by rewrite trace_key_decode.
Qed.

(** ** Moving an account id between two chains *)

(** A path of chains that never goes back where it just came from. *)
Fixpoint no_backtrack (l : list TruncatedChainId) : Prop :=
  match l with
  | x :: ((_ :: z :: _) as l') => x ≠ z ∧ no_backtrack l'
  | _ => True
  end.
(** The path an account id takes to the chain it is on. *)
Definition trace_path (t : AccountTrace) : list TruncatedChainId :=
  match t with Local => [] | Remote l => l end.
Definition well_routed (chain : TruncatedChainId) (id : AccountId) : Prop :=
  acc_trace id ≠ Remote [] ∧ no_backtrack (trace_path (acc_trace id) ++ [chain]).

Lemma no_backtrack_snoc l x y z :
  no_backtrack (l ++ [x; y]) → x ≠ z → no_backtrack (l ++ [x; y; z]).
Proof.
  induction l as [|a [|b [|c l]] IH]; simpl in *; try naive_solver.
Qed.
Lemma no_backtrack_init l x : no_backtrack (l ++ [x]) → no_backtrack l.
Proof.
  induction l as [|a [|b [|c l]] IH]; simpl in *; try naive_solver.
Qed.
Lemma no_backtrack_last l x y z : no_backtrack (l ++ [x; y; z]) → x ≠ z.
Proof. induction l as [|a [|b [|c l]] IH]; simpl in *; naive_solver. Qed.

Lemma removelast_snoc {A} (l : list A) x : removelast (l ++ [x]) = l.
Proof. rewrite removelast_app by done. simpl. by rewrite app_nil_r. Qed.

Lemma into_remote_inverse (id : AccountId) (client_chain host_chain : TruncatedChainId)
    (Hrouted : well_routed client_chain id) :
  let id' := into_remote_account_id id client_chain host_chain in
  well_routed host_chain id' ∧ acc_seq id' = acc_seq id ∧
  into_remote_account_id id' host_chain client_chain = id.
Proof.
  destruct id as [[|l] seq]; destruct Hrouted as [Hne Hp]; unfold into_remote_account_id; simpl in *.
  { split_and!; [split; simpl; done|done|]. rewrite decide_False by naive_solver. done. }
  destruct l as [|x l _] using rev_ind; [done|]. rewrite last_snoc, <-app_assoc in *. simpl in Hp.
  case_decide as Hx; simpl.
  - assert (x ≠ host_chain) as Hxh by congruence. split_and!; [split; simpl|done|].
    + by destruct l.
    + rewrite <-!app_assoc. simpl. by apply no_backtrack_snoc.
    + change [x; client_chain] with ([x] ++ [client_chain]). rewrite !app_assoc.
      rewrite last_snoc, decide_False by naive_solver.
      rewrite removelast_snoc. rewrite decide_False by (by destruct l). done.
  - assert (x = host_chain) as -> by (apply dec_stable; congruence).
    rewrite removelast_snoc. case_decide as Hl; simpl.
    + subst l. done.
    + split_and!; [split; simpl; [naive_solver|]|done|].
      * apply (no_backtrack_init _ client_chain). by rewrite <-app_assoc.
      * destruct l as [|y l _] using rev_ind; [done|]. rewrite <-app_assoc in Hp.
        apply no_backtrack_last in Hp. rewrite last_snoc, decide_True by congruence. done.
Qed.

(** An account id that travelled without backtracking keeps doing so on
    every host chain, keeps its sequence, and mapping it to the host chain and
    back gives the account id itself: an interchain account and its origin
    identify each other. *)
Theorem into_remote_account_id_inverse (id : AccountId) (client_chain host_chain : TruncatedChainId)
    (Hrouted : well_routed client_chain id) :
  let id' := into_remote_account_id id client_chain host_chain in
  well_routed host_chain id' ∧ acc_seq id' = acc_seq id ∧
  into_remote_account_id id' host_chain client_chain = id.
Proof. exact (into_remote_inverse id client_chain host_chain Hrouted). Qed.

(** ** Strings of account ids *)

Lemma digit_of_pretty n : (n < 10)%N → digit_of (pretty_N_char n) = Some (Z.of_N n).
Proof.
  intros Hn. assert (n ∈ [0; 1; 2; 3; 4; 5; 6; 7; 8; 9]%N) as Hin
    by (rewrite !elem_of_cons; lia).
  repeat (apply elem_of_cons in Hin as [->|Hin]; [done|]). by apply elem_of_nil in Hin.
Qed.

Lemma parse_digits_go w x s :
  Z.of_N x < 2 ^ w → parse_digits w 0 (pretty_N_go x s) = parse_digits w (Z.of_N x) s.
Proof.
  revert s. induction (N.lt_wf_0 x) as [x _ IH]. intros s Hw.
  destruct (decide (x = 0%N)) as [->|Hx]; [by rewrite pretty_N_go_0|].
  pose proof (N.div_lt x 10 ltac:(lia) ltac:(lia)).
  pose proof (N.mod_lt x 10 ltac:(lia)). pose proof (N.div_mod x 10 ltac:(lia)) as Hdm.
  rewrite pretty_N_go_step by lia. rewrite IH by lia. cbn [parse_digits].
  rewrite digit_of_pretty by done. cbn [mbind option_bind].
  rewrite decide_True by lia. f_equal. lia.
Qed.

Lemma parse_digits_unsigned w s n : s ≠ "" → parse_digits w 0 s = Some n → parse_u w s = Some n.
Proof.
  destruct s as [|c s]; [done|]. intros _ Hp. unfold parse_u.
  destruct (decide (c = "+"%char)) as [->|]; done.
Qed.

(** [parse] after [to_string] of an unsigned integer. *)
Lemma parse_u_pretty w n : 0 < w → in_u w n → parse_u w (pretty (Z.to_N n)) = Some n.
Proof.
  intros Hw [Hn Hlt]. unfold pretty, pretty_N.
  destruct (decide (Z.to_N n = 0%N)) as [H0|H0].
  - assert (n = 0) as -> by lia. apply parse_digits_unsigned; [done|]. simpl.
    rewrite decide_True by (simpl; apply Z.pow_pos_nonneg; lia). done.
  - assert (parse_digits w 0 (pretty_N_go (Z.to_N n) "") = Some n) as Hp.
    { rewrite parse_digits_go by lia. simpl. by rewrite Z2N.id. }
    apply parse_digits_unsigned; [|done]. intros He. rewrite He in Hp. injection Hp as Hp. lia.
Qed.

Lemma sall_join p c l :
  p c = true → Forall (λ s, sall p s = true) l → sall p (join c l) = true.
Proof.
  intros Hc Hl. induction Hl as [|s l Hs Hl IH]; [done|].
  destruct l as [|t l]; [done|].
  change (join c (s :: t :: l)) with (s +:+ String c (join c (t :: l))).
  rewrite sall_app, Hs. simpl. by rewrite Hc.
Qed.

Lemma starts_with_app p s a t :
  no_char a p → starts_with p s = false → starts_with p (s +:+ String a t) = false.
Proof.
  unfold starts_with, no_char. revert s. induction p as [|b p IH]; intros s; [by destruct s|].
  simpl. rewrite andb_true_iff, negb_true_iff, bool_decide_eq_false. intros [Hb Hp].
  destruct s as [|b' s]; simpl.
  - intros _. by destruct (ascii_dec b a).
  - destruct (ascii_dec b b'); [by apply IH|done].
Qed.

Lemma chain_no_char c a :
  chain_char a = false → chain_verify c = Ok tt → no_char a c.
Proof. intros Ha [_ Hs]%chain_verify_Ok. by eapply sall_no_char. Qed.

(** The trace string of a verified trace, and back. *)
Lemma trace_string_roundtrip t :
  verify t = Ok tt → t ≠ Remote [] → account_trace_from_str (show_trace t) = t.
Proof.
  intros Ht Hne. unfold account_trace_from_str. destruct t as [|l]; [done|].
  apply verify_Remote in Ht as [_ Hl].
  assert (Forall (no_char CHAIN_DELIMITER) (reverse l)) as Hn.
  { apply Forall_reverse. eapply Forall_impl; [exact Hl|]. intros c [Hc _]. by apply chain_no_char. }
  assert (reverse l ≠ []) as Hr.
  { intros Hr. apply Hne. f_equal. rewrite <-(reverse_involutive l), Hr. done. }
  pose proof (split_join CHAIN_DELIMITER (reverse l) Hr Hn) as Hs. simpl.
  rewrite decide_False.
  - rewrite Hs. by rewrite reverse_involutive.
  - intros HL. rewrite HL in Hs. change (split_on CHAIN_DELIMITER LOCAL) with [LOCAL] in Hs.
    assert (l = [LOCAL]) as -> by (rewrite <-(reverse_involutive l), <-Hs; done).
    inversion_clear Hl as [|?? [_ ?]]. done.
Qed.

(** Chains whose names survive the string form of an account id: no hyphen,
    and the chain printed first does not start with "local". *)
Definition string_safe (t : AccountTrace) : Prop :=
  match t with
  | Local => True
  | Remote l => Forall (no_char "-"%char) l ∧
      match last l with Some c => starts_with LOCAL c = false | None => False end
  end.

(** An account id with a verified trace prints as [trace-sequence] and
    parses back to itself, provided no chain name contains a hyphen and the
    outermost chain name does not start with "local"; without the proviso
    [from_str] splits at the first hyphen of the chain name, or takes the
    account for a local one. *)
Theorem account_id_string_roundtrip (id : AccountId)
    (Hverify : verify (acc_trace id) = Ok tt) (Hseq : in_u 32 (acc_seq id))
    (Hsafe : string_safe (acc_trace id)) :
  account_id_from_str (show_account_id id) = Ok id.
Proof.
  destruct id as [t seq]. simpl in *. unfold account_id_from_str, show_account_id. simpl acc_trace.
  assert (no_char "-"%char (show_trace t)) as Hn.
  { destruct t as [|l]; [done|]. destruct Hsafe as [Hl _]. apply sall_join; [done|].
    by apply Forall_reverse. }
  change (show_trace t +:+ "-" +:+ ?x) with (show_trace t +:+ String "-"%char x).
  rewrite split_once_app by done. cbn. rewrite parse_u_pretty by (done || lia). cbn.
  destruct t as [|l]; [done|].
  rewrite trace_string_roundtrip by (done || (intros [= ->]; by destruct Hsafe)).
  destruct Hsafe as [_ Hlast]. destruct l as [|c l _] using rev_ind; [done|].
  rewrite last_snoc in Hlast. simpl show_trace. rewrite reverse_snoc.
  enough (starts_with LOCAL (join CHAIN_DELIMITER (c :: reverse l) +:+
    String "-"%char (pretty (Z.to_N seq))) = false) as -> by done.
  destruct (reverse l) as [|d l']; [by apply starts_with_app|].
  change (join CHAIN_DELIMITER (c :: d :: l')) with (c +:+ String CHAIN_DELIMITER (join CHAIN_DELIMITER (d :: l'))).
  rewrite <-string_app_assoc. by apply starts_with_app.
Qed.

Module AccountIdExamples.
(** The layout cw-storage-plus documents. *)
#[local] Instance codec_ref : KeyCodec := {|
  joined_key := fix go ks :=
    match ks with
    | [] => []
    | [k] => k
    | k :: ks => be16 (List.length k) ++ k ++ go ks
    end;
  u32_key n :=
    ascii_of_nat <$> [Z.to_nat (n / 2 ^ 24); Z.to_nat (n / 2 ^ 16 mod 256);
                      Z.to_nat (n / 2 ^ 8 mod 256); Z.to_nat (n mod 256)];
  u32_from_vec b :=
    match b with
    | [x; y; z; t] =>
        let v c := Z.of_nat (nat_of_ascii c) in
        Some (v x * 2 ^ 24 + v y * 2 ^ 16 + v z * 2 ^ 8 + v t)
    | _ => None
    end;
  from_utf8 b := if decide (Forall (λ c, (nat_of_ascii c < 128)%nat) b) then Some (from_bytes b) else None
|}.
Lemma codec_ref_laws : KeyCodecLaws.
Proof.
  split; try done.
  - intros n [Hn Hlt]. cbn. rewrite !nat_ascii_embedding by div_lia. f_equal. div_lia.
  - intros b Hb. simpl. by rewrite decide_True.
Qed.

Definition id : AccountId := mkAccountId (Remote ["juno"; "osmosis"]) 7.
Definition id6 : AccountId := mkAccountId (Remote ["aaa"; "bbb"; "ccc"; "ddd"; "eee"; "fff"]) 7.

Lemma account_id_key_roundtrip_witness :
  account_id_from_vec (joined_key (account_id_key id)) = Ok id ∧
  account_id_from_vec (joined_key (account_id_key id6)) =
    Ok (mkAccountId (Remote ["aaa"; "bbb"; "ccc"; "ddd"; "eee"]) 7).
Proof.
  pose proof codec_ref_laws as HL.
  split; [exact (@account_id_key_roundtrip codec_ref HL id eq_refl ltac:(vm_compute; done))|].
  exact (@account_id_key_roundtrip codec_ref HL id6 eq_refl ltac:(vm_compute; done)).
Defined.

Lemma into_remote_account_id_inverse_witness :
  let id' := into_remote_account_id id "neutron" "osmosis" in
  acc_trace id' = Remote ["juno"] ∧ into_remote_account_id id' "osmosis" "neutron" = id.
Proof.
  assert (well_routed "neutron" id) as Hr by (split; [done|]; simpl; split; [|split]; done).
  split; [done|]. apply (into_remote_account_id_inverse id "neutron" "osmosis" Hr).
Defined.

Lemma account_id_string_roundtrip_witness :
  show_account_id id = "osmosis>juno-7" ∧ account_id_from_str (show_account_id id) = Ok id.
Proof.
  split; [vm_compute; done|].
  apply (account_id_string_roundtrip id eq_refl); [vm_compute; done|].
  split; [repeat constructor|done].
Defined.

(** What happens without the provisos. *)
Example hyphen_panics : account_id_from_str "osmo-test-7" = Panic.
Proof. reflexivity. Qed.
Example localnet_is_local : account_id_from_str "localnet-7" = Ok (mkAccountId Local 7).
Proof. reflexivity. Qed.
End AccountIdExamples.
