(* ===== verification/AnsObjects.v ===== *)
(** * Entries of the Abstract Name Service

    objects/entry, objects/pool and objects/ans_asset.rs of
    packages/abstract-std: the names assets, contracts, channels and pools are
    stored under, their text forms and the conversions between them.

    An [AssetEntry] is a [String] in lower case; the derived [Deserialize] does
    not lower it, so an entry that arrives in a message is any text.  Sorting
    names is by bytes, [merge_sort String.le]: the order is total and
    antisymmetric, so a stable and an unstable sort agree. *)

From S2P Require Import Prelude Cosmos Strings Objects AccountIds.
From Stdlib Require Import Ascii String.
#[local] Open Scope string_scope.
#[local] Open Scope list_scope.
#[local] Open Scope Z_scope.

Definition ASSET_DELIMITER : ascii := ",".
Definition TYPE_DELIMITER : ascii := "/".
Definition ATTRIBUTE_DELIMITER : ascii := ":".
Definition CHAIN_DELIMITER : ascii := ">".
(** A delimiter between two texts. *)
Definition text_of (c : ascii) : string := String c EmptyString.

(** ** Assets (entry/asset_entry.rs, ans_asset.rs) *)

(** [AssetEntry(String)] *)
Definition AssetEntry : Type := string.
(** [AssetEntry::new], [From], [format] *)
Definition asset_entry_new (entry : string) : AssetEntry := to_lowercase entry.
(** [AssetEntry::src_chain] *)
Definition src_chain (e : AssetEntry) : outcome AbstractError string :=
  let formatting_error := Err (EntryFormattingError e "src_chain>asset_name") in
  match split_once CHAIN_DELIMITER e with
  | None => formatting_error
  | Some (chain, asset_name) =>
      if decide (chain = "") then formatting_error
      else if decide (asset_name ≠ "") then Ok chain else formatting_error
  end.
Record AnsAsset := mkAnsAsset { aa_name : AssetEntry; aa_amount : Z }.
Definition show_ans_asset (a : AnsAsset) : string :=
  aa_name a +:+ ":" +:+ pretty (Z.to_N (aa_amount a)).

(** ** Contracts and channels (entry/contract_entry.rs, entry/channel_entry.rs) *)

(** [UncheckedContractEntry] and [ContractEntry] have the same fields. *)
Record ContractEntry := mkContractEntry { ce_protocol : string; ce_contract : string }.
Definition contract_entry_check (e : ContractEntry) : ContractEntry :=
  mkContractEntry (to_lowercase (ce_protocol e)) (to_lowercase (ce_contract e)).
(** [UncheckedContractEntry::try_from] *)
Definition unchecked_contract_try_from (entry : string) : outcome StdError ContractEntry :=
  '(protocol, contract_name) ← ok_or (split_once ATTRIBUTE_DELIMITER entry)
    (StdMsg "contract entry should be formatted as protocol:contract_name.");
  Ok (mkContractEntry protocol contract_name).
(** [ContractEntry::from_str], through the checked conversion *)
Definition contract_entry_from_str (s : string) : outcome StdError ContractEntry :=
  e ← unchecked_contract_try_from s; Ok (contract_entry_check e).
Definition show_contract_entry (e : ContractEntry) : string :=
  ce_protocol e +:+ String ATTRIBUTE_DELIMITER (ce_contract e).

(** [UncheckedChannelEntry] and [ChannelEntry] *)
Record ChannelEntry := mkChannelEntry { connected_chain : TruncatedChainId; ch_protocol : string }.
Definition channel_entry_check (e : ChannelEntry) : outcome AbstractError ChannelEntry :=
  chain_name ← chain_from_string (connected_chain e);
  Ok (mkChannelEntry chain_name (to_lowercase (ch_protocol e))).
Definition unchecked_channel_try_from (entry : string) : outcome StdError ChannelEntry :=
  match split_on "/" entry with
  | [connected_chain; protocol] => Ok (mkChannelEntry connected_chain protocol)
  | _ => Err (StdMsg "connected_chain entry should be formatted as connected_chain_name/protocol.")
  end.
Definition show_channel_entry (e : ChannelEntry) : string :=
  connected_chain e +:+ "/" +:+ ch_protocol e.

#[export] Instance ContractEntry_eq_dec : EqDecision ContractEntry.
Proof. solve_decision. Defined.
#[export] Instance ContractEntry_countable : Countable ContractEntry.
Proof. refine (inj_countable' (λ e, (ce_protocol e, ce_contract e)) (λ p, mkContractEntry p.1 p.2) _).
  by intros []. Defined.
#[export] Instance ChannelEntry_eq_dec : EqDecision ChannelEntry.
Proof. solve_decision. Defined.
#[export] Instance ChannelEntry_countable : Countable ChannelEntry.
Proof. refine (inj_countable' (λ e, (connected_chain e, ch_protocol e)) (λ p, mkChannelEntry p.1 p.2) _).
  by intros []. Defined.

(** ** Pools (pool/ *.rs) *)

(** [UniquePoolId(u64)] *)
Definition UniquePoolId : Type := Z.
Definition increment {E} (id : UniquePoolId) : outcome E UniquePoolId := add_u 64 id 1.

Inductive PoolAddressBase (T : Type) : Type :=
  | SeparateAddresses (swap liquidity : T)
  | PoolContract (a : T)
  | PoolNumber (id : Z).
Arguments SeparateAddresses {T} swap liquidity.
Arguments PoolContract {T} a.
Arguments PoolNumber {T} id.
Definition PoolAddress : Type := PoolAddressBase Addr.
Definition UncheckedPoolAddress : Type := PoolAddressBase string.
#[export] Instance PoolAddress_eq_dec `{EqDecision T} : EqDecision (PoolAddressBase T).
Proof. solve_decision. Defined.

Definition expect_contract (a : PoolAddress) : outcome AbstractError Addr :=
  match a with PoolContract a => Ok a | _ => Err (Assert "Pool address not a contract address.") end.
Definition expect_id (a : PoolAddress) : outcome AbstractError Z :=
  match a with PoolNumber id => Ok id | _ => Err (Assert "Pool address not an numerical ID.") end.
(** [UncheckedPoolAddress::check] *)
Definition pool_address_check `{Api} (a : UncheckedPoolAddress) : outcome AbstractError PoolAddress :=
  match a with
  | PoolContract c => a ← map_err AbsStd (addr_validate_r c); Ok (PoolContract a)
  | PoolNumber id => Ok (PoolNumber id)
  | SeparateAddresses swap liquidity =>
      swap ← map_err AbsStd (addr_validate_r swap);
      liquidity ← map_err AbsStd (addr_validate_r liquidity);
      Ok (SeparateAddresses swap liquidity)
  end.
(** [UncheckedPoolAddress::from_str] *)
Definition pool_address_from_str (s : string) : outcome AbstractError UncheckedPoolAddress :=
  match split_on ":" s with
  | w :: words =>
      if decide (w = "contract") then
        match words with
        | [a] => Ok (PoolContract a)
        | _ => Err (FormattingError "unchecked pool address" "contract:{{contract_addr}}" s)
        end
      else if decide (w = "id") then
        match words with
        | [n] => id ← ok_or (parse_u 64 n) (AbsStd (StdMsg "invalid digit found in string"));
                 Ok (PoolNumber id)
        | _ => Err (FormattingError "unchecked pool address" "id:{{pool_id}}" s)
        end
      else Err (FormattingError "unchecked pool address" "'contract' or 'id'" s)
  | [] => Panic
  end.
Definition show_pool_address (a : PoolAddress) : string :=
  match a with
  | PoolContract a => "contract:" +:+ a
  | PoolNumber id => "id:" +:+ pretty (Z.to_N id)
  | SeparateAddresses swap liquidity => "swap:" +:+ swap +:+ ", pair: " +:+ liquidity
  end.

Inductive PoolType : Type :=
  | ConstantProduct | Stable | Weighted | LiquidityBootstrap | ConcentratedLiquidity.
#[export] Instance PoolType_eq_dec : EqDecision PoolType.
Proof. solve_decision. Defined.
Definition show_pool_type (t : PoolType) : string :=
  match t with
  | ConstantProduct => "constant_product"
  | Stable => "stable"
  | Weighted => "weighted"
  | LiquidityBootstrap => "liquidity_bootstrap"
  | ConcentratedLiquidity => "concentrated_liquidity"
  end.
Definition pool_type_from_str (s : string) : outcome StdError PoolType :=
  if decide (s = "constant_product") then Ok ConstantProduct
  else if decide (s = "stable") then Ok Stable
  else if decide (s = "weighted") then Ok Weighted
  else if decide (s = "liquidity_bootstrap") then Ok LiquidityBootstrap
  else if decide (s = "concentrated_liquidity") then Ok ConcentratedLiquidity
  else Err (StdMsg "invalid pool type").

Record PoolMetadata := mkPoolMetadata {
  pm_dex : string;
  pm_pool_type : PoolType;
  pm_assets : list AssetEntry
}.
(** [assets.sort_unstable()] *)
Definition sort_assets (l : list AssetEntry) : list AssetEntry := merge_sort String.le l.
(** [PoolMetadata::new] *)
Definition pool_metadata_new (dex_name : string) (pool_type : PoolType) (assets : list string) :
    PoolMetadata :=
  mkPoolMetadata dex_name pool_type (sort_assets (asset_entry_new <$> assets)).
Definition pool_metadata_from_str (s : string) : outcome StdError PoolMetadata :=
  let parts := '(dex, remainder) ← split_once TYPE_DELIMITER s;
    '(assets, pool_type) ← split_once ATTRIBUTE_DELIMITER remainder; Some (dex, assets, pool_type) in
  '(dex, assets, pool_type) ← ok_or parts (StdMsg "invalid pool metadata format");
  pool_type ← pool_type_from_str pool_type;
  Ok (pool_metadata_new dex pool_type (split_on ASSET_DELIMITER assets)).
Definition show_pool_metadata (m : PoolMetadata) : string :=
  pm_dex m +:+ String TYPE_DELIMITER (join ASSET_DELIMITER (pm_assets m)
    +:+ String ATTRIBUTE_DELIMITER (show_pool_type (pm_pool_type m))).

Record PoolReference := mkPoolReference { unique_id : UniquePoolId; pool_address : PoolAddress }.
#[export] Instance PoolMetadata_eq_dec : EqDecision PoolMetadata.
Proof. solve_decision. Defined.
#[export] Instance PoolReference_eq_dec : EqDecision PoolReference.
Proof. solve_decision. Defined.

(** ** Pairings and LP tokens (entry/dex_asset_pairing.rs, entry/lp_token.rs) *)

(** [DexAssetPairing((Asset, Asset, DexName))] *)
Definition DexAssetPairing : Type := AssetEntry * AssetEntry * string.
Definition pairing_new (asset_x asset_y : AssetEntry) (dex_name : string) : DexAssetPairing :=
  (asset_x, asset_y, to_lowercase dex_name).
Definition asset_x (p : DexAssetPairing) : AssetEntry := p.1.1.
Definition asset_y (p : DexAssetPairing) : AssetEntry := p.1.2.
Definition pairing_dex (p : DexAssetPairing) : string := p.2.
Definition show_pairing (p : DexAssetPairing) : string :=
  pairing_dex p +:+ String TYPE_DELIMITER (asset_x p +:+ String ASSET_DELIMITER (asset_y p)).

Record LpToken := mkLpToken { lp_dex : string; lp_assets : list AssetEntry }.
Definition lp_token_new (dex_name : string) (assets : list string) : LpToken :=
  mkLpToken dex_name (sort_assets (asset_entry_new <$> assets)).
Definition show_lp_token (t : LpToken) : string :=
  lp_dex t +:+ String TYPE_DELIMITER (join ASSET_DELIMITER (lp_assets t)).

(** ** Conversions (entry/ans_entry_convertor.rs) *)

(** [AnsEntryConvertor<LpToken>] *)
Definition lp_token_asset_entry (t : LpToken) : AssetEntry := asset_entry_new (show_lp_token t).
(** [sort], [reverse], then [pop] twice: the two smallest names. *)
Definition lp_token_pairing (t : LpToken) : outcome AnsHostError DexAssetPairing :=
  match sort_assets (lp_assets t) with
  | x :: y :: _ => Ok (pairing_new x y (lp_dex t))
  | _ => Panic
  end.
(** [AnsEntryConvertor<PoolMetadata>] *)
Definition metadata_lp_token (m : PoolMetadata) : LpToken := mkLpToken (pm_dex m) (pm_assets m).
Definition metadata_lp_token_asset (m : PoolMetadata) : AssetEntry :=
  lp_token_asset_entry (metadata_lp_token m).
(** [AnsEntryConvertor<AssetEntry>] *)
Definition asset_lp_token (e : AssetEntry) : outcome AnsHostError LpToken :=
  match split_on TYPE_DELIMITER e with
  | [dex_name; names] =>
      let assets := sort_assets (asset_entry_new <$> split_on ASSET_DELIMITER names) in
      if decide (List.length assets < 2)%nat then
        Err (AnsFormattingError "lp token" "at least 2 assets in LP token" e)
      else Ok (mkLpToken dex_name assets)
  | _ => Err (AnsFormattingError "lp token" "type/asset1,asset2" e)
  end.

(** ** Lemmas *)

Lemma to_lowercase_app s t : to_lowercase (s +:+ t) = to_lowercase s +:+ to_lowercase t.
Proof. induction s as [|c s IH]; [done|]. exact (f_equal (String (lower c)) IH). Qed.
Lemma lower_idemp c : lower (lower c) = lower c.
Proof. apply lower_fix. by destruct c as [[] [] [] [] [] [] [] []]. Qed.
Lemma to_lowercase_idemp s : to_lowercase (to_lowercase s) = to_lowercase s.
Proof. induction s as [|c s IH]; simpl; [done|]. by rewrite lower_idemp, IH. Qed.
Lemma to_lowercase_cons c s : to_lowercase (String c s) = String (lower c) (to_lowercase s).
Proof. done. Qed.
(** Lower-case texts joined by a delimiter are in lower case. *)
Lemma to_lowercase_join c l :
  lower c = c → Forall (λ s, to_lowercase s = s) l → to_lowercase (join c l) = join c l.
Proof.
  intros Hc Hl. induction Hl as [|s l Hs Hl IH]; [done|].
  destruct l as [|t l]; [done|].
  change (join c (s :: t :: l)) with (s +:+ String c (join c (t :: l))).
  by rewrite to_lowercase_app, to_lowercase_cons, Hs, Hc, IH.
Qed.

#[export] Instance String_le_antisymm : AntiSymm (=) String.le.
Proof. apply _. Qed.
(** Sorting keeps a sorted list. *)
Lemma sort_assets_sorted l : Sorted String.le l → sort_assets l = l.
Proof.
  intros Hl. unfold sort_assets. eapply (StronglySorted_unique String.le).
  - apply (StronglySorted_merge_sort String.le).
  - by apply Sorted_StronglySorted; [apply _|].
  - apply merge_sort_Permutation.
Qed.
Lemma sort_assets_lower l :
  Forall (λ s, to_lowercase s = s) l → Sorted String.le l → sort_assets (asset_entry_new <$> l) = l.
Proof.
  intros Hl Hs. rewrite <-(sort_assets_sorted l Hs) at 2. f_equal.
  induction Hl as [|s l Hx Hl IH]; [done|]. simpl. f_equal; [exact Hx|]. apply IH.
  by inversion Hs.
Qed.
Lemma show_pool_type_inverse t : pool_type_from_str (show_pool_type t) = Ok t.
Proof. by destruct t. Qed.

(** The text of a pool's metadata is parsed back to it, and the name of its
    LP token back to the LP token, when the name of the dex has no type
    delimiter and the assets are sorted lower-case names without delimiters
    (one for the metadata, two and a lower-case dex for the token). *)
Theorem pool_metadata_roundtrip (m : PoolMetadata)
    (Hdex : no_char TYPE_DELIMITER (pm_dex m))
    (Hassets : Forall (λ a, no_char ATTRIBUTE_DELIMITER a ∧ no_char ASSET_DELIMITER a ∧
       no_char TYPE_DELIMITER a ∧ to_lowercase a = a) (pm_assets m))
    (Hsorted : Sorted String.le (pm_assets m)) (Hone : pm_assets m ≠ []) :
  pool_metadata_from_str (show_pool_metadata m) = Ok m ∧
  (to_lowercase (pm_dex m) = pm_dex m → (2 ≤ List.length (pm_assets m))%nat →
   asset_lp_token (metadata_lp_token_asset m) = Ok (metadata_lp_token m)).
Proof.
  assert (Forall (λ a, to_lowercase a = a) (pm_assets m)) as Hlow
    by (eapply Forall_impl; [exact Hassets|naive_solver]).
  assert (Forall (no_char ASSET_DELIMITER) (pm_assets m)) as Hcomma
    by (eapply Forall_impl; [exact Hassets|naive_solver]).
  assert (∀ c, (∀ a, a ∈ pm_assets m → no_char c a) → c ≠ ASSET_DELIMITER →
    no_char c (join ASSET_DELIMITER (pm_assets m))) as Hjoin.
  { intros c Hc Hne. apply sall_join; [by apply negb_true_iff, bool_decide_eq_false|].
    apply Forall_forall. exact Hc. }
  rewrite Forall_forall in Hassets. split.
  - unfold pool_metadata_from_str, show_pool_metadata.
    rewrite split_once_app by done. cbn -[join split_on].
    rewrite split_once_app by (apply Hjoin; [naive_solver|done]). cbn -[join split_on].
    rewrite show_pool_type_inverse. cbn -[join split_on]. rewrite split_join by done.
    unfold pool_metadata_new. rewrite sort_assets_lower by done. by destruct m.
  - intros Hd Htwo. unfold asset_lp_token, metadata_lp_token_asset, lp_token_asset_entry,
      asset_entry_new, show_lp_token. cbn [lp_dex lp_assets metadata_lp_token].
    rewrite to_lowercase_app, to_lowercase_cons, Hd, to_lowercase_join by done.
    change (lower TYPE_DELIMITER) with TYPE_DELIMITER.
    rewrite split_on_app by done. rewrite split_on_no_char by (apply Hjoin; [naive_solver|done]).
    rewrite split_join by done. fold asset_entry_new.
    rewrite sort_assets_lower by done. rewrite decide_False by lia. done.
Qed.

Module AnsObjectExamples.
Definition pool : PoolMetadata := mkPoolMetadata "junoswap" Stable ["uusd"; "uust"].
Lemma pool_metadata_roundtrip_witness :
  pool_metadata_from_str "junoswap/uusd,uust:stable" = Ok pool ∧
  asset_lp_token "junoswap/uusd,uust" = Ok (metadata_lp_token pool).
Proof.
  destruct (pool_metadata_roundtrip pool) as [H1 H2].
  - reflexivity.
  - repeat constructor.
  - repeat constructor.
  - discriminate.
  - split; [exact H1|]. apply H2; [reflexivity|]. simpl. lia.
Defined.

(** An LP token as an asset of a pool: its name holds the type delimiter, and
    is read as the name of the dex and one more asset. *)
Example lp_token_asset_not_parsed :
  asset_lp_token "osmosis/junoswap/uusd,uust" =
    Err (AnsFormattingError "lp token" "type/asset1,asset2" "osmosis/junoswap/uusd,uust").
Proof. reflexivity. Qed.
End AnsObjectExamples.
