(* ===== verification/Fees.v ===== *)
(** * Fees and time-weighted averages

    objects/fee.rs and objects/time_weighted_average.rs of
    packages/abstract-std: fractional fees, the fixed fee a registration or an
    installation charges on the funds of a message, and the accumulator an app
    keeps to average an irregularly updated value. *)

From S2P Require Import Prelude Cosmos Objects.
From Stdlib Require Import String.
#[local] Open Scope string_scope.
#[local] Open Scope list_scope.
#[local] Open Scope Z_scope.

(** ** Fees *)

(** [Fee { share }]: the share is a [Decimal] in units of 10^-18. *)
Record FeeShare := mkFee { share : Z }.
Record UsageFee := mkUsageFee { uf_fee : FeeShare; uf_recipient : Addr }.

(** [Fee::new] *)
Definition fee_new (share : Z) : outcome AbstractError FeeShare :=
  if decide (DECIMAL_ONE ≤ share) then Err (Fee "fee share must be lesser than 100%")
  else Ok (mkFee share).
(** [UsageFee::new], [set_share], [set_recipient] *)
Definition usage_fee_new (share : Z) (recipient : Addr) : outcome AbstractError UsageFee :=
  fee ← fee_new share; Ok (mkUsageFee fee recipient).
Definition set_share (u : UsageFee) (share : Z) : outcome AbstractError UsageFee :=
  fee ← fee_new share; Ok (mkUsageFee fee (uf_recipient u)).
Definition set_recipient (u : UsageFee) (recipient : Addr) : UsageFee :=
  mkUsageFee (uf_fee u) recipient.
(** [Fee::compute]; [mul_floor] of [Uint256] traps on overflow. *)
Definition fee_compute `{DecimalOps} (f : FeeShare) (amount : Z) : outcome AbstractError Z :=
  unwrap (uint_mul_floor 256 amount (share f)).
Definition usage_fee_compute `{DecimalOps} (u : UsageFee) (amount : Z) : outcome AbstractError Z :=
  fee_compute (uf_fee u) amount.

Definition invalid_payment : AbstractError := Fee "Invalid fee payment sent".

(** [FixedFee::new], [FixedFee::quantity] *)
Definition fixed_fee_new (fee : Coin) : FixedFee := mkFixedFee fee.
Definition quantity (f : FixedFee) (qty : Z) : outcome AbstractError FixedFee :=
  amount ← mul_u 256 (amount (ff_fee f)) qty;
  Ok (mkFixedFee (mkCoin (denom (ff_fee f)) amount)).

(** [FixedFee::assert_payment] *)
Definition assert_payment (f : FixedFee) (info : MessageInfo) : outcome AbstractError Coin :=
  let fee := ff_fee f in
  if decide (amount fee = 0) then Ok fee else
  match funds info with
  | [c] =>
      if decide (denom c ≠ denom fee ∨ amount fee ≠ amount c) then Err invalid_payment else Ok fee
  | _ => Err invalid_payment
  end.

(** [funds.iter_mut().find(|f| f.denom == denom)], applied to by [charge]:
    the first coin of that denom is updated in place. *)
Fixpoint charge_funds (fee : Coin) (funds : list Coin) : outcome AbstractError (list Coin) :=
  match funds with
  | [] => Err invalid_payment
  | c :: rest =>
      if decide (denom c = denom fee) then
        if decide (amount c < amount fee) then Err invalid_payment
        else Ok (mkCoin (denom c) (amount c - amount fee) :: rest)
      else
        rest ← charge_funds fee rest; Ok (c :: rest)
  end.
(** [FixedFee::charge]: the coin charged and the message info left. *)
Definition charge (f : FixedFee) (info : MessageInfo) : outcome AbstractError (Coin * MessageInfo) :=
  let fee := ff_fee f in
  if decide (amount fee = 0) then Ok (fee, info) else
  funds ← charge_funds fee (funds info);
  Ok (fee, mkInfo (sender info) funds).

(** ** Time-weighted average *)

Record TimeWeightedAverageData := mkTwa {
  precision : Z;
  last_block_time : Z;
  cumulative_value : Z;
  last_averaging_block_time : Z;
  last_averaging_block_height : Z;
  last_averaging_cumulative_value : Z;
  averaging_period : Z;
  average_value : Z
}.
Definition DEFAULT_PRECISION : Z := 6.

(** [TimeWeightedAverage::instantiate]: the value saved. *)
Definition twa_instantiate (env : Env) (precision : option Z) (averaging_period : Z) :
    TimeWeightedAverageData :=
  let block_time := time (block env) in
  mkTwa (default DEFAULT_PRECISION precision) block_time 0 block_time (height (block env)) 0
    averaging_period 0.

(** The methods act on the item; [None] is an item that was never saved. *)
Abbreviation TwaM := (M (option TimeWeightedAverageData) AbstractError).
Definition twa_load : TwaM TimeWeightedAverageData :=
  o ← gets id; lift (ok_or o (AbsStd (StdNotFound "twa"))).
Definition twa_save (d : TimeWeightedAverageData) : TwaM unit := modify (λ _, Some d).

(** [TimeWeightedAverage::accumulate] *)
Definition accumulate `{DecimalOps} (env : Env) (current_value : Z) : TwaM (option Z) :=
  twa ← twa_load;
  let block_time := time (block env) in
  if decide (block_time ≤ last_block_time twa) then mret None else
  time_elapsed ← lift (sub_u (seconds block_time) (seconds (last_block_time twa)));
  let twa := mkTwa (precision twa) block_time (cumulative_value twa)
    (last_averaging_block_time twa) (last_averaging_block_height twa)
    (last_averaging_cumulative_value twa) (averaging_period twa) (average_value twa) in
  cumulative ←
    (if decide (current_value = 0) then mret (cumulative_value twa) else
     weighted ← lift (unwrap (uint_mul_floor 128 time_elapsed current_value));
     mret (wrap_u 128 (cumulative_value twa + weighted)));
  twa_save (mkTwa (precision twa) (last_block_time twa) cumulative
    (last_averaging_block_time twa) (last_averaging_block_height twa)
    (last_averaging_cumulative_value twa) (averaging_period twa) (average_value twa)) ≫= λ _,
  mret (Some cumulative).

(** [TimeWeightedAverage::get_value] *)
Definition get_value : TwaM Z := twa ← twa_load; mret (average_value twa).

(** [TimeWeightedAverage::try_update_value] *)
Definition try_update_value `{DecimalOps} (env : Env) : TwaM (option Z) :=
  twa ← twa_load;
  let block_time := time (block env) in
  time_elapsed ← lift (sub_u (seconds block_time) (seconds (last_averaging_block_time twa)));
  if decide (time_elapsed < averaging_period twa) then mret None else
  new_average_value ← lift (unwrap (decimal_from_ratio
    (wrap_u 128 (cumulative_value twa - last_averaging_cumulative_value twa)) time_elapsed));
  twa_save (mkTwa (precision twa) (last_block_time twa) (cumulative_value twa)
    block_time (last_averaging_block_height twa) (cumulative_value twa)
    (averaging_period twa) new_average_value) ≫= λ _,
  mret (Some new_average_value).

(** [TimeWeightedAverage::update_settings] *)
Definition update_settings (averaging_period : Z) : TwaM unit :=
  twa ← twa_load;
  twa_save (mkTwa (precision twa) (last_block_time twa) (cumulative_value twa)
    (last_averaging_block_time twa) (last_averaging_block_height twa)
    (last_averaging_cumulative_value twa) averaging_period (average_value twa)).
(** [TimeWeightedAverageData::needs_refresh] *)
Definition needs_refresh (twa : TimeWeightedAverageData) (env : Env) : outcome AbstractError bool :=
  time_elapsed ← sub_u (seconds (time (block env))) (seconds (last_averaging_block_time twa));
  Ok (bool_decide (averaging_period twa ≤ time_elapsed)).

(** ** Properties of fees *)

(** What an account holds of one denom in a list of coins. *)
Definition total (d : string) (l : list Coin) : Z :=
  foldr (λ c n, (if decide (denom c = d) then amount c else 0) + n) 0 l.

Lemma charge_funds_Ok fee l l' :
  charge_funds fee l = Ok l' →
  total (denom fee) l' = total (denom fee) l - amount fee ∧
  (∀ d, d ≠ denom fee → total d l' = total d l) ∧
  (denom <$> l') = (denom <$> l) ∧
  (Forall (λ c, 0 ≤ amount c) l → 0 ≤ amount fee → Forall (λ c, 0 ≤ amount c) l').
Proof.
  revert l'. induction l as [|c l IH]; intros l'; simpl; [done|].
  case_decide as Hd.
  - case_decide; [done|]. intros [= <-]. simpl. split_and!; [|intros d Hn|done|].
    + rewrite !decide_True by done. lia.
    + by rewrite !decide_False by congruence.
    + intros [? ?]%Forall_cons ?. constructor; simpl; [lia|done].
  - intros H. inv_ok.
    match goal with H : charge_funds _ _ = Ok _ |- _ =>
      destruct (IH _ H) as (H1 & H2 & H3 & H4) end.
    split_and!; simpl.
    + rewrite !decide_False by done. lia.
    + intros d Hn. by rewrite H2.
    + f_equal. exact H3.
    + intros [? ?]%Forall_cons ?. constructor; auto.
Qed.

(** The first coin of the fee's denom decides. *)
Lemma charge_funds_found fee l :
  is_ok (charge_funds fee l) = true ↔
  ∃ i c, l !! i = Some c ∧ denom c = denom fee ∧ amount fee ≤ amount c ∧
    ∀ j c', (j < i)%nat → l !! j = Some c' → denom c' ≠ denom fee.
Proof.
  induction l as [|c l IH]; simpl.
  { split; [done|]. intros (i & c & Hi & _). by rewrite lookup_nil in Hi. }
  case_decide as Hd.
  - case_decide as Ha; simpl.
    + split; [done|]. intros ([|i] & c' & Hi & Hc & Hle & Hj).
      * injection Hi as <-. lia.
      * exfalso. by apply (Hj 0%nat c ltac:(lia)).
    + split; [intros _|done]. exists 0%nat, c. split_and!; [done..|lia|]. intros j; lia.
  - transitivity (is_ok (charge_funds fee l) = true).
    { by destruct (charge_funds fee l). }
    rewrite IH. split.
    + intros (i & c' & Hi & Hc & Hle & Hj). exists (S i), c'. split_and!; [done..|].
      intros [|j] c'' Hlt Hl; [by injection Hl as <-|]. apply (Hj j); [lia|done].
    + intros ([|i] & c' & Hi & Hc & Hle & Hj); [by injection Hi as <-|].
      exists i, c'. split_and!; [done..|]. intros j c'' ? ?. apply (Hj (S j) c''); [lia|done].
Qed.

(** [charge] is an exact toll: when it succeeds the funds left hold the fee's
    amount less of the fee's denom, the same of every other denom, the same
    list of denoms, and no negative amount; it fails only when the fee is not
    zero and the first coin of its denom is missing or too small. *)
Theorem charge_toll (f : FixedFee) (info : MessageInfo) (Hfee : 0 ≤ amount (ff_fee f)) :
  (∀ fee info', charge f info = Ok (fee, info') →
     fee = ff_fee f ∧ sender info' = sender info ∧
     total (denom fee) (funds info') = total (denom fee) (funds info) - amount fee ∧
     (∀ d, d ≠ denom fee → total d (funds info') = total d (funds info)) ∧
     (denom <$> funds info') = (denom <$> funds info) ∧
     (Forall (λ c, 0 ≤ amount c) (funds info) → Forall (λ c, 0 ≤ amount c) (funds info'))) ∧
  (is_ok (charge f info) = true ↔
     amount (ff_fee f) = 0 ∨
     ∃ i c, funds info !! i = Some c ∧ denom c = denom (ff_fee f) ∧ amount (ff_fee f) ≤ amount c ∧
       ∀ j c', (j < i)%nat → funds info !! j = Some c' → denom c' ≠ denom (ff_fee f)).
Proof.
  unfold charge. destruct (decide (amount (ff_fee f) = 0)) as [H0|H0].
  - split; [|by split; [left|]]. intros fee info' [= <- <-]. split_and!; try done. lia.
  - rewrite <-charge_funds_found. split.
    + intros fee info' H. inv_ok. simpl.
      match goal with H : charge_funds _ _ = Ok _ |- _ => apply charge_funds_Ok in H as (?&?&?&?) end.
      split_and!; auto.
    + destruct (charge_funds _ _); simpl; naive_solver.
Qed.

(** [assert_payment] accepts exactly a zero fee, whatever the funds, or funds
    that are exactly the fee, and returns the fee; it never traps. *)
Theorem assert_payment_exact (f : FixedFee) (info : MessageInfo) :
  assert_payment f info =
    (if decide (amount (ff_fee f) = 0 ∨ funds info = [ff_fee f])
     then Ok (ff_fee f) else Err invalid_payment).
Proof.
  unfold assert_payment. destruct f as [[d a]]; simpl. destruct (decide (a = 0)) as [H0|H0].
  { by rewrite decide_True by auto. }
  destruct (funds info) as [|[d' a'] [|]]; simpl.
  - by rewrite decide_False by (intros [|]; done).
  - destruct (decide (d' ≠ d ∨ a ≠ a')) as [Hn|Hn].
    + rewrite decide_False; [done|]. intros [?|[= -> ->]]; [done|]. destruct Hn; done.
    + rewrite decide_True; [done|]. right. assert (d' = d) as -> by (apply dec_stable; tauto).
      assert (a = a') as -> by (apply dec_stable; tauto). done.
  - by rewrite decide_False by (intros [|]; done).
Qed.

(** A fractional fee that [Fee::new] accepts is a proper part of every amount:
    computing it never traps and takes less than the amount, unless that is
    zero. *)
Theorem fee_compute_proper_part `{DecimalLaws} (s amount : Z) (f : FeeShare)
    (Hnew : fee_new s = Ok f) (Hs : 0 ≤ s) (Hamount : in_u 256 amount) :
  ∃ part, fee_compute f amount = Ok part ∧ 0 ≤ part ∧
    part * DECIMAL_ONE ≤ amount * s < (part + 1) * DECIMAL_ONE ∧ (0 < amount → part < amount).
Proof.
  unfold fee_new in Hnew. case_decide as Hlt; [done|]. injection Hnew as <-.
  destruct Hamount as [Ha Hw]. unfold fee_compute. simpl.
  assert (0 < DECIMAL_ONE) as Hone by done.
  assert (amount * s / DECIMAL_ONE ≤ amount) as Hle.
  { apply Z.lt_succ_r, div_lt_iff; [done|]. nia. }
  rewrite mul_floor_spec by done. rewrite decide_True by lia.
  exists (amount * s / DECIMAL_ONE). split_and!; [done| | | |].
  - apply Z.div_pos; nia.
  - pose proof (Z.mul_div_le (amount * s) DECIMAL_ONE Hone). lia.
  - pose proof (Z.mul_succ_div_gt (amount * s) DECIMAL_ONE Hone). lia.
  - intros Hpos. apply div_lt_iff; [done|]. nia.
Qed.

(** ** Properties of the average *)

(** A sequence of [accumulate] calls, each in its own block. *)
Definition accumulate_all `{DecimalOps} (l : list (Env * Z)) : TwaM unit :=
  mfor l (λ '(env, v), accumulate env v ≫= λ _, mret tt).

(** The value integrated over time: each value weighs the whole seconds since
    the last block in which something was accumulated. *)
Fixpoint integral (last : Z) (l : list (Env * Z)) : Z :=
  match l with
  | [] => 0
  | (env, v) :: l =>
      let t := time (block env) in
      if decide (t ≤ last) then integral last l
      else (seconds t - seconds last) * v / DECIMAL_ONE + integral t l
  end.

(** The fields of the averaging window do not move while accumulating. *)
Definition same_window (d d' : TimeWeightedAverageData) : Prop :=
  last_averaging_block_time d' = last_averaging_block_time d ∧
  last_averaging_cumulative_value d' = last_averaging_cumulative_value d ∧
  averaging_period d' = averaging_period d.

Lemma seconds_mono s t : s ≤ t → seconds s ≤ seconds t.
Proof. intros. by apply Z.div_le_mono. Qed.

Lemma accumulate_step `{DecimalLaws} env v d r o :
  0 ≤ v → accumulate env v (Some d) = Ok (r, o) →
  ∃ d', o = Some d' ∧ same_window d d' ∧
    let t := time (block env) in
    if decide (t ≤ last_block_time d) then d' = d
    else last_block_time d' = t ∧
      (cumulative_value d' - (cumulative_value d
        + (seconds t - seconds (last_block_time d)) * v / DECIMAL_ONE)) mod 2 ^ 128 = 0.
Proof.
  intros Hv. unfold accumulate, twa_load, twa_save, same_window. intros Ha. inv_ok.
  case_decide as Ht; inv_ok.
  { eexists. by split. }
  match goal with H : sub_u _ _ = Ok _ |- _ => apply sub_u_Ok in H as [-> Hle] end.
  case_decide as Hv0; inv_ok; eexists; (split; [done|]); (split; [done|]);
    simpl in *; (split; [done|]).
  - subst v. rewrite Z.mul_0_r. by rewrite Z.div_0_l, Z.add_0_r, Z.sub_diag by done.
  - match goal with H : uint_mul_floor _ _ _ = Some _ |- _ =>
      rewrite mul_floor_spec in H by lia; case_decide; [injection H as <-|done] end.
    unfold wrap_u. rewrite Zminus_mod_idemp_l, Z.sub_diag. done.
Qed.

Lemma accumulate_all_spec `{DecimalLaws} l d u o :
  Forall (λ '(_, v), 0 ≤ v) l → accumulate_all l (Some d) = Ok (u, o) →
  ∃ d', o = Some d' ∧ same_window d d' ∧
    (cumulative_value d' - (cumulative_value d + integral (last_block_time d) l)) mod 2 ^ 128 = 0.
Proof.
  unfold accumulate_all. revert d. induction l as [|[env v] l IH]; intros d Hl Ha.
  - simpl in Ha. inv_ok. eexists. split_and!; [done..|]. simpl. by rewrite Z.add_0_r, Z.sub_diag.
  - inversion_clear Hl as [|?? Hv Hl']. rewrite mfor_Ok_cons in Ha. destruct Ha as (o1 & H1 & H2).
    inv_ok. match goal with H : accumulate _ _ _ = Ok _ |- _ =>
      apply accumulate_step in H as (d1 & -> & Hw & Hs); [|done] end.
    destruct (IH d1 Hl' H2) as (d' & -> & Hw' & Hc). exists d'. split; [done|].
    split.
    { destruct Hw as (?&?&?), Hw' as (?&?&?). repeat split; congruence. }
    simpl in *.
    case_decide; [by subst d1|]. destruct Hs as [Hlast Hs]. rewrite Hlast in Hc.
    rewrite Z.mod_divide in * by done. destruct Hs as [p Hp], Hc as [q Hq].
    exists (p + q). lia.
Qed.

(** The average over one window is exact: starting from a fresh window,
    whatever values are accumulated in whatever blocks, and although the
    cumulative value wraps around at 2^128, [try_update_value] gives the
    integral of the value over the window divided by its length in seconds,
    rounded down; before the averaging period has passed it changes nothing,
    and on a window of no length, which a zero averaging period allows, or on
    an average that overflows a [Decimal], it traps. *)
Theorem twa_average_exact `{DecimalLaws} (d d' : TimeWeightedAverageData) (env : Env)
    (l : list (Env * Z)) (Hvalues : Forall (λ '(_, v), 0 ≤ v) l)
    (Hfresh : cumulative_value d = last_averaging_cumulative_value d)
    (Hrun : accumulate_all l (Some d) = Ok (tt, Some d'))
    (Hnow : last_averaging_block_time d ≤ time (block env))
    (Hfits : 0 ≤ integral (last_block_time d) l < 2 ^ 128) :
  let elapsed := seconds (time (block env)) - seconds (last_averaging_block_time d) in
  let average := integral (last_block_time d) l * DECIMAL_ONE / elapsed in
  fst <$> try_update_value env (Some d') =
    if decide (elapsed < averaging_period d) then Ok None
    else if decide (elapsed = 0 ∨ 2 ^ 128 ≤ average) then Panic
    else Ok (Some average).
Proof.
  apply accumulate_all_spec in Hrun as (d2 & [= <-] & (H1 & H2 & H3) & Hc); [|done].
  unfold try_update_value, twa_load, twa_save.
  cbn [mbind M_bind gets id lift ok_or mret]. unfold mbind, M_bind. cbn.
  rewrite H1, H2, H3, <-Hfresh. rewrite sub_u_small by (by apply seconds_mono). cbn.
  case_decide as Hp; [done|].
  assert (wrap_u 128 (cumulative_value d' - cumulative_value d) = integral (last_block_time d) l) as ->.
  { unfold wrap_u. rewrite Z.mod_divide in Hc by done. destruct Hc as [k Hk].
    replace (cumulative_value d' - cumulative_value d)
      with (integral (last_block_time d) l + k * 2 ^ 128) by lia.
    rewrite Z.mod_add by done. by apply Z.mod_small. }
  pose proof (seconds_mono _ _ Hnow).
  destruct (decide (seconds (time (block env)) - seconds (last_averaging_block_time d) = 0)) as [He|He].
  - rewrite He, from_ratio_zero. cbn. by rewrite decide_True by auto.
  - rewrite from_ratio_spec by lia. case_decide; cbn.
    + rewrite decide_False by lia. done.
    + rewrite decide_True by lia. done.
Qed.

Module FeeExamples.
#[local] Existing Instance decimal_ref.
#[local] Existing Instance decimal_ref_laws.

Definition fee : FixedFee := mkFixedFee (mkCoin "uabs" 3).
Definition info : MessageInfo := mkInfo "alice" [mkCoin "ujuno" 5; mkCoin "uabs" 10].

Lemma charge_toll_witness : 0 ≤ amount (ff_fee fee) ∧
charge fee info = Ok (mkCoin "uabs" 3, mkInfo "alice" [mkCoin "ujuno" 5; mkCoin "uabs" 7]) ∧
total "uabs" [mkCoin "ujuno" 5; mkCoin "uabs" 7] = 7.
Proof.
split; [done|]. split; [done|].
destruct (charge_toll fee info ltac:(done)) as [Hc _].
destruct (Hc _ _ eq_refl) as (_ & _ & Ht & _). exact Ht.
Defined.

Lemma fee_compute_proper_part_witness :
∃ part, fee_compute (mkFee (10 ^ 17)) 55 = Ok part ∧ part < 55.
Proof.
destruct (fee_compute_proper_part (10 ^ 17) 55 (mkFee (10 ^ 17)) eq_refl ltac:(done)
  ltac:(vm_compute; done)) as (part & Hp & _ & _ & Hlt).
exists part. split; [exact Hp|by apply Hlt].
Defined.

Definition env_at (s : Z) : Env := mkEnv (mkBlock 1 (s * NANOS) "juno-1") "app".
Definition start : TimeWeightedAverageData := twa_instantiate (env_at 100) None 20.
Definition values : list (Env * Z) := [(env_at 110, 2 * DECIMAL_ONE); (env_at 120, 4 * DECIMAL_ONE)].

Lemma twa_average_exact_witness :
∃ d', accumulate_all values (Some start) = Ok (tt, Some d') ∧
  fst <$> try_update_value (env_at 120) (Some d') = Ok (Some (3 * DECIMAL_ONE)).
Proof.
eexists. split; [vm_compute; reflexivity|].
refine (twa_average_exact start _ (env_at 120) values _ _ _ _ _).
- repeat constructor; done.
- reflexivity.
- vm_compute. reflexivity.
- vm_compute. done.
- vm_compute. done.
Defined.
End FeeExamples.
