(* ===== verification/Ownership.v ===== *)
(** * Ownership of accounts

    objects/gov_type.rs, objects/ownership/gov_ownable.rs,
    objects/ownership/nested_admin.rs and native_addrs.rs of
    packages/abstract-std: who owns an account, how ownership is transferred
    and renounced, and who is the administrator of a contract an account owns.

    Queries to other contracts are the class [Querier]; every call may see a
    different chain.  The [xion] feature, off by default, is not modelled. *)

From S2P Require Import Prelude Cosmos Strings Objects.
From Stdlib Require Import Ascii String.
#[local] Open Scope string_scope.
#[local] Open Scope list_scope.
#[local] Open Scope Z_scope.

Inductive GovOwnershipError : Type :=
  | GovStd (e : StdError)
  | GovAbstract (e : AbstractError)
  | NoOwner
  | NotOwner
  | NotPendingOwner
  | TransferNotFound
  | TransferExpired
  | TransferToRenounced
  | ChangeOfNftOwned.
#[export] Instance GovOwnershipError_eq_dec : EqDecision GovOwnershipError.
Proof. solve_decision. Defined.

Inductive GovAction : Type :=
  | TransferOwnership (new_owner : GovernanceDetails string) (expiry : option Expiration)
  | AcceptOwnership
  | RenounceOwnership.

Definition MIN_GOV_TYPE_LENGTH : Z := 4.
Definition MAX_GOV_TYPE_LENGTH : Z := 64.

(** A failed query, as the [StdError] the caller sees. *)
Definition query_failed : StdError := StdMsg "query failed".
Definition query_r {A} (o : option A) : outcome StdError A := ok_or o query_failed.

Section ownership.
Context `{Semver, Api, Instantiate2, !Querier}.

(** ** Native addresses (native_addrs.rs) *)

Definition ANS_HOST_SALT : string := "ans".
Definition REGISTRY_SALT : string := "reg".
Definition MODULE_FACTORY_SALT : string := "mf".

Definition creator_address (abstract_code_id : Z) : outcome StdError Addr :=
  code_info ← query_r (wasm_code_info abstract_code_id); Ok (code_creator code_info).
Definition abstract_code_id (abstract_address : string) : outcome StdError Z :=
  contract_info ← query_r (wasm_contract_info abstract_address); Ok (ci_code_id contract_info).
Definition creator_canon_address (abstract_code_id : Z) : outcome StdError canonical_addr :=
  creator_addr ← creator_address abstract_code_id;
  ok_or (addr_canonicalize creator_addr) (StdMsg "invalid address").
Definition contract_canon_address (abstract_code_id : Z) (salt : string) :
    outcome AbstractError canonical_addr :=
  creator_canon ← map_err AbsStd (creator_canon_address abstract_code_id);
  ok_or (instantiate2_address BLOB_CHECKSUM creator_canon salt) AbsInstantiate2Address.
Definition registry_address (abstract_code_id : Z) : outcome AbstractError canonical_addr :=
  contract_canon_address abstract_code_id REGISTRY_SALT.
Definition ans_address (abstract_code_id : Z) : outcome AbstractError canonical_addr :=
  contract_canon_address abstract_code_id ANS_HOST_SALT.
Definition module_factory_address (abstract_code_id : Z) : outcome AbstractError canonical_addr :=
  contract_canon_address abstract_code_id MODULE_FACTORY_SALT.

(** ** Governance details (gov_type.rs) *)

(** The characters of a governance type. *)
Definition gov_type_char (c : ascii) : bool :=
  (is_ascii_alphanumeric c || bool_decide (c = "-"%char))%bool.

(** [GovernanceDetails::verify] *)
Definition verify_gov (g : GovernanceDetails string) : outcome AbstractError (GovernanceDetails Addr) :=
  match g with
  | Monarchy monarch =>
      addr ← map_err AbsStd (addr_validate_r monarch); Ok (Monarchy addr)
  | SubAccount account =>
      account_addr ← map_err AbsStd (addr_validate_r account);
      code_id ← map_err AbsStd (abstract_code_id account);
      registry_canon ← registry_address code_id;
      registry ← map_err AbsStd (ok_or (addr_humanize registry_canon) (StdMsg "invalid address"));
      account_id ← map_err AbsStd (query_r (account_id_of account_addr));
      base ← map_err AbsStd (query_r (registry_account_of registry account_id));
      match base with
      | None => Err (AbsStd (StdMsg "Version control does not have account id of account"))
      | Some b =>
          if decide (b = account_addr) then Ok (SubAccount account_addr)
          else Err (AbsStd (StdMsg "Verification of sub-account failed, account has different account ids"))
      end
  | External governance_address governance_type =>
      addr ← map_err AbsStd (addr_validate_r governance_address);
      if decide (slen governance_type < MIN_GOV_TYPE_LENGTH) then
        Err (FormattingError "governance type" "at least 3 characters" (pretty (slen governance_type)))
      else if decide (MAX_GOV_TYPE_LENGTH < slen governance_type) then
        Err (FormattingError "governance type" "at most 64 characters" (pretty (slen governance_type)))
      else if negb (sall gov_type_char governance_type) then
        Err (FormattingError "governance type" "alphanumeric characters and hyphens" governance_type)
      else if decide (governance_type ≠ to_lowercase governance_type) then
        Err (FormattingError "governance type" (to_lowercase governance_type) governance_type)
      else Ok (External addr governance_type)
  | Renounced => Ok Renounced
  | NFT collection_addr token_id =>
      addr ← map_err AbsStd (addr_validate_r collection_addr); Ok (NFT addr token_id)
  | AbstractAccount address => Ok (AbstractAccount address)
  end.

(** [GovernanceDetails::owner_address] *)
Definition owner_address (g : GovernanceDetails Addr) : option Addr :=
  match g with
  | Monarchy monarch => Some monarch
  | SubAccount account => Some account
  | External governance_address _ => Some governance_address
  | Renounced => None
  | NFT collection_addr token_id => nft_owner_of collection_addr token_id
  | AbstractAccount address => Some address
  end.

(** ** Top-level owner (nested_admin.rs) *)

Definition MAX_ADMIN_RECURSION : nat := 2.

(** [query_ownership] *)
Definition query_ownership (remote_contract : Addr) : outcome StdError (Ownership Addr) :=
  query_r (ownership_of remote_contract).

(** The loop of [query_top_level_owner], with [n] iterations left. *)
Fixpoint top_level_go (n : nat) (current : outcome StdError (Ownership Addr)) :
    outcome StdError (Ownership Addr) :=
  match n with
  | O => current
  | S n =>
      match current with
      | Ok {| owner := SubAccount account |} => top_level_go n (query_ownership account)
      | _ => current
      end
  end.
Definition query_top_level_owner (maybe_account : Addr) : outcome StdError (Ownership Addr) :=
  top_level_go MAX_ADMIN_RECURSION (query_ownership maybe_account).
Definition query_top_level_owner_addr (maybe_account : Addr) : outcome StdError Addr :=
  ownership ← query_top_level_owner maybe_account;
  ok_or (owner_address (owner ownership)) (StdMsg "Top level account got renounced").

(** ** The ownership cell (gov_ownable.rs) *)

Definition assert_owner_can_change (o : Ownership Addr) : outcome GovOwnershipError unit :=
  match owner o with NFT _ _ => Err ChangeOfNftOwned | _ => Ok tt end.

(** [Ownership::assert_owner] *)
Definition assert_owner (o : Ownership Addr) (sender : Addr) : outcome GovOwnershipError unit :=
  current_owner ← ok_or (owner_address (owner o)) NoOwner;
  if decide (sender ≠ current_owner) then Err NotOwner else Ok tt.

(** [Ownership::assert_nested_sender_can_change_owner] *)
Definition assert_nested_sender_can_change_owner (o : Ownership Addr) (sender : Addr) :
    outcome GovOwnershipError unit :=
  match owner o with
  | SubAccount account =>
      top_level_owner ← map_err GovStd (query_top_level_owner account);
      assert_owner_can_change top_level_owner ≫= λ _,
      if negb (is_ok (assert_owner o sender)) then assert_owner top_level_owner sender else Ok tt
  | _ => assert_owner_can_change o ≫= λ _, assert_owner o sender
  end.

Abbreviation OwnM := (M (option (Ownership Addr)) GovOwnershipError).

Definition load_ownership : OwnM (Ownership Addr) :=
  o ← gets id; lift (ok_or o (GovStd (StdNotFound "ownership"))).
Definition save_ownership (o : Ownership Addr) : OwnM unit := modify (λ _, Some o).
(** [OWNERSHIP.update(store, f)] *)
Definition update_cell (f : Ownership Addr → outcome GovOwnershipError (Ownership Addr)) :
    OwnM (Ownership Addr) :=
  o ← load_ownership; o' ← lift (f o); save_ownership o' ≫= λ _, mret o'.

Definition initialize_owner (g : GovernanceDetails string) : OwnM (Ownership Addr) :=
  owner ← lift (map_err GovAbstract (verify_gov g));
  let ownership := mkOwnership owner None None in
  save_ownership ownership ≫= λ _, mret ownership.

(** [is_owner], on the stored ownership *)
Definition is_owner (o : option (Ownership Addr)) (addr : Addr) : outcome StdError bool :=
  ownership ← ok_or o (StdNotFound "ownership");
  match owner_address (owner ownership) with
  | Some owner => Ok (bool_decide (addr = owner))
  | None => Ok false
  end.

Definition assert_nested_owner (o : option (Ownership Addr)) (sender : Addr) :
    outcome GovOwnershipError unit :=
  ownership ← ok_or o (GovStd (StdNotFound "ownership"));
  let owner_assertion := assert_owner ownership sender in
  if is_ok owner_assertion then Ok tt else
  match owner ownership with
  | SubAccount account =>
      top_level_ownership ← map_err GovStd (query_top_level_owner account);
      assert_owner top_level_ownership sender
  | _ => owner_assertion
  end.

Definition transfer_ownership (sender : Addr) (new_owner : GovernanceDetails string)
    (expiry : option Expiration) : OwnM (Ownership Addr) :=
  new_owner ← lift (map_err GovAbstract (verify_gov new_owner));
  ensure (bool_decide (owner_address new_owner ≠ None)) TransferToRenounced ≫= λ _,
  update_cell (λ ownership,
    assert_nested_sender_can_change_owner ownership sender ≫= λ _,
    Ok (mkOwnership (owner ownership) (Some new_owner) expiry)).

(** Whether the caller may accept for this pending owner. *)
Definition is_pending_owner (maybe_pending_owner : GovernanceDetails Addr)
    (pending_owner sender : Addr) : outcome GovOwnershipError bool :=
  if decide (sender = pending_owner) then Ok true else
  match maybe_pending_owner with
  | SubAccount account =>
      top ← map_err GovStd (query_top_level_owner account);
      Ok (match owner_address (owner top) with
          | Some top_sender => bool_decide (top_sender = sender)
          | None => false
          end)
  | _ => Ok false
  end.

Definition accept_ownership (b : BlockInfo) (sender : Addr) : OwnM (Ownership Addr) :=
  update_cell (λ ownership,
    maybe_pending_owner ← ok_or (pending_owner ownership) TransferNotFound;
    pending_owner ← ok_or (owner_address maybe_pending_owner) TransferNotFound;
    is_pending ← is_pending_owner maybe_pending_owner pending_owner sender;
    guard_or is_pending NotPendingOwner ≫= λ _,
    match pending_expiry ownership with
    | Some expiry => guard_or (negb (is_expired expiry b)) TransferExpired
    | None => Ok tt
    end ≫= λ _,
    Ok (mkOwnership maybe_pending_owner None None)).

Definition renounce_ownership (sender : Addr) : OwnM (Ownership Addr) :=
  update_cell (λ ownership,
    assert_nested_sender_can_change_owner ownership sender ≫= λ _,
    Ok (mkOwnership Renounced None None)).

Definition update_ownership (b : BlockInfo) (sender : Addr) (action : GovAction) :
    OwnM (Ownership Addr) :=
  match action with
  | TransferOwnership new_owner expiry => transfer_ownership sender new_owner expiry
  | AcceptOwnership => accept_ownership b sender
  | RenounceOwnership => renounce_ownership sender
  end.

(** ** Nested administrators (nested_admin.rs) *)

Definition CALLING_TO_AS_ADMIN_WILD_CARD : string := "calling-to-wild-card".

(** The error of [cw_controllers::Admin]. *)
Inductive AdminError : Type := AdminStd (e : StdError) | NotAdmin.

Definition assert_account_calling_to_as_admin_is_self (env : Env) (maybe_account : Addr) : bool :=
  match calling_to_as_admin_of maybe_account with
  | Some admin_call_to =>
      (bool_decide (admin_call_to = contract_address env)
       || bool_decide (admin_call_to = CALLING_TO_AS_ADMIN_WILD_CARD))%bool
  | None => false
  end.

Definition is_admin_custom (env : Env) (caller admin : Addr) : bool :=
  if (bool_decide (caller = admin) && assert_account_calling_to_as_admin_is_self env caller)%bool
  then true
  else match ok (query_top_level_owner_addr admin) with
       | Some top => bool_decide (top = caller)
       | None => false
       end.

(** [Admin] holds an optional administrator; the outer [None] is an item that
    was never set. *)
Abbreviation AdminM := (M (option (option Addr)) AdminError).
Definition admin_get : AdminM (option Addr) :=
  a ← gets id; lift (ok_or a (AdminStd (StdNotFound "admin"))).
Definition is_admin (env : Env) (caller : Addr) : AdminM bool :=
  admin ← admin_get;
  mret (match admin with Some admin => is_admin_custom env caller admin | None => false end).
Definition assert_admin (env : Env) (caller : Addr) : AdminM unit :=
  b ← is_admin env caller; ensure b NotAdmin.
Definition assert_admin_custom (env : Env) (caller admin : Addr) : outcome AdminError unit :=
  guard_or (is_admin_custom env caller admin) NotAdmin.
Definition execute_update_admin (env : Env) (info : MessageInfo) (new_admin : option Addr) :
    AdminM unit :=
  assert_admin env (sender info) ≫= λ _, modify (λ _, Some new_admin).
Definition query_account_owner : AdminM (option Addr) :=
  admin ← admin_get;
  match admin with
  | Some owner =>
      a ← lift (map_err (λ _, AdminStd (StdMsg "Failed to query top level owner. Make sure this module is owned by the account"))
              (query_top_level_owner_addr owner)); mret (Some a)
  | None => mret None
  end.
End ownership.

(** ** Lemmas *)

Section lemmas.
Context `{Semver, Api, Instantiate2, !Querier}.

Definition is_nft {T} (g : GovernanceDetails T) : Prop :=
  match g with NFT _ _ => True | _ => False end.
#[export] Instance is_nft_dec {T} (g : GovernanceDetails T) : Decision (is_nft g).
Proof. destruct g; apply _. Defined.

Lemma assert_owner_Ok o sender u :
  assert_owner o sender = Ok u ↔ owner_address (owner o) = Some sender.
Proof.
  unfold assert_owner. rewrite obind_Ok. setoid_rewrite ok_or_Ok. split.
  - intros (a & Ha & Hs). case_decide as Hd; [done|]. rewrite Ha.
    destruct (decide (sender = a)); [congruence|done].
  - intros Ha. exists sender. split; [done|]. destruct u. by rewrite decide_False by auto.
Qed.
Lemma assert_owner_is_ok o sender :
  is_ok (assert_owner o sender) = true ↔ owner_address (owner o) = Some sender.
Proof. rewrite is_ok_true. setoid_rewrite assert_owner_Ok. split; [by intros []|by exists tt]. Qed.

Lemma assert_owner_can_change_Ok o u : assert_owner_can_change o = Ok u ↔ ¬ is_nft (owner o).
Proof. unfold assert_owner_can_change. destruct u, (owner o); simpl; split; naive_solver. Qed.

(** Who may transfer or renounce ownership. *)
Definition may_change (o : Ownership Addr) (sender : Addr) : Prop :=
  match owner o with
  | SubAccount account =>
      ∃ top, query_top_level_owner account = Ok top ∧ ¬ is_nft (owner top) ∧
        (sender = account ∨ owner_address (owner top) = Some sender)
  | g => ¬ is_nft g ∧ owner_address g = Some sender
  end.

Lemma assert_nested_sender_Ok o sender u :
  assert_nested_sender_can_change_owner o sender = Ok u ↔ may_change o sender.
Proof.
  unfold assert_nested_sender_can_change_owner, may_change.
  assert ((assert_owner_can_change o ≫= λ _, assert_owner o sender) = Ok u ↔
    ¬ is_nft (owner o) ∧ owner_address (owner o) = Some sender) as Hd.
  { rewrite obind_Ok. setoid_rewrite assert_owner_can_change_Ok. setoid_rewrite assert_owner_Ok.
    split; [by intros []|by exists tt]. }
  destruct (owner o) as [|account|?|?|?|] eqn:Ho; try exact Hd.
  rewrite obind_Ok. setoid_rewrite map_err_Ok. setoid_rewrite obind_Ok.
  setoid_rewrite assert_owner_can_change_Ok. pose proof (assert_owner_is_ok o sender) as Hs.
  rewrite Ho in Hs. simpl in Hs.
  destruct (is_ok (assert_owner o sender)); simpl.
  - assert (account = sender) as -> by (apply proj1 in Hs; specialize (Hs eq_refl); congruence).
    split; [intros (top & ? & _ & ? & _); exists top; split_and!; [done..|by left]|]. intros (top & ? & ? & _). destruct u. exists top. split; [done|]. by exists tt.
  - setoid_rewrite assert_owner_Ok. split; [intros (top & ? & _ & ? & ?); exists top; split_and!; [done..|by right]|].
    intros (top & ? & ? & [->|?]); [by apply proj2 in Hs; specialize (Hs eq_refl)|].
    exists top. split; [done|]. by exists tt.
Qed.

(** The owner of an account or, for a sub-account, its top-level owner. *)
Definition nested_owner (o : option (Ownership Addr)) (sender : Addr) : Prop :=
  ∃ own, o = Some own ∧
    (owner_address (owner own) = Some sender ∨
     ∃ account top, owner own = SubAccount account ∧ query_top_level_owner account = Ok top ∧
       owner_address (owner top) = Some sender).
Lemma assert_nested_owner_Ok o sender u :
  assert_nested_owner o sender = Ok u ↔ nested_owner o sender.
Proof.
  unfold assert_nested_owner, nested_owner. rewrite obind_Ok. setoid_rewrite ok_or_Ok.
  split; intros (own & -> & Ho); exists own; (split; [done|]).
  - destruct (is_ok (assert_owner own sender)) eqn:Hi; [left; by apply assert_owner_is_ok|].
    assert ((∃ account, owner own = SubAccount account) ∨ assert_owner own sender = Ok u)
      as [[account Hg]|Hd] by (destruct (owner own); eauto).
    + rewrite Hg in Ho. apply obind_Ok in Ho as (top & Ht & Ho). apply map_err_Ok in Ht.
      apply assert_owner_Ok in Ho. eauto 10.
    + left. by apply assert_owner_Ok in Hd.
  - destruct Ho as [Ho|(account & top & Hg & Ht & Ho)].
    + rewrite (proj2 (assert_owner_is_ok _ _) Ho). by destruct u.
    + case_match; [by destruct u|]. rewrite Hg, Ht. cbn. by apply assert_owner_Ok.
Qed.

(** Who may accept for a pending owner. *)
Definition may_accept (g : GovernanceDetails Addr) (sender : Addr) : Prop :=
  ∃ pending, owner_address g = Some pending ∧
    (sender = pending ∨
     ∃ account top, g = SubAccount account ∧ query_top_level_owner account = Ok top ∧
       owner_address (owner top) = Some sender).

Lemma is_pending_owner_Ok g pending sender :
  is_pending_owner g pending sender = Ok true ↔
  sender = pending ∨
  ∃ account top, g = SubAccount account ∧ query_top_level_owner account = Ok top ∧
    owner_address (owner top) = Some sender.
Proof.
  unfold is_pending_owner. case_decide as Hs; [split; auto|].
  destruct g as [|account|?|?|?|]; try (split; [done|]; intros [?|(? & ? & [=] & _)]; done).
  rewrite obind_Ok. setoid_rewrite map_err_Ok. split.
  - intros (top & Ht & Hb). right. exists account, top. split_and!; [done..|].
    destruct (owner_address (owner top)) as [a|]; [|done]. injection Hb as Hb.
    apply bool_decide_eq_true in Hb. by subst.
  - intros [?|(? & top & [= <-] & Ht & Ha)]; [done|]. exists top. split; [done|].
    rewrite Ha. by rewrite bool_decide_true.
Qed.

Lemma update_cell_Ok f o o' s' :
  update_cell f (Some o) = Ok (o', s') ↔ f o = Ok o' ∧ s' = Some o'.
Proof.
  unfold update_cell, load_ownership, save_ownership, mbind, M_bind, gets, lift, modify, mret, M_ret.
  simpl. destruct (f o); split; naive_solver.
Qed.

Lemma transfer_Ok sender g expiry o o' s' :
  transfer_ownership sender g expiry (Some o) = Ok (o', s') ↔
  ∃ new_owner, verify_gov g = Ok new_owner ∧ owner_address new_owner ≠ None ∧
    may_change o sender ∧ o' = mkOwnership (owner o) (Some new_owner) expiry ∧ s' = Some o'.
Proof.
  unfold transfer_ownership. rewrite bind_Ok. setoid_rewrite lift_Ok. setoid_rewrite map_err_Ok.
  setoid_rewrite bind_Ok. setoid_rewrite ensure_Ok. setoid_rewrite bool_decide_eq_true. split.
  - intros (new & ? & [Hv ->] & ? & ? & [Hn ->] & Hu). apply update_cell_Ok in Hu as [Hu ->].
    apply obind_Ok in Hu as (? & Hm%assert_nested_sender_Ok & [= <-]). eauto 10.
  - intros (new & Hv & Hn & Hm & -> & ->). exists new, (Some o). split; [done|].
    exists tt, (Some o). split; [done|]. apply update_cell_Ok. split; [|done].
    apply obind_Ok. exists tt. split; [by apply assert_nested_sender_Ok|done].
Qed.

Lemma accept_Ok b sender o o' s' :
  accept_ownership b sender (Some o) = Ok (o', s') ↔
  ∃ g, pending_owner o = Some g ∧ may_accept g sender ∧
    (∀ e, pending_expiry o = Some e → is_expired e b = false) ∧
    o' = mkOwnership g None None ∧ s' = Some o'.
Proof.
  unfold accept_ownership. rewrite update_cell_Ok.
  rewrite obind_Ok. setoid_rewrite ok_or_Ok. setoid_rewrite obind_Ok. setoid_rewrite ok_or_Ok.
  split.
  - intros [(g & Hg & a & Ha & Hi) ->]. apply obind_Ok in Hi as ([] & Hi & Hr); [|done].
    apply is_pending_owner_Ok in Hi. apply obind_Ok in Hr as ([] & _ & Hr).
    apply obind_Ok in Hr as ([] & He & [= <-]).
    exists g. split; [done|]. split; [by exists a|]. split; [|done].
    intros e Hs. rewrite Hs in He. apply guard_or_Ok in He. by apply negb_true_iff.
  - intros (g & Hg & (a & Ha & Hi) & He & -> & ->). split; [|done].
    exists g. split; [done|]. exists a. split; [done|].
    apply obind_Ok. exists true. split; [by apply is_pending_owner_Ok|]. cbn.
    destruct (pending_expiry o) as [e|]; [|done]. by rewrite (He e eq_refl).
Qed.

Lemma renounce_Ok sender o o' s' :
  renounce_ownership sender (Some o) = Ok (o', s') ↔
  may_change o sender ∧ o' = mkOwnership Renounced None None ∧ s' = Some o'.
Proof.
  unfold renounce_ownership. rewrite update_cell_Ok, obind_Ok.
  setoid_rewrite assert_nested_sender_Ok. split.
  - intros [(_ & ? & [= <-]) ->]. done.
  - intros (? & -> & ->). split; [by exists tt|done].
Qed.

(** The exact effect and authorisation of every ownership action: a transfer
    only records the verified new owner, a renouncing leaves no owner, both by
    the current owner or, for a sub-account, its top-level owner, and never
    when that is an NFT; accepting installs exactly the pending owner, by that
    owner or its top-level owner, before the deadline. *)
Theorem update_ownership_spec (b : BlockInfo) (sender : Addr) (action : GovAction)
    (o o' : Ownership Addr) (s' : option (Ownership Addr)) :
  update_ownership b sender action (Some o) = Ok (o', s') ↔
  s' = Some o' ∧
  match action with
  | TransferOwnership g expiry =>
      may_change o sender ∧
      ∃ new_owner, verify_gov g = Ok new_owner ∧ owner_address new_owner ≠ None ∧
        o' = mkOwnership (owner o) (Some new_owner) expiry
  | AcceptOwnership =>
      ∃ g, pending_owner o = Some g ∧ may_accept g sender ∧
        (∀ e, pending_expiry o = Some e → is_expired e b = false) ∧ o' = mkOwnership g None None
  | RenounceOwnership => may_change o sender ∧ o' = mkOwnership Renounced None None
  end.
Proof.
  destruct action; simpl.
  - rewrite transfer_Ok. naive_solver.
  - rewrite accept_Ok. naive_solver.
  - rewrite renounce_Ok. naive_solver.
Qed.

(** A chain of nested accounts: [path i] is a sub-account of [path (i + 1)]. *)
Definition nested (path : nat → Addr) (n : nat) : Prop :=
  ∀ i, (i < n)%nat → ∃ o, ownership_of (path i) = Some o ∧ owner o = SubAccount (path (S i)).

(** The top-level owner of an account is searched through at most two levels
    of nesting: it is the ownership of the last account of the chain when that
    is at most two levels up, and otherwise the ownership of the second one,
    whose owner is still an account. *)
Theorem query_top_level_owner_depth (path : nat → Addr) (n : nat) (top : Ownership Addr)
    (Hpath : nested path n) (Htop : ownership_of (path n) = Some top)
    (Hroot : ∀ a, owner top ≠ SubAccount a) :
  if decide (n ≤ MAX_ADMIN_RECURSION)%nat then query_top_level_owner (path 0%nat) = Ok top
  else query_top_level_owner_addr (path 0%nat) = Ok (path (S MAX_ADMIN_RECURSION)).
Proof.
  unfold query_top_level_owner_addr, query_top_level_owner, MAX_ADMIN_RECURSION, query_ownership, query_r.
  assert (∀ k, top_level_go k (Ok top) = Ok top) as Hstop.
  { intros [|k]; [done|]. simpl. destruct top as [[| | | | |] ??]; try done. by destruct (Hroot account). }
  destruct n as [|n]; [rewrite Htop; exact (Hstop 2%nat)|].
  destruct (Hpath 0%nat ltac:(lia)) as ([? ? ?] & Hq0 & Ho0). simpl in Ho0. subst. rewrite Hq0. cbn.
  unfold query_ownership, query_r.
  destruct n as [|n]; [rewrite Htop; exact (Hstop 1%nat)|].
  destruct (Hpath 1%nat ltac:(lia)) as ([? ? ?] & Hq1 & Ho1). simpl in Ho1. subst. rewrite Hq1. cbn.
  unfold query_ownership, query_r.
  destruct n as [|n]; [by rewrite Htop|].
  destruct (Hpath 2%nat ltac:(lia)) as ([? ? ?] & Hq2 & Ho2). simpl in Ho2. subst. by rewrite Hq2.
Qed.

(** Exactly two callers pass the administrator check of a contract: its direct
    administrator while that account says it is calling this contract (or any
    contract) as administrator, and the top-level owner behind it. *)
Theorem is_admin_custom_spec (env : Env) (caller admin : Addr) :
  is_admin_custom env caller admin = true ↔
  (caller = admin ∧ ∃ t, calling_to_as_admin_of caller = Some t ∧
     (t = contract_address env ∨ t = CALLING_TO_AS_ADMIN_WILD_CARD)) ∨
  (∃ o, query_top_level_owner admin = Ok o ∧ owner_address (owner o) = Some caller).
Proof.
  assert (assert_account_calling_to_as_admin_is_self env caller = true ↔
    ∃ t, calling_to_as_admin_of caller = Some t ∧
     (t = contract_address env ∨ t = CALLING_TO_AS_ADMIN_WILD_CARD)) as Hc.
  { unfold assert_account_calling_to_as_admin_is_self.
    destruct (calling_to_as_admin_of caller); [|naive_solver].
    rewrite orb_true_iff, !bool_decide_eq_true. naive_solver. }
  assert (match ok (query_top_level_owner_addr admin) with
       | Some top => bool_decide (top = caller) | None => false end = true ↔
    ∃ o, query_top_level_owner admin = Ok o ∧ owner_address (owner o) = Some caller) as Ht.
  { transitivity (query_top_level_owner_addr admin = Ok caller).
    - rewrite <-ok_Some. destruct (ok _) as [a|]; [|naive_solver].
      rewrite bool_decide_eq_true. naive_solver.
    - unfold query_top_level_owner_addr. rewrite obind_Ok. setoid_rewrite ok_or_Ok. done. }
  unfold is_admin_custom. rewrite <-Ht, <-Hc.
  destruct (bool_decide_reflect (caller = admin));
    destruct (assert_account_calling_to_as_admin_is_self env caller); simpl; tauto || naive_solver.
Qed.
End lemmas.

(** ** Ownership over time *)

Section history.
Context `{Semver, Api, Instantiate2}.

(** One call of [update_ownership], seeing any state of the other contracts;
    a failing call leaves the cell as it was. *)
Inductive gov_step (s : option (Ownership Addr)) : option (Ownership Addr) → Prop :=
  | gov_step_call (Q : Querier) (b : BlockInfo) (sender : Addr) (action : GovAction) :
      gov_step s (commit s (update_ownership b sender action s)).

(** Nothing is pending on an account owned by an NFT or by nobody. *)
Definition settled (o : Ownership Addr) : Prop :=
  is_nft (owner o) ∨ owner o = Renounced → pending_owner o = None.

Lemma may_change_owner `{!Querier} o sender :
  may_change o sender → ¬ is_nft (owner o) ∧ owner o ≠ Renounced.
Proof. unfold may_change. destruct (owner o); simpl; naive_solver. Qed.

Lemma gov_step_settled o s' :
  settled o → gov_step (Some o) s' →
  ∃ o', s' = Some o' ∧ settled o' ∧ (is_nft (owner o) ∨ owner o = Renounced → o' = o).
Proof.
  intros Ho [Q b sender action].
  destruct (update_ownership b sender action (Some o)) as [[o' s'']|e|] eqn:Hu; [|by eauto..].
  simpl. destruct action; simpl in Hu.
  - apply transfer_Ok in Hu as (g & _ & _ & Hm%may_change_owner & -> & ->).
    eexists. split; [done|]. unfold settled. simpl. naive_solver.
  - apply accept_Ok in Hu as (g & Hg & _ & _ & -> & ->).
    eexists. split; [done|]. split; [done|]. intros Hf. rewrite (Ho Hf) in Hg. done.
  - apply renounce_Ok in Hu as (Hm%may_change_owner & -> & ->).
    eexists. split; [done|]. split; [done|]. naive_solver.
Qed.

Lemma gov_steps_settled o s' :
  settled o → rtc gov_step (Some o) s' →
  ∃ o', s' = Some o' ∧ settled o' ∧ (is_nft (owner o) ∨ owner o = Renounced → o' = o).
Proof.
  intros Ho Hs. remember (Some o) as s eqn:Hs0. revert o Ho Hs0.
  induction Hs as [s|s s1 s2 Hstep Hs IH]; intros o Ho ->; [by eauto|].
  destruct (gov_step_settled _ _ Ho Hstep) as (o1 & -> & Ho1 & He1).
  destruct (IH o1 Ho1 eq_refl) as (o2 & -> & Ho2 & He2).
  exists o2. split_and!; [done..|]. intros Hf. pose proof (He1 Hf) as ->. auto.
Qed.

(** Once an account initialised with any governance is owned by an NFT or
    renounced, its ownership cell never changes again, whoever calls whatever
    in whatever state of the chain: the NFT has to be transferred instead, and
    nobody takes over a renounced account. *)
Theorem ownership_frozen (Q : Querier) (g : GovernanceDetails string)
    (s0 : option (Ownership Addr)) (o o1 : Ownership Addr) (s s1 s2 : option (Ownership Addr))
    (Hinit : initialize_owner g s0 = Ok (o, s)) (Hreach : rtc gov_step s s1)
    (Hs1 : s1 = Some o1) (Hfrozen : is_nft (owner o1) ∨ owner o1 = Renounced)
    (Hlater : rtc gov_step s1 s2) :
  pending_owner o1 = None ∧ s2 = s1.
Proof.
  unfold initialize_owner, save_ownership in Hinit. inv_ok.
  destruct (gov_steps_settled (mkOwnership x None None) _ (λ _, eq_refl) Hreach) as (o1' & [= <-] & Ho1 & _).
  destruct (gov_steps_settled _ _ Ho1 Hlater) as (o2 & -> & _ & He).
  split; [by apply Ho1|]. by rewrite (He Hfrozen).
Qed.
End history.

Module OwnershipExamples.
#[local] Existing Instance semver_ref.
#[local] Existing Instance api_ref.
#[local] Existing Instance instantiate2_ref.

(** Accounts "sub3" in "sub2" in "sub1" in "root", which "alice" owns. *)
#[local] Instance chain : Querier := {|
  wasm_contract_info _ := None;
  wasm_code_info _ := None;
  cw2_contract _ := None;
  account_id_of _ := None;
  module_data_of _ := None;
  ownership_of a :=
    (list_to_map [("root", mkOwnership (Monarchy "alice") None None);
                  ("sub1", mkOwnership (SubAccount "root") None None);
                  ("sub2", mkOwnership (SubAccount "sub1") None None);
                  ("sub3", mkOwnership (SubAccount "sub2") None None)] : gmap string (Ownership Addr)) !! a;
  nft_owner_of _ _ := None;
  calling_to_as_admin_of _ := None;
  registry_account_of _ _ := None
|}.

Definition path (i : nat) : Addr := default "root" (["sub3"; "sub2"; "sub1"; "root"] !! i).

(** From the third level the search stops at the account "root". *)
Lemma query_top_level_owner_depth_witness :
  query_top_level_owner_addr "sub3" = Ok "root" ∧ query_top_level_owner "sub2" =
    Ok (mkOwnership (Monarchy "alice") None None).
Proof.
  assert (∀ a, owner (mkOwnership (Monarchy "alice") None None) ≠ SubAccount a) as Hr by done.
  split.
  - refine (query_top_level_owner_depth path 3 (mkOwnership (Monarchy "alice") None None) _ eq_refl Hr).
    intros [|[|[|i]]] Hi; [by eexists..|lia].
  - refine (query_top_level_owner_depth (λ i, path (S i)) 2
      (mkOwnership (Monarchy "alice") None None) _ eq_refl Hr).
    intros [|[|i]] Hi; [by eexists..|lia].
Defined.

Definition block0 : BlockInfo := mkBlock 1 0 "juno-1".
Definition s0 : option (Ownership Addr) := Some (mkOwnership (Monarchy "alice") None None).
Definition s1 : option (Ownership Addr) := Some (mkOwnership Renounced None None).

(** "bob" tries to take the renounced account over. *)
Definition take_over : GovAction := TransferOwnership (Monarchy "bob") None.

Lemma ownership_frozen_witness :
  commit s1 (update_ownership block0 "bob" take_over s1) = s1.
Proof.
  assert (initialize_owner (Monarchy "alice") None = Ok (mkOwnership (Monarchy "alice") None None, s0))
    as Hi by reflexivity.
  refine (proj2 (ownership_frozen chain (Monarchy "alice") None _
    (mkOwnership Renounced None None) s0 s1 _ Hi _ eq_refl (or_intror eq_refl) _)).
  - apply rtc_once. exact (gov_step_call s0 chain block0 "alice" RenounceOwnership).
  - apply rtc_once. exact (gov_step_call s1 chain block0 "bob" take_over).
Defined.
End OwnershipExamples.
