(* ===== verification/Ans.v ===== *)
(** * The ANS host

    framework/contracts/native/ans-host (commands.rs, contract.rs, queries.rs,
    error.rs), its messages and storage (abstract-std/src/native/ans_host.rs):
    the name service that maps names to assets, contracts, channels and pools.
    The client side is in AnsClient.v, the theorems are in AnsProofs.v. *)

From S2P Require Import Prelude Cosmos Strings Objects Names AccountIds Ownership AnsObjects.
From Stdlib Require Import Ascii String.
#[local] Open Scope string_scope.
#[local] Open Scope list_scope.
#[local] Open Scope Z_scope.

(** ** Packages underneath

    [cw_asset]: the description of an asset, its unchecked form, the check
    against the address API, and the text it is stored under. *)
Class CwAsset := {
  asset_info : Type;
  asset_info_eq_dec :: EqDecision asset_info;
  asset_info_countable :: Countable asset_info;
  asset_info_unchecked : Type;
  asset_info_check : asset_info_unchecked → option asset_info;
  asset_info_key : asset_info → string
}.

(** [error.rs] *)
Inductive AnsContractError : Type :=
  | AcStd (e : StdError)
  | AcAbstract (e : AbstractError)
  | AcAsset
  | AcOwnership (e : OwnershipError)
  | InvalidAssetCount (min max provided : Z)
  | UnregisteredDex (dex : string)
  | UnregisteredAsset (asset : string).

Definition CONTRACT_VERSION : string := "0.26.1".
Definition MIN_POOL_ASSETS : Z := 2.
Definition MAX_POOL_ASSETS : Z := 5.
Definition AssetPair : Type := AssetEntry * AssetEntry.

Section ans.
Context `{Semver, Api, CwOwnable, CwAsset}.

(** ** State and messages *)

Record State := mkState {
  contract_version : option ContractVersion;
  cw_ownership : option ownable;
  next_unique_pool_id : option UniquePoolId;
  asset_addresses : gmap AssetEntry asset_info;
  rev_asset_addresses : gmap asset_info AssetEntry;
  contract_addresses : gmap ContractEntry Addr;
  channels : gmap ChannelEntry string;
  registered_dexes : option (list string);
  asset_pairings : gmap DexAssetPairing (list PoolReference);
  pool_metadata : gmap UniquePoolId PoolMetadata
}.
Definition set_contract_version (v : option ContractVersion) (s : State) : State :=
  mkState v (cw_ownership s) (next_unique_pool_id s) (asset_addresses s) (rev_asset_addresses s)
    (contract_addresses s) (channels s) (registered_dexes s) (asset_pairings s) (pool_metadata s).
Definition set_cw_ownership (v : option ownable) (s : State) : State :=
  mkState (contract_version s) v (next_unique_pool_id s) (asset_addresses s)
    (rev_asset_addresses s) (contract_addresses s) (channels s) (registered_dexes s)
    (asset_pairings s) (pool_metadata s).
Definition set_next_unique_pool_id (v : option UniquePoolId) (s : State) : State :=
  mkState (contract_version s) (cw_ownership s) v (asset_addresses s) (rev_asset_addresses s)
    (contract_addresses s) (channels s) (registered_dexes s) (asset_pairings s) (pool_metadata s).
Definition set_asset_addresses (v : gmap AssetEntry asset_info) (s : State) : State :=
  mkState (contract_version s) (cw_ownership s) (next_unique_pool_id s) v (rev_asset_addresses s)
    (contract_addresses s) (channels s) (registered_dexes s) (asset_pairings s) (pool_metadata s).
Definition set_rev_asset_addresses (v : gmap asset_info AssetEntry) (s : State) : State :=
  mkState (contract_version s) (cw_ownership s) (next_unique_pool_id s) (asset_addresses s) v
    (contract_addresses s) (channels s) (registered_dexes s) (asset_pairings s) (pool_metadata s).
Definition set_contract_addresses (v : gmap ContractEntry Addr) (s : State) : State :=
  mkState (contract_version s) (cw_ownership s) (next_unique_pool_id s) (asset_addresses s)
    (rev_asset_addresses s) v (channels s) (registered_dexes s) (asset_pairings s)
    (pool_metadata s).
Definition set_channels (v : gmap ChannelEntry string) (s : State) : State :=
  mkState (contract_version s) (cw_ownership s) (next_unique_pool_id s) (asset_addresses s)
    (rev_asset_addresses s) (contract_addresses s) v (registered_dexes s) (asset_pairings s)
    (pool_metadata s).
Definition set_registered_dexes (v : option (list string)) (s : State) : State :=
  mkState (contract_version s) (cw_ownership s) (next_unique_pool_id s) (asset_addresses s)
    (rev_asset_addresses s) (contract_addresses s) (channels s) v (asset_pairings s)
    (pool_metadata s).
Definition set_asset_pairings (v : gmap DexAssetPairing (list PoolReference)) (s : State) : State :=
  mkState (contract_version s) (cw_ownership s) (next_unique_pool_id s) (asset_addresses s)
    (rev_asset_addresses s) (contract_addresses s) (channels s) (registered_dexes s) v
    (pool_metadata s).
Definition set_pool_metadata (v : gmap UniquePoolId PoolMetadata) (s : State) : State :=
  mkState (contract_version s) (cw_ownership s) (next_unique_pool_id s) (asset_addresses s)
    (rev_asset_addresses s) (contract_addresses s) (channels s) (registered_dexes s)
    (asset_pairings s) v.
Definition empty_state : State := mkState None None None ∅ ∅ ∅ ∅ None ∅ ∅.

Inductive ExecuteMsg : Type :=
  | UpdateContractAddresses (to_add : list (ContractEntry * string)) (to_remove : list ContractEntry)
  | UpdateAssetAddresses (to_add : list (string * asset_info_unchecked)) (to_remove : list string)
  | UpdateChannels (to_add : list (ChannelEntry * string)) (to_remove : list ChannelEntry)
  | UpdateDexes (to_add to_remove : list string)
  | UpdatePools (to_add : list (UncheckedPoolAddress * PoolMetadata)) (to_remove : list UniquePoolId)
  | UpdateOwnership (action : cw_action).
Inductive MigrateMsg : Type := MigrateInstantiate (admin : string) | Migrate.

Abbreviation AnsM := (M State AnsContractError).
Abbreviation AnsResponse := (Response unit).

(** [cw_ownable::assert_owner] *)
Definition assert_owner (info : MessageInfo) : AnsM unit :=
  o ← gets cw_ownership;
  o ← lift (ok_or o (AcStd (StdNotFound "ownership")));
  lift (map_err AcOwnership (cw_assert_owner o (sender info))).

(** ** Names of contracts, assets, channels and dexes (commands.rs) *)

Definition update_contract_addresses (info : MessageInfo) (to_add : list (ContractEntry * string))
    (to_remove : list ContractEntry) : AnsM AnsResponse :=
  assert_owner info ≫= λ _,
  mfor to_add (λ '(key, new_address),
    let key := contract_entry_check key in
    addr ← lift (map_err AcStd (addr_validate_r new_address));
    modify (λ s, set_contract_addresses (<[key := addr]> (contract_addresses s)) s)) ≫= λ _,
  mfor to_remove (λ key,
    let key := contract_entry_check key in
    modify (λ s, set_contract_addresses (delete key (contract_addresses s)) s)) ≫= λ _,
  mret (mkResponse "update_contract_addresses" []).

Definition add_asset (x : string * asset_info_unchecked) : AnsM unit :=
  asset ← lift (ok_or (asset_info_check x.2) AcAsset);
  let entry := asset_entry_new x.1 in
  modify (λ s, set_asset_addresses (<[entry := asset]> (asset_addresses s)) s) ≫= λ _,
  modify (λ s, set_rev_asset_addresses (<[asset := entry]> (rev_asset_addresses s)) s).
Definition remove_asset (name : string) : AnsM unit :=
  let entry := asset_entry_new name in
  maybe_asset ← gets (λ s, asset_addresses s !! entry);
  match maybe_asset with
  | Some asset =>
      modify (λ s, set_asset_addresses (delete entry (asset_addresses s)) s) ≫= λ _,
      modify (λ s, set_rev_asset_addresses (delete asset (rev_asset_addresses s)) s)
  | None => mret tt
  end.
Definition update_asset_addresses (info : MessageInfo) (to_add : list (string * asset_info_unchecked))
    (to_remove : list string) : AnsM AnsResponse :=
  assert_owner info ≫= λ _,
  mfor to_add add_asset ≫= λ _,
  mfor to_remove remove_asset ≫= λ _,
  mret (mkResponse "update_asset_addresses" []).

Definition update_channels (info : MessageInfo) (to_add : list (ChannelEntry * string))
    (to_remove : list ChannelEntry) : AnsM AnsResponse :=
  assert_owner info ≫= λ _,
  mfor to_add (λ '(key, new_channel),
    key ← lift (map_err AcAbstract (channel_entry_check key));
    modify (λ s, set_channels (<[key := new_channel]> (channels s)) s)) ≫= λ _,
  mfor to_remove (λ key,
    key ← lift (map_err AcAbstract (channel_entry_check key));
    modify (λ s, set_channels (delete key (channels s)) s)) ≫= λ _,
  mret (mkResponse "update_channels" []).

(** The closures of [update_dex_registry]. *)
Definition register_dex (dexes : list string) (dex : string) : list string :=
  if decide (dex ∈ dexes) then dexes else dexes ++ [to_lowercase dex].
Definition deregister_dex (dexes : list string) (dex : string) : list string :=
  filter (λ x, x ≠ dex) dexes.
(** [REGISTERED_DEXES.update] *)
Definition update_dexes (f : list string → list string) : AnsM unit :=
  o ← gets registered_dexes;
  dexes ← lift (ok_or o (AcStd (StdNotFound "registered_dexes")));
  modify (set_registered_dexes (Some (f dexes))).
Definition update_dex_registry (info : MessageInfo) (to_add to_remove : list string) :
    AnsM AnsResponse :=
  assert_owner info ≫= λ _,
  (if decide (to_add = []) then mret tt
   else update_dexes (λ dexes, foldl register_dex dexes to_add)) ≫= λ _,
  (if decide (to_remove = []) then mret tt
   else update_dexes (λ dexes, foldl deregister_dex dexes to_remove)) ≫= λ _,
  mret (mkResponse "update_dexes" []).

(** ** Pools *)

(** [l.iter().enumerate()] *)
Definition enumerate {A} (l : list A) : list (nat * A) := imap pair l.
(** [exec_on_asset_pairings]: every ordered pair of different assets, at
    different positions. *)
Definition exec_on_asset_pairings (assets : list AssetEntry) (action : AssetPair → AnsM unit) :
    AnsM unit :=
  mfor (enumerate assets) (λ x,
    mfor (enumerate assets) (λ y,
      if decide (x.1 = y.1 ∨ x.2 = y.2) then mret tt else action (x.2, y.2))).

(** [register_asset_pairing] *)
Definition register_asset_pairing (pair : DexAssetPairing) (compound_pool_id : PoolReference) :
    AnsM unit :=
  modify (λ s, set_asset_pairings (<[pair :=
    default [] (asset_pairings s !! pair) ++ [compound_pool_id]]> (asset_pairings s)) s).
(** [register_pool_pairings] *)
Definition register_pool_pairings (next_pool_id : UniquePoolId) (pool_address : PoolAddress)
    (assets : list AssetEntry) (dex : string) : AnsM unit :=
  exec_on_asset_pairings assets (λ p,
    register_asset_pairing (pairing_new p.1 p.2 dex) (mkPoolReference next_pool_id pool_address)).

(** The action of [remove_pool_pairings]: the list is saved, and the entry
    removed when it is empty. *)
Definition remove_pairing_action (pool_id_to_remove : UniquePoolId) (key : DexAssetPairing) :
    AnsM unit :=
  ids ← gets (λ s, default [] (asset_pairings s !! key));
  let remaining_ids := filter (λ id, unique_id id ≠ pool_id_to_remove) ids in
  modify (λ s, set_asset_pairings (<[key := remaining_ids]> (asset_pairings s)) s) ≫= λ _,
  if decide (remaining_ids = []) then
    modify (λ s, set_asset_pairings (delete key (asset_pairings s)) s)
  else mret tt.
Definition remove_pool_pairings (pool_id_to_remove : UniquePoolId) (dex : string)
    (assets : list AssetEntry) : AnsM unit :=
  exec_on_asset_pairings assets (λ p,
    remove_pairing_action pool_id_to_remove (pairing_new p.1 p.2 dex)).

(** [validate_pool_assets]; the formatted names replace those of the metadata. *)
Definition validate_pool_assets (assets : list AssetEntry) : AnsM (list AssetEntry) :=
  let assets := to_lowercase <$> assets in
  let n := Z.of_nat (List.length assets) in
  ensure (negb (bool_decide (n < MIN_POOL_ASSETS ∨ MAX_POOL_ASSETS < n)))
    (InvalidAssetCount MIN_POOL_ASSETS MAX_POOL_ASSETS n) ≫= λ _,
  mfor assets (λ asset,
    o ← gets (λ s, asset_addresses s !! asset);
    ensure (negb (bool_decide (o = None))) (UnregisteredAsset asset)) ≫= λ _,
  mret assets.

(** The body of the first loop of [update_pools]. *)
Definition add_pool (dexes : list string) (next_id : UniquePoolId)
    (x : UncheckedPoolAddress * PoolMetadata) : AnsM UniquePoolId :=
  pool_id ← lift (map_err AcAbstract (pool_address_check x.1));
  assets ← validate_pool_assets (pm_assets x.2);
  let dex := to_lowercase (pm_dex x.2) in
  ensure (bool_decide (dex ∈ dexes)) (UnregisteredDex dex) ≫= λ _,
  register_pool_pairings next_id pool_id assets dex ≫= λ _,
  let metadata := mkPoolMetadata (pm_dex x.2) (pm_pool_type x.2) assets in
  modify (λ s, set_pool_metadata (<[next_id := metadata]> (pool_metadata s)) s) ≫= λ _,
  lift (increment next_id).
(** The body of the second loop. *)
Definition remove_pool (pool_id_to_remove : UniquePoolId) : AnsM unit :=
  metadata ← gets (λ s, pool_metadata s !! pool_id_to_remove);
  match metadata with
  | None => mret tt
  | Some metadata =>
      remove_pool_pairings pool_id_to_remove (pm_dex metadata) (pm_assets metadata) ≫= λ _,
      modify (λ s, set_pool_metadata (delete pool_id_to_remove (pool_metadata s)) s)
  end.
Definition update_pools (info : MessageInfo) (to_add : list (UncheckedPoolAddress * PoolMetadata))
    (to_remove : list UniquePoolId) : AnsM AnsResponse :=
  assert_owner info ≫= λ _,
  config ← gets next_unique_pool_id;
  original_unique_pool_id ← lift (ok_or config (AcStd (StdNotFound "config")));
  dexes ← (if decide (to_add = []) then mret []
           else o ← gets registered_dexes; lift (ok_or o (AcStd (StdNotFound "registered_dexes"))));
  next_id ← mfold to_add original_unique_pool_id (add_pool dexes);
  mfor to_remove remove_pool ≫= λ _,
  (if decide (next_id = original_unique_pool_id) then mret tt
   else modify (set_next_unique_pool_id (Some next_id))) ≫= λ _,
  mret (mkResponse "update_pools" []).

(** ** Entry points (contract.rs) *)

(** [execute_update_ownership!] *)
Definition execute_update_ownership (env : Env) (info : MessageInfo) (a : cw_action) :
    AnsM AnsResponse :=
  o ← gets cw_ownership;
  o ← lift (ok_or o (AcOwnership CwOther));
  o' ← lift (map_err AcOwnership (cw_update_ownership o (block env) (sender info) a));
  modify (set_cw_ownership (Some o')) ≫= λ _,
  mret (mkResponse "update_ownership" []).

(** [execute], [handle_message] *)
Definition execute (env : Env) (info : MessageInfo) (msg : ExecuteMsg) : AnsM AnsResponse :=
  match msg with
  | UpdateContractAddresses to_add to_remove => update_contract_addresses info to_add to_remove
  | UpdateAssetAddresses to_add to_remove => update_asset_addresses info to_add to_remove
  | UpdateChannels to_add to_remove => update_channels info to_add to_remove
  | UpdateDexes to_add to_remove => update_dex_registry info to_add to_remove
  | UpdatePools to_add to_remove => update_pools info to_add to_remove
  | UpdateOwnership action => execute_update_ownership env info action
  end.

Definition instantiate (admin : string) : AnsM AnsResponse :=
  modify (set_contract_version (Some (mkContractVersion ANS_HOST CONTRACT_VERSION))) ≫= λ _,
  modify (set_next_unique_pool_id (Some 1)) ≫= λ _,
  modify (set_registered_dexes (Some [])) ≫= λ _,
  o ← lift (ok_or (cw_initialize_owner admin) (AcStd (StdMsg "invalid address")));
  modify (set_cw_ownership (Some o)) ≫= λ _,
  mret (mkResponse "instantiate" []).

(** [migrate], with [migrate_instantiate] for the migration of a blob. *)
Definition migrate `{!Querier} (env : Env) (msg : MigrateMsg) : AnsM AnsResponse :=
  cv ← gets contract_version;
  match msg with
  | MigrateInstantiate admin =>
      ensure (bool_decide (cv = None)) (AcStd (StdMsg "Second instantiation attempt")) ≫= λ _,
      contract_info ← lift (map_err AcStd (query_r (wasm_contract_info (contract_address env))));
      _ ← lift (unwrap (ci_admin contract_info));
      instantiate admin
  | Migrate =>
      version ← lift (unwrap (parse_version CONTRACT_VERSION));
      lift (map_err AcAbstract (assert_contract_upgrade cv ANS_HOST version)) ≫= λ _,
      modify (set_contract_version (Some (mkContractVersion ANS_HOST CONTRACT_VERSION))) ≫= λ _,
      mret (mkResponse "migrate" [])
  end.

(** ** Queries (queries.rs) *)

Definition DEFAULT_LIMIT : Z := 15.
Definition MAX_LIMIT : Z := 25.
Definition limit_of (limit : option Z) : nat := Z.to_nat (Z.min (default DEFAULT_LIMIT limit) MAX_LIMIT).

(** The order of the storage keys of contracts, channels, pairings and asset
    descriptions. *)
Definition pair_lt (x y : string * string) : Prop :=
  prefixed_lt x.1 y.1 ∨ x.1 = y.1 ∧ text_lt x.2 y.2.
Definition contract_lt (x y : ContractEntry) : Prop :=
  pair_lt (ce_protocol x, ce_contract x) (ce_protocol y, ce_contract y).
Definition channel_lt (x y : ChannelEntry) : Prop :=
  pair_lt (connected_chain x, ch_protocol x) (connected_chain y, ch_protocol y).
Definition pairing_lt (x y : DexAssetPairing) : Prop :=
  prefixed_lt (asset_x x) (asset_x y) ∨
  asset_x x = asset_x y ∧ pair_lt (asset_y x, pairing_dex x) (asset_y y, pairing_dex y).
Definition asset_info_lt (x y : asset_info) : Prop := text_lt (asset_info_key x) (asset_info_key y).
#[export] Instance pair_lt_dec x y : Decision (pair_lt x y).
Proof. unfold pair_lt. apply _. Defined.
#[export] Instance contract_lt_dec x y : Decision (contract_lt x y).
Proof. unfold contract_lt. apply _. Defined.
#[export] Instance channel_lt_dec x y : Decision (channel_lt x y).
Proof. unfold channel_lt. apply _. Defined.
#[export] Instance pairing_lt_dec x y : Decision (pairing_lt x y).
Proof. unfold pairing_lt. apply _. Defined.
#[export] Instance asset_info_lt_dec x y : Decision (asset_info_lt x y).
Proof. unfold asset_info_lt. apply _. Defined.

(** [MAP.load] for every key of a list *)
Definition load_all {K V} `{Countable K} (m : gmap K V) (l : list K) : outcome StdError (list (K * V)) :=
  omapM (λ k, v ← ok_or (m !! k) (StdNotFound "key"); Ok (k, v)) l.

Definition query_config (s : State) : outcome StdError UniquePoolId :=
  ok_or (next_unique_pool_id s) (StdNotFound "config").
Definition query_assets (s : State) (keys : list string) : outcome StdError (list (AssetEntry * asset_info)) :=
  load_all (asset_addresses s) (asset_entry_new <$> keys).
Definition query_asset_list (s : State) (last_asset_name : option string) (limit : option Z) :
    list (AssetEntry * asset_info) :=
  take (limit_of limit)
    (range text_lt (asset_entry_new <$> last_asset_name) (map_to_list (asset_addresses s))).
(** [info.check(deps.api, None).map_err(..)?] *)
Definition check_info (i : asset_info_unchecked) : outcome StdError asset_info :=
  ok_or (asset_info_check i) (StdMsg "asset").
(** Checking and loading alternate: the first failure of either is returned. *)
Definition query_asset_infos (s : State) (keys : list asset_info_unchecked) :
    outcome StdError (list (asset_info * AssetEntry)) :=
  omapM (λ i, key ← check_info i;
    v ← ok_or (rev_asset_addresses s !! key) (StdNotFound "key"); Ok (key, v)) keys.
Definition query_asset_info_list (s : State) (last_asset_info : option asset_info_unchecked)
    (limit : option Z) : outcome StdError (list (asset_info * AssetEntry)) :=
  start ← match last_asset_info with Some i => i ← check_info i; Ok (Some i) | None => Ok None end;
  Ok (take (limit_of limit) (range asset_info_lt start (map_to_list (rev_asset_addresses s)))).
Definition query_contract (s : State) (keys : list ContractEntry) :
    outcome StdError (list (ContractEntry * Addr)) := load_all (contract_addresses s) keys.
Definition query_channels (s : State) (keys : list ChannelEntry) :
    outcome StdError (list (ChannelEntry * string)) := load_all (channels s) keys.
Definition query_contract_list (s : State) (last_contract : option ContractEntry) (limit : option Z) :
    list (ContractEntry * Addr) :=
  take (limit_of limit) (range contract_lt last_contract (map_to_list (contract_addresses s))).
Definition query_channel_list (s : State) (last_channel : option ChannelEntry) (limit : option Z) :
    list (ChannelEntry * string) :=
  take (limit_of limit) (range channel_lt last_channel (map_to_list (channels s))).
Definition query_registered_dexes (s : State) : outcome StdError (list string) :=
  ok_or (registered_dexes s) (StdNotFound "registered_dexes").

(** [load_asset_pairing_entry] *)
Definition load_asset_pairing_entry (s : State) (key : DexAssetPairing) :
    outcome StdError (DexAssetPairing * list PoolReference) :=
  value ← ok_or (asset_pairings s !! key) (StdNotFound "key"); Ok (key, value).
(** [o.is_none_or(|f| f == x)] *)
Definition is_none_or {A} `{EqDecision A} (o : option A) (x : A) : bool :=
  match o with Some y => bool_decide (y = x) | None => true end.
Record AssetPairingFilter := mkAssetPairingFilter {
  filter_asset_pair : option AssetPair;
  filter_dex : option string
}.
(** [list_pool_entries]; the branch without an asset pair does not use [limit]. *)
Definition list_pool_entries (s : State) (f : option AssetPairingFilter)
    (start_after : option DexAssetPairing) (limit : option Z) :
    outcome StdError (list (DexAssetPairing * list PoolReference)) :=
  match f ≫= filter_asset_pair, f ≫= filter_dex with
  | Some (x, y), Some dex =>
      e ← load_asset_pairing_entry s (pairing_new x y dex); Ok [e]
  | Some (x, y), None =>
      let entries := omap (λ '(k, ids), if decide (asset_x k = x ∧ asset_y k = y)
        then Some (pairing_dex k, ids) else None) (map_to_list (asset_pairings s)) in
      Ok ((λ '(dex, ids), (pairing_new x y dex, ids)) <$>
        take (limit_of limit) (range text_lt (pairing_dex <$> start_after) entries))
  | None, dex_filter =>
      Ok (filter (λ e, is_none_or dex_filter (pairing_dex e.1) = true)
        (range pairing_lt start_after (map_to_list (asset_pairings s))))
  end.
Definition query_pool_entries (s : State) (keys : list DexAssetPairing) :
    outcome StdError (list (DexAssetPairing * list PoolReference)) :=
  omapM (load_asset_pairing_entry s) keys.
(** [load_pool_metadata_entry], [query_pool_metadatas] *)
Definition query_pool_metadatas (s : State) (keys : list UniquePoolId) :
    outcome StdError (list (UniquePoolId * PoolMetadata)) := load_all (pool_metadata s) keys.
(** [list_pool_metadata_entries]; the argument is the pool type of the filter. *)
Definition list_pool_metadata_entries (s : State) (pool_type_filter : option PoolType)
    (start_after : option UniquePoolId) (limit : option Z) : list (UniquePoolId * PoolMetadata) :=
  take (limit_of limit)
    (filter (λ e, is_none_or pool_type_filter (pm_pool_type e.2) = true)
      (range Z.lt start_after (map_to_list (pool_metadata s)))).
End ans.
