(* ===== verification/AnsProofs.v ===== *)
(** * Correctness of the ANS host

    The pools: a specification (the pools in the order of their registration),
    the index by asset pair it determines, and the refinement of it by
    [update_pools].  The assets: when the two maps between names and assets are
    inverse.  The names: keys are in lower case.  Every write needs the owner. *)

From S2P Require Import Prelude Cosmos Strings Objects Names AccountIds Ownership AnsObjects Ans.
From Stdlib Require Import Ascii String.
#[local] Open Scope string_scope.
#[local] Open Scope list_scope.
#[local] Open Scope Z_scope.

(** ** The pairs of a pool *)

(** The pairs [exec_on_asset_pairings] goes through. *)
Definition asset_pairs (assets : list AssetEntry) : list AssetPair :=
  enumerate assets ≫= λ x, enumerate assets ≫= λ y,
    if decide (x.1 = y.1 ∨ x.2 = y.2) then [] else [(x.2, y.2)].
Definition pool_pairings (m : PoolMetadata) : list DexAssetPairing :=
  (λ p, pairing_new p.1 p.2 (pm_dex m)) <$> asset_pairs (pm_assets m).

Lemma elem_of_enumerate {A} (l : list A) i x : (i, x) ∈ enumerate l ↔ l !! i = Some x.
Proof.
  unfold enumerate. rewrite list_elem_of_lookup. setoid_rewrite list_lookup_imap_Some. naive_solver.
Qed.
Lemma elem_of_asset_pairs l x y : (x, y) ∈ asset_pairs l ↔ x ∈ l ∧ y ∈ l ∧ x ≠ y.
Proof.
  unfold asset_pairs. rewrite list_elem_of_bind. setoid_rewrite list_elem_of_bind. split.
  - intros ([i x'] & ([j y'] & Hq & Hy%elem_of_enumerate) & Hx%elem_of_enumerate).
    simpl in Hq. case_decide as Hd; [by apply not_elem_of_nil in Hq|].
    apply list_elem_of_singleton in Hq as [= -> ->].
    split_and!; [by eapply list_elem_of_lookup_2..|]. intros ->. naive_solver.
  - intros ([i Hx]%list_elem_of_lookup & [j Hy]%list_elem_of_lookup & Hne).
    exists (i, x). split; [|by apply elem_of_enumerate].
    exists (j, y). split; [|by apply elem_of_enumerate].
    simpl. rewrite decide_False; [by left|]. intros [->|]; congruence.
Qed.
Lemma elem_of_pool_pairings m x y d :
  (x, y, d) ∈ pool_pairings m ↔
  x ∈ pm_assets m ∧ y ∈ pm_assets m ∧ x ≠ y ∧ d = to_lowercase (pm_dex m).
Proof.
  unfold pool_pairings. rewrite list_elem_of_fmap. split.
  - intros ([x' y'] & [= -> -> ->] & ?%elem_of_asset_pairs). naive_solver.
  - intros (? & ? & ? & ->). exists (x, y). split; [done|]. by apply elem_of_asset_pairs.
Qed.

(** ** The specification: the pools in the order of their registration *)

Record Pool := mkPool { pool_id : UniquePoolId; pool_addr : PoolAddress; pool_meta : PoolMetadata }.
Record PoolRegistry := mkPoolRegistry { next_id : UniquePoolId; pools : list Pool }.

Definition spec_add (r : PoolRegistry) (x : PoolAddress * PoolMetadata) : PoolRegistry :=
  mkPoolRegistry (next_id r + 1) (pools r ++ [mkPool (next_id r) x.1 x.2]).
Definition spec_remove (r : PoolRegistry) (id : UniquePoolId) : PoolRegistry :=
  mkPoolRegistry (next_id r) (filter (λ p, pool_id p ≠ id) (pools r)).
Definition spec_update (r : PoolRegistry) (to_add : list (PoolAddress * PoolMetadata))
    (to_remove : list UniquePoolId) : PoolRegistry :=
  foldl spec_remove (foldl spec_add r to_add) to_remove.

(** How often a pairing is a pairing of a pool: an asset may be listed twice. *)
Definition times (k : DexAssetPairing) (l : list DexAssetPairing) : nat :=
  List.length (filter (λ x, x = k) l).
(** The references of a pairing the pools determine. *)
Definition refs_at (k : DexAssetPairing) (l : list Pool) : list PoolReference :=
  l ≫= λ p, replicate (times k (pool_pairings (pool_meta p)))
    (mkPoolReference (pool_id p) (pool_addr p)).

Lemma times_0 k l : times k l = 0%nat ↔ k ∉ l.
Proof.
  unfold times. rewrite length_zero_iff_nil. split.
  - intros Hf Hk. by apply (filter_nil_not_elem_of (λ x, x = k) l k).
  - intros Hk. induction l as [|x l IH]; [done|]. rewrite not_elem_of_cons in Hk.
    rewrite filter_cons, decide_False by naive_solver. naive_solver.
Qed.

Section proofs.
Context `{Semver, Api, CwOwnable, CwAsset}.

(** ** The index of the pools by asset pair *)

Definition refs (m : gmap DexAssetPairing (list PoolReference)) (k : DexAssetPairing) :
    list PoolReference := default [] (m !! k).
Definition no_empty (m : gmap DexAssetPairing (list PoolReference)) : Prop := ∀ k, m !! k ≠ Some [].

(** The effect on the index of the actions on one pairing. *)
Definition index_add (r : PoolReference) (m : gmap DexAssetPairing (list PoolReference))
    (k : DexAssetPairing) : gmap DexAssetPairing (list PoolReference) := <[k := refs m k ++ [r]]> m.
Definition index_remove (id : UniquePoolId) (m : gmap DexAssetPairing (list PoolReference))
    (k : DexAssetPairing) : gmap DexAssetPairing (list PoolReference) :=
  let l := filter (λ x, unique_id x ≠ id) (refs m k) in
  if decide (l = []) then delete k m else <[k := l]> m.

Lemma refs_index_add_one r m k k' :
  refs (index_add r m k) k' = refs m k' ++ (if decide (k = k') then [r] else []).
Proof.
  unfold refs, index_add. case_decide as Hk; [subst k'|].
  - by rewrite lookup_insert_eq.
  - rewrite lookup_insert_ne by done. by rewrite app_nil_r.
Qed.
Lemma refs_index_add r ks m k :
  refs (foldl (index_add r) m ks) k = refs m k ++ replicate (times k ks) r.
Proof.
  revert m. induction ks as [|k' ks IH]; intros m; simpl; [by rewrite app_nil_r|].
  rewrite IH, refs_index_add_one, <-(assoc_L (++)). unfold times. rewrite filter_cons.
  by case_decide.
Qed.
Lemma refs_index_remove_one id m k k' :
  refs (index_remove id m k) k' =
    if decide (k = k') then filter (λ x, unique_id x ≠ id) (refs m k') else refs m k'.
Proof.
  unfold index_remove. cbv zeta. destruct (decide (k = k')) as [<-|Hk].
  - case_decide as Hl; unfold refs at 1; [by rewrite lookup_delete_eq|by rewrite lookup_insert_eq].
  - case_decide; unfold refs; [by rewrite lookup_delete_ne|by rewrite lookup_insert_ne].
Qed.
Lemma refs_index_remove id ks m k :
  refs (foldl (index_remove id) m ks) k =
    if decide (k ∈ ks) then filter (λ x, unique_id x ≠ id) (refs m k) else refs m k.
Proof.
  revert m. induction ks as [|k' ks IH]; intros m; cbn [foldl].
  - by rewrite decide_False by apply not_elem_of_nil.
  - rewrite IH, refs_index_remove_one.
    destruct (decide (k ∈ k' :: ks)) as [Hd|Hd]; rewrite elem_of_cons in Hd;
      destruct (decide (k ∈ ks)), (decide (k' = k)); try naive_solver.
    rewrite list_filter_filter. apply list_filter_iff. intros; tauto.
Qed.

Lemma index_add_no_empty r m k : no_empty m → no_empty (index_add r m k).
Proof.
  intros Hm k'. unfold index_add. destruct (decide (k = k')) as [<-|Hk].
  - rewrite lookup_insert_eq. intros [= Hl]. by apply app_eq_nil in Hl as [_ ?].
  - by rewrite lookup_insert_ne.
Qed.
Lemma index_remove_no_empty id m k : no_empty m → no_empty (index_remove id m k).
Proof.
  intros Hm k'. unfold index_remove. case_decide; destruct (decide (k = k')) as [<-|Hk].
  - by rewrite lookup_delete_eq.
  - by rewrite lookup_delete_ne.
  - rewrite lookup_insert_eq. congruence.
  - by rewrite lookup_insert_ne.
Qed.
Lemma foldl_no_empty {A} (f : gmap DexAssetPairing (list PoolReference) → A → _) l m :
  (∀ m x, no_empty m → no_empty (f m x)) → no_empty m → no_empty (foldl f m l).
Proof. intros Hf. revert m. induction l as [|x l IH]; simpl; auto. Qed.

(** The pool operations on the state. *)
Lemma exec_on_asset_pairings_total (action : AssetPair → M State AnsContractError unit)
    (f : gmap DexAssetPairing (list PoolReference) → AssetPair → _) l s :
  (∀ p s, action p s = Ok (tt, set_asset_pairings (f (asset_pairings s) p) s)) →
  exec_on_asset_pairings l action s =
    Ok (tt, set_asset_pairings (foldl f (asset_pairings s) (asset_pairs l)) s).
Proof.
  intros Ha. unfold exec_on_asset_pairings.
  set (g := λ (s : State) p, set_asset_pairings (f (asset_pairings s) p) s).
  rewrite (mfor_total _ (λ s x, foldl (λ s y,
    foldl g s (if decide (x.1 = y.1 ∨ x.2 = y.2) then [] else [(x.2, y.2)])) s (enumerate l))).
  - f_equal. f_equal. transitivity (foldl g s (asset_pairs l)).
    + unfold asset_pairs. rewrite <-foldl_bind.
      generalize (enumerate l) at 2 4. intros k. revert s. induction k as [|x k IH]; intros s; [done|].
      cbn [foldl]. rewrite IH. f_equal. apply foldl_bind.
    + revert s. induction (asset_pairs l) as [|p k IH]; intros s; simpl; [by destruct s|]. by rewrite IH.
  - intros x s'. apply mfor_total. intros y s''. by case_decide; [|rewrite Ha].
Qed.
Lemma foldl_fmap' {A B C} (f : A → B → A) (g : C → B) l a :
  foldl (λ a x, f a (g x)) a l = foldl f a (g <$> l).
Proof. revert a. induction l as [|x l IH]; intros a; [done|]. apply IH. Qed.
Lemma register_pool_pairings_eq id a m s :
  register_pool_pairings id a (pm_assets m) (pm_dex m) s =
    Ok (tt, set_asset_pairings
      (foldl (index_add (mkPoolReference id a)) (asset_pairings s) (pool_pairings m)) s).
Proof.
  unfold register_pool_pairings, pool_pairings. rewrite <-foldl_fmap'.
  by apply (exec_on_asset_pairings_total _
    (λ i p, index_add (mkPoolReference id a) i (pairing_new p.1 p.2 (pm_dex m)))).
Qed.
Lemma remove_pool_pairings_eq id m s :
  remove_pool_pairings id (pm_dex m) (pm_assets m) s =
    Ok (tt, set_asset_pairings
      (foldl (index_remove id) (asset_pairings s) (pool_pairings m)) s).
Proof.
  unfold remove_pool_pairings, pool_pairings. rewrite <-foldl_fmap'.
  apply (exec_on_asset_pairings_total _
    (λ i p, index_remove id i (pairing_new p.1 p.2 (pm_dex m)))).
  intros p s'. unfold remove_pairing_action, index_remove. simpl.
  unfold mbind, M_bind, gets, modify. fold (refs (asset_pairings s') (pairing_new p.1 p.2 (pm_dex m))).
  case_decide; [|done]. simpl. by rewrite delete_insert_eq.
Qed.

(** ** The state represents a registry of pools *)

(** The two maps of the pools, as a registry of pools determines them. *)
Record IndexOf (i : gmap DexAssetPairing (list PoolReference)) (meta : gmap UniquePoolId PoolMetadata)
    (r : PoolRegistry) : Prop := {
  rep_meta id m : meta !! id = Some m ↔ ∃ a, mkPool id a m ∈ pools r;
  rep_refs k : refs i k = refs_at k (pools r);
  rep_no_empty : no_empty i;
  rep_unique p q : p ∈ pools r → q ∈ pools r → pool_id p = pool_id q → p = q;
  rep_fresh p : p ∈ pools r → 0 < pool_id p < next_id r
}.
Definition Represents (s : State) (r : PoolRegistry) : Prop :=
  IndexOf (asset_pairings s) (pool_metadata s) r.

(** A pool [update_pools] accepts, and what it registers for it. *)
Record accepts (s : State) (x : UncheckedPoolAddress * PoolMetadata)
    (y : PoolAddress * PoolMetadata) : Prop := {
  acc_address : pool_address_check x.1 = Ok y.1;
  acc_meta : y.2 = mkPoolMetadata (pm_dex x.2) (pm_pool_type x.2) (to_lowercase <$> pm_assets x.2);
  acc_count : MIN_POOL_ASSETS ≤ Z.of_nat (List.length (pm_assets x.2)) ≤ MAX_POOL_ASSETS;
  acc_assets a : a ∈ pm_assets y.2 → is_Some (asset_addresses s !! a);
  acc_dex dexes : registered_dexes s = Some dexes → to_lowercase (pm_dex x.2) ∈ dexes
}.

(** The two maps of pools replaced. *)
Definition with_pools (i : gmap DexAssetPairing (list PoolReference))
    (m : gmap UniquePoolId PoolMetadata) (s : State) : State :=
  set_asset_pairings i (set_pool_metadata m s).

Lemma pool_pairings_lower dex t assets :
  pool_pairings (mkPoolMetadata (to_lowercase dex) t assets) =
  pool_pairings (mkPoolMetadata dex t assets).
Proof.
  unfold pool_pairings. apply list_fmap_ext. intros _ p _. unfold pairing_new. simpl.
  by rewrite to_lowercase_idemp.
Qed.

Lemma validate_pool_assets_Ok l s l' s' :
  validate_pool_assets l s = Ok (l', s') ↔
  l' = to_lowercase <$> l ∧ s' = s ∧ MIN_POOL_ASSETS ≤ Z.of_nat (List.length l) ≤ MAX_POOL_ASSETS ∧
  ∀ a, a ∈ to_lowercase <$> l → is_Some (asset_addresses s !! a).
Proof.
  unfold validate_pool_assets. cbv zeta. rewrite bind_Ok, length_fmap.
  assert (∀ k u s2, mfor k (λ asset : AssetEntry, (o ← gets (λ s, asset_addresses s !! asset);
      ensure (negb (bool_decide (o = None))) (UnregisteredAsset asset)) : M State AnsContractError unit) s
      = Ok (u, s2) ↔ s2 = s ∧ ∀ a, a ∈ k → is_Some (asset_addresses s !! a)) as Hfor.
  { intros k [] s2. induction k as [|a k IH].
    - simpl. rewrite ret_Ok. split; [|naive_solver].
      intros [_ ->]. split; [done|]. by intros a ?%not_elem_of_nil.
    - rewrite mfor_Ok_cons. split.
      + intros (s1 & Ha & Hl). apply bind_Ok in Ha as (o & s2' & [-> ->]%gets_Ok & [Ho ->]%ensure_Ok).
        rewrite negb_true_iff, bool_decide_eq_false in Ho.
        apply IH in Hl as [-> Hl]. split; [done|].
        intros b [->|Hb]%elem_of_cons; [by apply not_eq_None_Some|auto].
      + intros [-> Hl]. exists s. split; [|apply IH; split; [done|]; intros b Hb; apply Hl; by right].
        apply bind_Ok. eexists _, s. split; [done|]. apply ensure_Ok. split; [|done].
        rewrite negb_true_iff, bool_decide_eq_false. apply not_eq_None_Some, Hl. by left. }
  split.
  - intros (u & s1 & [He ->]%ensure_Ok & Hrun).
    apply bind_Ok in Hrun as (u' & s2 & [-> Hl]%Hfor & [-> ->]%ret_Ok).
    rewrite negb_true_iff, bool_decide_eq_false in He.
    unfold AssetEntry in *. split_and!; [done..|lia|lia|done].
  - intros (-> & -> & Hlen & Hl). unfold AssetEntry in *. exists tt, s. split.
    + apply ensure_Ok. rewrite negb_true_iff, bool_decide_eq_false. split; [lia|done].
    + apply bind_Ok. exists tt, s. split; [by apply Hfor|by apply ret_Ok].
Qed.

Lemma add_pool_Ok dexes n x s n' s' :
  registered_dexes s = Some dexes →
  add_pool dexes n x s = Ok (n', s') ↔
  ∃ y, accepts s x y ∧ n + 1 < 2 ^ 64 ∧ n' = n + 1 ∧
    s' = with_pools (foldl (index_add (mkPoolReference n y.1)) (asset_pairings s) (pool_pairings y.2))
           (<[n := y.2]> (pool_metadata s)) s.
Proof.
  intros Hd. unfold add_pool. set (dex := to_lowercase (pm_dex x.2)).
  assert (∀ a l, register_pool_pairings n a l dex s = Ok (tt, set_asset_pairings
    (foldl (index_add (mkPoolReference n a)) (asset_pairings s)
      (pool_pairings (mkPoolMetadata (pm_dex x.2) (pm_pool_type x.2) l))) s)) as Hreg.
  { intros a l. rewrite <-pool_pairings_lower.
    apply (register_pool_pairings_eq n a (mkPoolMetadata dex (pm_pool_type x.2) l)). }
  split.
  - intros Hrun. apply bind_Ok in Hrun as (a & s1 & [Ha%map_err_Ok ->]%lift_Ok & Hrun).
    apply bind_Ok in Hrun as (l & s2 & Hv & Hrun).
    apply validate_pool_assets_Ok in Hv as (-> & -> & Hlen & Hreg').
    apply bind_Ok in Hrun as (? & s3 & He & Hrun).
    apply ensure_Ok in He as [Hdex ->]. apply bool_decide_eq_true in Hdex.
    apply bind_Ok in Hrun as (? & s4 & Hr & Hrun). rewrite Hreg in Hr. inv_ok.
    match goal with H : increment _ = Ok _ |- _ => apply add_u_Ok in H as [-> ?] end.
    eexists (a, _). split; [constructor; [done|done|done|done|]|done]. intros ? Hd'. rewrite Hd in Hd'. by injection Hd' as <-.
  - intros ([a m] & [Ha -> Hlen Hassets Hdex] & Hn & -> & ->). simpl in *.
    apply bind_Ok. exists a, s. rewrite lift_Ok, map_err_Ok. split; [done|].
    apply bind_Ok. eexists _, s. split; [by apply validate_pool_assets_Ok|].
    apply bind_Ok. exists tt, s. rewrite ensure_Ok, bool_decide_eq_true. split; [naive_solver|].
    apply bind_Ok. eexists tt, _. split; [apply Hreg|].
    apply bind_Ok. eexists tt, _. split; [by apply modify_Ok|].
    apply lift_Ok. split; [by apply add_u_Ok|done].
Qed.

Lemma represents_add s r y : 0 < next_id r → Represents s r →
  Represents (with_pools (foldl (index_add (mkPoolReference (next_id r) y.1)) (asset_pairings s)
    (pool_pairings y.2)) (<[next_id r := y.2]> (pool_metadata s)) s) (spec_add r y).
Proof.
  intros Hpos [Hmeta Hrefs Hempty Huniq Hfresh].
  assert (∀ p, p ∈ pools (spec_add r y) → p ∈ pools r ∨ p = mkPool (next_id r) y.1 y.2) as Hin.
  { simpl. intros p. rewrite elem_of_app, list_elem_of_singleton. done. }
  constructor; simpl.
  - intros id m. setoid_rewrite elem_of_app. setoid_rewrite list_elem_of_singleton.
    destruct (decide (id = next_id r)) as [->|Hid].
    + rewrite lookup_insert_eq. split; [intros [= <-]; exists y.1; by right|].
      intros (a & [Hp|Hp]); [|by injection Hp as _ ->]. specialize (Hfresh _ Hp). simpl in Hfresh. lia.
    + rewrite lookup_insert_ne, Hmeta by done. naive_solver.
  - intros k. rewrite refs_index_add, Hrefs. unfold refs_at. rewrite bind_app. simpl.
    by rewrite app_nil_r.
  - apply foldl_no_empty; [|done]. intros m x. apply index_add_no_empty.
  - intros p q Hp Hq Heq; apply Hin in Hp as [Hp| ->]; apply Hin in Hq as [Hq| ->]; simpl in Heq; [auto|..|done].
    + specialize (Hfresh _ Hp). lia.
    + specialize (Hfresh _ Hq). lia.
  - intros p Hp; apply Hin in Hp as [Hp| ->]; [specialize (Hfresh _ Hp); lia|simpl; lia].
Qed.

(** Filtering the references of a pairing drops those of the removed pool. *)
Lemma filter_refs_at k id l :
  filter (λ x, unique_id x ≠ id) (refs_at k l) = refs_at k (filter (λ p, pool_id p ≠ id) l).
Proof.
  unfold refs_at. induction l as [|p l IH]; [done|]. rewrite bind_cons, filter_app, IH, filter_cons.
  assert (∀ n, filter (λ x, unique_id x ≠ id) (replicate n (mkPoolReference (pool_id p) (pool_addr p)))
    = if decide (pool_id p ≠ id) then replicate n (mkPoolReference (pool_id p) (pool_addr p)) else [])
    as ->.
  { intros n. induction n as [|n IHn]; simpl; [by case_decide|]. rewrite filter_cons. simpl.
    rewrite IHn. by case_decide. }
  by case_decide.
Qed.
Lemma refs_at_filter_id k id l :
  (∀ p, p ∈ l → pool_id p = id → k ∉ pool_pairings (pool_meta p)) →
  refs_at k (filter (λ p, pool_id p ≠ id) l) = refs_at k l.
Proof.
  unfold refs_at. induction l as [|p l IH]; intros Hl; [done|].
  rewrite filter_cons, bind_cons. setoid_rewrite elem_of_cons in Hl. case_decide as Hid.
  - rewrite bind_cons, IH; [done|]. naive_solver.
  - rewrite IH by naive_solver.
    assert (times k (pool_pairings (pool_meta p)) = 0%nat) as -> by (apply times_0; naive_solver).
    done.
Qed.

Lemma represents_remove s r id m : Represents s r → pool_metadata s !! id = Some m →
  Represents (with_pools (foldl (index_remove id) (asset_pairings s) (pool_pairings m))
    (delete id (pool_metadata s)) s) (spec_remove r id).
Proof.
  intros [Hmeta Hrefs Hempty Huniq Hfresh] Hm.
  constructor; simpl.
  - intros id' m'. setoid_rewrite list_elem_of_filter. simpl.
    destruct (decide (id' = id)) as [->|Hid].
    + rewrite lookup_delete_eq. naive_solver.
    + rewrite lookup_delete_ne, Hmeta by done. naive_solver.
  - intros k. rewrite refs_index_remove, Hrefs. case_decide as Hk; [apply filter_refs_at|].
    symmetry. apply refs_at_filter_id. intros p Hp Hid. apply Hmeta in Hm as [a Ha].
    by rewrite (Huniq p _ Hp Ha).
  - apply foldl_no_empty; [|done]. intros i x. apply index_remove_no_empty.
  - intros p q [_ Hp]%list_elem_of_filter [_ Hq]%list_elem_of_filter. auto.
  - intros p [_ Hp]%list_elem_of_filter. auto.
Qed.
Lemma represents_remove_none s r id : Represents s r → pool_metadata s !! id = None →
  spec_remove r id = r.
Proof.
  intros [Hmeta _ _ _ _] Hm. destruct r as [n l]. unfold spec_remove. f_equal. simpl in *.
  assert (∀ p, p ∈ l → pool_id p ≠ id) as Hne.
  { intros [i a m] Hp Hid. simpl in Hid. subst i. specialize (Hmeta id m). rewrite Hm in Hmeta.
    naive_solver. }
  clear -Hne. induction l as [|p l IH]; [done|]. setoid_rewrite elem_of_cons in Hne.
  rewrite filter_cons, decide_True by naive_solver. f_equal. naive_solver.
Qed.

(** One removal. *)
Lemma remove_pool_refines s r id : Represents s r →
  ∃ i m, remove_pool id s = Ok (tt, with_pools i m s) ∧
    Represents (with_pools i m s) (spec_remove r id).
Proof.
  intros Hr. destruct (pool_metadata s !! id) as [m|] eqn:Hm.
  - eexists _, _. split; [|by apply represents_remove].
    unfold remove_pool. unfold mbind, M_bind, gets. rewrite Hm, remove_pool_pairings_eq. done.
  - exists (asset_pairings s), (pool_metadata s).
    assert (with_pools (asset_pairings s) (pool_metadata s) s = s) as -> by (by destruct s).
    rewrite (represents_remove_none s r id) by done. split; [|done].
    unfold remove_pool. unfold mbind, M_bind, gets. by rewrite Hm.
Qed.

(** The state outside the pools is kept. *)
Definition same_names (s s' : State) : Prop := ∃ i m, s' = with_pools i m s.
Lemma same_names_refl s : same_names s s.
Proof. exists (asset_pairings s), (pool_metadata s). by destruct s. Qed.
Lemma same_names_trans s1 s2 s3 : same_names s1 s2 → same_names s2 s3 → same_names s1 s3.
Proof. intros (i & m & ->) (i' & m' & ->). by exists i', m'. Qed.
Lemma accepts_same_names s s' x y : same_names s s' → accepts s' x y ↔ accepts s x y.
Proof. intros (i & m & ->). split; intros []; by constructor. Qed.

Lemma remove_pools_refine l s r : Represents s r →
  ∃ s', mfor l remove_pool s = Ok (tt, s') ∧ same_names s s' ∧ Represents s' (foldl spec_remove r l).
Proof.
  revert s r. induction l as [|id l IH]; intros s r Hr.
  - exists s. split_and!; [done|apply same_names_refl|done].
  - destruct (remove_pool_refines s r id Hr) as (i & m & Hrun & Hr').
    destruct (IH _ _ Hr') as (s' & Hrun' & Hs & Hr''). exists s'. split_and!; [|by eapply same_names_trans; [by exists i, m|]|done].
    apply mfor_Ok_cons. eauto.
Qed.

Lemma add_pools_refine dexes l s r : Represents s r → registered_dexes s = Some dexes →
  0 < next_id r →
  (∀ n s', mfold l (next_id r) (add_pool dexes) s = Ok (n, s') → ∃ ys, Forall2 (accepts s) l ys ∧
     n = next_id (foldl spec_add r ys) ∧ same_names s s' ∧ Represents s' (foldl spec_add r ys)) ∧
  (∀ ys, Forall2 (accepts s) l ys → next_id r + Z.of_nat (List.length l) < 2 ^ 64 →
     is_ok (mfold l (next_id r) (add_pool dexes) s) = true).
Proof.
  revert s r. induction l as [|x l IH]; intros s r Hr Hd Hpos.
  - simpl. split; [|done]. intros n s' [-> ->]%ret_Ok. exists []. split_and!; [constructor|done|apply same_names_refl|done].
  - assert (∀ y, let s1 := with_pools (foldl (index_add (mkPoolReference (next_id r) y.1))
        (asset_pairings s) (pool_pairings y.2)) (<[next_id r := y.2]> (pool_metadata s)) s in
      same_names s s1) as Hsame by (intros y; by eexists _, _).
    simpl. split.
    + intros n s' (n1 & s1 & Ha & Hrun)%bind_Ok.
      apply add_pool_Ok in Ha as (y & Hy & Hn & -> & ->); [|done].
      destruct (IH _ _ (represents_add s r y Hpos Hr) Hd) as [IH1 _]; [simpl; lia|].
      destruct (IH1 _ _ Hrun) as (ys & Hys & -> & Hs & Hr'). exists (y :: ys).
      split_and!; [constructor; [done|]|done|by eapply same_names_trans; [apply (Hsame y)|]|done].
      eapply Forall2_impl; [exact Hys|]. intros ? ?. by apply (accepts_same_names _ _ _ _ (Hsame y)).
    + intros ys Hys Hlen. inversion Hys as [|? y ? ys' Hy Hys']; subst.
      destruct (IH _ _ (represents_add s r y Hpos Hr) Hd) as [_ IH2]; [simpl; lia|].
      cbn [List.length] in Hlen.
      assert (next_id r + 1 < 2 ^ 64) as Hn by lia.
      pose proof (proj2 (add_pool_Ok dexes (next_id r) x s _ _ Hd)
        (ex_intro _ y (conj Hy (conj Hn (conj eq_refl eq_refl))))) as Ha.
      unfold mbind, M_bind. rewrite Ha.
      apply (IH2 ys'); [|simpl; lia].
      eapply Forall2_impl; [exact Hys'|]. intros ? ?. by apply (accepts_same_names _ _ _ _ (Hsame y)).
Qed.

(** ** The refinement *)

Definition is_owner (s : State) (info : MessageInfo) : Prop :=
  ∃ o, cw_ownership s = Some o ∧ cw_assert_owner o (sender info) = Ok tt.
Lemma cw_owner_Ok info s u s' : assert_owner info s = Ok (u, s') ↔ is_owner s info ∧ s' = s.
Proof.
  unfold assert_owner, is_owner. split.
  - intros Hrun. inv_ok. destruct u. eauto.
  - intros [(o & Ho & Ha) ->]. unfold mbind, M_bind, gets, lift. rewrite Ho. simpl. rewrite Ha.
    by destruct u.
Qed.

Lemma next_id_spec_remove r l : next_id (foldl spec_remove r l) = next_id r.
Proof. revert r. induction l as [|x l IH]; intros r; [done|]. exact (IH (spec_remove r x)). Qed.

(** The names of the dexes [update_pools] works with, loaded only when there is
    a pool to add. *)
Definition loaded (to_add : list (UncheckedPoolAddress * PoolMetadata)) (s : State)
    (dexes : list string) : Prop := to_add = [] ∧ dexes = [] ∨ registered_dexes s = Some dexes.
Lemma load_dexes_Ok to_add s dexes s' :
  ((if decide (to_add = []) then mret []
    else o ← gets registered_dexes; lift (ok_or o (AcStd (StdNotFound "registered_dexes"))))
    : M State AnsContractError _) s = Ok (dexes, s') → s' = s ∧ loaded to_add s dexes.
Proof. unfold loaded. intros Hd. case_decide; inv_ok; [by auto|]. split; [done|]. by right. Qed.
Lemma load_dexes_some to_add s dexes : registered_dexes s = Some dexes →
  ∃ dexes', ((if decide (to_add = []) then mret []
    else o ← gets registered_dexes; lift (ok_or o (AcStd (StdNotFound "registered_dexes"))))
    : M State AnsContractError _) s = Ok (dexes', s) ∧ loaded to_add s dexes'.
Proof.
  intros Hd. unfold loaded. case_decide; [by eexists; auto|]. exists dexes. split; [|by right].
  unfold mbind, M_bind, gets. by rewrite Hd.
Qed.
Lemma add_pools_loaded dexes l s r : Represents s r → 0 < next_id r → loaded l s dexes →
  (∀ n s', mfold l (next_id r) (add_pool dexes) s = Ok (n, s') → ∃ ys, Forall2 (accepts s) l ys ∧
     n = next_id (foldl spec_add r ys) ∧ same_names s s' ∧ Represents s' (foldl spec_add r ys)) ∧
  (∀ ys, Forall2 (accepts s) l ys → next_id r + Z.of_nat (List.length l) < 2 ^ 64 →
     is_ok (mfold l (next_id r) (add_pool dexes) s) = true).
Proof.
  intros Hr Hpos [[-> _]|Hd]; [|by apply add_pools_refine]. split; [|done].
  intros n s' [-> ->]%ret_Ok. exists []. split_and!; [constructor|done|apply same_names_refl|done].
Qed.

Lemma update_pools_spec (s : State) (info : MessageInfo)
    (to_add : list (UncheckedPoolAddress * PoolMetadata)) (to_remove : list UniquePoolId)
    (r : PoolRegistry) (Hr : Represents s r) (Hnext : next_unique_pool_id s = Some (next_id r))
    (Hpos : 0 < next_id r) :
  (∀ resp s', update_pools info to_add to_remove s = Ok (resp, s') →
     is_owner s info ∧ ∃ ys, Forall2 (accepts s) to_add ys ∧
       let r' := spec_update r ys to_remove in
       Represents s' r' ∧ next_unique_pool_id s' = Some (next_id r') ∧
       ∃ i m, s' = set_next_unique_pool_id (Some (next_id r')) (with_pools i m s)) ∧
  (∀ ys, is_owner s info → is_Some (registered_dexes s) → Forall2 (accepts s) to_add ys →
     next_id r + Z.of_nat (List.length to_add) < 2 ^ 64 →
     is_ok (update_pools info to_add to_remove s) = true).
Proof.
  pose proof (λ dexes, add_pools_loaded dexes to_add s r Hr Hpos) as Hadds.
  unfold update_pools. split.
  - intros resp s' (u & s1 & [Ho ->]%cw_owner_Ok & Hrun)%bind_Ok. split; [done|].
    apply bind_Ok in Hrun as (? & ? & [-> ->]%gets_Ok & Hrun). rewrite Hnext in Hrun.
    apply bind_Ok in Hrun as (? & ? & [Hn ->]%lift_Ok & Hrun). injection Hn as <-.
    apply bind_Ok in Hrun as (dexes & s2 & Hd & Hrun).
    apply load_dexes_Ok in Hd as [-> Hdexes].
    apply bind_Ok in Hrun as (n & s2 & Hrun1 & Hrun).
    apply (Hadds dexes Hdexes) in Hrun1 as (ys & Hys & -> & Hsame & Hr2).
    apply bind_Ok in Hrun as (? & s3 & Hrun2 & Hrun).
    destruct (remove_pools_refine to_remove s2 _ Hr2) as (s3' & Hrem & Hsame' & Hr3).
    rewrite Hrem in Hrun2. injection Hrun2 as <- <-.
    apply bind_Ok in Hrun as (? & s4 & Hset & [-> ->]%ret_Ok). exists ys.
    destruct (same_names_trans _ _ _ Hsame Hsame') as (i & m & ->). unfold spec_update.
    cbv zeta. rewrite next_id_spec_remove. split; [done|].
    case_decide as Hid; inv_ok; [rewrite Hid|]; split_and!; try done; exists i, m; [|done].
    destruct s; simpl in Hnext. subst. done.
  - intros ys Ho [dexes Hd] Hys Hlen.
    destruct (load_dexes_some to_add s dexes Hd) as (dexes' & Hdrun & Hdexes').
    destruct (Hadds dexes' Hdexes') as [Hadd1 Hadd2].
    pose proof (Hadd2 ys Hys Hlen) as ([n s2] & Hadd)%is_ok_true.
    destruct (Hadd1 n s2 Hadd) as (? & _ & _ & _ & Hr2).
    destruct (remove_pools_refine to_remove s2 _ Hr2) as (s3 & Hrem & _ & _).
    apply is_ok_true. destruct (decide (n = next_id r)) eqn:Hdec;
      (eexists; apply bind_Ok; eexists tt, s; split; [by apply cw_owner_Ok|];
       apply bind_Ok; eexists _, s; split; [done|];
       rewrite Hnext; apply bind_Ok; eexists _, s; split; [done|];
       apply bind_Ok; eexists _, s; split; [exact Hdrun|];
       apply bind_Ok; eexists _, s2; split; [exact Hadd|];
       apply bind_Ok; eexists _, s3; split; [exact Hrem|];
       unfold mbind, M_bind; rewrite Hdec; reflexivity).
Qed.

(** C34. Updating the pools refines the update of a registry of pools: from a
    state that represents a registry, a successful update was made by the owner,
    accepted every pool to add, and leaves a state that represents the registry
    with the pools added, under the next ids, and the pools to remove removed,
    with every name kept; and an update by the owner of acceptable pools
    succeeds as long as the ids do not overflow. *)
Theorem update_pools_refines (s : State) (info : MessageInfo)
    (to_add : list (UncheckedPoolAddress * PoolMetadata)) (to_remove : list UniquePoolId)
    (r : PoolRegistry) (Hr : Represents s r) (Hnext : next_unique_pool_id s = Some (next_id r))
    (Hpos : 0 < next_id r) :
  (∀ resp s', update_pools info to_add to_remove s = Ok (resp, s') →
     is_owner s info ∧ ∃ ys, Forall2 (accepts s) to_add ys ∧
       let r' := spec_update r ys to_remove in
       Represents s' r' ∧ next_unique_pool_id s' = Some (next_id r') ∧
       ∃ i m, s' = set_next_unique_pool_id (Some (next_id r')) (with_pools i m s)) ∧
  (∀ ys, is_owner s info → is_Some (registered_dexes s) → Forall2 (accepts s) to_add ys →
     next_id r + Z.of_nat (List.length to_add) < 2 ^ 64 →
     is_ok (update_pools info to_add to_remove s) = true).
Proof. exact (update_pools_spec s info to_add to_remove r Hr Hnext Hpos). Qed.

(** ** Reachable states *)

Inductive reachable : State → Prop :=
  | reachable_init admin r s : instantiate admin empty_state = Ok (r, s) → reachable s
  | reachable_call env info msg r s s' : reachable s →
      execute env info msg s = Ok (r, s') → reachable s'
  | reachable_migrate (Q : Querier) env msg r s s' : reachable s →
      migrate env msg s = Ok (r, s') → reachable s'.

Definition well_indexed (s : State) : Prop :=
  (∃ r, Represents s r ∧ next_unique_pool_id s = Some (next_id r) ∧ 0 < next_id r) ∧
  contract_version s ≠ None.

Lemma update_pools_well_indexed info to_add to_remove :
  Preserves well_indexed (update_pools info to_add to_remove).
Proof.
  intros s resp s' [(r & Hr & Hn & Hpos) Hv] Hrun.
  destruct (update_pools_spec s info to_add to_remove r Hr Hn Hpos) as [Hup _].
  destruct (Hup resp s' Hrun) as (_ & ys & _ & Hr' & Hn' & i & m & ->). split; [|done].
  eexists. split_and!; [exact Hr'|exact Hn'|].
  unfold spec_update. rewrite next_id_spec_remove. clear -Hpos.
  revert r Hpos. induction ys as [|y ys IH]; intros r Hpos; [done|]. apply IH. simpl. lia.
Qed.
Lemma execute_well_indexed env info msg : Preserves well_indexed (execute env info msg).
Proof.
  destruct msg; simpl; [..|apply update_pools_well_indexed|];
    unfold update_contract_addresses, update_asset_addresses, update_channels, update_dex_registry,
      execute_update_ownership, assert_owner, add_asset, remove_asset, update_dexes; preserve.
Qed.
Lemma reachable_well_indexed s : reachable s → well_indexed s.
Proof.
  intros Hs. induction Hs as [admin r s Hrun|env info msg r s s' _ IH Hrun|Q env msg r s s' _ IH Hrun].
  - unfold instantiate in Hrun. inv_ok. split; [|done]. exists (mkPoolRegistry 1 []).
    split_and!; [|done|done]. constructor; simpl.
    + intros id m. rewrite lookup_empty. split; [done|]. intros (a & []%not_elem_of_nil).
    + intros k. unfold refs. by rewrite lookup_empty.
    + intros k. by rewrite lookup_empty.
    + intros p q []%not_elem_of_nil.
    + intros p []%not_elem_of_nil.
  - by eapply execute_well_indexed.
  - destruct IH as [Hr Hv]. unfold migrate in Hrun. destruct msg; inv_ok; [|by split].
    by match goal with H : bool_decide _ = true |- _ => apply bool_decide_eq_true in H end.
Qed.

(** C8. In every reachable state the pairings are the exact index of the pools:
    a pairing refers to an id when the pool of that id holds both, different,
    assets on that dex; no list of a pairing is empty; an id has one address
    everywhere; and every id is positive and below the next one. *)
Theorem pools_indexed (s : State) (Hs : reachable s) :
  (∀ x y d id, (∃ a, mkPoolReference id a ∈ refs (asset_pairings s) (x, y, d)) ↔
     ∃ m, pool_metadata s !! id = Some m ∧ x ∈ pm_assets m ∧ y ∈ pm_assets m ∧ x ≠ y ∧
       d = to_lowercase (pm_dex m)) ∧
  (∀ k, asset_pairings s !! k ≠ Some []) ∧
  (∀ k k' id a a', mkPoolReference id a ∈ refs (asset_pairings s) k →
     mkPoolReference id a' ∈ refs (asset_pairings s) k' → a = a') ∧
  (∀ id, is_Some (pool_metadata s !! id) → ∃ n, next_unique_pool_id s = Some n ∧ 0 < id < n).
Proof.
  destruct (reachable_well_indexed s Hs) as [(r & [Hmeta Hrefs Hempty Huniq Hfresh] & Hn & _) _].
  assert (∀ k id a, mkPoolReference id a ∈ refs (asset_pairings s) k ↔
    ∃ m, mkPool id a m ∈ pools r ∧ k ∈ pool_pairings m) as Hin.
  { intros k id a. rewrite Hrefs. unfold refs_at. rewrite list_elem_of_bind. split.
    - intros ([id' a' m] & Hk & Hp). apply elem_of_replicate in Hk as [[= -> ->] Hk].
      exists m. split; [done|]. apply dec_stable. intros Hnot%times_0. simpl in Hk. lia.
    - intros (m & Hp & Hk). exists (mkPool id a m). split; [|done]. simpl.
      apply elem_of_replicate. split; [done|]. by intros Hnot%times_0. }
  split_and!; [|exact Hempty| |].
  - intros x y d id. setoid_rewrite Hin. setoid_rewrite elem_of_pool_pairings.
    setoid_rewrite Hmeta. naive_solver.
  - intros k k' id a a' (m & Hp & _)%Hin (m' & Hp' & _)%Hin. by injection (Huniq _ _ Hp Hp' eq_refl).
  - intros id [m Hm]. apply Hmeta in Hm as [a Ha]. exists (next_id r). split; [done|].
    exact (Hfresh _ Ha).
Qed.

(** ** Canonical names *)

Definition is_lower (n : string) : Prop := to_lowercase n = n.
Lemma to_lowercase_is_lower n : is_lower (to_lowercase n).
Proof. apply to_lowercase_idemp. Qed.

Definition canonical_contract (e : ContractEntry) : Prop :=
  is_lower (ce_protocol e) ∧ is_lower (ce_contract e).
Definition canonical_channel (e : ChannelEntry) : Prop :=
  chain_verify (connected_chain e) = Ok tt ∧ is_lower (ch_protocol e).
(** Every name of the state is in the form in which it is looked up. *)
Definition canonical (s : State) : Prop :=
  map_Forall (λ n _, is_lower n) (asset_addresses s) ∧
  map_Forall (λ _ n, is_lower n) (rev_asset_addresses s) ∧
  map_Forall (λ e _, canonical_contract e) (contract_addresses s) ∧
  map_Forall (λ e _, canonical_channel e) (channels s) ∧
  (∀ l, registered_dexes s = Some l → Forall is_lower l) ∧
  map_Forall (λ _ m, Forall is_lower (pm_assets m)) (pool_metadata s).

Lemma channel_entry_check_canonical e e' : channel_entry_check e = Ok e' → canonical_channel e'.
Proof.
  unfold channel_entry_check, chain_from_string. intros Hc. inv_ok.
  split; simpl; [|apply to_lowercase_is_lower].
  repeat match goal with u : () |- _ => destruct u end. done.
Qed.
Lemma register_dex_lower l d : Forall is_lower l → Forall is_lower (register_dex l d).
Proof.
  intros Hl. unfold register_dex. case_decide; [done|]. apply Forall_app. split; [done|].
  apply Forall_singleton, to_lowercase_is_lower.
Qed.
Lemma deregister_dex_lower l d : Forall is_lower l → Forall is_lower (deregister_dex l d).
Proof.
  rewrite !Forall_forall. intros Hl x [_ Hx]%list_elem_of_filter. auto.
Qed.
Lemma foldl_Forall {A B} (P : A → Prop) (f : list A → B → list A) k l :
  (∀ l x, Forall P l → Forall P (f l x)) → Forall P l → Forall P (foldl f l k).
Proof. intros Hf. revert l. induction k as [|x k IH]; simpl; auto. Qed.

Lemma update_dexes_canonical f :
  (∀ l, Forall is_lower l → Forall is_lower (f l)) → Preserves canonical (update_dexes f).
Proof.
  intros Hf s u s' (Ha & Hr & Hc & Hch & Hd & Hp) Hrun. unfold update_dexes in Hrun. inv_ok.
  split_and!; try done. simpl. intros l [= <-]. auto.
Qed.
Lemma exec_on_asset_pairings_preserves (I : State → Prop) l action :
  (∀ p, Preserves I (action p)) → Preserves I (exec_on_asset_pairings l action).
Proof. intros Ha. unfold exec_on_asset_pairings. preserve. apply Ha. Qed.

(** A write that replaces one of the maps. *)
Ltac write_canonical :=
  apply preserves_modify; intros t (Ha & Hr & Hc & Hch & Hd & Hp);
  split_and!; try done; simpl; first [by apply map_Forall_delete|apply map_Forall_insert_2; [|done]].
Lemma add_pool_canonical dexes n x : Preserves canonical (add_pool dexes n x).
Proof.
  unfold add_pool. apply preserves_bind; [preserve|]. intros a.
  intros s r s' Hc (l & s1 & (-> & -> & _ & _)%validate_pool_assets_Ok & Hrun)%bind_Ok.
  revert Hc Hrun. apply preserves_bind; [preserve|]. intros _.
  apply preserves_bind.
  { apply exec_on_asset_pairings_preserves. intros p. unfold register_asset_pairing. preserve. }
  intros _. apply preserves_bind; [|preserve]. write_canonical. simpl. apply Forall_fmap, Forall_true. apply to_lowercase_is_lower.
Qed.
Lemma remove_pool_canonical id : Preserves canonical (remove_pool id).
Proof.
  unfold remove_pool. preserve.
  - apply exec_on_asset_pairings_preserves. intros k. unfold remove_pairing_action. preserve.
  - write_canonical.
Qed.
Lemma execute_canonical env info msg : Preserves canonical (execute env info msg).
Proof.
  destruct msg; simpl; unfold update_contract_addresses, update_asset_addresses, update_channels,
    update_dex_registry, update_pools, execute_update_ownership, assert_owner, add_asset, remove_asset.
  - preserve; write_canonical. split; apply to_lowercase_is_lower.
  - preserve; write_canonical; apply to_lowercase_is_lower.
  - repeat first [apply preserves_lift_bind; intros ? ?%map_err_Ok%channel_entry_check_canonical
      |preserve_step]; by write_canonical.
  - preserve; apply update_dexes_canonical; intros l Hl; apply foldl_Forall; try done;
      [apply register_dex_lower|apply deregister_dex_lower].
  - preserve; [apply add_pool_canonical|apply remove_pool_canonical].
  - preserve.
Qed.


(** ** Assets *)

(** The two maps between names and assets are inverse to each other. *)
Definition inverse_maps (s : State) : Prop :=
  ∀ n i, asset_addresses s !! n = Some i ↔ rev_asset_addresses s !! i = Some n.

Lemma add_asset_Ok x s u s' : add_asset x s = Ok (u, s') ↔ ∃ i, asset_info_check x.2 = Some i ∧
  s' = set_rev_asset_addresses (<[i := asset_entry_new x.1]> (rev_asset_addresses s))
    (set_asset_addresses (<[asset_entry_new x.1 := i]> (asset_addresses s)) s).
Proof.
  unfold add_asset. split.
  - intros Hrun. inv_ok. eauto.
  - intros (i & Hi & ->). unfold mbind, M_bind, lift. rewrite Hi. by destruct u.
Qed.

Lemma add_assets_inverse l s u s' ys :
  Forall2 (λ x y, asset_entry_new x.1 = y.1 ∧ asset_info_check x.2 = Some y.2) l ys →
  NoDup ys.*1 → NoDup ys.*2 →
  (∀ y, y ∈ ys → asset_addresses s !! y.1 = None ∧ rev_asset_addresses s !! y.2 = None) →
  inverse_maps s → mfor l add_asset s = Ok (u, s') →
  inverse_maps s' ∧ asset_addresses s' = list_to_map ys ∪ asset_addresses s.
Proof.
  intros Hys. revert s. induction Hys as [|x [n i] l ys [Hx Hi] Hys IH]; intros s Hn Hi' Hfree Hinv Hrun.
  - simpl in Hrun. inv_ok. split; [done|]. simpl. by rewrite (left_id_L ∅ (∪)).
  - apply mfor_Ok_cons in Hrun as (s1 & (i' & Hi2 & ->)%add_asset_Ok & Hrun).
    simpl in *. rewrite Hx in *. assert (i' = i) as -> by congruence.
    apply NoDup_cons in Hn as [Hn1 Hn]. apply NoDup_cons in Hi' as [Hi1 Hi'].
    destruct (Hfree (n, i)) as [Hfn Hfi]; [by left|]. simpl in *.
    apply IH in Hrun as [Hinv' Heq]; [|done|done|..].
    + split; [done|]. rewrite Heq. simpl. rewrite <-insert_union_l, insert_union_r; [done|].
      by apply not_elem_of_list_to_map_1.
    + intros y Hy. simpl. rewrite !lookup_insert_ne; [by apply Hfree; right|..].
      * intros ->. by apply Hi1, (list_elem_of_fmap_2 snd).
      * intros ->. by apply Hn1, (list_elem_of_fmap_2 fst).
    + intros m j. simpl. destruct (decide (n = m)) as [<-|Hnm], (decide (i = j)) as [<-|Hij];
        rewrite ?lookup_insert_eq, ?lookup_insert_ne by done; [done|..|by apply Hinv].
      * split; [congruence|]. intros Hr%Hinv. congruence.
      * split; [intros Hr%Hinv; congruence|congruence].
Qed.
Lemma remove_asset_inverse name s u s' :
  inverse_maps s → remove_asset name s = Ok (u, s') →
  inverse_maps s' ∧ asset_addresses s' = delete (asset_entry_new name) (asset_addresses s).
Proof.
  intros Hinv Hrun. unfold remove_asset in Hrun. inv_ok. case_match eqn:Hi; inv_ok.
  - split; [|done]. intros n j. simpl. destruct (decide (asset_entry_new name = n)) as [<-|Hn].
    + rewrite lookup_delete_eq. split; [done|]. destruct (decide (a = j)) as [<-|Hj].
      * by rewrite lookup_delete_eq.
      * rewrite lookup_delete_ne by done. intros Hr%Hinv. congruence.
    + rewrite lookup_delete_ne by done. rewrite (Hinv n j). destruct (decide (a = j)) as [<-|Hj].
      * rewrite lookup_delete_eq. split; [|done]. apply Hinv in Hi. congruence.
      * by rewrite lookup_delete_ne.
  - split; [done|]. by rewrite delete_id.
Qed.

(** An update that adds assets under new names, none of them registered
    yet and none twice, keeps the two maps between names and assets inverse to
    each other, and changes the assets by exactly the additions and then the
    removals. *)
Theorem asset_maps_inverse (s : State) (info : MessageInfo)
    (to_add : list (string * asset_info_unchecked)) (to_remove : list string)
    (ys : list (AssetEntry * asset_info)) (r : Response unit) (s' : State)
    (Hinv : inverse_maps s)
    (Hys : Forall2 (λ x y, asset_entry_new x.1 = y.1 ∧ asset_info_check x.2 = Some y.2) to_add ys)
    (Hnames : NoDup ys.*1) (Hassets : NoDup ys.*2)
    (Hfree : ∀ y, y ∈ ys → asset_addresses s !! y.1 = None ∧ rev_asset_addresses s !! y.2 = None)
    (Hrun : update_asset_addresses info to_add to_remove s = Ok (r, s')) :
  inverse_maps s' ∧
  asset_addresses s' = foldl (λ m n, delete (asset_entry_new n) m)
    (list_to_map ys ∪ asset_addresses s) to_remove.
Proof.
  unfold update_asset_addresses in Hrun.
  apply bind_Ok in Hrun as (? & ? & [_ ->]%cw_owner_Ok & Hrun).
  apply bind_Ok in Hrun as (? & s1 & Hadd & Hrun).
  destruct (add_assets_inverse to_add s _ s1 ys Hys Hnames Hassets Hfree Hinv Hadd) as [Hinv1 <-].
  apply bind_Ok in Hrun as (? & s2 & Hrem & [-> ->]%ret_Ok). clear -Hinv1 Hrem.
  revert s1 Hinv1 Hrem. induction to_remove as [|n l IH]; intros s1 Hinv1 Hrem.
  - simpl in Hrem. inv_ok. done.
  - apply mfor_Ok_cons in Hrem as (s3 & Hone & Hrem).
    destruct (remove_asset_inverse n s1 _ s3 Hinv1 Hone) as [Hinv3 Heq].
    destruct (IH s3 Hinv3 Hrem) as [? Hl]. split; [done|]. by rewrite Hl, Heq.
Qed.
End proofs.

(** ** Examples *)

Module AnsExamples.
#[local] Existing Instance semver_ref.
#[local] Existing Instance api_ref.
(** An ownership cell that holds an owner who never changes. *)
#[local] Instance ownable_ref : CwOwnable := {|
  ownable := string; cw_action := unit; cw_no_ownership := "";
  cw_initialize_owner := Some; cw_owner o := Some o;
  cw_assert_owner o a := if decide (o = a) then Ok tt else Err CwNotOwner;
  cw_update_ownership o _ _ _ := Ok o
|}.
(** Assets described by their text. *)
#[local] Instance asset_ref : CwAsset := {|
  asset_info := string; asset_info_unchecked := string; asset_info_check := Some; asset_info_key i := i
|}.

Definition env : Env := mkEnv (mkBlock 1 0 "juno-1") "ans".
Definition by_owner : MessageInfo := mkInfo "owner" [].
Definition s0 : State := commit empty_state (instantiate "owner" empty_state).
Definition s1 : State := commit s0 (execute env by_owner
  (UpdateAssetAddresses [("JUNO", "ujuno"); ("osmo", "uosmo"); ("atom", "uatom")] []) s0).
Definition s2 : State := commit s1 (execute env by_owner (UpdateDexes ["Junoswap"] []) s1).
Definition pool1 : UncheckedPoolAddress * PoolMetadata :=
  (PoolContract "pool1", mkPoolMetadata "JunoSwap" ConstantProduct ["juno"; "OSMO"]).
Definition pool2 : UncheckedPoolAddress * PoolMetadata :=
  (PoolNumber 7, mkPoolMetadata "junoswap" Weighted ["juno"; "osmo"; "atom"]).
Definition s3 : State := commit s2 (execute env by_owner (UpdatePools [pool1; pool2] []) s2).
Definition s4 : State := commit s3 (execute env by_owner (UpdatePools [pool1] [1; 9]) s3).

Lemma ans0_reachable : reachable s0.
Proof. by eapply (reachable_init "owner"). Qed.
Lemma commit_reachable s i m : reachable s → reachable (commit s (execute env i m s)).
Proof.
  intros Hs. destruct (execute env i m s) as [[r s']|e|] eqn:Hrun; simpl; [|done..].
  by eapply reachable_call.
Qed.
Lemma s4_reachable : reachable s4.
Proof. do 4 apply commit_reachable. apply ans0_reachable. Qed.

(** Both pools have the pair; the first was removed and added again. *)
Example s4_pairing : refs (asset_pairings s4) ("juno", "osmo", "junoswap") =
  [mkPoolReference 2 (PoolNumber 7); mkPoolReference 3 (PoolContract "pool1")].
Proof. vm_compute. reflexivity. Qed.

Lemma pools_indexed_witness :
  (∃ m, pool_metadata s4 !! 3 = Some m ∧ "juno" ∈ pm_assets m ∧ "osmo" ∈ pm_assets m ∧
     "junoswap" = to_lowercase (pm_dex m)) ∧ pool_metadata s4 !! 1 = None.
Proof.
  split; [|vm_compute; reflexivity].
  destruct (pools_indexed s4 s4_reachable) as [Hindex _].
  destruct (proj1 (Hindex "juno" "osmo" "junoswap" 3)) as (m & Hm & Hx & Hy & _ & Hd).
  - exists (PoolContract "pool1"). refine (eq_ind_r (λ l, mkPoolReference 3 (PoolContract "pool1") ∈ l) _ s4_pairing).
    right. left.
  - exists m. split; [exact Hm|]. split; [exact Hx|]. split; [exact Hy|]. exact Hd.
Defined.

Definition spec0 : PoolRegistry := mkPoolRegistry 1 [].
Lemma s2_represents : Represents s2 spec0.
Proof.
  constructor.
  - intros id m. split; [|intros (a & []%not_elem_of_nil)].
    change (pool_metadata s2) with (∅ : gmap UniquePoolId PoolMetadata). by rewrite lookup_empty.
  - intros k. change (asset_pairings s2) with (∅ : gmap DexAssetPairing (list PoolReference)).
    unfold refs. by rewrite lookup_empty.
  - intros k. change (asset_pairings s2) with (∅ : gmap DexAssetPairing (list PoolReference)).
    by rewrite lookup_empty.
  - intros p q []%not_elem_of_nil.
  - intros p []%not_elem_of_nil.
Qed.
Lemma update_pools_refines_witness :
  is_ok (update_pools by_owner [pool1; pool2] [1] s2) = true ∧
  ∃ ys, Represents (commit s2 (update_pools by_owner [pool1; pool2] [1] s2)) (spec_update spec0 ys [1]).
Proof.
  destruct (update_pools_refines s2 by_owner [pool1; pool2] [1] spec0 s2_represents
    ltac:(vm_compute; reflexivity) ltac:(vm_compute; reflexivity)) as [Hdo Hcan].
  destruct (update_pools by_owner [pool1; pool2] [1] s2) as [[resp s']|e|] eqn:Hrun.
  - split; [reflexivity|]. destruct (Hdo resp s' eq_refl) as (_ & ys & _ & Hr & _). exists ys. exact Hr.
  - exfalso. apply (f_equal is_ok) in Hrun. vm_compute in Hrun. discriminate.
  - exfalso. apply (f_equal is_ok) in Hrun. vm_compute in Hrun. discriminate.
Defined.
Definition adds : list (string * asset_info_unchecked) := [("JUNO", "ujuno"); ("osmo", "uosmo")].
Lemma asset_maps_inverse_witness :
  inverse_maps (commit s0 (update_asset_addresses by_owner adds ["osmo"] s0)).
Proof.
  destruct (update_asset_addresses by_owner adds ["osmo"] s0)
    as [[r s']|e|] eqn:Hrun; [|exfalso; apply (f_equal is_ok) in Hrun; vm_compute in Hrun; discriminate..].
  apply (asset_maps_inverse s0 by_owner adds ["osmo"]
    [("juno", "ujuno"); ("osmo", "uosmo")] r s').
  - intros n i. split; discriminate.
  - repeat constructor.
  - apply (bool_decide_unpack _). vm_compute. exact I.
  - apply (bool_decide_unpack _). vm_compute. exact I.
  - intros y _. split; reflexivity.
  - exact Hrun.
Defined.

(** Adding a registered name under another asset keeps the reverse entry of the
    old asset; removing one of two names of an asset drops its only reverse
    entry. *)
Example rebinding_leaves_reverse_entry :
  let s := commit s1 (execute env by_owner (UpdateAssetAddresses [("juno", "ujunox")] []) s1) in
  asset_addresses s !! "juno" = Some "ujunox" ∧ rev_asset_addresses s !! "ujuno" = Some "juno".
Proof. by vm_compute. Qed.
Example alias_removal_drops_reverse_entry :
  let s := commit s1 (execute env by_owner (UpdateAssetAddresses [("juno2", "ujuno")] ["juno2"]) s1) in
  asset_addresses s !! "juno" = Some "ujuno" ∧ rev_asset_addresses s !! "ujuno" = None.
Proof. by vm_compute. Qed.
(** A name that is not in lower case is registered again each time, and is not
    removed by itself. *)
Example upper_case_dex_duplicated :
  registered_dexes (commit s2 (execute env by_owner (UpdateDexes ["Junoswap"] ["Junoswap"]) s2)) =
    Some ["junoswap"; "junoswap"].
Proof. by vm_compute. Qed.
(** Without an asset pair in the filter the limit has no effect. *)
Example pool_list_ignores_limit :
  List.length <$> ok (list_pool_entries s4 None None (Some 1)) = Some 6%nat.
Proof. by vm_compute. Qed.
End AnsExamples.
