(* ===== verification/AnsClient.v ===== *)
(** * The ANS host as other contracts see it

    objects/ans_host.rs of packages/abstract-std, the raw queries of the host's
    storage, and ans_resolve.rs of packages/abstract-sdk, the resolution of
    entries into what they stand for.  A host seen by a call may be in any
    state: the class [AnsHosts] gives the state at an address. *)

From S2P Require Import Prelude Cosmos Strings Objects Names AccountIds Ownership AnsObjects Ans AnsProofs.
From Stdlib Require Import Ascii String.
#[local] Open Scope string_scope.
#[local] Open Scope list_scope.
#[local] Open Scope Z_scope.

Class AnsHosts `{CwOwnable, CwAsset} := { ans_state : Addr → option Ans.State }.

Section client.
Context `{CwOwnable, CwAsset, !AnsHosts}.

(** A raw query of the host's storage. *)
Definition ans_raw_query {A} (address : Addr) (method_name : string) (f : Ans.State → A) :
    outcome AnsHostError A :=
  s ← ok_or (ans_state address) (AnsQueryFailed method_name); Ok (f s).

(** ** The client (objects/ans_host.rs) *)

Definition query_contract (address : Addr) (contract : ContractEntry) : outcome AnsHostError Addr :=
  o ← ans_raw_query address "query_contract" (λ s, contract_addresses s !! contract);
  ok_or o (AnsContractNotFound (show_contract_entry contract) address).
Definition query_contracts (address : Addr) (contracts : list ContractEntry) :
    outcome AnsHostError (list Addr) := omapM (query_contract address) contracts.
Definition query_asset (address : Addr) (asset : AssetEntry) : outcome AnsHostError asset_info :=
  o ← ans_raw_query address "query_asset" (λ s, asset_addresses s !! asset);
  ok_or o (AnsAssetNotFound asset address).
Definition query_assets (address : Addr) (assets : list AssetEntry) :
    outcome AnsHostError (list asset_info) := omapM (query_asset address) assets.
Definition query_asset_reverse (address : Addr) (asset : asset_info) : outcome AnsHostError AssetEntry :=
  o ← ans_raw_query address "query_asset_reverse" (λ s, rev_asset_addresses s !! asset);
  ok_or o (AnsCwAssetNotFound address).
Definition query_assets_reverse (address : Addr) (assets : list asset_info) :
    outcome AnsHostError (list AssetEntry) := omapM (query_asset_reverse address) assets.
Definition query_channel (address : Addr) (channel : ChannelEntry) : outcome AnsHostError string :=
  o ← ans_raw_query address "query_channel" (λ s, channels s !! channel);
  ok_or o (AnsChannelNotFound (show_channel_entry channel) address).
Definition query_asset_pairing (address : Addr) (p : DexAssetPairing) :
    outcome AnsHostError (list PoolReference) :=
  o ← ans_raw_query address "query_asset_pairing" (λ s, asset_pairings s !! p);
  ok_or o (AnsDexPairingNotFound (show_pairing p) address).
Definition query_pool_metadata (address : Addr) (pool_id : UniquePoolId) :
    outcome AnsHostError PoolMetadata :=
  o ← ans_raw_query address "query_pool_metadata" (λ s, pool_metadata s !! pool_id);
  ok_or o (AnsPoolMetadataNotFound pool_id address).
(** [Item::query] fails when the item is not stored. *)
Definition query_registered_dexes (address : Addr) : outcome AnsHostError (list string) :=
  o ← ans_raw_query address "query_registered_dexes" registered_dexes;
  ok_or o (AnsQueryFailed "query_registered_dexes").

(** ** Resolution (ans_resolve.rs)

    [Resolve] is a trait with an associated type: a class indexed by both. *)
Class Resolve (T : Type) (Output : Type) := { resolve : Addr → T → outcome AnsHostError Output }.
Definition is_registered {T O} `{Resolve T O} (address : Addr) (t : T) : bool := is_ok (resolve address t).
Definition assert_registered {T O} `{Resolve T O} (address : Addr) (t : T) : outcome AnsHostError unit :=
  _ ← resolve address t; Ok tt.

(** [cw_asset::Asset]: a description and an amount. *)
Definition Asset : Type := asset_info * Z.
(** [ResolvedPoolMetadata] *)
Record ResolvedPoolMetadata := mkResolvedPoolMetadata {
  rpm_dex : string;
  rpm_pool_type : PoolType;
  rpm_assets : list asset_info
}.

Definition resolve_asset : Addr → AssetEntry → outcome AnsHostError asset_info := query_asset.
Definition resolve_lp_token (address : Addr) (t : LpToken) : outcome AnsHostError asset_info :=
  query_asset address (lp_token_asset_entry t).
Definition resolve_ans_asset (address : Addr) (a : AnsAsset) : outcome AnsHostError Asset :=
  i ← query_asset address (aa_name a); Ok (i, aa_amount a).
(** The amount is printed and parsed again, which gives it back. *)
Definition resolve_cw_asset (address : Addr) (a : Asset) : outcome AnsHostError AnsAsset :=
  name ← query_asset_reverse address a.1; Ok (mkAnsAsset name a.2).
Definition resolve_pool_metadata (address : Addr) (m : PoolMetadata) :
    outcome AnsHostError ResolvedPoolMetadata :=
  assets ← omapM (resolve_asset address) (pm_assets m);
  Ok (mkResolvedPoolMetadata (pm_dex m) (pm_pool_type m) assets).

#[export] Instance Resolve_asset : Resolve AssetEntry asset_info := {| resolve := resolve_asset |}.
#[export] Instance Resolve_lp_token : Resolve LpToken asset_info := {| resolve := resolve_lp_token |}.
#[export] Instance Resolve_contract : Resolve ContractEntry Addr := {| resolve := query_contract |}.
#[export] Instance Resolve_channel : Resolve ChannelEntry string := {| resolve := query_channel |}.
#[export] Instance Resolve_pairing : Resolve DexAssetPairing (list PoolReference) :=
  {| resolve := query_asset_pairing |}.
#[export] Instance Resolve_pool : Resolve UniquePoolId PoolMetadata := {| resolve := query_pool_metadata |}.
#[export] Instance Resolve_ans_asset : Resolve AnsAsset Asset := {| resolve := resolve_ans_asset |}.
#[export] Instance Resolve_asset_info : Resolve asset_info AssetEntry := {| resolve := query_asset_reverse |}.
#[export] Instance Resolve_cw_asset : Resolve Asset AnsAsset := {| resolve := resolve_cw_asset |}.
#[export] Instance Resolve_pool_metadata : Resolve PoolMetadata ResolvedPoolMetadata :=
  {| resolve := resolve_pool_metadata |}.
(** [impl Resolve for Vec<T>] *)
#[export] Instance Resolve_list {T O} `{Resolve T O} : Resolve (list T) (list O) :=
  {| resolve address l := omapM (resolve address) l |}.

(** ** What the client returns *)

Lemma ans_raw_query_Ok {A} address n (f : Ans.State → A) a :
  ans_raw_query address n f = Ok a ↔ ∃ s, ans_state address = Some s ∧ f s = a.
Proof.
  unfold ans_raw_query. rewrite obind_Ok. setoid_rewrite ok_or_Ok. split.
  - intros (s & Hs & [= <-]). eauto.
  - intros (s & Hs & <-). eauto.
Qed.
Lemma query_asset_Ok address n i : query_asset address n = Ok i ↔
  ∃ s, ans_state address = Some s ∧ asset_addresses s !! n = Some i.
Proof.
  unfold query_asset. rewrite obind_Ok. setoid_rewrite ans_raw_query_Ok. setoid_rewrite ok_or_Ok.
  naive_solver.
Qed.
Lemma query_asset_reverse_Ok address n i : query_asset_reverse address i = Ok n ↔
  ∃ s, ans_state address = Some s ∧ rev_asset_addresses s !! i = Some n.
Proof.
  unfold query_asset_reverse. rewrite obind_Ok. setoid_rewrite ans_raw_query_Ok.
  setoid_rewrite ok_or_Ok. naive_solver.
Qed.

(** C40. Resolving a list of named amounts into assets and the assets back into
    named amounts is the identity, on a host whose two maps of assets are
    inverse; and the resolution of the pools of a pairing of a reachable host
    gives, for each of its pools, metadata that holds both assets on that dex. *)
Theorem resolve_roundtrip (address : Addr) (s : Ans.State) (Hs : ans_state address = Some s) :
  (inverse_maps s → ∀ l r, resolve (T:=list AnsAsset) address l = Ok r →
     resolve (T:=list Asset) address r = Ok l) ∧
  (∀ `{!Semver, !Api}, reachable s → ∀ (p : DexAssetPairing) refs,
     resolve address p = Ok refs → ∀ ref, ref ∈ refs →
     ∃ m : PoolMetadata, resolve address (unique_id ref) = Ok m ∧
       asset_x p ∈ pm_assets m ∧ asset_y p ∈ pm_assets m ∧
       pairing_dex p = to_lowercase (pm_dex m)).
Proof.
  split.
  - intros Hinv l r. simpl. rewrite !omapM_Ok. intros Hl. apply Forall2_flip.
    eapply Forall2_impl; [exact Hl|]. intros [n a] [i b]. unfold flip, resolve_ans_asset, resolve_cw_asset.
    simpl. intros Hx. inv_ok.
    match goal with Hq : query_asset _ _ = Ok _ |- _ => apply query_asset_Ok in Hq as (s' & Hs' & Hq) end.
    assert (s' = s) as -> by congruence.
    apply obind_Ok. exists n. split; [|done]. apply query_asset_reverse_Ok. exists s. split; [done|].
    by apply Hinv.
  - intros HS HA Hr [[x y] d] refs Hrefs [id a] Hin. simpl in *.
    unfold query_asset_pairing in Hrefs. inv_ok.
    match goal with Hq : ans_raw_query _ _ _ = Ok _ |- _ => apply ans_raw_query_Ok in Hq as (s' & Hs' & Hlook) end.
    assert (s' = s) as -> by congruence.
    destruct (pools_indexed s Hr) as [Hindex _].
    destruct (proj1 (Hindex x y d id)) as (m & Hm & Hx & Hy & _ & Hd).
    { exists a. unfold AnsProofs.refs. rewrite Hlook.
      match goal with Hx : _ = Some refs |- _ => by rewrite Hx end. }
    exists m. split_and!; try done. unfold query_pool_metadata.
    apply obind_Ok. exists (Some m). split; [|done]. apply ans_raw_query_Ok. eauto.
Qed.
End client.

Module AnsClientExamples.
Import AnsProofs.AnsExamples.
#[local] Existing Instance semver_ref.
#[local] Existing Instance api_ref.
#[local] Existing Instance ownable_ref.
#[local] Existing Instance asset_ref.
#[local] Instance hosts : AnsHosts := {| ans_state a := if decide (a = "ans") then Some s1 else None |}.
(** The amounts of two assets, resolved and resolved back. *)
Definition amounts : list AnsAsset := [mkAnsAsset "juno" 5; mkAnsAsset "atom" 3].
Lemma s1_inverse : inverse_maps s1.
Proof.
  assert (map_Forall (λ n i, rev_asset_addresses s1 !! i = Some n) (asset_addresses s1)) as H1
    by (apply (bool_decide_unpack _); vm_compute; exact I).
  assert (map_Forall (λ i n, asset_addresses s1 !! n = Some i) (rev_asset_addresses s1)) as H2
    by (apply (bool_decide_unpack _); vm_compute; exact I).
  intros n i. split; [apply H1|apply H2].
Qed.
Lemma s1_found : ans_state "ans" = Some s1.
Proof. by vm_compute. Qed.
Lemma resolve_roundtrip_witness :
  resolve (T:=list Asset) "ans" ([("ujuno", 5); ("uatom", 3)] : list Asset) = Ok amounts.
Proof.
  apply (proj1 (resolve_roundtrip "ans" s1 s1_found) s1_inverse amounts). vm_compute. reflexivity.
Defined.
End AnsClientExamples.
