(* ===== verification/Registry.v ===== *)
(** * The registry contract

    framework/contracts/native/registry: commands.rs, contract.rs, queries.rs
    and error.rs, on the state of packages/abstract-std/src/native/registry.rs.

    A map keyed by [&ModuleInfo] is keyed by what [ModuleInfo::key] writes (the
    namespace, the name and the version's text), and a map keyed by
    [&AccountId] by what [AccountId::key] writes (the padded trace and the
    sequence), so two values with the same storage key share an entry. *)

From S2P Require Import Prelude Cosmos Strings Objects Names AccountIds Fees Ownership.
From Stdlib Require Import Ascii String.
#[local] Open Scope string_scope.
#[local] Open Scope list_scope.
#[local] Open Scope Z_scope.

(** ** State *)

Record Config := mkConfig { security_enabled : bool; namespace_registration_fee : option Coin }.
(** [ModuleConfiguration], [ModuleDefaultConfiguration] *)
Record ModuleConfiguration := mkModuleConfiguration {
  monetization : Monetization;
  metadata : option string;
  instantiation_funds : list Coin
}.
Record ModuleDefaultConfiguration := mkModuleDefaultConfiguration { default_metadata : string }.
(** [ModuleConfiguration::default] *)
Definition default_configuration : ModuleConfiguration := mkModuleConfiguration MonetizationNone None [].

(** Storage keys: [ModuleInfo::key] and [AccountId::key]. *)
Definition ModuleKey : Type := string * string * string.
Definition mkey (m : ModuleInfo) : ModuleKey :=
  (mi_namespace m, mi_name m, show_module_version (mi_version m)).
Definition AccountKey : Type := list string * Z.
Definition akey (id : AccountId) : AccountKey :=
  let chains := match acc_trace id with Local => [LOCAL] | Remote l => l end in
  (chains ++ replicate (MAX_TRACE_LENGTH - List.length chains) "", acc_seq id).

Definition ABSTRACT_ACCOUNT_ID : AccountId := mkAccountId Local 0.

Inductive RegistryError : Type :=
  | RegStd (e : StdError)
  | RegAbstract (e : AbstractError)
  | RegValidation (e : ValidationError)
  | RegOwnership (e : OwnershipError)
  | RegSemVer (message : string)
  | NotAccountCodeId (account_info : ModuleInfo) (expected_code_id actual_code_id : Z)
  | NotAccountInfo (caller_info : ModuleInfo)
  | ModuleNotFound (m : ModuleInfo)
  | NotUpdateableModule (m : ModuleInfo)
  | UnknownAccountId (id : AccountId)
  | UnknownNamespace (namespace : Namespace)
  | AccountOwnerMismatch (sender owner : Addr)
  | NoAccountOwner (id : AccountId)
  | NamespaceOccupied (namespace : string) (id : AccountId)
  | ExceedsNamespaceLimit (limit current : Z)
  | AdminMustBeNone
  | NoAction
  | AccountAlreadyExists (id : AccountId)
  | RedundantInitFunds
  | SenderNotIbcHost (sender ibc_host : Addr)
  | InvalidAccountSequence (expected actual : Z).

(** The messages the registry sends. *)
Inductive RegistryMsg : Type := BankSend (to_address : Addr) (amount : list Coin).

Section state.
Context `{CwOwnable}.
Record State := mkState {
  config : option Config;
  cw_ownership : option ownable;
  pending : gmap ModuleKey ModuleReference;
  registered : gmap ModuleKey ModuleReference;
  yanked : gmap ModuleKey ModuleReference;
  standalone_infos : gmap Z ModuleInfo;
  service_infos : gmap Addr ModuleInfo;
  module_config : gmap ModuleKey ModuleConfiguration;
  module_default_config : gmap (string * string) ModuleDefaultConfiguration;
  account_addresses : gmap AccountKey Addr;
  local_account_sequence : option Z;
  namespaces : gmap string AccountId;
  rev_namespaces : gmap AccountKey string
}.
Definition empty_state : State := mkState None None ∅ ∅ ∅ ∅ ∅ ∅ ∅ ∅ None ∅ ∅.

(** Writing one cell of the storage. *)
Definition set_config (v : option Config) (s : State) : State :=
  mkState v (cw_ownership s) (pending s) (registered s) (yanked s) (standalone_infos s)
    (service_infos s) (module_config s) (module_default_config s) (account_addresses s)
    (local_account_sequence s) (namespaces s) (rev_namespaces s).
Definition set_cw_ownership (v : option ownable) (s : State) : State :=
  mkState (config s) v (pending s) (registered s) (yanked s) (standalone_infos s)
    (service_infos s) (module_config s) (module_default_config s) (account_addresses s)
    (local_account_sequence s) (namespaces s) (rev_namespaces s).
Definition set_pending (v : gmap ModuleKey ModuleReference) (s : State) : State :=
  mkState (config s) (cw_ownership s) v (registered s) (yanked s) (standalone_infos s)
    (service_infos s) (module_config s) (module_default_config s) (account_addresses s)
    (local_account_sequence s) (namespaces s) (rev_namespaces s).
Definition set_registered (v : gmap ModuleKey ModuleReference) (s : State) : State :=
  mkState (config s) (cw_ownership s) (pending s) v (yanked s) (standalone_infos s)
    (service_infos s) (module_config s) (module_default_config s) (account_addresses s)
    (local_account_sequence s) (namespaces s) (rev_namespaces s).
Definition set_yanked (v : gmap ModuleKey ModuleReference) (s : State) : State :=
  mkState (config s) (cw_ownership s) (pending s) (registered s) v (standalone_infos s)
    (service_infos s) (module_config s) (module_default_config s) (account_addresses s)
    (local_account_sequence s) (namespaces s) (rev_namespaces s).
Definition set_standalone_infos (v : gmap Z ModuleInfo) (s : State) : State :=
  mkState (config s) (cw_ownership s) (pending s) (registered s) (yanked s) v (service_infos s)
    (module_config s) (module_default_config s) (account_addresses s) (local_account_sequence s)
    (namespaces s) (rev_namespaces s).
Definition set_service_infos (v : gmap Addr ModuleInfo) (s : State) : State :=
  mkState (config s) (cw_ownership s) (pending s) (registered s) (yanked s) (standalone_infos s)
    v (module_config s) (module_default_config s) (account_addresses s)
    (local_account_sequence s) (namespaces s) (rev_namespaces s).
Definition set_module_config (v : gmap ModuleKey ModuleConfiguration) (s : State) : State :=
  mkState (config s) (cw_ownership s) (pending s) (registered s) (yanked s) (standalone_infos s)
    (service_infos s) v (module_default_config s) (account_addresses s)
    (local_account_sequence s) (namespaces s) (rev_namespaces s).
Definition set_module_default_config (v : gmap (string * string) ModuleDefaultConfiguration) (s : State) : State :=
  mkState (config s) (cw_ownership s) (pending s) (registered s) (yanked s) (standalone_infos s)
    (service_infos s) (module_config s) v (account_addresses s) (local_account_sequence s)
    (namespaces s) (rev_namespaces s).
Definition set_account_addresses (v : gmap AccountKey Addr) (s : State) : State :=
  mkState (config s) (cw_ownership s) (pending s) (registered s) (yanked s) (standalone_infos s)
    (service_infos s) (module_config s) (module_default_config s) v (local_account_sequence s)
    (namespaces s) (rev_namespaces s).
Definition set_local_account_sequence (v : option Z) (s : State) : State :=
  mkState (config s) (cw_ownership s) (pending s) (registered s) (yanked s) (standalone_infos s)
    (service_infos s) (module_config s) (module_default_config s) (account_addresses s) v
    (namespaces s) (rev_namespaces s).
Definition set_namespaces (v : gmap string AccountId) (s : State) : State :=
  mkState (config s) (cw_ownership s) (pending s) (registered s) (yanked s) (standalone_infos s)
    (service_infos s) (module_config s) (module_default_config s) (account_addresses s)
    (local_account_sequence s) v (rev_namespaces s).
Definition set_rev_namespaces (v : gmap AccountKey string) (s : State) : State :=
  mkState (config s) (cw_ownership s) (pending s) (registered s) (yanked s) (standalone_infos s)
    (service_infos s) (module_config s) (module_default_config s) (account_addresses s)
    (local_account_sequence s) (namespaces s) v.
End state.

(** ** Messages (ExecuteMsg, InstantiateMsg, UpdateModule) *)

Inductive UpdateModule : Type :=
  | Default (metadata : string)
  | Versioned (version : string) (metadata : option string) (monetization : option Monetization)
      (instantiation_funds : option (list Coin)).

(** [cw_clearable::Clearable] and its conversion to an option. *)
Inductive Clearable (A : Type) : Type := ClearableSet (a : A) | Clear.
Arguments ClearableSet {A} a.
Arguments Clear {A}.
Definition of_clearable {A} (c : Clearable A) : option A :=
  match c with ClearableSet a => Some a | Clear => None end.

Inductive ExecuteMsg `{CwOwnable} : Type :=
  | RemoveModule (m : ModuleInfo)
  | YankModule (m : ModuleInfo)
  | ProposeModules (modules : list (ModuleInfo * ModuleReference))
  | UpdateModuleConfiguration (module_name : string) (namespace : Namespace)
      (update_module : UpdateModule)
  | ApproveOrRejectModules (approves rejects : list ModuleInfo)
  | ClaimNamespace (account_id : AccountId) (namespace : string)
  | ForgoNamespace (namespaces : list string)
  | AddAccount (namespace : option string) (creator : string)
  | UpdateConfig (security_enabled : option bool)
      (namespace_registration_fee : option (Clearable Coin))
  | UpdateOwnership (action : cw_action).

Record InstantiateMsg := mkInstantiateMsg {
  admin : string;
  init_security_enabled : option bool;
  init_namespace_registration_fee : option Coin
}.

(** ** Operations (commands.rs) *)

Section commands.
Context `{Semver, Api, CwOwnable}.

Abbreviation VCM := (M State RegistryError).
Abbreviation VcResponse := (Response RegistryMsg).

(** [CONFIG.load] *)
Definition load_config : VCM Config :=
  c ← gets config; lift (ok_or c (RegStd (StdNotFound "config"))).
(** [Map::has] *)
Definition has {K V} `{Countable K} (m : gmap K V) (k : K) : bool := bool_decide (is_Some (m !! k)).
(** [cw_ownable::assert_owner] *)
Definition assert_admin (sender : Addr) : VCM unit :=
  o ← gets cw_ownership;
  match o with
  | Some o => lift (map_err RegOwnership (cw_assert_owner o sender))
  | None => fail (RegOwnership CwOther)
  end.
(** The versions of a module: [prefix((namespace, name))], in ascending order
    of the version's text. *)
Definition versions_of (m : gmap ModuleKey ModuleReference) (ns name : string) :
    list (string * ModuleReference) :=
  merge_sort (λ x y, String.le x.1 y.1)
    (omap (λ '((n, a, v), r), if decide (n = ns ∧ a = name) then Some (v, r) else None)
       (map_to_list m)).

Section with_querier.
Context `{!Querier}.

(** [query_account_owner] *)
Definition query_account_owner (account_addr : Addr) (account_id : AccountId) :
    outcome RegistryError Addr :=
  o ← map_err RegStd (query_ownership account_addr);
  ok_or (owner_address (owner o)) (NoAccountOwner account_id).

(** [validate_account_owner] *)
Definition validate_account_owner (namespace : Namespace) (sender : Addr) : VCM unit :=
  id ← gets (λ s, namespaces s !! namespace);
  account_id ← lift (ok_or id (UnknownNamespace namespace));
  a ← gets (λ s, account_addresses s !! akey account_id);
  account ← lift (ok_or a (RegStd (StdNotFound "account")));
  if decide (sender ≠ account) then
    account_owner ← lift (query_account_owner account account_id);
    if decide (sender ≠ account_owner) then fail (AccountOwnerMismatch sender account_owner)
    else mret tt
  else mret tt.

(** [claim_namespace_internal] *)
Definition claim_namespace_internal (fee : option Coin) (info : MessageInfo)
    (account_id : AccountId) (namespace_to_claim : string) : VCM (list (SubMsg RegistryMsg)) :=
  rev ← gets rev_namespaces;
  ensure (negb (has rev (akey account_id))) (ExceedsNamespaceLimit 1 1) ≫= λ _,
  fee_msg ← match fee with
    | Some fee =>
        _ ← lift (map_err RegAbstract (assert_payment (fixed_fee_new fee) info));
        a ← gets (λ s, account_addresses s !! akey ABSTRACT_ACCOUNT_ID);
        admin_account ← lift (ok_or a (RegStd (StdNotFound "account")));
        mret [send (BankSend admin_account (funds info))]
    | None => mret []
    end;
  namespace ← lift (map_err RegAbstract (namespace_new namespace_to_claim));
  o ← gets (λ s, namespaces s !! namespace);
  match o with Some id => fail (NamespaceOccupied namespace id) | None => mret tt end ≫= λ _,
  modify (λ s, set_namespaces (<[namespace := account_id]> (namespaces s)) s) ≫= λ _,
  modify (λ s, set_rev_namespaces (<[akey account_id := namespace]> (rev_namespaces s)) s) ≫= λ _,
  mret fee_msg.

(** The checks of [add_account] on the sequence of a local account. *)
Definition next_local_sequence (account_id : AccountId) : VCM unit :=
  if decide (acc_seq account_id < 2147483648) then
    n ← gets local_account_sequence;
    let next_sequence := default 0 n in
    ensure (bool_decide (next_sequence = acc_seq account_id))
      (InvalidAccountSequence next_sequence (acc_seq account_id)) ≫= λ _,
    next ← lift (add_u 32 next_sequence 1);
    modify (set_local_account_sequence (Some next))
  else mret tt.
(** The checks of [add_account] on the creator of a remote account. *)
Definition assert_ibc_host (account_id : AccountId) (creator : string) : VCM unit :=
  creator_addr ← lift (map_err RegStd (addr_validate_r creator));
  sender_cw2_info ← lift (map_err RegStd (query_r (cw2_contract creator_addr)));
  host_info ← lift (map_err RegAbstract
    (module_info_from_id IBC_HOST (Version (cv_version sender_cw2_info))));
  r ← gets (λ s, registered s !! mkey host_info);
  host_ref ← lift (ok_or r (RegStd (StdNotFound "module")));
  ibc_host_addr ← lift (map_err RegAbstract (unwrap_native host_ref));
  ensure (bool_decide (creator_addr = ibc_host_addr))
    (SenderNotIbcHost creator_addr ibc_host_addr) ≫= λ _,
  lift (map_err RegAbstract (verify_remote (acc_trace account_id))).

(** [add_account] *)
Definition add_account (info : MessageInfo) (namespace : option string) (creator : string) :
    VCM VcResponse :=
  cfg ← load_config;
  contract_info ← lift (map_err RegStd (query_r (cw2_contract (sender info))));
  acc_module_info ← lift (map_err RegAbstract (module_info_of_contract contract_info));
  ensure (bool_decide (module_id acc_module_info = ACCOUNT)) (NotAccountInfo acc_module_info) ≫= λ _,
  account_id ← lift (map_err RegStd (query_r (account_id_of (sender info))));
  accounts ← gets account_addresses;
  ensure (negb (has accounts (akey account_id))) (AccountAlreadyExists account_id) ≫= λ _,
  sender_contract_info ← lift (map_err RegStd (query_r (wasm_contract_info (sender info))));
  r ← gets (λ s, registered s !! mkey acc_module_info);
  acc_ref ← lift (ok_or r (RegStd (StdNotFound "module")));
  account_code_id ← lift (map_err RegAbstract (unwrap_account acc_ref));
  ensure (bool_decide (account_code_id = ci_code_id sender_contract_info))
    (NotAccountCodeId acc_module_info account_code_id (ci_code_id sender_contract_info)) ≫= λ _,
  (if is_local account_id then next_local_sequence account_id
   else assert_ibc_host account_id creator) ≫= λ _,
  modify (λ s, set_account_addresses
    (<[akey account_id := sender info]> (account_addresses s)) s) ≫= λ _,
  fee_msg ← match namespace with
    | Some namespace =>
        claim_namespace_internal (namespace_registration_fee cfg) info account_id namespace
    | None => mret []
    end;
  mret (mkResponse "add_account" fee_msg).

(** The loop body of [propose_modules]. *)
Definition propose_module (cfg : Config) (info : MessageInfo) (m : ModuleInfo * ModuleReference) :
    VCM unit :=
  let '(module, mod_ref) := m in
  store_has_module ← gets (λ s, has (pending s) (mkey module) || has (registered s) (mkey module)
    || has (yanked s) (mkey module))%bool;
  ensure (negb (security_enabled cfg && store_has_module)) (NotUpdateableModule module) ≫= λ _,
  lift (map_err RegAbstract (module_info_validate module)) ≫= λ _,
  lift (map_err RegAbstract (module_reference_validate mod_ref)) ≫= λ _,
  lift (map_err RegAbstract (assert_version_variant module)) ≫= λ _,
  (if decide (mi_namespace module = ABSTRACT_NAMESPACE) then assert_admin (sender info)
   else validate_account_owner (mi_namespace module) (sender info)) ≫= λ _,
  match mod_ref with
  | RefAdapter addr =>
      ci ← lift (map_err RegStd (query_r (wasm_contract_info addr)));
      ensure (bool_decide (ci_admin ci = None)) AdminMustBeNone
  | _ => mret tt
  end ≫= λ _,
  if security_enabled cfg then
    modify (λ s, set_pending (<[mkey module := mod_ref]> (pending s)) s)
  else
    lift (map_err RegAbstract (assert_module_data_validity (mkModule module mod_ref) None)) ≫= λ _,
    modify (λ s, set_registered (<[mkey module := mod_ref]> (registered s)) s) ≫= λ _,
    match mod_ref with
    | RefStandalone id =>
        modify (λ s, set_standalone_infos (<[id := module]> (standalone_infos s)) s)
    | RefService addr => modify (λ s, set_service_infos (<[addr := module]> (service_infos s)) s)
    | _ => mret tt
    end.
Definition propose_modules (info : MessageInfo) (modules : list (ModuleInfo * ModuleReference)) :
    VCM VcResponse :=
  cfg ← load_config;
  mfor modules (propose_module cfg info) ≫= λ _,
  mret (mkResponse "propose_modules" []).
End with_querier.

(** The loop bodies of [approve_modules] and [reject_modules]. *)
Definition approve_module (module : ModuleInfo) : VCM unit :=
  r ← gets (λ s, pending s !! mkey module);
  mod_ref ← lift (ok_or r (ModuleNotFound module));
  modify (λ s, set_registered (<[mkey module := mod_ref]> (registered s)) s) ≫= λ _,
  modify (λ s, set_pending (delete (mkey module) (pending s)) s) ≫= λ _,
  match mod_ref with
  | RefStandalone id => modify (λ s, set_standalone_infos (<[id := module]> (standalone_infos s)) s)
  | _ => mret tt
  end.
Definition reject_module (module : ModuleInfo) : VCM unit :=
  p ← gets pending;
  ensure (has p (mkey module)) (ModuleNotFound module) ≫= λ _,
  modify (λ s, set_pending (delete (mkey module) (pending s)) s).

(** [approve_or_reject_modules] *)
Definition approve_or_reject_modules (info : MessageInfo) (approves rejects : list ModuleInfo) :
    VCM VcResponse :=
  assert_admin (sender info) ≫= λ _,
  mfor approves approve_module ≫= λ _,
  mfor rejects reject_module ≫= λ _,
  ensure (negb (bool_decide (approves = [] ∧ rejects = []))) NoAction ≫= λ _,
  mret (mkResponse "approve_or_reject_modules" []).

(** [remove_module] *)
Definition remove_module (info : MessageInfo) (module : ModuleInfo) : VCM VcResponse :=
  assert_admin (sender info) ≫= λ _,
  lift (map_err RegAbstract (assert_version_variant module)) ≫= λ _,
  module_ref_res ← gets (λ s, registered s !! mkey module);
  y ← gets yanked;
  ensure (bool_decide (is_Some module_ref_res) || has y (mkey module)) (ModuleNotFound module) ≫= λ _,
  modify (λ s, set_registered (delete (mkey module) (registered s)) s) ≫= λ _,
  modify (λ s, set_yanked (delete (mkey module) (yanked s)) s) ≫= λ _,
  modify (λ s, set_module_config (delete (mkey module) (module_config s)) s) ≫= λ _,
  match module_ref_res with
  | Some (RefStandalone id) =>
      modify (λ s, set_standalone_infos (delete id (standalone_infos s)) s)
  | _ => mret tt
  end ≫= λ _,
  versions ← gets (λ s, versions_of (registered s) (mi_namespace module) (mi_name module));
  (if decide (versions = []) then
     modify (λ s, set_module_default_config
       (delete (mi_namespace module, mi_name module) (module_default_config s)) s)
   else mret tt) ≫= λ _,
  mret (mkResponse "remove_module" []).

Section with_querier.
Context `{!Querier}.

(** [yank_module] *)
Definition yank_module (info : MessageInfo) (module : ModuleInfo) : VCM VcResponse :=
  validate_account_owner (mi_namespace module) (sender info) ≫= λ _,
  lift (map_err RegAbstract (assert_version_variant module)) ≫= λ _,
  r ← gets (λ s, registered s !! mkey module);
  mod_ref ← lift (ok_or r (ModuleNotFound module));
  modify (λ s, set_yanked (<[mkey module := mod_ref]> (yanked s)) s) ≫= λ _,
  modify (λ s, set_registered (delete (mkey module) (registered s)) s) ≫= λ _,
  mret (mkResponse "yank_module" []).

(** The configuration [update_module_config] stores for one version. *)
Definition updated_config (cfg : ModuleConfiguration) (mod_ref : ModuleReference)
    (new_metadata : option string) (new_monetization : option Monetization)
    (init_funds : option (list Coin)) : outcome RegistryError ModuleConfiguration :=
  let md := match new_metadata with Some m => Some m | None => metadata cfg end in
  let mon := default (monetization cfg) new_monetization in
  match init_funds with
  | None => Ok (mkModuleConfiguration mon md (instantiation_funds cfg))
  | Some init_funds =>
      match mod_ref with
      | RefApp _ | RefStandalone _ => Ok (mkModuleConfiguration mon md init_funds)
      | _ => Err RedundantInitFunds
      end
  end.

(** [update_module_config]; the enum has no other variant to reach the
    [todo!()] of the last arm. *)
Definition update_module_config (info : MessageInfo) (module_name : string) (namespace : Namespace)
    (update_module : UpdateModule) : VCM VcResponse :=
  (if decide (namespace = ABSTRACT_NAMESPACE) then assert_admin (sender info)
   else validate_account_owner namespace (sender info)) ≫= λ _,
  match update_module with
  | Default metadata =>
      versions ← gets (λ s, versions_of (registered s) namespace module_name);
      ensure (negb (bool_decide (versions = [])))
        (ModuleNotFound (mkModuleInfo namespace module_name Latest)) ≫= λ _,
      lift (map_err RegValidation (validate_link (Some metadata))) ≫= λ _,
      modify (λ s, set_module_default_config
        (<[(namespace, module_name) := mkModuleDefaultConfiguration metadata]>
           (module_default_config s)) s)
  | Versioned version metadata monetization instantiation_funds =>
      let module := mkModuleInfo namespace module_name (Version version) in
      r ← gets (λ s, registered s !! mkey module);
      module_reference ← lift (ok_or r (ModuleNotFound module));
      c ← gets (λ s, module_config s !! mkey module);
      cfg ← lift (updated_config (default default_configuration c) module_reference metadata
        monetization instantiation_funds);
      modify (λ s, set_module_config (<[mkey module := cfg]> (module_config s)) s)
  end ≫= λ _,
  mret (mkResponse "update_module_config" []).

(** [claim_namespace] *)
Definition claim_namespace (info : MessageInfo) (account_id : AccountId)
    (namespace_to_claim : string) : VCM VcResponse :=
  cfg ← load_config;
  (if security_enabled cfg then assert_admin (sender info)
   else
     a ← gets (λ s, account_addresses s !! akey account_id);
     account ← lift (ok_or a (RegStd (StdNotFound "account")));
     account_owner ← lift (query_account_owner account account_id);
     ensure (bool_decide (sender info = account_owner))
       (AccountOwnerMismatch (sender info) account_owner)) ≫= λ _,
  fee_msg ← claim_namespace_internal (namespace_registration_fee cfg) info account_id
    namespace_to_claim;
  mret (mkResponse "claim_namespace" fee_msg).

(** The registered modules of a namespace: [sub_prefix(namespace)]. *)
Definition modules_of (m : gmap ModuleKey ModuleReference) (ns : string) :
    list (ModuleKey * ModuleReference) :=
  filter (λ x, x.1.1.1 = ns) (map_to_list m).
Definition yank_entry (x : ModuleKey * ModuleReference) : VCM unit :=
  modify (λ s, set_registered (delete x.1 (registered s)) s) ≫= λ _,
  modify (λ s, set_yanked (<[x.1 := x.2]> (yanked s)) s).

(** The loop body of [forgo_namespace]. *)
Definition forgo_one (is_admin : bool) (info : MessageInfo) (namespace : string) : VCM unit :=
  namespace ← lift (map_err RegAbstract (namespace_new namespace));
  ns ← gets namespaces;
  ensure (has ns namespace) (UnknownNamespace namespace) ≫= λ _,
  (if is_admin then mret tt else validate_account_owner namespace (sender info)) ≫= λ _,
  modules ← gets (λ s, modules_of (registered s) namespace);
  mfor modules yank_entry ≫= λ _,
  o ← gets (λ s, namespaces s !! namespace);
  owner ← lift (ok_or o (RegStd (StdNotFound "namespace")));
  modify (λ s, set_namespaces (delete namespace (namespaces s)) s) ≫= λ _,
  modify (λ s, set_rev_namespaces (delete (akey owner) (rev_namespaces s)) s).
Definition forgo_namespace (info : MessageInfo) (namespaces : list string) : VCM VcResponse :=
  o ← gets cw_ownership;
  o ← lift (ok_or o (RegStd (StdNotFound "ownership")));
  mfor namespaces (forgo_one (cw_is_owner o (sender info)) info) ≫= λ _,
  mret (mkResponse "forgo_namespace" []).

(** [update_config] *)
Definition update_config (info : MessageInfo) (security : option bool)
    (fee : option (Clearable Coin)) : VCM VcResponse :=
  assert_admin (sender info) ≫= λ _,
  cfg ← load_config;
  let cfg := match security with
    | Some b => mkConfig b (namespace_registration_fee cfg) | None => cfg end in
  let cfg := match fee with
    | Some f => mkConfig (security_enabled cfg) (of_clearable f) | None => cfg end in
  modify (set_config (Some cfg)) ≫= λ _,
  mret (mkResponse "update_config" []).

(** ** Entry points (contract.rs) *)

(** [execute_update_ownership!] *)
Definition execute_update_ownership (env : Env) (info : MessageInfo) (a : cw_action) :
    VCM VcResponse :=
  o ← gets cw_ownership;
  o ← lift (ok_or o (RegOwnership CwOther));
  o' ← lift (map_err RegOwnership (cw_update_ownership o (block env) (sender info) a));
  modify (set_cw_ownership (Some o')) ≫= λ _,
  mret (mkResponse "update_ownership" []).

(** [execute] *)
Definition execute (env : Env) (info : MessageInfo) (msg : ExecuteMsg) : VCM VcResponse :=
  match msg with
  | ProposeModules modules => propose_modules info modules
  | ApproveOrRejectModules approves rejects => approve_or_reject_modules info approves rejects
  | RemoveModule module => remove_module info module
  | YankModule module => yank_module info module
  | UpdateModuleConfiguration module_name namespace update_module =>
      update_module_config info module_name namespace update_module
  | ClaimNamespace account_id namespace => claim_namespace info account_id namespace
  | ForgoNamespace namespaces => forgo_namespace info namespaces
  | AddAccount namespace creator => add_account info namespace creator
  | UpdateConfig security fee => update_config info security fee
  | UpdateOwnership action => execute_update_ownership env info action
  end.
End with_querier.

(** [instantiate] *)
Definition instantiate (msg : InstantiateMsg) : VCM VcResponse :=
  modify (set_config (Some (mkConfig (default true (init_security_enabled msg))
    (init_namespace_registration_fee msg)))) ≫= λ _,
  o ← lift (ok_or (cw_initialize_owner (admin msg)) (RegStd (StdMsg "invalid address")));
  modify (set_cw_ownership (Some o)) ≫= λ _,
  namespace ← lift (map_err RegAbstract (namespace_new ABSTRACT_NAMESPACE));
  modify (λ s, set_namespaces (<[namespace := ABSTRACT_ACCOUNT_ID]> (namespaces s)) s) ≫= λ _,
  modify (λ s, set_rev_namespaces
    (<[akey ABSTRACT_ACCOUNT_ID := namespace]> (rev_namespaces s)) s) ≫= λ _,
  modify (set_local_account_sequence (Some 0)) ≫= λ _,
  mret (mkResponse "instantiate" []).
End commands.

(** ** Queries (queries.rs) *)

(** [ModuleVersion::from_vec] *)
Definition version_from_key (v : string) : ModuleVersion :=
  if decide (v = "latest") then Latest else Version v.
(** [ModuleInfo::from_vec] *)
Definition info_from_key (k : ModuleKey) : outcome StdError ModuleInfo :=
  let '(ns, name, v) := k in
  ns ← map_err (λ _, StdMsg "Invalid namespace for module") (namespace_new ns);
  Ok (mkModuleInfo ns name (version_from_key v)).

(** Keys of several elements are ordered element by element. *)
Definition name_version_lt (x y : string * string) : Prop :=
  prefixed_lt x.1 y.1 ∨ x.1 = y.1 ∧ text_lt x.2 y.2.
Definition mkey_lt (x y : ModuleKey) : Prop :=
  prefixed_lt x.1.1 y.1.1 ∨ x.1.1 = y.1.1 ∧ name_version_lt (x.1.2, x.2) (y.1.2, y.2).
#[export] Instance name_version_lt_dec x y : Decision (name_version_lt x y).
Proof. unfold name_version_lt. apply _. Defined.
#[export] Instance mkey_lt_dec x y : Decision (mkey_lt x y).
Proof. unfold mkey_lt. apply _. Defined.

Definition DEFAULT_LIMIT : Z := 10.
Definition MAX_LIMIT : Z := 20.
Definition limit_of (limit : option Z) : nat := Z.to_nat (Z.min (default DEFAULT_LIMIT limit) MAX_LIMIT).

Record ModuleFilter := mkModuleFilter {
  filter_namespace : option string;
  filter_name : option string;
  filter_version : option string;
  filter_status : option ModuleStatus
}.
Record ModuleResponse := mkModuleResponse {
  resp_module : Module_;
  resp_config : ModuleConfiguration
}.
Inductive NamespaceResponse : Type := Claimed (id : AccountId) (account : Addr) | Unclaimed.

Section queries.
Context `{Semver, CwOwnable}.

(** [ModuleConfiguration::from_storage] *)
Definition config_from_storage (s : State) (m : ModuleInfo) : ModuleConfiguration :=
  let mod_cfg := default default_configuration (module_config s !! mkey m) in
  match metadata mod_cfg with
  | Some _ => mod_cfg
  | None =>
      match module_default_config s !! (mi_namespace m, mi_name m) with
      | Some d => mkModuleConfiguration (monetization mod_cfg) (Some (default_metadata d))
                    (instantiation_funds mod_cfg)
      | None => mod_cfg
      end
  end.

Definition unknown_module : StdError := StdMsg "Module does not have a stored module reference".

(** [skip_while(pre-release).take(1)] over versions in descending order; the
    version's text is parsed with [unwrap]. *)
Fixpoint first_release (l : list (string * ModuleReference)) :
    outcome StdError (option (string * ModuleReference)) :=
  match l with
  | [] => Ok None
  | (v, r) :: l =>
      parsed ← unwrap (parse_version v);
      if ver_release parsed then Ok (Some (v, r)) else first_release l
  end.

(** The loop body of [handle_modules_query]. *)
Definition query_one_module (s : State) (m : ModuleInfo) : outcome StdError ModuleResponse :=
  '(m, mod_ref) ← match mi_version m with
    | Version _ => r ← ok_or (registered s !! mkey m) unknown_module; Ok (m, r)
    | Latest =>
        o ← first_release (reverse (versions_of (registered s) (mi_namespace m) (mi_name m)));
        '(v, r) ← ok_or o unknown_module;
        Ok (mkModuleInfo (mi_namespace m) (mi_name m) (version_from_key v), r)
    end;
  Ok (mkModuleResponse (mkModule m mod_ref) (config_from_storage s m)).
Definition handle_modules_query (s : State) (modules : list ModuleInfo) :
    outcome StdError (list ModuleResponse) :=
  omapM (query_one_module s) modules.

(** [handle_accounts_address_query] *)
Definition handle_accounts_address_query (s : State) (account_ids : list AccountId) :
    outcome StdError (list Addr) :=
  omapM (λ id, ok_or (account_addresses s !! akey id) (StdMsg "Account ID is not in registry register"))
    account_ids.

(** [handle_namespaces_query] *)
Definition handle_namespaces_query (s : State) (accounts : list AccountId) :
    list (Namespace * AccountId) :=
  omap (λ id, ns ← rev_namespaces s !! akey id; Some (ns, id)) accounts.

(** [handle_namespace_query] *)
Definition handle_namespace_query (s : State) (namespace : Namespace) :
    outcome StdError NamespaceResponse :=
  match namespaces s !! namespace with
  | None => Ok Unclaimed
  | Some account_id =>
      account ← ok_or (account_addresses s !! akey account_id) (StdNotFound "account");
      Ok (Claimed account_id account)
  end.

(** [handle_namespace_list_query] *)
Definition handle_namespace_list_query (s : State) (start_after : option Namespace)
    (limit : option Z) : list (Namespace * AccountId) :=
  take (limit_of limit) (range text_lt start_after (map_to_list (namespaces s))).

(** [filter_modules_by_namespace] *)
Definition filter_modules_by_namespace (mod_lib : gmap ModuleKey ModuleReference)
    (start_after : option ModuleInfo) (limit : nat) (namespace : Namespace) (name : option string) :
    list (ModuleInfo * ModuleReference) :=
  match name with
  | Some name =>
      let start := (λ i, show_module_version (mi_version i)) <$> start_after in
      (λ '(v, r), (mkModuleInfo namespace name (version_from_key v), r)) <$>
        take limit (range text_lt start (versions_of mod_lib namespace name))
  | None =>
      let start := (λ i, (mi_name i, show_module_version (mi_version i))) <$> start_after in
      let entries := omap (λ '((n, a, v), r), if decide (n = namespace) then Some ((a, v), r) else None)
        (map_to_list mod_lib) in
      (λ '((a, v), r), (mkModuleInfo namespace a (version_from_key v), r)) <$>
        take limit (range name_version_lt start entries)
  end.

(** The modules [handle_module_list_query] loads, before it filters them by
    version, and by name when no namespace is given. *)
Definition load_modules (mod_lib : gmap ModuleKey ModuleReference) (start_after : option ModuleInfo)
    (limit : nat) (f : ModuleFilter) : outcome RegistryError (list (ModuleInfo * ModuleReference)) :=
  match filter_namespace f with
  | Some ns =>
      ns ← map_err RegAbstract (namespace_new ns);
      Ok (filter_modules_by_namespace mod_lib start_after limit ns (filter_name f))
  | None =>
      map_err RegStd (omapM (λ x, i ← info_from_key x.1; Ok (i, x.2))
        (take limit (range mkey_lt (mkey <$> start_after) (map_to_list mod_lib))))
  end.
Definition keep_module (f : ModuleFilter) (x : ModuleInfo * ModuleReference) : bool :=
  (match filter_namespace f, filter_name f with
   | None, Some name => bool_decide (mi_name x.1 = name)
   | _, _ => true
   end &&
   match filter_version f with
   | Some v => bool_decide (mi_version x.1 = Version v)
   | None => true
   end)%bool.

(** [handle_module_list_query] *)
Definition handle_module_list_query (s : State) (start_after : option ModuleInfo)
    (limit : option Z) (f : option ModuleFilter) : outcome RegistryError (list ModuleResponse) :=
  let f := default (mkModuleFilter None None None None) f in
  let mod_lib := match filter_status f with
    | Some Registered => registered s
    | Some Pending => pending s
    | Some Yanked => yanked s
    | None => registered s
    end in
  modules ← load_modules mod_lib start_after (limit_of limit) f;
  Ok ((λ x, mkModuleResponse (mkModule x.1 x.2) (config_from_storage s x.1)) <$>
        List.filter (keep_module f) modules).
End queries.
