(* ===== verification/ModuleKeys.v ===== *)
(** * The storage keys of modules and accounts

    The cw-storage-plus codecs of objects/module.rs and objects/namespace.rs: the
    elements of the keys the registry stores modules under, and how they are read
    back; and that the keys [mkey] and [akey] of the registry's model are equal
    exactly when the bytes are. *)

From S2P Require Import Prelude Cosmos Strings Objects Names AccountIds Registry.
From Stdlib Require Import Ascii String.
#[local] Open Scope string_scope.
#[local] Open Scope list_scope.
#[local] Open Scope Z_scope.

Section keys.
Context `{KeyCodec}.

(** [Namespace::key], [ModuleVersion::key], [ModuleInfo::key] *)
Definition namespace_key (n : Namespace) : list bytes := [as_bytes n].
Definition module_version_key (v : ModuleVersion) : list bytes :=
  match v with Latest => [as_bytes "latest"] | Version ver => [as_bytes ver] end.
Definition module_info_key (m : ModuleInfo) : list bytes :=
  namespace_key (mi_namespace m) ++ [as_bytes (mi_name m)] ++ module_version_key (mi_version m).

(** [Vec::split_off]: past the end it traps. *)
Definition split_off {E} (n : nat) (value : bytes) : outcome E (bytes * bytes) :=
  if decide (List.length value < n)%nat then Panic else Ok (take n value, drop n value).
Definition parse_length (value : bytes) : outcome StdError nat :=
  if decide (List.length value = 2%nat) then Ok (of_be16 value)
  else Err (StdMsg "Could not read 2 byte length").
(** [String::from_vec] *)
Definition string_from_vec (value : bytes) : outcome StdError string :=
  ok_or (from_utf8 value) (StdMsg "invalid utf-8").
(** [Namespace::from_vec], [ModuleVersion::from_vec], [ModuleInfo::from_vec] *)
Definition namespace_from_vec (value : bytes) : outcome StdError Namespace := string_from_vec value.
Definition module_version_from_vec (value : bytes) : outcome StdError ModuleVersion :=
  val ← string_from_vec value;
  if decide (val = "latest") then Ok Latest else Ok (Version val).
Definition module_info_from_vec (value : bytes) : outcome StdError ModuleInfo :=
  '(value, prov_name_ver) ← split_off 2 value;
  prov_len ← parse_length value;
  '(prov_name_ver, len_name_ver) ← split_off prov_len prov_name_ver;
  '(len_name_ver, name_ver) ← split_off 2 len_name_ver;
  ver_len ← parse_length len_name_ver;
  '(name_ver, ver) ← split_off ver_len name_ver;
  namespace ← string_from_vec prov_name_ver;
  namespace ← map_err (λ _, StdMsg "Invalid namespace for module") (namespace_new namespace);
  name ← string_from_vec name_ver;
  version ← module_version_from_vec ver;
  Ok (mkModuleInfo namespace name version).
End keys.

(** ** Lemmas *)

Section lemmas.
Context `{KeyCodecLaws}.

Lemma split_off_app {E} (a b : bytes) : split_off (E:=E) (List.length a) (a ++ b) = Ok (a, b).
Proof.
  unfold split_off. rewrite decide_False by (rewrite length_app; lia). by rewrite take_app_length, drop_app_length.
Qed.
Lemma split_length {E} n (b : bytes) : split_off (E:=E) 2 (be16 n ++ b) = Ok (be16 n, b).
Proof. change 2%nat with (List.length (be16 n)). apply split_off_app. Qed.
Lemma parse_be16 n : Z.of_nat n < 65536 → parse_length (be16 n) = Ok n.
Proof. intros Hn. unfold parse_length. rewrite decide_True by done. by rewrite of_be16_be16. Qed.
Lemma as_bytes_inj s s' : as_bytes s = as_bytes s' → s = s'.
Proof. intros Hs. by rewrite <-(as_from_bytes s), <-(as_from_bytes s'), Hs. Qed.
Lemma be16_app_inj (a b x y : bytes) : short a → short b → be16 (List.length a) ++ a ++ x = be16 (List.length b) ++ b ++ y →
  a = b ∧ x = y.
Proof.
  unfold short. intros Ha Hb Heq. apply app_inj_1 in Heq as [Hl Heq]; [|done].
  apply (f_equal of_be16) in Hl. rewrite !of_be16_be16 in Hl by done. by apply app_inj_1 in Heq.
Qed.
(** Keys of as many elements, but for the last short, are equal element by element. *)
Lemma joined_key_inj ks ks' r r' : List.length ks = List.length ks' → Forall short ks → Forall short ks' →
  joined_key (ks ++ [r]) = joined_key (ks' ++ [r']) → ks = ks' ∧ r = r'.
Proof.
  intros Hlen Hks. revert ks' Hlen. induction Hks as [|k ks Hk Hks IH]; intros [|k' ks'] Hlen Hks' Heq; try done.
  { simpl in Heq. rewrite !joined_key_one in Heq. done. }
  apply Forall_cons in Hks' as [Hk' Hks']. simpl app in Heq.
  assert (∀ (l : list bytes) x, ∃ y z, l ++ [x] = y :: z) as Hcons by (intros [|? ?] ?; simpl; by eauto).
  destruct (Hcons ks r) as (a & l & Hl), (Hcons ks' r') as (a' & l' & Hl'). rewrite Hl, Hl' in Heq.
  rewrite !joined_key_cons in Heq by done. apply be16_app_inj in Heq as [-> Heq]; [|done..].
  destruct (IH ks') as [-> ->]; [by injection Hlen|done|rewrite Hl, Hl'; exact Heq|done].
Qed.
End lemmas.

Section module_keys.
Context `{KeyCodecLaws}.

Definition ascii_text (s : string) : Prop := Forall (λ c, (nat_of_ascii c < 128)%nat) (as_bytes s).
Lemma ascii_from_vec s : ascii_text s → string_from_vec (as_bytes s) = Ok s.
Proof. intros Hs. unfold string_from_vec. by rewrite from_utf8_ascii, as_from_bytes by done. Qed.
Lemma short_text s : slen s < 65536 → short (as_bytes s).
Proof. unfold short. by rewrite as_bytes_length. Qed.
Lemma valid_name_ascii s : validate_name s = Ok tt → ascii_text s ∧ slen s < 65536.
Proof.
  rewrite validate_name_Ok. unfold MAX_LENGTH. intros [Hl Hs]. split; [|lia].
  eapply Forall_impl; [by apply sall_bytes|]. intros c. unfold valid_name_char, is_ascii_lowercase, is_ascii_digit.
  rewrite !orb_true_iff, !andb_true_iff, !Nat.leb_le, bool_decide_eq_true.
  intros [[?|?]| ->]; [lia..|vm_compute; lia].
Qed.
Lemma module_info_key_shape m :
  module_info_key m = [as_bytes (mi_namespace m); as_bytes (mi_name m)] ++ [as_bytes (show_module_version (mi_version m))].
Proof. by destruct m as [? ? []]. Qed.
Lemma akey_trace id : trace_key (acc_trace id) = as_bytes <$> (akey id).1.
Proof.
  unfold trace_key, akey. destruct (acc_trace id) as [|l]; simpl; [done|].
  by rewrite fmap_app, fmap_replicate, length_fmap.
Qed.
Lemma akey_length id : List.length (akey id).1 = List.length (trace_key (acc_trace id)).
Proof. by rewrite akey_trace, length_fmap. Qed.
End module_keys.

(** The storage key of a module reads back as the module: of a module with a valid
    namespace, a name and a version of ASCII text shorter than two to the sixteen,
    the decoder of the joined key returns the same namespace and name, and the
    version, where the text "latest" is the latest version. *)
Theorem module_key_roundtrip `{KeyCodecLaws} (m : ModuleInfo) (Hns : validate_name (mi_namespace m) = Ok tt)
    (Hname : ascii_text (mi_name m)) (Hlen : slen (mi_name m) < 65536)
    (Hver : ascii_text (show_module_version (mi_version m))) :
  module_info_from_vec (joined_key (module_info_key m)) =
  Ok (mkModuleInfo (mi_namespace m) (mi_name m)
    (if decide (show_module_version (mi_version m) = "latest") then Latest else mi_version m)).
Proof.
  rewrite module_info_key_shape. cbn [app].
  destruct (valid_name_ascii _ Hns) as [Hans Hnl].
  rewrite !joined_key_cons, joined_key_one by by apply short_text.
  unfold module_info_from_vec.
  rewrite split_length. cbn [mbind outcome_bind]. rewrite parse_be16 by by apply short_text. cbn [mbind outcome_bind].
  rewrite split_off_app. cbn [mbind outcome_bind]. rewrite split_length. cbn [mbind outcome_bind].
  rewrite parse_be16 by by apply short_text. cbn [mbind outcome_bind]. rewrite split_off_app. cbn [mbind outcome_bind].
  unfold module_version_from_vec. rewrite !ascii_from_vec by done. cbn [mbind outcome_bind].
  unfold namespace_new. rewrite Hns. simpl. case_decide as Hl; [done|]. simpl.
  destruct m as [? ? []]; simpl in *; [done|done].
Qed.

(** C32. The keys of the model are those of the storage.  Two modules, with namespaces
    and names shorter than two to the sixteen, are stored under the same bytes
    exactly when the model has them under the same key: the same namespace and
    name, and versions of the same text, so the version "latest" is not told from
    the latest one.  Two account ids that pass their checks are stored under the
    same bytes exactly when their keys in the model are equal. *)
Theorem registry_keys_faithful `{KeyCodecLaws} :
  (∀ m m', slen (mi_namespace m) < 65536 → slen (mi_name m) < 65536 →
     slen (mi_namespace m') < 65536 → slen (mi_name m') < 65536 →
     joined_key (module_info_key m) = joined_key (module_info_key m') ↔ mkey m = mkey m') ∧
  (∀ id id', verify (acc_trace id) = Ok tt → verify (acc_trace id') = Ok tt →
     in_u 32 (acc_seq id) → in_u 32 (acc_seq id') →
     joined_key (account_id_key id) = joined_key (account_id_key id') ↔ akey id = akey id').
Proof.
  split.
  - intros m m' Hn Hm Hn' Hm'. rewrite !module_info_key_shape. split.
    + intros Heq. apply joined_key_inj in Heq as [Hk Hv]; [|done|by repeat constructor; apply short_text..].
      injection Hk as Hk1 Hk2. apply as_bytes_inj in Hk1, Hk2, Hv. unfold mkey. by rewrite Hk1, Hk2, Hv.
    + unfold mkey. by intros [= -> -> ->].
  - intros id id' Hv Hv' Hs Hs'. unfold account_id_key. split.
    + intros Heq. apply joined_key_inj in Heq as [Hk Hu];
        [|by rewrite !trace_key_length|by apply trace_key_short..].
      apply (f_equal u32_from_vec) in Hu. rewrite !u32_roundtrip in Hu by done. injection Hu as Hu.
      rewrite !akey_trace in Hk. apply list_fmap_eq_inj in Hk; [|exact as_bytes_inj].
      destruct id, id'. unfold akey in *. simpl in *. by rewrite Hk, Hu.
    + intros Heq. rewrite !akey_trace, Heq. injection Heq as _ ->. done.
Qed.

Module ModuleKeyExamples.
#[local] Existing Instance AccountIdExamples.codec_ref.
#[local] Existing Instance AccountIdExamples.codec_ref_laws.
Definition dex : ModuleInfo := mkModuleInfo "abstract" "dex" (Version "1.0.0").
Lemma module_key_roundtrip_witness :
  validate_name "abstract" = Ok tt ∧ module_info_from_vec (joined_key (module_info_key dex)) = Ok dex.
Proof.
  split; [reflexivity|]. refine (module_key_roundtrip dex eq_refl _ _ _); [..|vm_compute; reflexivity|];
    unfold ascii_text; repeat (constructor; [vm_compute; lia|]); constructor.
Defined.
Definition named_latest : ModuleInfo := mkModuleInfo "abstract" "dex" (Version "latest").
Definition latest : ModuleInfo := mkModuleInfo "abstract" "dex" Latest.
Definition first : AccountId := mkAccountId Local 1.
Definition second : AccountId := mkAccountId Local 2.
Lemma registry_keys_faithful_witness :
  joined_key (module_info_key named_latest) = joined_key (module_info_key latest) ∧
  joined_key (account_id_key first) ≠ joined_key (account_id_key second).
Proof.
  split.
  - by apply (proj1 registry_keys_faithful named_latest latest); vm_compute.
  - intros Heq. apply (proj2 registry_keys_faithful first second) in Heq; [discriminate Heq|by vm_compute..].
Defined.
End ModuleKeyExamples.
