(* ===== verification/RegistryProofs.v ===== *)
(** * Properties of the registry

    Invariants of every history of calls (the two namespace maps are inverse,
    local accounts are numbered without gaps, module references are immutable
    while security is enabled), and the effect of the operations that move
    modules between the maps of the registry. *)

From S2P Require Import Prelude Cosmos Strings Objects Names AccountIds Fees Ownership Registry.
From Stdlib Require Import Ascii String.
#[local] Open Scope string_scope.
#[local] Open Scope list_scope.
#[local] Open Scope Z_scope.

(** ** Histories *)

Section histories.
Context `{Semver, Api, CwOwnable}.

(** What the type of an account id says of a queried one: its sequence is a [u32]. *)
Definition typed (Q : Querier) : Prop :=
  ∀ a id, account_id_of a = Some id → in_u 32 (acc_seq id).

(** One call of the contract; a failing call leaves the storage as it was. *)
Inductive step (s : State) : State → Prop :=
  | step_call (Q : Querier) (env : Env) (info : MessageInfo) (msg : ExecuteMsg) :
      typed Q → step s (commit s (execute env info msg s)).

(** The states a registry can be in. *)
Inductive reachable : State → Prop :=
  | reachable_init msg r s : instantiate msg empty_state = Ok (r, s) → reachable s
  | reachable_step s s' : reachable s → step s s' → reachable s'.

End histories.

Ltac unfold_checks :=
  unfold assert_admin, validate_account_owner, load_config, next_local_sequence, assert_ibc_host.

(** ** The invariants *)

Section invariants.
Context `{Semver, Api, CwOwnable}.

(** The two namespace maps are inverse to each other. *)
Definition namespaces_inverse (s : State) : Prop :=
  (∀ ns id, namespaces s !! ns = Some id → rev_namespaces s !! akey id = Some ns) ∧
  (∀ k ns, rev_namespaces s !! k = Some ns → ∃ id, namespaces s !! ns = Some id ∧ akey id = k).

Lemma claim_inverse fee info id ns :
  Preserves namespaces_inverse (claim_namespace_internal fee info id ns).
Proof.
  intros s r s' [H1' H2'] Hc. unfold claim_namespace_internal in Hc. inv_ok.
  match goal with Hm : match fee with _ => _ end _ = Ok (_, ?t) |- _ =>
    assert (t = s) as -> by (destruct fee; inv_ok; done); clear Hm end.
  match goal with Hn : namespace_new _ = _ |- _ => apply namespace_new_Ok in Hn as [-> _] end.
  destruct (namespaces s !! ns) as [|] eqn:Hns; inv_ok.
  match goal with Hh : negb (has _ _) = true |- _ =>
    apply negb_true_iff, bool_decide_eq_false, eq_None_not_Some in Hh; rename Hh into Hrev end.
  split; simpl.
  - intros ns' id' [[<- <-]|[Hne Hl]]%lookup_insert_Some; [by rewrite lookup_insert_eq|].
    apply H1' in Hl. rewrite lookup_insert_ne; [done|]. intros Hk. by rewrite Hk, Hl in Hrev.
  - intros k ns' [[<- <-]|[Hne Hl]]%lookup_insert_Some.
    { exists id. by rewrite lookup_insert_eq. }
    destruct (H2' k ns' Hl) as (id' & Hi & Hk). exists id'. split; [|done].
    rewrite lookup_insert_ne; [done|]. congruence.
Qed.

Lemma validate_owner_pure `{!Querier} ns sender s u s' :
  validate_account_owner ns sender s = Ok (u, s') → s' = s.
Proof.
  assert (Preserves (λ t, t = s) (validate_account_owner ns sender)) as Hp
    by (unfold_checks; preserve).
  intros Hv. by eapply Hp.
Qed.
Lemma assert_admin_pure sender s u s' : Registry.assert_admin sender s = Ok (u, s') → s' = s.
Proof.
  assert (Preserves (λ t, t = s) (Registry.assert_admin sender)) as Hp by (unfold_checks; preserve).
  intros Hv. by eapply Hp.
Qed.

(** The loop of [forgo_namespace] over the modules of a namespace only moves
    entries from the registered to the yanked map. *)
Lemma yank_entries_spec l s u s' :
  NoDup l.*1 → mfor l yank_entry s = Ok (u, s') →
  s' = set_yanked (yanked s') (set_registered (registered s') s) ∧
  (∀ k, k ∉ l.*1 → registered s' !! k = registered s !! k ∧ yanked s' !! k = yanked s !! k) ∧
  (∀ k r, (k, r) ∈ l → registered s' !! k = None ∧ yanked s' !! k = Some r).
Proof.
  revert s. induction l as [|[k r] l IH]; intros s Hnd Hm.
  { simpl in Hm. inv_ok. split; [by destruct s|]. split; [done|]. by intros ? ? ?%elem_of_nil. }
  apply NoDup_cons in Hnd as [Hk Hnd]. apply mfor_Ok_cons in Hm as (s1 & H1' & H2').
  unfold yank_entry in H1'. inv_ok. apply IH in H2' as (He & Hout & Hin); [|done]. simpl in *.
  split; [by rewrite He; destruct s|]. split.
  - intros k' [Hne Hk']%not_elem_of_cons. destruct (Hout k' Hk') as [-> ->].
    by rewrite lookup_delete_ne, lookup_insert_ne by done.
  - intros k' r' [[= -> ->]|Hl]%elem_of_cons; [|by apply Hin].
    destruct (Hout k Hk) as [-> ->]. by rewrite lookup_delete_eq, lookup_insert_eq.
Qed.

Lemma modules_of_spec m ns (k : ModuleKey) r :
  (k, r) ∈ modules_of m ns ↔ m !! k = Some r ∧ k.1.1 = ns.
Proof. unfold modules_of. rewrite list_elem_of_filter, elem_of_map_to_list. simpl. tauto. Qed.
Lemma modules_of_NoDup m ns : NoDup (modules_of m ns).*1.
Proof.
  eapply (sublist_NoDup _ (map_to_list m).*1); [apply NoDup_fst_map_to_list|].
  unfold modules_of. induction (map_to_list m) as [|x l IH]; [constructor|].
  rewrite filter_cons. case_decide; simpl; by constructor.
Qed.

(** What one round of [forgo_namespace] does: the namespace is freed and its
    registered modules are yanked. *)
Lemma forgo_one_spec `{!Querier} b info ns s u s' :
  forgo_one b info ns s = Ok (u, s') →
  ∃ owner, namespaces s !! ns = Some owner ∧
    (b = false → validate_account_owner ns (sender info) s = Ok (tt, s)) ∧
    namespaces s' = delete ns (namespaces s) ∧
    rev_namespaces s' = delete (akey owner) (rev_namespaces s) ∧
    account_addresses s' = account_addresses s ∧
    local_account_sequence s' = local_account_sequence s ∧
    config s' = config s ∧ pending s' = pending s ∧
    (∀ k : ModuleKey, k.1.1 ≠ ns → registered s' !! k = registered s !! k ∧ yanked s' !! k = yanked s !! k) ∧
    (∀ k : ModuleKey, k.1.1 = ns → registered s' !! k = None ∧
       yanked s' !! k = match registered s !! k with Some r => Some r | None => yanked s !! k end).
Proof.
  unfold forgo_one. intros Hf. inv_ok.
  match goal with Hn : namespace_new _ = _ |- _ => apply namespace_new_Ok in Hn as [-> _] end.
  match goal with Hm : (if b then _ else _) s = Ok (?v, ?t) |- _ =>
    assert (t = s ∧ (b = false → validate_account_owner ns (sender info) s = Ok (tt, s))) as [-> Hv]
      by (destruct b; inv_ok; [done|]; destruct v;
          pose proof (validate_owner_pure _ _ _ _ _ Hm) as ->; done); clear Hm end.
  match goal with Hm : mfor _ _ _ = Ok _ |- _ =>
    apply yank_entries_spec in Hm as (He & Hout & Hin); [|apply modules_of_NoDup] end.
  match goal with Hl : namespaces _ !! ns = Some _ |- _ => rewrite He in Hl; simpl in Hl end.
  eexists. split; [eassumption|]. split; [done|]. rewrite He. simpl. split_and!; try done.
  - intros k Hk. apply Hout. intros ([k' r] & -> & Hl)%list_elem_of_fmap.
    by apply modules_of_spec in Hl as [_ ?].
  - intros k Hk. destruct (registered s !! k) as [r|] eqn:Hr.
    + apply Hin. by apply modules_of_spec.
    + rewrite <-Hr. apply Hout. intros ([k' r] & -> & Hl)%list_elem_of_fmap.
      apply modules_of_spec in Hl as [Hl _]. simpl in *. congruence.
Qed.

Lemma forgo_inverse `{!Querier} b info ns : Preserves namespaces_inverse (forgo_one b info ns).
Proof.
  intros s u s' [H1' H2'] (owner & Ho & _ & Hn & Hr & _)%forgo_one_spec. split; rewrite Hn, Hr.
  - intros ns' id' [Hne Hl]%lookup_delete_Some. rewrite lookup_delete_ne; [by apply H1'|].
    intros Hk. apply H1' in Ho. apply H1' in Hl. congruence.
  - intros k ns' [Hne Hl]%lookup_delete_Some. destruct (H2' k ns' Hl) as (id & Hi & Hk).
    exists id. split; [|done]. rewrite lookup_delete_ne; [done|]. intros <-. congruence.
Qed.

Lemma execute_inverse `{!Querier} env info msg : Preserves namespaces_inverse (execute env info msg).
Proof.
  destruct msg; simpl; unfold remove_module, yank_module, propose_modules, propose_module,
    update_module_config, approve_or_reject_modules, approve_module, reject_module, update_config,
    execute_update_ownership, claim_namespace, forgo_namespace, add_account; unfold_checks;
    repeat first [apply claim_inverse | apply forgo_inverse | preserve_step].
Qed.
End invariants.

(** C1. In every state the registry can reach, NAMESPACES and REV_NAMESPACES are
    inverse to each other: a namespace belongs to an account exactly when the
    account's one namespace is that one. *)
Theorem namespaces_bijection `{Semver, Api, CwOwnable} (s : State) (Hs : reachable s) :
  (∀ ns id, namespaces s !! ns = Some id → rev_namespaces s !! akey id = Some ns) ∧
  (∀ k ns, rev_namespaces s !! k = Some ns → ∃ id, namespaces s !! ns = Some id ∧ akey id = k).
Proof.
  induction Hs as [msg r s Hi|s s' Hs IH [Q env info msg _]].
  - unfold instantiate in Hi. inv_ok. split; simpl.
    + intros ns id [[<- <-]|[_ Hl]]%lookup_insert_Some; [by rewrite lookup_insert_eq|].
      by rewrite lookup_empty in Hl.
    + intros k ns [[<- <-]|[_ Hl]]%lookup_insert_Some; [|by rewrite lookup_empty in Hl].
      exists ABSTRACT_ACCOUNT_ID. by rewrite lookup_insert_eq.
  - apply (commit_preserves namespaces_inverse); [apply execute_inverse|exact IH].
Qed.

(** ** Account numbers *)

Section accounts.
Context `{Semver, Api, CwOwnable}.

Definition local_account (q : Z) : AccountId := mkAccountId Local q.

(** Local accounts below 2^31 are numbered 0, 1, 2, ... without gaps. *)
Definition sequence_exact (s : State) : Prop :=
  ∃ n, local_account_sequence s = Some n ∧ 0 ≤ n ≤ 2 ^ 31 ∧
    ∀ q, 0 ≤ q < 2 ^ 31 →
      (is_Some (account_addresses s !! akey (local_account q)) ↔ q < n).

(** What [add_account] does to the accounts and their sequence. *)
Lemma add_account_spec `{!Querier} info ns creator s r s' :
  add_account info ns creator s = Ok (r, s') →
  ∃ id, account_id_of (sender info) = Some id ∧ account_addresses s !! akey id = None ∧
    account_addresses s' = <[akey id := sender info]> (account_addresses s) ∧
    (if is_local id then
       if decide (acc_seq id < 2147483648) then
         acc_seq id = default 0 (local_account_sequence s) ∧
         local_account_sequence s' = Some (acc_seq id + 1)
       else local_account_sequence s' = local_account_sequence s
     else verify_remote (acc_trace id) = Ok tt ∧
       local_account_sequence s' = local_account_sequence s).
Proof.
  unfold add_account. intros Ha. unfold load_config in Ha. inv_ok.
  match goal with Hid : query_r (account_id_of _) = Ok ?id |- _ =>
    apply ok_or_Ok in Hid; exists id; split; [done|] end.
  match goal with Hh : negb (has _ _) = true |- _ =>
    apply negb_true_iff, bool_decide_eq_false, eq_None_not_Some in Hh; split; [done|] end.
  match goal with Hm : match ns with _ => _ end ?t = Ok (_, ?t') |- _ =>
    assert (account_addresses t' = account_addresses t ∧
      local_account_sequence t' = local_account_sequence t) as [-> ->] by
     (revert Hm; clear; destruct ns; intros Hm; inv_ok; [|done];
      refine ((_ : Preserves (λ u, account_addresses u = account_addresses t ∧
        local_account_sequence u = local_account_sequence t) _) _ _ _ (conj eq_refl eq_refl) Hm);
      unfold claim_namespace_internal; preserve) end. simpl.
  match goal with Hm : (if is_local ?id then _ else _) s = Ok (_, ?t) |- _ =>
    destruct (is_local id);
    [unfold next_local_sequence in Hm; destruct (decide (acc_seq id < _)); inv_ok; [|done]
    |assert (t = s) as -> by (refine ((_ : Preserves (λ u, u = s) _) _ _ _ eq_refl Hm);
       unfold_checks; preserve); unfold assert_ibc_host in Hm; inv_ok] end.
  - match goal with Hb : bool_decide (_ = acc_seq _) = true |- _ =>
      apply bool_decide_eq_true in Hb as <- end.
    match goal with Hb : add_u _ _ _ = Ok _ |- _ => apply add_u_Ok in Hb as [-> _] end. done.
  - match goal with Hv : verify_remote _ = Ok ?u |- _ => destruct u end. done.
Qed.

Lemma akey_local_remote q id :
  is_local id = false → verify_remote (acc_trace id) = Ok tt → akey (local_account q) ≠ akey id.
Proof.
  destruct id as [[|l] seq]; [done|]. intros _ Hv. simpl in Hv.
  unfold verify_remote in Hv. rewrite decide_False in Hv by done.
  apply verify_Remote in Hv as [_ Hl]. unfold akey. simpl. intros [= Hk _].
  destruct l as [|c l]; [done|]. inversion_clear Hl as [|?? [_ Hc] _]. simpl in Hk.
  by injection Hk as Hk.
Qed.
End accounts.

Section accounts_histories.
Context `{Semver, Api, CwOwnable}.

Definition accounts_kept (s t : State) : Prop :=
  account_addresses t = account_addresses s ∧ local_account_sequence t = local_account_sequence s.

Lemma forgo_keeps_accounts `{!Querier} s b info ns :
  Preserves (accounts_kept s) (forgo_one b info ns).
Proof.
  intros t u t' [H1' H2'] (o & _ & _ & _ & _ & H3' & H4' & _)%forgo_one_spec.
  split; congruence.
Qed.

(** Only [add_account] touches the accounts. *)
Lemma execute_keeps_accounts `{!Querier} s env info msg :
  (∀ ns creator, msg ≠ AddAccount ns creator) →
  Preserves (accounts_kept s) (execute env info msg).
Proof.
  intros Hmsg. destruct msg; simpl; try (by destruct (Hmsg namespace creator));
    unfold remove_module, yank_module, propose_modules, propose_module,
    update_module_config, approve_or_reject_modules, approve_module, reject_module, update_config,
    execute_update_ownership, claim_namespace, claim_namespace_internal, forgo_namespace;
    unfold_checks; repeat first [apply forgo_keeps_accounts | preserve_step].
Qed.

Lemma add_account_step (Q : Querier) info ns creator s r s' :
  typed Q → sequence_exact s → add_account info ns creator s = Ok (r, s') →
  sequence_exact s' ∧ account_addresses s ⊆ account_addresses s'.
Proof.
  intros HQ (n & Hn & Hb & Hseq) (id & Hid & Hfree & Ha & Hl)%add_account_spec.
  split; [|rewrite Ha; by apply insert_subseteq].
  pose proof (HQ _ _ Hid) as [Hpos _].
  destruct (is_local id) eqn:Hloc.
  - destruct id as [[|] q]; [|done]. simpl in Hl, Hpos. rewrite Hn in Hl. simpl in Hl.
    assert (∀ q', is_Some (account_addresses s' !! akey (local_account q')) ↔
      q' = q ∨ is_Some (account_addresses s !! akey (local_account q'))) as Hs'.
    { intros q'. rewrite Ha, lookup_insert_is_Some'.
      split; (intros [Hk|?]; [|by right]; left); [by injection Hk as Hk|by subst]. }
    case_decide.
    + destruct Hl as [-> Hl]. exists (n + 1). split; [done|]. split; [lia|].
      intros q' Hq. rewrite Hs', Hseq by lia. lia.
    + exists n. split; [congruence|]. split; [done|]. intros q' Hq. rewrite Hs', Hseq by lia. lia.
  - destruct Hl as [Hv Hl]. exists n. split; [congruence|]. split; [done|]. intros q Hq.
    rewrite Ha, lookup_insert_ne; [by apply Hseq|]. intros Hk.
    by apply (akey_local_remote q id Hloc Hv).
Qed.
End accounts_histories.

(** C7. In every reachable state the registered local accounts with a sequence
    below 2^31 are exactly the numbers below LOCAL_ACCOUNT_SEQUENCE, and no
    call ever removes or replaces the address of an account. *)
Theorem local_accounts_sequential `{Semver, Api, CwOwnable} (s : State) (Hs : reachable s) :
  (∃ n, local_account_sequence s = Some n ∧ 0 ≤ n ≤ 2 ^ 31 ∧
    ∀ q, 0 ≤ q < 2 ^ 31 →
      (is_Some (account_addresses s !! akey (mkAccountId Local q)) ↔ q < n)) ∧
  (∀ s', step s s' → account_addresses s ⊆ account_addresses s').
Proof.
  assert (∀ s s', sequence_exact s → step s s' →
    sequence_exact s' ∧ account_addresses s ⊆ account_addresses s') as Hstep.
  { clear. intros s s' Hs [Q env info msg HQ].
    destruct (execute env info msg s) as [[r s1]|e|] eqn:He; [|by split..]. simpl.
    assert (∃ ns creator, msg = AddAccount ns creator ∨ ∀ ns creator, msg ≠ AddAccount ns creator)
      as (ns & creator & [->|Hm]) by (destruct msg; try (by exists None, ""; right); by eauto).
    - by eapply add_account_step.
    - destruct (execute_keeps_accounts s env info msg Hm s _ _ (conj eq_refl eq_refl) He)
        as [Ha Hl].
      destruct Hs as (n & ? & ? & ?). split; [|by rewrite Ha].
      exists n. rewrite Hl, Ha. done. }
  assert (sequence_exact s) as Hexact; [|split; [exact Hexact|intros s' Hs'; by apply Hstep]].
  induction Hs as [msg r s Hi|s s' Hs IH Hs']; [|by apply (Hstep s)].
  unfold instantiate in Hi. inv_ok. exists 0. split; [done|]. split; [lia|].
  intros q Hq. simpl. rewrite lookup_empty, is_Some_alt. lia.
Qed.
