(* ===== verification/RegistryLifecycle.v ===== *)
(** * The life cycle of a module under security

    While security is enabled, a module version is in at most one of the
    pending, registered and yanked maps, moves between them only along the
    edges below, and keeps the reference it was proposed with. *)

From S2P Require Import Prelude Cosmos Strings Objects Names AccountIds Fees Ownership Registry RegistryProofs.
From Stdlib Require Import Ascii String.
#[local] Open Scope string_scope.
#[local] Open Scope list_scope.
#[local] Open Scope Z_scope.

Section lifecycle.
Context `{Semver, Api, CwOwnable}.

(** Where a module version is recorded, and with which reference. *)
Definition status (s : State) (k : ModuleKey) : option (ModuleStatus * ModuleReference) :=
  match pending s !! k, registered s !! k, yanked s !! k with
  | Some r, _, _ => Some (Pending, r)
  | None, Some r, _ => Some (Registered, r)
  | None, None, Some r => Some (Yanked, r)
  | None, None, None => None
  end.
(** No module version is in two of the maps. *)
Definition exclusive (s : State) : Prop :=
  ∀ k, (pending s !! k = None ∨ registered s !! k = None) ∧
       (pending s !! k = None ∨ yanked s !! k = None) ∧
       (registered s !! k = None ∨ yanked s !! k = None).
Definition secure (s : State) : Prop :=
  (∃ c, config s = Some c ∧ security_enabled c = true) ∧ exclusive s.

(** The edges a call may move the module version with key [k] along. *)
Inductive edge (msg : ExecuteMsg) (k : ModuleKey) :
    option (ModuleStatus * ModuleReference) → option (ModuleStatus * ModuleReference) → Prop :=
  | edge_stay o : edge msg k o o
  | edge_propose modules m r : msg = ProposeModules modules → (m, r) ∈ modules → mkey m = k →
      edge msg k None (Some (Pending, r))
  | edge_approve approves rejects m r : msg = ApproveOrRejectModules approves rejects →
      m ∈ approves → mkey m = k → edge msg k (Some (Pending, r)) (Some (Registered, r))
  | edge_reject approves rejects m r : msg = ApproveOrRejectModules approves rejects →
      m ∈ rejects → mkey m = k → edge msg k (Some (Pending, r)) None
  | edge_yank m r : msg = YankModule m → mkey m = k →
      edge msg k (Some (Registered, r)) (Some (Yanked, r))
  | edge_forgo l r : msg = ForgoNamespace l → k.1.1 ∈ l →
      edge msg k (Some (Registered, r)) (Some (Yanked, r))
  | edge_remove m st r : msg = RemoveModule m → mkey m = k → st ≠ Pending →
      edge msg k (Some (st, r)) None.

(** The three maps are what [status] and [exclusive] speak of. *)
Definition maps_kept (s t : State) : Prop :=
  config t = config s ∧ pending t = pending s ∧ registered t = registered s ∧ yanked t = yanked s.
Lemma maps_kept_refl s : maps_kept s s.
Proof. done. Qed.
Lemma maps_kept_status s t : maps_kept s t → exclusive s → exclusive t ∧ ∀ k, status t k = status s k.
Proof. unfold exclusive, status. intros (_ & -> & -> & ->). done. Qed.

Lemma propose_module_status `{!Querier} cfg info m r s u s' :
  security_enabled cfg = true → exclusive s → propose_module cfg info (m, r) s = Ok (u, s') →
  config s' = config s ∧ exclusive s' ∧ status s (mkey m) = None ∧
  ∀ k, status s' k = if decide (k = mkey m) then Some (Pending, r) else status s k.
Proof.
  intros Hsec Hex Hp. unfold propose_module in Hp. rewrite Hsec in Hp. simpl in Hp. inv_ok.
  match goal with Hm : (if decide _ then _ else _) s = Ok (_, ?t) |- _ =>
    assert (t = s) as -> by (revert Hm; clear; case_decide; intros Hm;
      [by eapply assert_admin_pure|by eapply validate_owner_pure]); clear Hm end.
  match goal with Hm : match r with _ => _ end s = Ok (_, ?t) |- _ =>
    assert (t = s) as -> by (revert Hm; clear; destruct r; intros Hm; inv_ok; done); clear Hm end.
  match goal with Hh : negb (_ || _ || _) = true |- _ =>
    rewrite negb_true_iff, !orb_false_iff in Hh; unfold has in Hh;
    rewrite !bool_decide_eq_false, <-!eq_None_not_Some in Hh; destruct Hh as [[Hn1 Hn2] Hn3] end.
  split; [done|]. unfold exclusive, status in *. split; [|split].
  - intros k. simpl. destruct (decide (k = mkey m)) as [->|Hk].
    + rewrite lookup_insert_eq. tauto.
    + by rewrite lookup_insert_ne by done.
  - by rewrite Hn1, Hn2, Hn3.
  - intros k. simpl. case_decide as Hk; [subst; by rewrite lookup_insert_eq|].
    by rewrite lookup_insert_ne by done.
Qed.

Lemma approve_module_status m s u s' :
  exclusive s → approve_module m s = Ok (u, s') →
  config s' = config s ∧ exclusive s' ∧
  ∃ r, status s (mkey m) = Some (Pending, r) ∧
    ∀ k, status s' k = if decide (k = mkey m) then Some (Registered, r) else status s k.
Proof.
  intros Hex Ha. unfold approve_module in Ha. inv_ok.
  match goal with Hm : match ?r with _ => _ end ?t = Ok (_, ?t'), Hp : _ = Some ?r |- _ =>
    assert (maps_kept t t') as (Hc & Hp' & Hr' & Hy')
      by (unfold maps_kept; clear Hp; destruct r; inv_ok; done); clear Hm;
    rename Hp into Hpend; rename r into mod_ref end. simpl in *.
  destruct (Hex (mkey m)) as (Hx1 & Hx2 & Hx3). rewrite Hpend in Hx1, Hx2.
  destruct Hx1 as [?|Hx1], Hx2 as [?|Hx2]; try done.
  split; [done|]. split.
  - intros k. rewrite Hp', Hr', Hy'. destruct (decide (k = mkey m)) as [->|Hk].
    + rewrite lookup_delete_eq, Hx2. tauto.
    + rewrite lookup_delete_ne, lookup_insert_ne by done. apply Hex.
  - exists mod_ref. unfold status. rewrite Hpend, Hp', Hr', Hy'. split; [done|]. intros k.
    case_decide as Hk; [subst; by rewrite lookup_delete_eq, lookup_insert_eq|].
    by rewrite lookup_delete_ne, lookup_insert_ne by done.
Qed.

Lemma reject_module_status m s u s' :
  exclusive s → reject_module m s = Ok (u, s') →
  config s' = config s ∧ exclusive s' ∧
  ∃ r, status s (mkey m) = Some (Pending, r) ∧
    ∀ k, status s' k = if decide (k = mkey m) then None else status s k.
Proof.
  intros Hex Ha. unfold reject_module in Ha. inv_ok.
  match goal with Hh : has _ _ = true |- _ => apply bool_decide_eq_true in Hh as [r Hpend] end.
  destruct (Hex (mkey m)) as (Hx1 & Hx2 & Hx3). rewrite Hpend in Hx1, Hx2.
  destruct Hx1 as [?|Hx1], Hx2 as [?|Hx2]; try done.
  split; [done|]. split.
  - intros k. simpl. destruct (decide (k = mkey m)) as [->|Hk].
    + rewrite lookup_delete_eq. tauto.
    + rewrite lookup_delete_ne by done. apply Hex.
  - exists r. unfold status. rewrite Hpend. split; [done|]. intros k. simpl.
    case_decide as Hk; [subst; by rewrite lookup_delete_eq, Hx1, Hx2|].
    by rewrite lookup_delete_ne by done.
Qed.

(** The loops over the modules of a message. *)
Lemma propose_loop `{!Querier} cfg info l s u s' :
  security_enabled cfg = true → exclusive s → mfor l (propose_module cfg info) s = Ok (u, s') →
  config s' = config s ∧ exclusive s' ∧
  ∀ k, edge (ProposeModules l) k (status s k) (status s' k).
Proof.
  intros Hsec. enough (exclusive s → mfor l (propose_module cfg info) s = Ok (u, s') →
    config s' = config s ∧ exclusive s' ∧
    ∀ k, status s' k = status s k ∨ (status s k = None ∧ ∃ m r, (m, r) ∈ l ∧ mkey m = k ∧
      status s' k = Some (Pending, r))) as Hgen.
  { intros Hex Hl. destruct (Hgen Hex Hl) as (Hc & Hx & Hk). split; [done|]. split; [done|].
    intros k. destruct (Hk k) as [->|(-> & m & r & Hin & Hm & ->)]; [constructor|].
    by eapply edge_propose. }
  revert s. induction l as [|[m r] l IH]; intros s Hex Hl.
  - simpl in Hl. inv_ok. split_and!; auto.
  - apply mfor_Ok_cons in Hl as (s1 & Hp & Hl).
    apply propose_module_status in Hp as (Hc1 & Hx1 & Hn & Hs1); [|done..].
    destruct (IH s1 Hx1 Hl) as (Hc & Hx & Hs). split; [congruence|]. split; [done|].
    intros k. destruct (Hs k) as [Hk|(Hk & m' & r' & Hin & Hm & Hk')]; rewrite Hs1 in Hk.
    + case_decide as Hkm; [|by left]. subst k. right. split; [done|].
      exists m, r. split_and!; [left|done..].
    + case_decide as Hkm; [done|]. right. split; [done|]. exists m', r'.
      split_and!; [by right|done..].
Qed.

Lemma approve_loop l s u s' :
  exclusive s → mfor l approve_module s = Ok (u, s') →
  config s' = config s ∧ exclusive s' ∧
  ∀ k, status s' k = status s k ∨
    ∃ m r, m ∈ l ∧ mkey m = k ∧ status s k = Some (Pending, r) ∧ status s' k = Some (Registered, r).
Proof.
  revert s. induction l as [|m l IH]; intros s Hex Hl.
  - simpl in Hl. inv_ok. split_and!; auto.
  - apply mfor_Ok_cons in Hl as (s1 & Hp & Hl).
    apply approve_module_status in Hp as (Hc1 & Hx1 & r & Hr & Hs1); [|done].
    destruct (IH s1 Hx1 Hl) as (Hc & Hx & Hs). split; [congruence|]. split; [done|].
    intros k. destruct (Hs k) as [Hk|(m' & r' & Hin & Hm & Hk & Hk')]; rewrite Hs1 in Hk.
    + case_decide as Hkm; [|by left]. subst k. right. exists m, r. split_and!; [left|done..].
    + case_decide as Hkm; [done|]. right. exists m', r'. split_and!; [by right|done..].
Qed.

Lemma reject_loop l s u s' :
  exclusive s → mfor l reject_module s = Ok (u, s') →
  config s' = config s ∧ exclusive s' ∧
  ∀ k, status s' k = status s k ∨
    ∃ m r, m ∈ l ∧ mkey m = k ∧ status s k = Some (Pending, r) ∧ status s' k = None.
Proof.
  revert s. induction l as [|m l IH]; intros s Hex Hl.
  - simpl in Hl. inv_ok. split_and!; auto.
  - apply mfor_Ok_cons in Hl as (s1 & Hp & Hl).
    apply reject_module_status in Hp as (Hc1 & Hx1 & r & Hr & Hs1); [|done].
    destruct (IH s1 Hx1 Hl) as (Hc & Hx & Hs). split; [congruence|]. split; [done|].
    intros k. destruct (Hs k) as [Hk|(m' & r' & Hin & Hm & Hk & Hk')]; rewrite Hs1 in Hk.
    + case_decide as Hkm; [|by left]. subst k. right. exists m, r. split_and!; [left|done..].
    + case_decide as Hkm; [done|]. right. exists m', r'. split_and!; [by right|done..].
Qed.

Lemma remove_module_status info m s r s' :
  exclusive s → remove_module info m s = Ok (r, s') →
  config s' = config s ∧ exclusive s' ∧ ∀ k, edge (RemoveModule m) k (status s k) (status s' k).
Proof.
  intros Hex Hr. unfold remove_module in Hr. inv_ok.
  match goal with Ha : Registry.assert_admin _ _ = _ |- _ => apply assert_admin_pure in Ha as -> end.
  match goal with Hm : (if decide _ then _ else _) ?t = Ok (_, ?t') |- _ =>
    assert (maps_kept t t') as (Hc2 & Hp2 & Hr2 & Hy2)
      by (unfold maps_kept; case_decide; inv_ok; done); clear Hm end.
  match goal with Hm : match ?r with _ => _ end ?t = Ok (_, ?t') |- _ =>
    assert (maps_kept t t') as (Hc1 & Hp1 & Hr1 & Hy1)
      by (unfold maps_kept; repeat case_match; inv_ok; done); clear Hm end. simpl in *.
  split; [congruence|]. unfold exclusive, status in *. rewrite Hp2, Hr2, Hy2, Hp1, Hr1, Hy1. split.
  - intros k. destruct (Hex k) as (Hx1 & Hx2 & Hx3).
    destruct (decide (k = mkey m)) as [->|Hk]; [rewrite !lookup_delete_eq; tauto|].
    by rewrite !lookup_delete_ne by done.
  - intros k. destruct (Hex k) as (Hx1 & Hx2 & Hx3).
    destruct (decide (k = mkey m)) as [->|Hk]; [|rewrite !lookup_delete_ne by done; constructor].
    rewrite !lookup_delete_eq. destruct (pending s !! mkey m) eqn:Hpm; [constructor|].
    destruct (registered s !! mkey m); [by eapply edge_remove|].
    destruct (yanked s !! mkey m); [by eapply edge_remove|constructor].
Qed.

Lemma yank_module_status `{!Querier} info m s r s' :
  exclusive s → yank_module info m s = Ok (r, s') →
  config s' = config s ∧ exclusive s' ∧ ∀ k, edge (YankModule m) k (status s k) (status s' k).
Proof.
  intros Hex Hr. unfold yank_module in Hr. inv_ok.
  match goal with Ha : validate_account_owner _ _ _ = _ |- _ => apply validate_owner_pure in Ha as -> end.
  match goal with Hm : registered s !! _ = Some ?x |- _ => rename Hm into Hreg; rename x into mod_ref end.
  split; [done|]. destruct (Hex (mkey m)) as (Hm1 & Hm2 & Hm3). rewrite Hreg in Hm1, Hm3.
  destruct Hm1 as [Hm1|?], Hm3 as [?|Hm3]; try done.
  unfold exclusive, status in *. simpl. split.
  - intros k. destruct (decide (k = mkey m)) as [->|Hk].
    + rewrite lookup_delete_eq, Hm1. tauto.
    + rewrite lookup_delete_ne, lookup_insert_ne by done. apply Hex.
  - intros k. destruct (decide (k = mkey m)) as [->|Hk].
    + rewrite lookup_delete_eq, lookup_insert_eq, Hm1, Hreg. by eapply edge_yank.
    + rewrite lookup_delete_ne, lookup_insert_ne by done. constructor.
Qed.

Lemma forgo_one_status `{!Querier} b info ns s u s' :
  exclusive s → forgo_one b info ns s = Ok (u, s') →
  config s' = config s ∧ exclusive s' ∧
  ∀ k, status s' k =
    if decide (k.1.1 = ns) then
      match status s k with Some (Registered, r) => Some (Yanked, r) | o => o end
    else status s k.
Proof.
  intros Hex (o & _ & _ & _ & _ & _ & _ & Hc & Hp & Hout & Hin)%forgo_one_spec.
  split; [done|]. unfold exclusive, status in *. rewrite Hp. split.
  - intros k. destruct (Hex k) as (Hx1 & Hx2 & Hx3). destruct (decide (k.1.1 = ns)) as [Hk|Hk].
    + destruct (Hin k Hk) as [-> ->].
      destruct (registered s !! k), (yanked s !! k), (pending s !! k); naive_solver.
    + by destruct (Hout k Hk) as [-> ->].
  - intros k. destruct (Hex k) as (Hx1 & Hx2 & Hx3). case_decide as Hk.
    + destruct (Hin k Hk) as [-> ->].
      destruct (pending s !! k), (registered s !! k), (yanked s !! k); done.
    + by destruct (Hout k Hk) as [-> ->].
Qed.

Lemma forgo_loop `{!Querier} b info l s u s' :
  exclusive s → mfor l (forgo_one b info) s = Ok (u, s') →
  config s' = config s ∧ exclusive s' ∧ ∀ k, edge (ForgoNamespace l) k (status s k) (status s' k).
Proof.
  enough (exclusive s → mfor l (forgo_one b info) s = Ok (u, s') →
    config s' = config s ∧ exclusive s' ∧
    ∀ k, status s' k = status s k ∨
      ∃ r, k.1.1 ∈ l ∧ status s k = Some (Registered, r) ∧ status s' k = Some (Yanked, r)) as Hgen.
  { intros Hex Hl. destruct (Hgen Hex Hl) as (Hc & Hx & Hk). split; [done|]. split; [done|].
    intros k. destruct (Hk k) as [->|(r & Hin & -> & ->)]; [constructor|by eapply edge_forgo]. }
  revert s. induction l as [|ns l IH]; intros s Hex Hl.
  - simpl in Hl. inv_ok. split_and!; auto.
  - apply mfor_Ok_cons in Hl as (s1 & Hp & Hl).
    apply forgo_one_status in Hp as (Hc1 & Hx1 & Hs1); [|done].
    destruct (IH s1 Hx1 Hl) as (Hc & Hx & Hs). split; [congruence|]. split; [done|].
    intros k. destruct (Hs k) as [Hk|(r & Hin & Hk & Hk')]; rewrite Hs1 in Hk.
    + case_decide as Hkm; [|by left]. destruct (status s k) as [[[] r]|] eqn:Hsk; [|by left..].
      right. exists r. split_and!; [rewrite Hkm; left|done..].
    + right. exists r. split; [by right|]. split; [|done].
      case_decide; [|done]. by destruct (status s k) as [[[] ?]|].
Qed.

(** Every other call leaves the maps alone, and only [update_config] writes
    the configuration. *)
Lemma other_calls_keep_maps `{!Querier} s env info msg :
  match msg with
  | ProposeModules _ | ApproveOrRejectModules _ _ | RemoveModule _ | YankModule _
  | ForgoNamespace _ | UpdateConfig _ _ => False
  | _ => True
  end → Preserves (maps_kept s) (execute env info msg).
Proof.
  destruct msg; simpl; try done; intros _;
    unfold update_module_config, execute_update_ownership, claim_namespace, add_account,
      claim_namespace_internal; unfold_checks; preserve.
Qed.

(** A call that does not switch security off. *)
Definition keeps_security (msg : ExecuteMsg) : Prop :=
  match msg with UpdateConfig (Some false) _ => False | _ => True end.

(** The states of a registry that was always secure. *)
Inductive secure_reachable : State → Prop :=
  | secure_init msg r s : init_security_enabled msg ≠ Some false →
      instantiate msg empty_state = Ok (r, s) → secure_reachable s
  | secure_call (Q : Querier) s env info msg r s' : secure_reachable s → keeps_security msg →
      execute env info msg s = Ok (r, s') → secure_reachable s'.

Lemma secure_execute (Q : Querier) env info msg s r s' :
  secure s → keeps_security msg → execute env info msg s = Ok (r, s') →
  secure s' ∧ ∀ k, edge msg k (status s k) (status s' k).
Proof.
  intros [(c & Hc & Hsec) Hex] Hmsg He.
  assert (∀ t, config t = config s → exclusive t → secure t) as Hsecure.
  { intros t Ht ?. split; [|done]. exists c. by rewrite Ht. }
  assert (maps_kept s s' → secure s' ∧ ∀ k, edge msg k (status s k) (status s' k)) as Hkept.
  { intros Hk. destruct (maps_kept_status _ _ Hk Hex) as [? Hst]. destruct Hk as (? & _).
    split; [by apply Hsecure|]. intros k. rewrite Hst. constructor. }
  destruct msg;
    try (apply Hkept; refine (other_calls_keep_maps s env info _ _ s r s' (maps_kept_refl s) He); exact I);
    simpl in He.
  - apply remove_module_status in He as (? & ? & ?); auto.
  - apply yank_module_status in He as (? & ? & ?); auto.
  - unfold propose_modules, load_config in He. inv_ok.
    match goal with Hl : mfor _ _ _ = _ |- _ => apply propose_loop in Hl as (? & ? & ?) end;
      auto; congruence.
  - unfold approve_or_reject_modules in He. inv_ok.
    match goal with Ha : Registry.assert_admin _ _ = _ |- _ => apply assert_admin_pure in Ha as -> end.
    match goal with Hl : mfor approves _ _ = _ |- _ => apply approve_loop in Hl as (Hc1 & Hx1 & Hs1);
      [|done] end.
    match goal with Hl : mfor rejects _ _ = _ |- _ => apply reject_loop in Hl as (Hc2 & Hx2 & Hs2);
      [|done] end.
    split; [apply Hsecure; [congruence|done]|]. intros k.
    destruct (Hs2 k) as [->|(m & r' & Hin & Hm & Hk & ->)].
    + destruct (Hs1 k) as [->|(m & r' & Hin & Hm & -> & ->)]; [constructor|by eapply edge_approve].
    + destruct (Hs1 k) as [Hk1|(m' & r'' & _ & _ & _ & Hk1)]; rewrite Hk1 in Hk; [|done].
      rewrite Hk. by eapply edge_reject.
  - unfold forgo_namespace in He. inv_ok.
    match goal with Hl : mfor _ _ _ = _ |- _ => apply forgo_loop in Hl as (? & ? & ?) end; auto.
  - unfold update_config, load_config in He. inv_ok.
    match goal with Ha : Registry.assert_admin _ _ = _ |- _ => apply assert_admin_pure in Ha as -> end.
    split; [|intros k; constructor]. split; [|exact Hex]. simpl. eexists. split; [done|].
    repeat case_match; subst; simpl in *; try done; congruence.
Qed.
End lifecycle.

