(* ===== verification/RegistryAccess.v ===== *)
(** * Who may call what on the registry, and what queries answer

    The authorisation every successful call implies, the effect of forgoing
    namespaces, and the answer of the module query for the latest version. *)

From S2P Require Import Prelude Cosmos Strings Objects Names AccountIds Fees Ownership Registry RegistryProofs RegistryLifecycle.
From Stdlib Require Import Ascii String.
#[local] Open Scope string_scope.
#[local] Open Scope list_scope.
#[local] Open Scope Z_scope.

Section access.
Context `{Semver, Api, CwOwnable}.

(** The administrator of the contract. *)
Definition is_contract_admin (s : State) (sender : Addr) : Prop :=
  ∃ o, cw_ownership s = Some o ∧ cw_assert_owner o sender = Ok tt.
(** An account and the owner of that account. *)
Definition acts_for `{!Querier} (account sender : Addr) : Prop :=
  ∃ o, ownership_of account = Some o ∧ owner_address (owner o) = Some sender.
(** The account a namespace belongs to, or the owner of that account. *)
Definition owns_namespace `{!Querier} (s : State) (ns : Namespace) (sender : Addr) : Prop :=
  ∃ id account, namespaces s !! ns = Some id ∧ account_addresses s !! akey id = Some account ∧
    (sender = account ∨ acts_for account sender).
Definition may_publish `{!Querier} (s : State) (ns : Namespace) (sender : Addr) : Prop :=
  if decide (ns = ABSTRACT_NAMESPACE) then is_contract_admin s sender
  else owns_namespace s ns sender.

Lemma assert_admin_Ok s sender u t :
  Registry.assert_admin sender s = Ok (u, t) → is_contract_admin s sender ∧ t = s.
Proof.
  intros Ha. pose proof (assert_admin_pure _ _ _ _ Ha) as ->. split; [|done].
  unfold Registry.assert_admin in Ha. inv_ok. destruct u.
  destruct (cw_ownership s) as [o|] eqn:Ho; inv_ok. by exists o.
Qed.

Lemma query_account_owner_Ok `{!Querier} account id a :
  query_account_owner account id = Ok a ↔
  ∃ o, ownership_of account = Some o ∧ owner_address (owner o) = Some a.
Proof.
  unfold query_account_owner, query_ownership, query_r. rewrite obind_Ok.
  setoid_rewrite map_err_Ok. setoid_rewrite ok_or_Ok. done.
Qed.

Lemma validate_owner_Ok `{!Querier} s ns sender u t :
  validate_account_owner ns sender s = Ok (u, t) → owns_namespace s ns sender ∧ t = s.
Proof.
  intros Hv. pose proof (validate_owner_pure _ _ _ _ _ Hv) as ->. split; [|done].
  unfold validate_account_owner in Hv. inv_ok.
  match goal with Hn : namespaces s !! ns = Some ?id |- _ => exists id end.
  match goal with Ha : account_addresses s !! _ = Some ?a |- _ => exists a end.
  split; [done|]. split; [done|]. case_decide as Hd; [|by left].
  right. inv_ok. match goal with Hq : query_account_owner _ _ = Ok ?a |- _ =>
    apply query_account_owner_Ok in Hq; destruct (decide (sender = a)) as [->|] end; [done|].
  case_decide; inv_ok; done.
Qed.

Lemma publish_check_Ok `{!Querier} s (ns : Namespace) sender u t :
  (if decide (ns = ABSTRACT_NAMESPACE) then Registry.assert_admin sender
   else validate_account_owner ns sender) s = Ok (u, t) → may_publish s ns sender ∧ t = s.
Proof. unfold may_publish. destruct (decide (ns = ABSTRACT_NAMESPACE)); [apply assert_admin_Ok|apply validate_owner_Ok]. Qed.

(** What the authorisation checks read. *)
Definition same_access (s t : State) : Prop :=
  cw_ownership t = cw_ownership s ∧ namespaces t = namespaces s ∧
  account_addresses t = account_addresses s.

Lemma propose_module_access `{!Querier} cfg info m r s u t :
  propose_module cfg info (m, r) s = Ok (u, t) →
  may_publish s (mi_namespace m) (sender info) ∧ module_info_validate m = Ok tt ∧
  mi_version m ≠ Latest ∧ same_access s t.
Proof.
  intros Hp.
  assert (same_access s t) as Hsame.
  { assert (Preserves (same_access s) (propose_module cfg info (m, r))) as HP
      by (unfold propose_module; unfold_checks; preserve). by eapply HP. }
  unfold propose_module in Hp. inv_ok.
  match goal with Hm : (if decide _ then _ else _) s = Ok _ |- _ => apply publish_check_Ok in Hm as [? ->] end.
  split; [done|]. split; [|split; [|done]].
  - by match goal with Hv : module_info_validate m = Ok ?u |- _ => destruct u end.
  - intros Hl. match goal with Hv : assert_version_variant m = _ |- _ =>
      unfold assert_version_variant in Hv; by rewrite Hl in Hv end.
Qed.

Lemma propose_loop_access `{!Querier} cfg info l s u t :
  mfor l (propose_module cfg info) s = Ok (u, t) →
  Forall (λ '(m, _), may_publish s (mi_namespace m) (sender info) ∧
    module_info_validate m = Ok tt ∧ mi_version m ≠ Latest) l.
Proof.
  revert s. induction l as [|[m r] l IH]; intros s Hl; [constructor|].
  apply mfor_Ok_cons in Hl as (s1 & Hp & Hl).
  apply propose_module_access in Hp as (Hm & Hv & Hl' & (Ho & Hn & Ha)). constructor; [done|].
  eapply Forall_impl; [by apply (IH s1)|]. intros [m' r'] (Hp' & ?). split; [|done].
  revert Hp'. unfold may_publish, is_contract_admin, owns_namespace. by rewrite Ho, Hn, Ha.
Qed.

Lemma forgo_loop_access `{!Querier} b info l s u t :
  mfor l (forgo_one b info) s = Ok (u, t) →
  NoDup l ∧ Forall (λ ns, is_Some (namespaces s !! ns) ∧
    (b = false → owns_namespace s ns (sender info))) l.
Proof.
  revert s. induction l as [|ns l IH]; intros s Hl; [split; constructor|].
  apply mfor_Ok_cons in Hl as (s1 & Hp & Hl).
  apply forgo_one_spec in Hp as (o & Ho & Hv & Hn & _ & Ha & _).
  destruct (IH s1 Hl) as [Hnd Hf].
  rewrite Forall_forall in Hf. split.
  - constructor; [|done]. intros [Hs _]%Hf. rewrite Hn, lookup_delete_eq in Hs. by destruct Hs.
  - constructor.
    + split; [by eexists|]. intros Hb. by destruct (validate_owner_Ok _ _ _ _ _ (Hv Hb)).
    + rewrite Forall_forall. intros ns' [Hs Hown]%Hf.
      assert (∀ id, namespaces s1 !! ns' = Some id → namespaces s !! ns' = Some id) as Hsub.
      { intros id. rewrite Hn, lookup_delete_Some. tauto. }
      split; [destruct Hs as [id ?]; eauto|]. intros Hb. destruct (Hown Hb) as (id & a & ? & ? & ?).
      exists id, a. rewrite <-Ha. auto.
Qed.

End access.

Section forgo.
Context `{Semver, Api, CwOwnable}.

(** The modules of a list of namespaces. *)
Definition in_namespaces (l : list string) (k : ModuleKey) : Prop := k.1.1 ∈ l.
#[export] Instance in_namespaces_dec l k : Decision (in_namespaces l k).
Proof. unfold in_namespaces. apply _. Defined.

Lemma forgo_loop_effect `{!Querier} b info l s u t :
  mfor l (forgo_one b info) s = Ok (u, t) →
  (∀ ns, namespaces t !! ns = if decide (ns ∈ l) then None else namespaces s !! ns) ∧
  (∀ k : ModuleKey,
     if decide (k.1.1 ∈ l) then
       registered t !! k = None ∧
       yanked t !! k = match registered s !! k with Some r => Some r | None => yanked s !! k end
     else registered t !! k = registered s !! k ∧ yanked t !! k = yanked s !! k).
Proof.
  revert s. induction l as [|ns l IH]; intros s Hl.
  { simpl in Hl. inv_ok. by split; intros ?. }
  apply mfor_Ok_cons in Hl as (s1 & Hp & Hl).
  apply forgo_one_spec in Hp as (o & Ho & _ & Hn & _ & _ & _ & _ & _ & Hout & Hin).
  destruct (IH s1 Hl) as [IHn IHk].
  assert (∀ x, x ∈ ns :: l ↔ x = ns ∨ x ∈ l) as Hcons by (intros x; apply elem_of_cons). split.
  - intros ns'. rewrite IHn, Hn, (decide_ext _ _ _ _ (Hcons ns')).
    destruct (decide (ns' ∈ l)) as [Hl'|Hl'], (decide (ns' = ns ∨ ns' ∈ l)) as [Hd|Hd];
      [done|tauto| |rewrite lookup_delete_ne; [done|intros ->; tauto]].
    destruct Hd as [->|]; [by rewrite lookup_delete_eq|done].
  - intros k. specialize (IHk k). destruct (decide (k.1.1 = ns)) as [Hk|Hk].
    + destruct (Hin k Hk) as [Hr Hy]. rewrite Hr, Hy in IHk.
      rewrite decide_True by (apply Hcons; by left). by destruct (decide (k.1.1 ∈ l)).
    + destruct (Hout k Hk) as [Hr Hy]. rewrite Hr, Hy in IHk. destruct (decide (k.1.1 ∈ l)).
      * by rewrite decide_True by (apply Hcons; by right).
      * by rewrite decide_False by (rewrite Hcons; tauto).
Qed.

(** Forgoing namespaces frees exactly those namespaces, and yanks exactly
    the registered modules of them, each with the reference it had; the modules
    of every other namespace stay as they are. *)
Theorem forgo_namespace_yanks (Q : Querier) (info : MessageInfo) (l : list string)
    (s s' : State) (r : Response RegistryMsg) (Hcall : forgo_namespace info l s = Ok (r, s')) :
  (∀ ns, namespaces s' !! ns = if decide (ns ∈ l) then None else namespaces s !! ns) ∧
  (∀ k : ModuleKey,
     if decide (in_namespaces l k) then
       registered s' !! k = None ∧
       yanked s' !! k = match registered s !! k with Some r => Some r | None => yanked s !! k end
     else registered s' !! k = registered s !! k ∧ yanked s' !! k = yanked s !! k).
Proof. unfold forgo_namespace in Hcall. inv_ok. by eapply forgo_loop_effect. Qed.
End forgo.

Section latest.
Context `{Semver, Api, CwOwnable}.

(** Every recorded module has a version that parses. *)
Definition versions_parse (s : State) : Prop :=
  ∀ (k : ModuleKey) r,
    pending s !! k = Some r ∨ registered s !! k = Some r ∨ yanked s !! k = Some r →
    is_Some (parse_version k.2).

Lemma propose_module_parse `{!Querier} cfg info m : Preserves versions_parse (propose_module cfg info m).
Proof.
  destruct m as [m r]. intros s u t Hs Hp. unfold propose_module in Hp. inv_ok.
  match goal with Hm : (if decide _ then _ else _) s = Ok _ |- _ => apply publish_check_Ok in Hm as [_ ->] end.
  match goal with Hm : match r with _ => _ end s = Ok (_, ?t) |- _ =>
    assert (t = s) as -> by (revert Hm; clear; destruct r; intros Hm; inv_ok; done); clear Hm end.
  match goal with Hv : assert_version_variant m = Ok _ |- _ =>
    unfold assert_version_variant in Hv; destruct (mi_version m) as [|v] eqn:Hver; inv_ok end.
  assert (is_Some (parse_version (mkey m).2)) as Hkey by (simpl; rewrite Hver; by eexists).
  destruct (security_enabled cfg); inv_ok.
  - intros k r' [Hk|Hk]; simpl in Hk; [|apply (Hs k r'); tauto].
    apply lookup_insert_Some in Hk as [[<- _]|[_ Hk]]; [done|]. apply (Hs k r'); tauto.
  - match goal with Hm : match r with _ => _ end ?t1 = Ok (_, ?t2) |- _ =>
      assert (maps_kept t1 t2) as (_ & Hp2 & Hr2 & Hy2)
        by (revert Hm; clear; intros Hm; unfold maps_kept; destruct r; inv_ok; done) end.
    intros k r'. rewrite Hp2, Hr2, Hy2. simpl. intros [Hk|[Hk|Hk]]; try (apply (Hs k r'); tauto).
    apply lookup_insert_Some in Hk as [[<- _]|[_ Hk]]; [done|]. apply (Hs k r'); tauto.
Qed.

Lemma approve_module_parse m : Preserves versions_parse (approve_module m).
Proof.
  intros s u t Hs Ha. unfold approve_module in Ha. inv_ok.
  match goal with Hm : match ?r with _ => _ end ?t1 = Ok (_, ?t2), Hp : _ = Some ?r |- _ =>
    assert (maps_kept t1 t2) as (_ & Hp2 & Hr2 & Hy2)
      by (revert Hm; clear; intros Hm; unfold maps_kept; destruct r; inv_ok; done) end.
  intros k r'. rewrite Hp2, Hr2, Hy2. simpl. intros [Hk|[Hk|Hk]].
  - apply lookup_delete_Some in Hk as [_ Hk]. apply (Hs k r'); tauto.
  - apply lookup_insert_Some in Hk as [[<- _]|[_ Hk]]; eapply (Hs _ _); eauto.
  - apply (Hs k r'); tauto.
Qed.

Lemma yank_module_parse `{!Querier} info m : Preserves versions_parse (yank_module info m).
Proof.
  intros s u t Hs Ha. unfold yank_module in Ha. inv_ok.
  match goal with Hv : validate_account_owner _ _ _ = _ |- _ => apply validate_owner_pure in Hv as -> end.
  intros k r'. simpl. intros [Hk|[Hk|Hk]].
  - eapply Hs; eauto.
  - apply lookup_delete_Some in Hk as [_ Hk]. eapply Hs; eauto.
  - apply lookup_insert_Some in Hk as [[<- _]|[_ Hk]]; eapply (Hs _ _); eauto.
Qed.

Lemma forgo_one_parse `{!Querier} b info ns : Preserves versions_parse (forgo_one b info ns).
Proof.
  intros s u t Hs (o & _ & _ & _ & _ & _ & _ & _ & Hp & Hout & Hin)%forgo_one_spec.
  intros k r'. rewrite Hp. destruct (decide (k.1.1 = ns)) as [Hk|Hk].
  - destruct (Hin k Hk) as [-> ->]. intros [?|[?|Hy]]; [eapply Hs; eauto|done|].
    destruct (registered s !! k) eqn:Hr; simplify_eq; eapply Hs; eauto.
  - destruct (Hout k Hk) as [-> ->]. apply Hs.
Qed.

Lemma delete_parse (m : ModuleInfo) :
  Preserves versions_parse (modify (E:=RegistryError) (λ s, set_pending (delete (mkey m) (pending s)) s)).
Proof.
  apply preserves_modify. intros s Hs k r. simpl. rewrite lookup_delete_Some.
  intros Hk. apply (Hs k r). tauto.
Qed.
Lemma remove_parse (m : ModuleInfo) :
  Preserves versions_parse (modify (E:=RegistryError) (λ s, set_registered (delete (mkey m) (registered s)) s)) ∧
  Preserves versions_parse (modify (E:=RegistryError) (λ s, set_yanked (delete (mkey m) (yanked s)) s)).
Proof.
  split; apply preserves_modify; intros s Hs k r; simpl; rewrite lookup_delete_Some;
    intros Hk; apply (Hs k r); tauto.
Qed.

Lemma execute_parse `{!Querier} env info msg : Preserves versions_parse (execute env info msg).
Proof.
  destruct msg; simpl; try apply yank_module_parse;
    unfold remove_module, propose_modules, update_module_config, approve_or_reject_modules,
      reject_module, update_config, execute_update_ownership, claim_namespace, forgo_namespace,
      add_account, claim_namespace_internal; unfold_checks;
    repeat first [apply propose_module_parse | apply approve_module_parse | apply forgo_one_parse
                 | apply delete_parse | apply remove_parse | preserve_step].
Qed.

Lemma reachable_parse s : reachable s → versions_parse s.
Proof.
  induction 1 as [msg r s Hi|s s' Hs IH [Q env info msg _]].
  - unfold instantiate in Hi. inv_ok. intros k r. simpl. rewrite !lookup_empty. naive_solver.
  - apply (commit_preserves versions_parse); [apply execute_parse|exact IH].
Qed.
End latest.

Section latest_query.
Context `{Semver, CwOwnable}.

(** A registered release of a module: a version that parses and has no
    pre-release part. *)
Definition release_of (s : State) (ns name v : string) (r : ModuleReference) : Prop :=
  registered s !! (ns, name, v) = Some r ∧
  ∃ parsed, parse_version v = Some parsed ∧ ver_release parsed = true.

Lemma versions_of_spec (m : gmap ModuleKey ModuleReference) ns name v r :
  (v, r) ∈ versions_of m ns name ↔ m !! ((ns, name, v) : ModuleKey) = Some r.
Proof.
  unfold versions_of. rewrite merge_sort_Permutation, list_elem_of_omap. split.
  - intros ([[[n a] v'] r'] & Hin & Hc). apply elem_of_map_to_list in Hin.
    case_decide as Hd; [|done]. destruct Hd as [-> ->]. by injection Hc as -> ->.
  - intros Hm. exists ((ns, name, v), r). split; [by apply elem_of_map_to_list|].
    by rewrite decide_True.
Qed.

Lemma versions_of_sorted (m : gmap ModuleKey ModuleReference) ns name :
  StronglySorted (λ x y : string * ModuleReference, String.le x.1 y.1) (versions_of m ns name).
Proof.
  apply Sorted_StronglySorted; [intros x y z; apply transitivity|].
  apply Sorted_merge_sort. intros x y. apply (base.total String.le).
Qed.

Lemma first_release_spec l :
  Forall (λ x, is_Some (parse_version x.1)) l →
  match first_release l with
  | Ok (Some (v, r)) => ∃ l1 l2, l = l1 ++ (v, r) :: l2 ∧
      (∃ p, parse_version v = Some p ∧ ver_release p = true) ∧
      Forall (λ x, ∃ p, parse_version x.1 = Some p ∧ ver_release p = false) l1
  | Ok None => Forall (λ x, ∃ p, parse_version x.1 = Some p ∧ ver_release p = false) l
  | _ => False
  end.
Proof.
  induction 1 as [|[v r] l [p Hp] Hl IH]; [constructor|]. simpl in *. rewrite Hp. cbn.
  destruct (ver_release p) eqn:Hr.
  - exists [], l. split; [done|]. split; [by exists p|constructor].
  - destruct (first_release l) as [[[v' r']|]|e|]; try done.
    + destruct IH as (l1 & l2 & -> & Hv & Hl1). exists ((v, r) :: l1), l2.
      split; [done|]. split; [done|]. constructor; [by exists p|done].
    + constructor; [by exists p|done].
Qed.

Lemma latest_version (s : State) ns name :
  Forall (λ x, is_Some (parse_version x.1)) (versions_of (registered s) ns name) →
  match first_release (reverse (versions_of (registered s) ns name)) with
  | Ok (Some (v, r)) => release_of s ns name v r ∧
      ∀ v' r', release_of s ns name v' r' → String.le v' v
  | Ok None => ∀ v r, ¬ release_of s ns name v r
  | _ => False
  end.
Proof.
  intros Hparse. pose proof (first_release_spec _ (proj2 (Forall_reverse _ _) Hparse)) as Hf.
  pose proof (versions_of_sorted (registered s) ns name) as Hsort.
  assert (∀ v r, release_of s ns name v r →
    (v, r) ∈ reverse (versions_of (registered s) ns name)) as Hin.
  { intros v r [Hm _]. apply elem_of_reverse. by apply versions_of_spec. }
  destruct (first_release _) as [[[v r]|]|e|]; try done.
  - destruct Hf as (l1 & l2 & Heq & Hv & Hl1).
    assert (versions_of (registered s) ns name = reverse l2 ++ (v, r) :: reverse l1) as Hrev.
    { rewrite <-(reverse_involutive (versions_of _ _ _)), Heq, reverse_app, reverse_cons.
      by rewrite <-app_assoc. }
    split.
    + split; [|done]. apply versions_of_spec. rewrite Hrev. apply elem_of_app. right. left.
    + intros v' r' Hr'. pose proof (Hin _ _ Hr') as Hi. rewrite Heq in Hi.
      apply elem_of_app in Hi as [Hi|Hi].
      * rewrite Forall_forall in Hl1. destruct (Hl1 _ Hi) as (p & Hp & Hpre).
        destruct Hr' as (_ & p' & Hp' & Hpre'). simpl in Hp. congruence.
      * apply elem_of_cons in Hi as [[= -> ->]|Hi]; [done|].
        rewrite Hrev in Hsort. apply StronglySorted_app in Hsort as (Hs' & _).
        apply (Hs' (v', r') (v, r)); [by apply elem_of_reverse|left].
  - intros v r Hr. rewrite Forall_forall in Hf. destruct (Hf _ (Hin v r Hr)) as (p & Hp & Hpre).
    destruct Hr as (_ & p' & Hp' & Hpre'). simpl in Hp. congruence.
Qed.
End latest_query.

(** In every reachable state the query for the latest version of a module
    never traps, and answers the release whose version text is the greatest in
    the order of strings, with its reference, or fails when no release of the
    module is registered.  The order is not the order of versions: 0.9.0 is
    answered although 0.10.0 is registered. *)
Theorem latest_is_greatest_text `{Semver, Api, CwOwnable} (s : State) (ns : Namespace) (name : string)
    (Hs : reachable s) :
  match query_one_module s (mkModuleInfo ns name Latest) with
  | Ok resp => ∃ v r,
      resp_module resp = mkModule (mkModuleInfo ns name (version_from_key v)) r ∧
      release_of s ns name v r ∧ ∀ v' r', release_of s ns name v' r' → String.le v' v
  | Err _ => ∀ v r, ¬ release_of s ns name v r
  | Panic => False
  end.
Proof.
  assert (Forall (λ x, is_Some (parse_version x.1)) (versions_of (registered s) ns name)) as Hp.
  { apply Forall_forall. intros [v r] Hin%versions_of_spec.
    apply (reachable_parse s Hs (ns, name, v) r). auto. }
  pose proof (latest_version s ns name Hp) as Hl. unfold query_one_module. simpl.
  destruct (first_release _) as [[[v r]|]|e|]; try done. cbn. eauto.
Qed.

Module RegistryExamples.
#[local] Existing Instance semver_ref.
#[local] Existing Instance api_ref.

(** An ownership cell with one fixed owner. *)
#[local] Instance ownable_ref : CwOwnable := {|
  ownable := string;
  cw_action := unit;
  cw_no_ownership := "";
  cw_initialize_owner := Some;
  cw_owner := Some;
  cw_assert_owner o a := if decide (o = a) then Ok tt else Err CwNotOwner;
  cw_update_ownership o _ _ _ := Ok o
|}.
Lemma ownable_ref_laws : CwOwnableLaws.
Proof.
  split. intros o a. simpl. case_decide; split; try done; congruence.
Qed.

(** The account of the framework, at "acc0", owned by "admin". *)
#[local] Instance chain : Querier := {|
  wasm_contract_info _ := Some (mkContractInfo 1 None);
  wasm_code_info _ := None;
  cw2_contract a := if decide (a = "acc0") then Some (mkContractVersion ACCOUNT "1.0.0") else None;
  account_id_of a := if decide (a = "acc0") then Some ABSTRACT_ACCOUNT_ID else None;
  module_data_of _ := None;
  ownership_of a := if decide (a = "acc0") then Some (mkOwnership (Monarchy "admin") None None) else None;
  nft_owner_of _ _ := None;
  calling_to_as_admin_of _ := None;
  registry_account_of _ _ := None
|}.
Lemma chain_typed : typed chain.
Proof.
  intros a id Ha. simpl in Ha. case_decide; [|done]. injection Ha as <-. by vm_compute.
Qed.

Definition env : Env := mkEnv (mkBlock 1 0 "juno-1") "registry".
Definition by_admin : MessageInfo := mkInfo "admin" [].
Definition account_module (v : string) : ModuleInfo := mkModuleInfo "abstract" "account" (Version v).
Definition proposal : list (ModuleInfo * ModuleReference) :=
  [(account_module "1.0.0", RefAccount 1); (mkModuleInfo "abstract" "dex" (Version "0.9.0"), RefApp 7);
   (mkModuleInfo "abstract" "dex" (Version "0.10.0"), RefApp 8)].
Definition calls : list (MessageInfo * ExecuteMsg) :=
  [(by_admin, ProposeModules proposal);
   (by_admin, ApproveOrRejectModules proposal.*1 []);
   (mkInfo "acc0" [], AddAccount None "")].
Definition run (s : State) (l : list (MessageInfo * ExecuteMsg)) : State :=
  foldl (λ s '(i, m), commit s (execute env i m s)) s l.
Definition init : State :=
  commit empty_state (instantiate (mkInstantiateMsg "admin" None None) empty_state).
Definition s3 : State := run init calls.

Lemma init_reachable : reachable init.
Proof. by eapply (reachable_init (mkInstantiateMsg "admin" None None)). Qed.
Lemma s3_reachable : reachable s3.
Proof.
  unfold s3, run, calls. cbn [foldl].
  do 3 (eapply reachable_step; [|apply (step_call _ chain), chain_typed]).
  apply init_reachable.
Qed.

Lemma namespaces_bijection_witness :
  namespaces s3 !! "abstract" = Some ABSTRACT_ACCOUNT_ID ∧
  rev_namespaces s3 !! akey ABSTRACT_ACCOUNT_ID = Some "abstract".
Proof.
  assert (namespaces s3 !! "abstract" = Some ABSTRACT_ACCOUNT_ID) as Hn by by vm_compute.
  split; [exact Hn|]. exact (proj1 (namespaces_bijection s3 s3_reachable) "abstract" _ Hn).
Defined.

Lemma local_accounts_sequential_witness :
  local_account_sequence s3 = Some 1 ∧
  ∃ n, local_account_sequence s3 = Some n ∧
    (is_Some (account_addresses s3 !! akey (mkAccountId Local 0)) ↔ 0 < n).
Proof.
  split; [vm_compute; reflexivity|].
  destruct (local_accounts_sequential s3 s3_reachable) as [(n & Hn & _ & Hq) _].
  exists n. split; [exact Hn|]. exact (Hq 0 (conj (Z.le_refl 0) eq_refl)).
Defined.

Lemma latest_is_greatest_text_witness :
  match query_one_module s3 (mkModuleInfo "abstract" "dex" Latest) with
  | Ok resp => resp_module resp = mkModule (mkModuleInfo "abstract" "dex" (Version "0.9.0")) (RefApp 7)
  | _ => False
  end ∧
  match query_one_module s3 (mkModuleInfo "abstract" "dex" Latest) with
  | Ok resp => ∃ v r, release_of s3 "abstract" "dex" v r
  | _ => False
  end.
Proof.
  split; [by vm_compute|].
  pose proof (latest_is_greatest_text s3 "abstract" "dex" s3_reachable) as Hl.
  assert (is_ok (query_one_module s3 (mkModuleInfo "abstract" "dex" Latest)) = true) as Hok
    by by vm_compute.
  destruct (query_one_module s3 (mkModuleInfo "abstract" "dex" Latest)) as [resp|e|]; try done.
  destruct Hl as (v & r & _ & Hr & _). by exists v, r.
Defined.

(** The registry after its modules were approved. *)
Definition s2 : State := run init (take 2 calls).
Definition yank_dex : ExecuteMsg := YankModule (mkModuleInfo "abstract" "dex" (Version "0.9.0")).
Definition forgo_all : ExecuteMsg := ForgoNamespace ["abstract"].

Lemma s3_secure : secure_reachable s3.
Proof.
  unfold s3, run, calls. cbn [foldl].
  assert (∀ s i m, secure_reachable s → keeps_security m →
    secure_reachable (commit s (execute env i m s))) as Hc.
  { intros s i m Hs Hm. destruct (execute env i m s) as [[r s']|e|] eqn:He; [|done..].
    by eapply secure_call. }
  do 3 (apply Hc; [|done]).
  by eapply (secure_init (mkInstantiateMsg "admin" None None)).
Qed.

(** The two calls succeed. *)
Lemma yank_dex_ok : is_ok (execute env by_admin yank_dex s3) = true.
Proof. vm_compute. reflexivity. Qed.
Lemma forgo_ok : is_ok (forgo_namespace by_admin ["abstract"] s3) = true.
Proof. vm_compute. reflexivity. Qed.
Lemma dex_moves :
  status s3 ("abstract", "dex", "0.9.0") = Some (Registered, RefApp 7) ∧
  status (commit s3 (execute env by_admin yank_dex s3)) ("abstract", "dex", "0.9.0")
  = Some (Yanked, RefApp 7).
Proof. split; vm_compute; reflexivity. Qed.



Lemma forgo_namespace_yanks_witness :
  ∃ r s', forgo_namespace by_admin ["abstract"] s3 = Ok (r, s') ∧ namespaces s' !! "abstract" = None.
Proof.
  pose proof forgo_ok as Hok.
  destruct (forgo_namespace by_admin ["abstract"] s3) as [[r s']|e|] eqn:He; [|discriminate Hok..].
  exists r, s'. split; [reflexivity|].
  destruct (forgo_namespace_yanks chain by_admin ["abstract"] s3 s' r He) as [Hn _].
  rewrite Hn. reflexivity.
Defined.
End RegistryExamples.
