(* ===== verification/Clients.v ===== *)
(** * Clients of the registry and the messages between the contracts

    objects/registry.rs, objects/module_factory.rs and objects/salt.rs of
    packages/abstract-std: how a contract finds the registry and the module
    factory and queries the registry, and the messages the framework's
    contracts send to each other.

    A query to a registry is answered by the registry's own handlers, run on
    the state the class [Registries] gives for an address: a registry seen by a
    call may be in any state.  A smart query whose handler traps is a failed
    query for the caller. *)

From S2P Require Import Prelude Cosmos Strings Objects Names AccountIds Fees Ownership Registry.
From Stdlib Require Import Ascii String.
#[local] Open Scope string_scope.
#[local] Open Scope list_scope.
#[local] Open Scope Z_scope.

(** ** Packages underneath *)

(** [sha2::Sha256] *)
Class Sha256 := { sha256 : string → string }.
(** [from_json::<serde_cw_value::Value>] succeeds. *)
Class Json := { is_json : string → bool }.

(** [cosmwasm_std::Coins], a set of coins with one amount per denomination. *)
Class CoinsOps := {
  coins : Type;
  coins_default : coins;
  coins_try_from : list Coin → option coins;
  coins_add : coins → Coin → option coins;
  coins_sub : coins → Coin → option coins;
  coins_into_vec : coins → list Coin;
  amount_of : string → coins → Z
}.
(** The documented behaviour of [Coins]: amounts are [Uint256], an addition
    fails on overflow, a subtraction when the coins do not hold the amount, and
    the conversion from a vector rejects duplicate denominations. *)
Class CoinsLaws `{CoinsOps} : Prop := {
  amount_of_nonneg d cs : 0 ≤ amount_of d cs;
  amount_of_default d : amount_of d coins_default = 0;
  amount_of_try_from l cs d : coins_try_from l = Some cs → amount_of d cs = total d l;
  amount_of_add cs c cs' d : coins_add cs c = Some cs' →
    amount_of d cs' = amount_of d cs + (if decide (d = denom c) then amount c else 0);
  amount_of_sub cs c cs' d : coins_sub cs c = Some cs' →
    amount_of d cs' = amount_of d cs - (if decide (d = denom c) then amount c else 0);
  amount_of_into_vec cs d : total d (coins_into_vec cs) = amount_of d cs
}.

Lemma total_app d (l k : list Coin) : total d (l ++ k) = total d l + total d k.
Proof. induction l as [|c l IH]; simpl; lia. Qed.

(** ** Salts (salt.rs) *)

Definition ABSTRACT_SALT : string := "abstract".
(** [generate_instantiate_salt] *)
Definition generate_instantiate_salt `{Sha256} (account_id : AccountId) : string :=
  sha256 (show_account_id account_id) +:+ ABSTRACT_SALT.

(** ** The registry as other contracts see it *)

Class Registries `{CwOwnable} := { registry_state : Addr → option Registry.State }.

Section registry_client.
Context `{Semver, Api, Instantiate2, CwOwnable, !Querier, !Registries}.

(** [RegistryContract::new] *)
Definition registry_new (abstract_code_id : Z) : outcome AbstractError Addr :=
  canon ← registry_address abstract_code_id;
  map_err AbsStd (ok_or (addr_humanize canon) (StdMsg "invalid address")).
(** [ModuleFactoryContract::new] *)
Definition module_factory_new (abstract_code_id : Z) : outcome AbstractError Addr :=
  canon ← module_factory_address abstract_code_id;
  map_err AbsStd (ok_or (addr_humanize canon) (StdMsg "invalid address")).
(** [AnsHost::new] *)
Definition ans_host_new (abstract_code_id : Z) : outcome AbstractError Addr :=
  canon ← ans_address abstract_code_id;
  map_err AbsStd (ok_or (addr_humanize canon) (StdMsg "invalid address")).

(** A raw query of a storage item of the registry. *)
Definition raw_query {A} (registry : Addr) (method_name : string) (f : Registry.State → A) :
    outcome RegistryQueryError A :=
  s ← ok_or (registry_state registry) (RqQueryFailed method_name); Ok (f s).
(** A smart query of the registry. *)
Definition smart_query {E A} (registry : Addr) (method_name : string)
    (f : Registry.State → outcome E A) : outcome RegistryQueryError A :=
  s ← ok_or (registry_state registry) (RqQueryFailed method_name);
  match f s with Ok a => Ok a | _ => Err (RqQueryFailed method_name) end.

Definition query_module_reference_raw (registry : Addr) (module_info : ModuleInfo) :
    outcome RegistryQueryError ModuleReference :=
  module_reference ← raw_query registry "query_module_reference_raw"
    (λ s, registered s !! mkey module_info);
  ok_or module_reference (RqModuleNotFound module_info).
Definition query_modules_configs (registry : Addr) (infos : list ModuleInfo) :
    outcome RegistryQueryError (list ModuleResponse) :=
  smart_query registry "query_modules_configs" (λ s, handle_modules_query s infos).
(** [swap_remove(0)] *)
Definition first_response {E A} (l : list A) : outcome E A :=
  match l with x :: _ => Ok x | [] => Panic end.
(** [RegistryContract::query_module], [query_config] *)
Definition registry_query_module (registry : Addr) (module_info : ModuleInfo) :
    outcome RegistryQueryError Module_ :=
  l ← query_modules_configs registry [module_info]; r ← first_response l; Ok (resp_module r).
Definition query_config (registry : Addr) (module_info : ModuleInfo) :
    outcome RegistryQueryError ModuleConfiguration :=
  l ← query_modules_configs registry [module_info]; r ← first_response l; Ok (resp_config r).
Definition query_namespace (registry : Addr) (namespace : Namespace) :
    outcome RegistryQueryError NamespaceResponse :=
  smart_query registry "query_namespace" (λ s, handle_namespace_query s namespace).
Definition query_namespace_raw (registry : Addr) (namespace : Namespace) :
    outcome RegistryQueryError (option AccountId) :=
  raw_query registry "query_namespace_raw" (λ s, namespaces s !! namespace).
Definition query_namespaces (registry : Addr) (accounts : list AccountId) :
    outcome RegistryQueryError (list (Namespace * AccountId)) :=
  raw_query registry "query_namespaces" (λ s, handle_namespaces_query s accounts).
Definition query_standalone_info_raw (registry : Addr) (code_id : Z) :
    outcome RegistryQueryError ModuleInfo :=
  module_info ← raw_query registry "query_standalone_info_raw" (λ s, standalone_infos s !! code_id);
  ok_or module_info (RqStandaloneNotFound code_id).
Definition query_service_info_raw (registry : Addr) (service_addr : Addr) :
    outcome RegistryQueryError ModuleInfo :=
  module_info ← raw_query registry "query_service_info_raw" (λ s, service_infos s !! service_addr);
  ok_or module_info (RqServiceNotFound service_addr).
Definition unchecked_account_id (maybe_core_contract_addr : Addr) :
    outcome RegistryQueryError AccountId :=
  ok_or (account_id_of maybe_core_contract_addr) (RqFailedToQueryAccountId maybe_core_contract_addr).
(** [RegistryContract::account] *)
Definition registry_account (registry : Addr) (account_id : AccountId) :
    outcome RegistryQueryError Addr :=
  maybe_account ← raw_query registry "account" (λ s, account_addresses s !! akey account_id);
  ok_or maybe_account (RqUnknownAccountId account_id).
(** [RegistryContract::account_id] *)
Definition registry_account_id (registry : Addr) (maybe_account_addr : Addr) :
    outcome RegistryQueryError AccountId :=
  self_reported_account_id ← unchecked_account_id maybe_account_addr;
  account ← registry_account registry self_reported_account_id;
  if decide (account ≠ maybe_account_addr) then Err (RqFailedToQueryAccountId maybe_account_addr)
  else Ok self_reported_account_id.
Definition query_namespace_registration_fee (registry : Addr) :
    outcome RegistryQueryError (option Coin) :=
  c ← raw_query registry "namespace_registration_fee" config;
  c ← ok_or c (RqQueryFailed "namespace_registration_fee");
  Ok (namespace_registration_fee c).
Definition assert_account (registry : Addr) (maybe_account : Addr) :
    outcome RegistryQueryError Addr :=
  account_id ← unchecked_account_id maybe_account;
  account ← registry_account registry account_id;
  if decide (account ≠ maybe_account) then Err (RqNotAccount maybe_account account_id)
  else Ok account.
(** [LOCAL_ACCOUNT_SEQUENCE.query], [ACCOUNT_ADDRESSES.query] *)
Definition query_local_account_sequence (registry : Addr) : outcome StdError Z :=
  s ← query_r (registry_state registry); query_r (local_account_sequence s).
Definition query_account_address (registry : Addr) (account_id : AccountId) :
    outcome StdError (option Addr) :=
  s ← query_r (registry_state registry); Ok (account_addresses s !! akey account_id).
End registry_client.

(** ** Messages *)

(** [ModuleInstallConfig] and [FactoryModuleInstallConfig]; a [Binary] is the
    text it encodes. *)
Record ModuleInstallConfig := mkInstall { mic_module : ModuleInfo; mic_init_msg : option string }.
Record FactoryModuleInstallConfig := mkFactoryInstall {
  fmic_module : ModuleInfo;
  fmic_init_msg : option string
}.
Inductive UpdateSubAccountAction : Type := UnregisterSubAccount (id : Z) | RegisterSubAccount (id : Z).

(** [account::InstantiateMsg]; without the [xion] feature the authenticator is
    never read. *)
Record AccountInstantiateMsg := mkAccountInit {
  init_code_id : Z;
  init_owner : option (GovernanceDetails string);
  init_account_id : option AccountId;
  init_namespace : option string;
  init_install_modules : list ModuleInstallConfig;
  init_name : option string;
  init_description : option string;
  init_link : option string
}.

Section messages.
Context `{CwOwnable}.

(** The JSON body of a message: one of the messages the framework itself
    builds, or the bytes a caller supplied. *)
Inductive Body : Type :=
  | Raw (b : string)
  | ToRegistry (m : Registry.ExecuteMsg)
  | ToSubAccountOwner (a : UpdateSubAccountAction)
  | ToModuleFactory (modules : list FactoryModuleInstallConfig) (salt : string)
  | ToAdapterAuthorized (to_add to_remove : list string)
  | ToNewAccount (m : AccountInstantiateMsg)
  | ToNewApp (account : Addr) (module : string)
  | EmptyMsg.

(** [StakingMsg], [DistributionMsg], of the chain *)
Inductive StakingMsg : Type :=
  | Delegate (validator : string) (delegated : Coin)
  | Undelegate (validator : string) (undelegated : Coin)
  | Redelegate (src_validator dst_validator : string) (redelegated : Coin).
Inductive DistributionMsg : Type :=
  | SetWithdrawAddress (withdraw_address : string)
  | WithdrawDelegatorReward (validator : string)
  | FundCommunityPool (pool_amount : list Coin).
(** [GovMsg], with the decimals of weighted options as text, and [IbcTimeout] *)
Inductive VoteOption : Type := VoteYes | VoteNo | VoteAbstain | VoteNoWithVeto.
Inductive GovMsg : Type :=
  | GovVote (proposal_id : Z) (option_ : VoteOption)
  | GovVoteWeighted (proposal_id : Z) (options : list (VoteOption * string)).
Record IbcTimeout := mkIbcTimeout { timeout_block : option (Z * Z); timeout_timestamp : option Z }.

(** [CosmosMsg]: the messages the framework builds, and any other one. *)
Inductive CosmosMsg : Type :=
  | WasmExecute (contract_addr : Addr) (msg : Body) (msg_funds : list Coin)
  | WasmInstantiate2 (new_admin : option Addr) (code_id : Z) (label : string) (msg : Body)
      (msg_funds : list Coin) (salt : string)
  | WasmMigrate (contract_addr : Addr) (new_code_id : Z) (msg : Body)
  | MsgBankSend (to_address : Addr) (msg_amount : list Coin)
  | MsgStaking (m : StakingMsg)
  | MsgDistribution (m : DistributionMsg)
  | MsgStargate (type_url value : string)
  | WasmInstantiate (new_admin : option Addr) (code_id : Z) (label : string) (msg : Body) (msg_funds : list Coin)
  | WasmUpdateAdmin (contract_addr new_admin : Addr)
  | WasmClearAdmin (contract_addr : Addr)
  | MsgBankBurn (msg_amount : list Coin)
  | MsgIbcTransfer (channel_id to_address : string) (sent : Coin) (timeout : IbcTimeout) (memo : option string)
  | MsgGov (m : GovMsg)
  | OtherMsg (m : string).
(** The funds a message moves out of the sending contract, as far as the
    framework builds it. *)
Definition funds_of (m : CosmosMsg) : list Coin :=
  match m with
  | WasmExecute _ _ f | WasmInstantiate2 _ _ _ _ f _ | MsgBankSend _ f => f
  | WasmInstantiate _ _ _ _ f | MsgBankBurn f => f
  | MsgStaking (Delegate _ c) | MsgIbcTransfer _ _ c _ _ => [c]
  | MsgDistribution (FundCommunityPool f) => f
  | _ => []
  end.
End messages.

(** ** Reference instances *)

Definition sha256_ref : Sha256 := {| sha256 s := s |}.
Definition json_ref : Json := {| is_json _ := true |}.

(** Coins as a finite map from denominations to amounts. *)
Definition coins_ref_add (cs : gmap string N) (c : Coin) : option (gmap string N) :=
  if decide (0 ≤ amount c) then
    Some (<[denom c := (default 0 (cs !! denom c) + Z.to_N (amount c))%N]> cs)
  else None.
Definition coins_ref_sub (cs : gmap string N) (c : Coin) : option (gmap string N) :=
  if decide (0 ≤ amount c ≤ Z.of_N (default 0%N (cs !! denom c))) then
    Some (<[denom c := (default 0 (cs !! denom c) - Z.to_N (amount c))%N]> cs)
  else None.
Fixpoint coins_ref_try_from (l : list Coin) : option (gmap string N) :=
  match l with
  | [] => Some ∅
  | c :: l =>
      cs ← coins_ref_try_from l;
      match cs !! denom c with Some _ => None | None => coins_ref_add cs c end
  end.
Definition coins_ref_vec (cs : gmap string N) : list Coin :=
  (λ x, mkCoin x.1 (Z.of_N x.2)) <$> map_to_list cs.
Definition coins_ref : CoinsOps := {|
  coins := gmap string N;
  coins_default := ∅;
  coins_try_from := coins_ref_try_from;
  coins_add := coins_ref_add;
  coins_sub := coins_ref_sub;
  coins_into_vec := coins_ref_vec;
  amount_of d cs := Z.of_N (default 0%N (cs !! d))
|}.

Lemma coins_ref_add_amount cs c cs' d :
  coins_ref_add cs c = Some cs' →
  Z.of_N (default 0%N (cs' !! d)) = Z.of_N (default 0%N (cs !! d)) +
    (if decide (d = denom c) then amount c else 0).
Proof.
  unfold coins_ref_add. case_decide; [|done]. intros [= <-]. case_decide as Hd.
  - subst. rewrite lookup_insert_eq. simpl. lia.
  - rewrite lookup_insert_ne by done. lia.
Qed.

Lemma total_Permutation d l k : l ≡ₚ k → total d l = total d k.
Proof. induction 1; simpl; lia. Qed.

Lemma coins_ref_laws : @CoinsLaws coins_ref.
Proof.
  split; simpl.
  - lia.
  - done.
  - induction l as [|c l IH]; intros cs d Hl; simpl in Hl.
    { by simplify_eq. }
    destruct (coins_ref_try_from l) as [cs0|] eqn:H0; [|done]. simpl in Hl.
    destruct (cs0 !! denom c); [done|]. rewrite (coins_ref_add_amount _ _ _ _ Hl), (IH _ d eq_refl).
    simpl. repeat case_decide; congruence || lia.
  - intros. by apply coins_ref_add_amount.
  - intros cs c cs' d. unfold coins_ref_sub. case_decide; [|done]. intros [= <-].
    case_decide as Hd.
    + subst. rewrite lookup_insert_eq. simpl. lia.
    + rewrite lookup_insert_ne by done. lia.
  - intros cs d. unfold coins_ref_vec. induction cs as [|k v cs Hk IH] using map_ind; [done|].
    rewrite (total_Permutation _ _ (mkCoin k (Z.of_N v) :: coins_ref_vec cs)).
    + simpl. unfold coins_ref_vec. rewrite IH. case_decide as Hd.
      * subst. rewrite lookup_insert_eq, Hk. simpl. lia.
      * rewrite lookup_insert_ne by done. lia.
    + unfold coins_ref_vec. by rewrite map_to_list_insert.
Qed.
