(* ===== verification/ModuleFactory.v ===== *)
(** * The module factory contract

    framework/contracts/native/module-factory: commands.rs, contract.rs and
    error.rs.  It instantiates the modules an account installs, collects what
    their installation costs, and tells in advance how much that is.  The
    module bytes an instantiation creates are code outside the framework: the
    factory only sends the message. *)

From S2P Require Import Prelude Cosmos Strings Objects Names AccountIds Fees Ownership Registry Clients.
From Stdlib Require Import Ascii String.
#[local] Open Scope string_scope.
#[local] Open Scope list_scope.
#[local] Open Scope Z_scope.

Inductive ModuleFactoryError : Type :=
  | MfStd (e : StdError)
  | MfAbstract (e : AbstractError)
  | MfOwnership (e : OwnershipError)
  | MfInstantiate2Address
  | MfRegistry (e : RegistryQueryError)
  | ModuleNotInstallable.

(** [CARGO_PKG_VERSION] of the workspace *)
Definition CONTRACT_VERSION : string := "0.26.1".

(** ** State and messages *)

Section factory.
Context `{Semver, Api, Instantiate2, CwOwnable, CoinsOps, Json}.

Record State := mkState {
  contract_version : option ContractVersion;
  cw_ownership : option ownable;
  current_base : option Addr
}.
Definition empty_state : State := mkState None None None.

Inductive ExecuteMsg : Type :=
  | InstallModules (modules : list FactoryModuleInstallConfig) (salt : string)
  | UpdateOwnership (action : cw_action).
Inductive MigrateMsg : Type := MigrateInstantiate (admin : string) | Migrate.

Record SimulateInstallModulesResponse := mkSimulateResponse {
  total_required_funds : list Coin;
  monetization_funds : list (string * Coin);
  initialization_funds : list (string * list Coin)
}.

Abbreviation MfM := (M State ModuleFactoryError).

Section with_querier.
Context `{!Querier, !Registries}.

(** ** Installing modules (commands.rs) *)

(** [Display for ModuleInfo] *)
Definition show_module_info (m : ModuleInfo) : string :=
  mi_name m +:+ " provided by " +:+ mi_namespace m +:+ " with version " +:+
    show_module_version (mi_version m).

(** [instantiate2_contract] *)
Definition instantiate2_contract (creator_addr : canonical_addr) (block_height code_id : Z)
    (init_msg : Body) (salt : string) (admin : option Addr) (fs : list Coin)
    (module_info : ModuleInfo) : outcome ModuleFactoryError (canonical_addr * CosmosMsg) :=
  wasm_info ← map_err MfStd (query_r (wasm_code_info code_id));
  addr ← ok_or (instantiate2_address (code_checksum wasm_info) creator_addr salt)
    MfInstantiate2Address;
  let label := "Module: " +:+ show_module_info module_info +:+ ", Height " +:+ pretty block_height in
  Ok (addr, WasmInstantiate2 admin code_id label init_msg fs salt).

(** [coins.add(c)?] *)
Definition coins_add_r (cs : coins) (c : Coin) : outcome StdError coins :=
  ok_or (coins_add cs c) StdOverflow.
Fixpoint coins_add_all (cs : coins) (l : list Coin) : outcome StdError coins :=
  match l with [] => Ok cs | c :: l => cs ← coins_add_r cs c; coins_add_all cs l end.

(** What the loop of [execute_create_modules] collects. *)
Record Collected := mkCollected {
  fee_msgs : list CosmosMsg;
  sum_of_monetization : coins;
  module_instantiate_messages : list CosmosMsg;
  modules_to_register : list Addr;
  at_least_one_standalone : bool
}.
Definition nothing_collected : Collected := mkCollected [] coins_default [] [] false.

(** The fee of one module: its message to the account of the namespace, and
    the funds collected so far. *)
Definition collect_fee (registry : Addr) (info : ModuleInfo) (m : Monetization) (sum : coins) :
    outcome ModuleFactoryError (list CosmosMsg * coins) :=
  match m with
  | MonetizationNone => Ok ([], sum)
  | InstallFee f =>
      let fee := ff_fee f in
      sum ← map_err MfStd (coins_add_r sum fee);
      namespace_account ← map_err MfRegistry (query_namespace registry (mi_namespace info));
      account ← unwrap (match namespace_account with Claimed _ a => Some a | Unclaimed => None end);
      Ok ([MsgBankSend account [fee]], sum)
  end.

(** The instantiation of one app or standalone. *)
Definition instantiate_module (canonical_contract_addr : canonical_addr) (block_height code_id : Z)
    (msg : Body) (salt : string) (account : Addr) (init_funds : list Coin) (info : ModuleInfo) :
    outcome ModuleFactoryError (Addr * CosmosMsg) :=
  '(addr, init_msg) ← instantiate2_contract canonical_contract_addr block_height code_id msg salt
    (Some account) init_funds info;
  module_address ← map_err MfStd (ok_or (addr_humanize addr) (StdMsg "invalid address"));
  Ok (module_address, init_msg).

(** The loop body of [execute_create_modules]. *)
Definition create_module (registry : Addr) (canonical_contract_addr : canonical_addr)
    (block_height : Z) (account : Addr) (salt : string) (c : Collected)
    (x : option string * ModuleResponse) : outcome ModuleFactoryError Collected :=
  let '(owner_init_msg, module_response) := x in
  let new_module := resp_module module_response in
  let info := mod_info new_module in
  let new_module_init_funds := instantiation_funds (resp_config module_response) in
  '(fees, sum) ← collect_fee registry info (monetization (resp_config module_response))
    (sum_of_monetization c);
  sum ← map_err MfStd (coins_add_all sum new_module_init_funds);
  let register a := mkCollected (fee_msgs c ++ fees) sum (module_instantiate_messages c)
    (modules_to_register c ++ [a]) (at_least_one_standalone c) in
  let instantiated a m standalone := mkCollected (fee_msgs c ++ fees) sum
    (module_instantiate_messages c ++ [m]) (modules_to_register c ++ [a])
    (standalone || at_least_one_standalone c)%bool in
  match mod_reference new_module with
  | RefApp code_id =>
      init_msg ← unwrap owner_init_msg;
      guard_or (is_json init_msg) (MfStd (StdMsg "Error parsing into type serde_cw_value::Value")) ≫= λ _,
      '(module_address, init_msg) ← instantiate_module canonical_contract_addr block_height code_id
        (ToNewApp account init_msg) salt account new_module_init_funds info;
      Ok (instantiated module_address init_msg false)
  | RefAdapter addr | RefService addr => Ok (register addr)
  | RefStandalone code_id =>
      init_msg ← unwrap owner_init_msg;
      '(module_address, init_msg) ← instantiate_module canonical_contract_addr block_height code_id
        (Raw init_msg) salt account new_module_init_funds info;
      Ok (instantiated module_address init_msg true)
  | RefNative native_address =>
      if decide (module_id info = IBC_CLIENT) then Ok (register native_address)
      else Err ModuleNotInstallable
  | RefAccount _ => Err ModuleNotInstallable
  end.
Fixpoint create_all (registry : Addr) (canonical_contract_addr : canonical_addr) (block_height : Z)
    (account : Addr) (salt : string) (c : Collected) (l : list (option string * ModuleResponse)) :
    outcome ModuleFactoryError Collected :=
  match l with
  | [] => Ok c
  | x :: l =>
      c ← create_module registry canonical_contract_addr block_height account salt c x;
      create_all registry canonical_contract_addr block_height account salt c l
  end.

(** [execute_create_modules] *)
Definition execute_create_modules (env : Env) (info : MessageInfo)
    (modules : list FactoryModuleInstallConfig) (salt : string) : MfM (Response CosmosMsg) :=
  code_id ← lift (map_err MfStd (abstract_code_id (contract_address env)));
  registry ← lift (map_err MfAbstract (registry_new code_id));
  account ← lift (map_err MfRegistry (assert_account registry (sender info)));
  let infos := fmic_module <$> modules in
  let init_msgs := fmic_init_msg <$> modules in
  modules_responses ← lift (map_err MfRegistry (query_modules_configs registry infos));
  canonical_contract_addr ← lift (map_err MfStd
    (ok_or (addr_canonicalize (contract_address env)) (StdMsg "invalid address")));
  c ← lift (create_all registry canonical_contract_addr (height (block env)) account salt
    nothing_collected (zip init_msgs modules_responses));
  (if at_least_one_standalone c then
     modify (λ s, mkState (contract_version s) (cw_ownership s) (Some account))
   else mret tt) ≫= λ _,
  ensure (bool_decide (coins_into_vec (sum_of_monetization c) = funds info))
    (MfAbstract (Fee "Invalid fee payment sent")) ≫= λ _,
  mret (mkResponse "create_modules"
    (send <$> (fee_msgs c ++ module_instantiate_messages c))).

(** ** Entry points (contract.rs) *)

(** [execute_update_ownership!] *)
Definition execute_update_ownership (env : Env) (info : MessageInfo) (a : cw_action) :
    MfM (Response CosmosMsg) :=
  o ← gets cw_ownership;
  o ← lift (ok_or o (MfOwnership CwOther));
  o' ← lift (map_err MfOwnership (cw_update_ownership o (block env) (sender info) a));
  modify (λ s, mkState (contract_version s) (Some o') (current_base s)) ≫= λ _,
  mret (mkResponse "update_ownership" []).

(** [execute] *)
Definition execute (env : Env) (info : MessageInfo) (msg : ExecuteMsg) : MfM (Response CosmosMsg) :=
  match msg with
  | InstallModules modules salt => execute_create_modules env info modules salt
  | UpdateOwnership action => execute_update_ownership env info action
  end.

(** [query_config]: the addresses of the ANS host and the registry. *)
Definition query_config (env : Env) : outcome StdError (Addr * Addr) :=
  code_id ← abstract_code_id (contract_address env);
  registry ← map_err (λ _, StdMsg "registry") (registry_new code_id);
  ans_host ← map_err (λ _, StdMsg "ans_host") (ans_host_new code_id);
  Ok (ans_host, registry).

(** The loop of [query_simulate_install_modules]. *)
Fixpoint simulate_all (cs : coins) (install_funds : list (string * Coin))
    (init_funds : list (string * list Coin)) (l : list ModuleResponse) :
    outcome StdError SimulateInstallModulesResponse :=
  match l with
  | [] => Ok (mkSimulateResponse (coins_into_vec cs) install_funds init_funds)
  | r :: l =>
      let id := module_id (mod_info (resp_module r)) in
      let inst := instantiation_funds (resp_config r) in
      '(cs, install_funds) ← match monetization (resp_config r) with
        | InstallFee fee =>
            cs ← coins_add_r cs (ff_fee fee); Ok (cs, install_funds ++ [(id, ff_fee fee)])
        | MonetizationNone => Ok (cs, install_funds)
        end;
      if decide (inst = []) then simulate_all cs install_funds init_funds l
      else
        cs ← coins_add_all cs inst;
        simulate_all cs install_funds (init_funds ++ [(id, inst)]) l
  end.
(** [query_simulate_install_modules] *)
Definition query_simulate_install_modules (env : Env) (modules : list ModuleInfo) :
    outcome StdError SimulateInstallModulesResponse :=
  code_id ← abstract_code_id (contract_address env);
  registry ← map_err (λ _, StdMsg "registry") (registry_new code_id);
  module_responses ← map_err (λ _, StdMsg "registry query")
    (query_modules_configs registry modules);
  simulate_all coins_default [] [] module_responses.
End with_querier.

(** [instantiate] *)
Definition instantiate (admin : string) : MfM (Response CosmosMsg) :=
  modify (λ s, mkState (Some (mkContractVersion MODULE_FACTORY CONTRACT_VERSION)) (cw_ownership s)
    (current_base s)) ≫= λ _,
  o ← lift (ok_or (cw_initialize_owner admin) (MfStd (StdMsg "invalid address")));
  modify (λ s, mkState (contract_version s) (Some o) (current_base s)) ≫= λ _,
  mret (mkResponse "instantiate" []).

(** [migrate], with [migrate_instantiate] for the migration of a blob. *)
Definition migrate `{!Querier} (env : Env) (msg : MigrateMsg) : MfM (Response CosmosMsg) :=
  cv ← gets contract_version;
  match msg with
  | MigrateInstantiate admin =>
      ensure (bool_decide (cv = None)) (MfStd (StdMsg "Second instantiation attempt")) ≫= λ _,
      contract_info ← lift (map_err MfStd (query_r (wasm_contract_info (contract_address env))));
      _ ← lift (unwrap (ci_admin contract_info));
      instantiate admin
  | Migrate =>
      version ← lift (unwrap (parse_version CONTRACT_VERSION));
      lift (map_err MfAbstract (assert_contract_upgrade cv MODULE_FACTORY version)) ≫= λ _,
      modify (λ s, mkState (Some (mkContractVersion MODULE_FACTORY CONTRACT_VERSION))
        (cw_ownership s) (current_base s)) ≫= λ _,
      mret (mkResponse "migrate" [])
  end.
End factory.
#[global] Arguments create_module : simpl never.

(** ** What an installation costs *)

Section lemmas.
Context `{Semver, Api, Instantiate2, CwOwnable, CoinsOps, Json, !Querier, !Registries}.

Lemma query_modules_configs_length registry infos resps :
  query_modules_configs registry infos = Ok resps → List.length resps = List.length infos.
Proof.
  unfold query_modules_configs, smart_query, handle_modules_query. intros Hq.
  apply obind_Ok in Hq as (s & _ & Hq). destruct (omapM _ _) as [l|e|] eqn:Ho; [|done..].
  injection Hq as <-. apply omapM_Ok in Ho. by rewrite (Forall2_length _ _ _ Ho).
Qed.

(** How one module changes what was collected. *)
Lemma create_module_spec registry canon h account salt c msg r c' :
  create_module registry canon h account salt c (msg, r) = Ok c' →
  ∃ fees sum,
    collect_fee registry (mod_info (resp_module r)) (monetization (resp_config r))
      (sum_of_monetization c) = Ok (fees, sum) ∧
    coins_add_all sum (instantiation_funds (resp_config r)) = Ok (sum_of_monetization c') ∧
    fee_msgs c' = fee_msgs c ++ fees ∧
    ∃ a, modules_to_register c' = modules_to_register c ++ [a] ∧
    match mod_reference (resp_module r) with
    | RefApp code_id | RefStandalone code_id =>
        ∃ m body, module_instantiate_messages c' = module_instantiate_messages c ++ [m] ∧
          instantiate_module canon h code_id body salt account
            (instantiation_funds (resp_config r)) (mod_info (resp_module r)) = Ok (a, m)
    | RefAdapter b | RefService b | RefNative b =>
        a = b ∧ module_instantiate_messages c' = module_instantiate_messages c
    | RefAccount _ => False
    end ∧
    at_least_one_standalone c' = (match mod_reference (resp_module r) with
      | RefStandalone _ => true | _ => false end || at_least_one_standalone c)%bool.
Proof.
  unfold create_module. intros Hc. inv_ok. destruct x as [fees sum]. inv_ok.
  exists fees, sum. split; [done|].
  destruct (mod_reference (resp_module r)); inv_ok; try (case_decide; inv_ok);
    repeat match goal with x : (_ * _)%type |- _ => destruct x end; inv_ok;
    (split; [eassumption|]; split; [done|]; eexists; split; [done|]; split; [by eauto|done]).
Qed.

(** The simulation adds up what the installation adds up. *)
Lemma create_all_simulate registry canon h account salt msgs resps c c' fs gs :
  List.length msgs = List.length resps →
  create_all registry canon h account salt c (zip msgs resps) = Ok c' →
  ∃ resp, simulate_all (sum_of_monetization c) fs gs resps = Ok resp ∧
    total_required_funds resp = coins_into_vec (sum_of_monetization c').
Proof.
  revert msgs c fs gs. induction resps as [|r resps IH]; intros [|m msgs] c fs gs Hlen Hc; try done.
  - simpl in Hc. inv_ok. by eexists.
  - simpl in Hc. inv_ok. injection Hlen as Hlen.
    match goal with Hm : create_module _ _ _ _ _ _ _ = Ok ?c1 |- _ =>
      apply create_module_spec in Hm as (fees & sum & Hf & Hs & _) end.
    assert (∃ fs', match monetization (resp_config r) with
        | InstallFee fee =>
            cs ← coins_add_r (sum_of_monetization c) (ff_fee fee);
            Ok (cs, fs ++ [(module_id (mod_info (resp_module r)), ff_fee fee)])
        | MonetizationNone => Ok (sum_of_monetization c, fs)
        end = Ok (sum, fs')) as [fs' Hfee].
    { unfold collect_fee in Hf. destruct (monetization (resp_config r)); inv_ok; [by eexists|].
      match goal with Ha : coins_add_r _ _ = _ |- _ => rewrite Ha end. by eexists. }
    simpl. rewrite Hfee. cbn.
    case_decide as Hi.
    + rewrite Hi in Hs. simpl in Hs. inv_ok.
      destruct (IH msgs _ fs' gs Hlen ltac:(eassumption)) as (resp & Hr & Ht). congruence || eauto.
    + rewrite Hs. cbn. by eapply IH.
Qed.
End lemmas.

Section cost.
Context `{Semver, Api, Instantiate2, CwOwnable, CoinsOps, Json, !Querier, !Registries}.

(** What a successful [execute_create_modules] computed. *)
Lemma execute_create_modules_inv env info modules salt s r s' :
  execute_create_modules env info modules salt s = Ok (r, s') →
  ∃ code_id registry account resps canon c,
    abstract_code_id (contract_address env) = Ok code_id ∧ registry_new code_id = Ok registry ∧
    assert_account registry (sender info) = Ok account ∧
    query_modules_configs registry (fmic_module <$> modules) = Ok resps ∧
    addr_canonicalize (contract_address env) = Some canon ∧
    create_all registry canon (height (block env)) account salt nothing_collected
      (zip (fmic_init_msg <$> modules) resps) = Ok c ∧
    coins_into_vec (sum_of_monetization c) = funds info ∧
    r = mkResponse "create_modules" (send <$> (fee_msgs c ++ module_instantiate_messages c)) ∧
    current_base s' = (if at_least_one_standalone c then Some account else current_base s).
Proof.
  unfold execute_create_modules. intros He. inv_ok.
  match goal with Hb : bool_decide _ = true |- _ => apply bool_decide_eq_true in Hb end.
  do 6 eexists. do 7 (split; [eassumption|]). split; [done|].
  match goal with |- context [at_least_one_standalone ?c] => destruct (at_least_one_standalone c) end;
    inv_ok; done.
Qed.

(** The total of a denomination in the funds of some messages. *)
Definition sent (d : string) (l : list CosmosMsg) : Z := total d (mjoin (funds_of <$> l)).
(** Instantiation funds of modules that are not instantiated. *)
Definition kept_funds (r : ModuleResponse) : list Coin :=
  match mod_reference (resp_module r) with
  | RefApp _ | RefStandalone _ => []
  | _ => instantiation_funds (resp_config r)
  end.

Lemma sent_app d l k : sent d (l ++ k) = sent d l + sent d k.
Proof. unfold sent. by rewrite fmap_app, join_app, total_app. Qed.
Lemma sent_cons d m l : sent d (m :: l) = total d (funds_of m) + sent d l.
Proof. unfold sent. simpl. by rewrite total_app. Qed.

Context `{!CoinsLaws}.

Lemma coins_add_all_amount cs l cs' d :
  coins_add_all cs l = Ok cs' → amount_of d cs' = amount_of d cs + total d l.
Proof.
  revert cs. induction l as [|c l IH]; intros cs Hc; simpl in Hc; inv_ok; simpl; [lia|].
  unfold coins_add_r in *. inv_ok. erewrite IH by eassumption. erewrite amount_of_add by eassumption.
  repeat case_decide; congruence || lia.
Qed.

Lemma collect_fee_amount registry i m cs fees cs' d :
  collect_fee registry i m cs = Ok (fees, cs') → amount_of d cs' = amount_of d cs + sent d fees.
Proof.
  unfold collect_fee, coins_add_r. intros Hc. destruct m; inv_ok; [unfold sent; simpl; lia|].
  erewrite amount_of_add by eassumption. unfold sent. simpl. repeat case_decide; congruence || lia.
Qed.

Lemma instantiate_module_funds canon h code_id body salt account fs i a m :
  instantiate_module canon h code_id body salt account fs i = Ok (a, m) → funds_of m = fs.
Proof.
  unfold instantiate_module, instantiate2_contract. intros Hi. inv_ok. by simplify_eq.
Qed.

Lemma create_all_amount registry canon h account salt c l c' d :
  create_all registry canon h account salt c l = Ok c' →
  amount_of d (sum_of_monetization c') - sent d (fee_msgs c' ++ module_instantiate_messages c')
  = amount_of d (sum_of_monetization c) - sent d (fee_msgs c ++ module_instantiate_messages c)
    + total d (mjoin (kept_funds <$> l.*2)).
Proof.
  revert c. induction l as [|[m r] l IH]; intros c Hc; [simpl in Hc; inv_ok; simpl; lia|].
  assert (total d (mjoin (kept_funds <$> ((m, r) :: l).*2))
    = total d (kept_funds r) + total d (mjoin (kept_funds <$> l.*2))) as -> by apply total_app.
  apply obind_Ok in Hc as (x & Hm & Hc). apply IH in Hc as ->. rewrite !sent_app.
  apply create_module_spec in Hm as (fees & sum & Hf & Hs & Hfee & a & _ & Href & _).
  apply (collect_fee_amount _ _ _ _ _ _ d) in Hf. apply (coins_add_all_amount _ _ _ d) in Hs.
  rewrite Hfee, sent_app.
  assert (kept_funds r = match mod_reference (resp_module r) with
    | RefApp _ | RefStandalone _ => []
    | _ => instantiation_funds (resp_config r) end) as -> by done.
  destruct (mod_reference (resp_module r)).
  1: done.
  all: try (destruct Href as [_ ->]; lia).
  all: destruct Href as (msg & body & -> & Hi); rewrite sent_app, sent_cons.
  all: apply instantiate_module_funds in Hi as ->; change (sent d []) with 0; simpl; lia.
Qed.
End cost.

(** The simulation is exact: when an installation succeeds, the simulation of
    the same modules, against the same chain, answers exactly the funds it was
    paid. *)
Theorem simulation_exact `{Semver, Api, Instantiate2, CwOwnable, CoinsOps, Json, !Querier, !Registries}
    (env : Env) (info : MessageInfo) (modules : list FactoryModuleInstallConfig) (salt : string)
    (s s' : State) (r : Response CosmosMsg)
    (Hinstall : execute env info (InstallModules modules salt) s = Ok (r, s')) :
  ∃ resp, query_simulate_install_modules env (fmic_module <$> modules) = Ok resp ∧
    total_required_funds resp = funds info.
Proof.
  apply execute_create_modules_inv in Hinstall
    as (code_id & registry & account & resps & canon & c & Hcode & Hreg & _ & Hq & _ & Hc & Hf & _).
  apply (create_all_simulate _ _ _ _ _ _ _ _ _ [] []) in Hc as (resp & Hr & Ht).
  - exists resp. unfold query_simulate_install_modules. rewrite Hcode. cbn. rewrite Hreg. cbn.
    rewrite Hq. cbn. split; [exact Hr|congruence].
  - apply query_modules_configs_length in Hq. rewrite Hq. by rewrite !length_fmap.
Qed.

(** C38. The factory keeps nothing of what an installation costs: of every
    denomination, the namespace owners and the new contracts together receive
    exactly the funds that were sent, but for instantiation funds configured
    on a module that is not instantiated. *)
Theorem install_funds_conserved `{Semver, Api, Instantiate2, CwOwnable, CoinsOps, Json, !Querier,
      !Registries, !CoinsLaws}
    (env : Env) (info : MessageInfo) (modules : list FactoryModuleInstallConfig) (salt : string)
    (s s' : State) (r : Response CosmosMsg) (d : string)
    (Hinstall : execute env info (InstallModules modules salt) s = Ok (r, s')) :
  ∃ msgs code_id registry resps, messages r = send <$> msgs ∧
    abstract_code_id (contract_address env) = Ok code_id ∧ registry_new code_id = Ok registry ∧
    query_modules_configs registry (fmic_module <$> modules) = Ok resps ∧
    sent d msgs + total d (mjoin (kept_funds <$> resps)) = total d (funds info).
Proof.
  apply execute_create_modules_inv in Hinstall
    as (code_id & registry & account & resps & canon & c & Hcode & Hreg & _ & Hq & _ & Hc & Hf & -> & _).
  exists (fee_msgs c ++ module_instantiate_messages c), code_id, registry, resps.
  do 4 (split; [done|]). apply (create_all_amount _ _ _ _ _ _ _ _ d) in Hc.
  rewrite <-Hf, amount_of_into_vec. simpl in Hc. rewrite amount_of_default in Hc.
  rewrite snd_zip in Hc.
  - unfold sent at 2 in Hc. simpl in Hc. lia.
  - apply query_modules_configs_length in Hq. rewrite Hq. by rewrite !length_fmap.
Qed.
