(* ===== verification/Account.v ===== *)
(** * The account contract

    framework/contracts/account: contract.rs, config.rs, execution.rs,
    modules.rs, modules/migration.rs, versioning.rs, sub_account.rs, reply.rs,
    migrate.rs and queries.rs, on the state of packages/abstract-std/src/account.rs.

    The account holds the assets of a user and executes messages for its owner
    and its whitelisted modules.  The [xion] feature, off by default, is left
    out.  A [HashSet] is a finite set: the order its elements are visited in is
    not specified by the source. *)

From S2P Require Import Prelude Cosmos Strings Objects Names AccountIds Fees ModuleFactory Ownership Registry Clients.
From Stdlib Require Import Ascii String.
#[local] Open Scope string_scope.
#[local] Open Scope list_scope.
#[local] Open Scope Z_scope.

(** ** State *)

Record AccountInfo := mkAccountInfo {
  name : option string;
  description : option string;
  link : option string
}.
Definition default_info : AccountInfo := mkAccountInfo None None None.
(** [AccountInfo::has_info] *)
Definition has_info (i : AccountInfo) : bool :=
  (bool_decide (name i ≠ None) || bool_decide (description i ≠ None) || bool_decide (link i ≠ None))%bool.

Section state.
Context `{Semver}.
Record State := mkState {
  contract_version : option ContractVersion;
  account_id : option AccountId;
  whitelisted_modules : option (list Addr);
  suspension_status : option bool;
  account_info : option AccountInfo;
  account_modules : gmap string Addr;
  dependents : gmap string (gset string);
  sub_accounts : gset Z;
  calling_to_as_admin : option Addr;
  install_modules_context : option (list (Module_ * option Addr));
  migrate_context : option (list (string * list Dependency));
  ownership : option (Ownership Addr)
}.
Definition empty_state : State := mkState None None None None None ∅ ∅ ∅ None None None None.

(** Writing one cell of the storage. *)
Definition set_contract_version (v : option ContractVersion) (s : State) : State :=
  mkState v (account_id s) (whitelisted_modules s) (suspension_status s) (account_info s)
    (account_modules s) (dependents s) (sub_accounts s) (calling_to_as_admin s)
    (install_modules_context s) (migrate_context s) (ownership s).
Definition set_account_id (v : option AccountId) (s : State) : State :=
  mkState (contract_version s) v (whitelisted_modules s) (suspension_status s) (account_info s)
    (account_modules s) (dependents s) (sub_accounts s) (calling_to_as_admin s)
    (install_modules_context s) (migrate_context s) (ownership s).
Definition set_whitelisted_modules (v : option (list Addr)) (s : State) : State :=
  mkState (contract_version s) (account_id s) v (suspension_status s) (account_info s)
    (account_modules s) (dependents s) (sub_accounts s) (calling_to_as_admin s)
    (install_modules_context s) (migrate_context s) (ownership s).
Definition set_suspension_status (v : option bool) (s : State) : State :=
  mkState (contract_version s) (account_id s) (whitelisted_modules s) v (account_info s)
    (account_modules s) (dependents s) (sub_accounts s) (calling_to_as_admin s)
    (install_modules_context s) (migrate_context s) (ownership s).
Definition set_account_info (v : option AccountInfo) (s : State) : State :=
  mkState (contract_version s) (account_id s) (whitelisted_modules s) (suspension_status s) v
    (account_modules s) (dependents s) (sub_accounts s) (calling_to_as_admin s)
    (install_modules_context s) (migrate_context s) (ownership s).
Definition set_account_modules (v : gmap string Addr) (s : State) : State :=
  mkState (contract_version s) (account_id s) (whitelisted_modules s) (suspension_status s)
    (account_info s) v (dependents s) (sub_accounts s) (calling_to_as_admin s)
    (install_modules_context s) (migrate_context s) (ownership s).
Definition set_dependents (v : gmap string (gset string)) (s : State) : State :=
  mkState (contract_version s) (account_id s) (whitelisted_modules s) (suspension_status s)
    (account_info s) (account_modules s) v (sub_accounts s) (calling_to_as_admin s)
    (install_modules_context s) (migrate_context s) (ownership s).
Definition set_sub_accounts (v : gset Z) (s : State) : State :=
  mkState (contract_version s) (account_id s) (whitelisted_modules s) (suspension_status s)
    (account_info s) (account_modules s) (dependents s) v (calling_to_as_admin s)
    (install_modules_context s) (migrate_context s) (ownership s).
Definition set_calling_to_as_admin (v : option Addr) (s : State) : State :=
  mkState (contract_version s) (account_id s) (whitelisted_modules s) (suspension_status s)
    (account_info s) (account_modules s) (dependents s) (sub_accounts s) v
    (install_modules_context s) (migrate_context s) (ownership s).
Definition set_install_modules_context (v : option (list (Module_ * option Addr))) (s : State) : State :=
  mkState (contract_version s) (account_id s) (whitelisted_modules s) (suspension_status s)
    (account_info s) (account_modules s) (dependents s) (sub_accounts s) (calling_to_as_admin s)
    v (migrate_context s) (ownership s).
Definition set_migrate_context (v : option (list (string * list Dependency))) (s : State) : State :=
  mkState (contract_version s) (account_id s) (whitelisted_modules s) (suspension_status s)
    (account_info s) (account_modules s) (dependents s) (sub_accounts s) (calling_to_as_admin s)
    (install_modules_context s) v (ownership s).
Definition set_ownership (v : option (Ownership Addr)) (s : State) : State :=
  mkState (contract_version s) (account_id s) (whitelisted_modules s) (suspension_status s)
    (account_info s) (account_modules s) (dependents s) (sub_accounts s) (calling_to_as_admin s)
    (install_modules_context s) (migrate_context s) v.
End state.

(** ** Errors, messages and replies *)

Section messages.
Context `{Semver, CwOwnable}.

Inductive AccountError : Type :=
  | AccStd (e : StdError)
  | AccAbstract (e : AbstractError)
  | AccValidation (e : ValidationError)
  | AccOwnership (e : GovOwnershipError)
  | AccInstantiate2Address
  | AccRegistry (e : RegistryQueryError)
  | AccountSuspended
  | QueryModulesFailed (e : RegistryQueryError)
  | ModuleAlreadyInstalled (module_id : string)
  | ProhibitedReinstall
  | AccModuleNotInstallable (m : string)
  | InitMsgMissing (module_id : string)
  | InvalidModuleName
  | ModuleNotFound (module_id : string)
  | DuplicateModuleMigration (module_id : string)
  | NotUpgradeable (m : ModuleInfo)
  | ModuleHasDependents (dependents : list string)
  | VersionRequirementNotMet (module_id version : string) (comp : comparator) (post_migration : bool)
  | DependencyNotMet (dependency dependent : string)
  | ModuleLimitReached
  | AlreadyWhitelisted (a : Addr)
  | NotWhitelisted
  | SubAccountDoesntExist
  | SubAccountIsNotCaller
  | SubAccountRegisterFailed
  | RenounceWithSubAccount
  | NoUpdates
  | OlderVersion (new_version old_version : string)
  | SenderNotWhitelistedOrOwner
  | UnexpectedReply
  | SubAccountCreatorNotAccount (caller account : Addr)
  | CantChainAdminCalls
  | AbstractAccountInvalidAddress (abstract_account contract : Addr)
  | NoAuthFeature
  | AbstractAccountNoAuth.

Inductive InternalConfigAction : Type :=
  | UpdateModuleAddresses (to_add : list (string * string)) (to_remove : list string)
  | UpdateWhitelist (to_add to_remove : list string).

Inductive ExecuteMsg : Type :=
  | Execute (msgs : list CosmosMsg)
  | ExecuteWithData (msg : CosmosMsg)
  | ExecuteOnModule (module_id : string) (exec_msg : string) (exec_funds : list Coin)
  | AdminExecute (addr : string) (msg : string)
  | AdminExecuteOnModule (module_id : string) (msg : string)
  | IcaAction (action_query_msg : string)
  | UpdateInternalConfig (action : InternalConfigAction)
  | InstallModules (modules : list ModuleInstallConfig)
  | UninstallModule (module_id : string)
  | Upgrade (modules : list (ModuleInfo * option string))
  | CreateSubAccount (new_name new_description new_link new_namespace : option string)
      (install_modules : list ModuleInstallConfig) (new_account_id : option Z)
  | UpdateInfo (new_name new_description new_link : option string)
  | UpdateStatus (is_suspended : option bool)
  | UpdateSubAccount (action : UpdateSubAccountAction)
  | UpdateOwnership (action : GovAction)
  | AddAuthMethod
  | RemoveAuthMethod (id : Z).
End messages.

Definition FORWARD_RESPONSE_REPLY_ID : Z := 1.
Definition ADMIN_ACTION_REPLY_ID : Z := 2.
Definition REGISTER_MODULES_DEPENDENCIES_REPLY_ID : Z := 3.
Definition ASSERT_MODULE_DEPENDENCIES_REQUIREMENTS_REPLY_ID : Z := 4.
Definition WHITELIST_SIZE_LIMIT : Z := 15.

(** What the account asks the modules installed on it, and whether a module
    factory runs at an address. *)
Class ModuleQueries `{CwOwnable} := {
  (** [BaseQueryMsg::AuthorizedAddresses] of an adapter, for an account *)
  authorized_addresses_of : Addr → Addr → option (list Addr);
  (** the messages the ICA client answers to an action query *)
  ica_action_of : Addr → string → option (list CosmosMsg);
  module_factory_at : Addr → bool
}.

(** ** Operations *)

Section operations.
Context `{Semver, Api, Instantiate2, CwOwnable, CoinsOps, Sha256}.
Context `{!Querier, !Registries, !ModuleQueries}.

Abbreviation AccM := (M State AccountError).
Abbreviation AccResponse := (Response CosmosMsg).

(** [Item::load] *)
Definition load {A} (name : string) (f : State → option A) : AccM A :=
  v ← gets f; lift (ok_or v (AccStd (StdNotFound name))).
(** [ownership::assert_nested_owner] on the account's ownership. *)
Definition assert_nested_owner_sender (sender : Addr) : AccM unit :=
  o ← gets ownership; lift (map_err AccOwnership (assert_nested_owner o sender)).
(** The address of the registry, found through the account's own code. *)
Definition find_registry (env : Env) : AccM Addr :=
  code_id ← lift (map_err AccStd (abstract_code_id (contract_address env)));
  lift (map_err AccAbstract (registry_new code_id)).

(** ** Dependencies between modules (versioning.rs) *)

(** [load_module_addr] (modules.rs) *)
Definition load_module_addr (module_id : string) : AccM Addr :=
  a ← gets (λ s, account_modules s !! module_id); lift (ok_or a (ModuleNotFound module_id)).
Definition query_module_data (a : Addr) : outcome AccountError ModuleData :=
  map_err AccStd (query_r (module_data_of a)).
Definition load_module_data (module_id : string) : AccM ModuleData :=
  module_addr ← load_module_addr module_id; lift (query_module_data module_addr).
Definition load_module_dependencies (module_id : string) : AccM (list Dependency) :=
  module_data ← load_module_data module_id; mret (md_dependencies module_data).

Definition assert_comparators (bounds : list comparator) (v : version) (module_id : string)
    (post_migration : bool) : outcome AccountError unit :=
  ofor bounds (λ comp,
    guard_or (comparator_matches comp v)
      (VersionRequirementNotMet module_id (show_version v) comp post_migration)).

(** The loop body of [assert_dependency_requirements]. *)
Definition assert_dependency_requirement (dependent : string) (dep : Dependency) : AccM unit :=
  a ← gets (λ s, account_modules s !! dep_id dep);
  dep_addr ← lift (ok_or a (DependencyNotMet (dep_id dep) dependent));
  dep_version ← lift (map_err AccStd (query_r (cw2_contract dep_addr)));
  v ← lift (unwrap (parse_version (cv_version dep_version)));
  lift (assert_comparators (version_req dep) v (dep_id dep) true).
Definition assert_dependency_requirements (dependencies : list Dependency) (dependent : string) :
    AccM unit :=
  mfor dependencies (assert_dependency_requirement dependent).
Definition assert_install_requirements (module_id : string) : AccM (list Dependency) :=
  module_dependencies ← load_module_dependencies module_id;
  assert_dependency_requirements module_dependencies module_id ≫= λ _, mret module_dependencies.
(** [unwrap_or_default] on the dependencies of a standalone. *)
Definition load_module_dependencies_or_default (module_id : string) : AccM (list Dependency) := λ s,
  match load_module_dependencies module_id s with
  | Ok (l, _) => Ok (l, s)
  | Err _ => Ok ([], s)
  | Panic => Panic
  end.
Definition assert_install_requirements_standalone (module_id : string) : AccM (list Dependency) :=
  module_dependencies ← load_module_dependencies_or_default module_id;
  assert_dependency_requirements module_dependencies module_id ≫= λ _, mret module_dependencies.

(** The loop body of [assert_migrate_requirements]. *)
Definition assert_dependent_supports (module_id : string) (new_version : version)
    (migrating : list (string * list Dependency)) (dependent_module : string) : AccM unit :=
  if existsb (λ x, bool_decide (x.1 = dependent_module)) migrating then mret tt else
  a ← gets (λ s, account_modules s !! dependent_module);
  dependent_address ← lift (ok_or a (AccStd (StdNotFound "module")));
  module_data ← lift (query_module_data dependent_address);
  lift (ofor (filter (λ dep, dep_id dep = module_id) (md_dependencies module_data)) (λ dep,
    assert_comparators (version_req dep) new_version module_id false)).
Definition assert_migrate_requirements (module_id : string) (new_version : version) : AccM unit :=
  d ← gets (λ s, dependents s !! module_id);
  migrating ← load "migrate_context" migrate_context;
  mfor (elements (default ∅ d)) (assert_dependent_supports module_id new_version migrating).

(** [DEPENDENTS.update(dep.id, |d| d.unwrap_or_default() + or - module_id)] *)
Definition update_dependents (f : gset string → gset string) (dep : string) : AccM unit :=
  modify (λ s, set_dependents (<[dep := f (default ∅ (dependents s !! dep))]> (dependents s)) s).
Definition set_as_dependent (module_id : string) (dependencies : list Dependency) : AccM unit :=
  mfor dependencies (λ dep, update_dependents (λ d, {[module_id]} ∪ d) (dep_id dep)).
Definition remove_as_dependent (module_id : string) (dependencies : list Dependency) : AccM unit :=
  mfor dependencies (λ dep, update_dependents (λ d, d ∖ {[module_id]}) (dep_id dep)).

(** [maybe_remove_old_deps]: [dependents.unwrap()] *)
Definition remove_dependent_of (module_id : string) (dep : Dependency) : AccM unit :=
  d ← gets (λ s, dependents s !! dep_id dep);
  d ← lift (unwrap d);
  modify (λ s, set_dependents (<[dep_id dep := d ∖ {[module_id]}]> (dependents s)) s).
Definition maybe_remove_old_deps (module_id : string) (old_deps : list Dependency) : AccM unit :=
  new_deps ← load_module_dependencies module_id;
  let removable_deps := filter (λ d, d ∉ new_deps) old_deps in
  mfor removable_deps (remove_dependent_of module_id).
Definition maybe_add_new_deps (module_id : string) (old_deps : list Dependency) :
    AccM (list Dependency) :=
  new_deps ← load_module_dependencies module_id;
  let to_be_added_deps := filter (λ d, d ∉ old_deps) new_deps in
  mfor to_be_added_deps (λ dep, update_dependents (λ d, {[module_id]} ∪ d) (dep_id dep)) ≫= λ _,
  mret new_deps.

(** ** Modules (modules.rs) *)

(** [update_module_addresses] *)
Definition update_module_addresses (to_add : list (string * Addr)) (to_remove : list string) :
    AccM unit :=
  mfor to_add (λ '(id, new_address),
    ensure (negb (bool_decide (id = ""))) InvalidModuleName ≫= λ _,
    modify (λ s, set_account_modules (<[id := new_address]> (account_modules s)) s)) ≫= λ _,
  mfor to_remove (λ id, modify (λ s, set_account_modules (delete id (account_modules s)) s)).

(** The loop of [_update_whitelisted_modules] over the addresses to add. *)
Fixpoint whitelist_push (whitelisted_modules to_add : list Addr) : outcome AccountError (list Addr) :=
  match to_add with
  | [] => Ok whitelisted_modules
  | a :: to_add =>
      if decide (a ∈ whitelisted_modules) then Err (AlreadyWhitelisted a)
      else whitelist_push (whitelisted_modules ++ [a]) to_add
  end.
(** [_update_whitelisted_modules]; lengths are far below the machine's bounds. *)
Definition update_whitelisted_modules (to_add to_remove : list Addr) : AccM unit :=
  w ← load "whitelisted_modules" whitelisted_modules;
  let len l := Z.of_nat (List.length l) in
  new_len ← lift (ok_or (checked_sub (len w + len to_add) (len to_remove)) NotWhitelisted);
  ensure (bool_decide (new_len ≤ WHITELIST_SIZE_LIMIT)) ModuleLimitReached ≫= λ _,
  w ← lift (whitelist_push w to_add);
  let w := filter (λ addr, addr ∉ to_remove) w in
  ensure (bool_decide (len w = new_len)) NotWhitelisted ≫= λ _,
  modify (set_whitelisted_modules (Some w)).

(** What the loop of [_install_modules] collects. *)
Record Installing := mkInstalling {
  add_to_whitelist : list Addr;
  add_to_account : list (string * Addr);
  install_context : list (Module_ * option Addr);
  factory_modules : list FactoryModuleInstallConfig
}.
Definition nothing_installed : Installing := mkInstalling [] [] [] [].

(** The address an app or standalone will be instantiated at. *)
Definition predict_module_address (canonical_module_factory : canonical_addr) (salt : string)
    (code_id : Z) : outcome AccountError Addr :=
  code_info ← map_err AccStd (query_r (wasm_code_info code_id));
  module_address ← ok_or
    (instantiate2_address (code_checksum code_info) canonical_module_factory salt)
    AccInstantiate2Address;
  map_err AccStd (ok_or (addr_humanize module_address) (StdMsg "invalid address")).

(** The loop body of [_install_modules]. *)
Definition install_module (canonical_module_factory : canonical_addr) (salt : string)
    (acc : Installing) (x : ModuleResponse * option string) : AccM Installing :=
  let module := resp_module x.1 in
  let id := module_id (mod_info module) in
  installed ← gets (λ s, account_modules s !! id);
  ensure (bool_decide (installed = None)) (ModuleAlreadyInstalled id) ≫= λ _,
  let installing a context_addr init := mkInstalling
    (if should_be_whitelisted module then add_to_whitelist acc ++ [a] else add_to_whitelist acc)
    (add_to_account acc ++ [(id, a)]) (install_context acc ++ [(module, context_addr)])
    (factory_modules acc ++ [mkFactoryInstall (mod_info module) init]) in
  match mod_reference module with
  | RefAdapter module_address | RefNative module_address | RefService module_address =>
      mret (installing module_address None None)
  | RefApp code_id | RefStandalone code_id =>
      module_address ← lift (predict_module_address canonical_module_factory salt code_id);
      ensure (bool_decide (wasm_contract_info module_address = None)) ProhibitedReinstall ≫= λ _,
      init ← lift (ok_or x.2 (InitMsgMissing id));
      mret (installing module_address (Some module_address) (Some init))
  | RefAccount _ => fail (AccModuleNotInstallable (show_module_info (mod_info module)))
  end.

(** [_install_modules] *)
Definition install_modules_internal (modules : list ModuleInstallConfig) (fs : list Coin)
    (abstract_code_id : Z) : AccM (list (SubMsg CosmosMsg)) :=
  account_id ← load "account_id" account_id;
  registry ← lift (map_err AccAbstract (registry_new abstract_code_id));
  module_factory ← lift (map_err AccAbstract (module_factory_new abstract_code_id));
  canonical_module_factory ← lift (map_err AccStd
    (ok_or (addr_canonicalize module_factory) (StdMsg "invalid address")));
  modules_responses ← lift (map_err QueryModulesFailed
    (query_modules_configs registry (mic_module <$> modules)));
  let salt := generate_instantiate_salt account_id in
  acc ← mfold (zip modules_responses (mic_init_msg <$> modules)) nothing_installed
    (install_module canonical_module_factory salt);
  update_whitelisted_modules (add_to_whitelist acc) [] ≫= λ _,
  modify (set_install_modules_context (Some (install_context acc))) ≫= λ _,
  update_module_addresses (add_to_account acc) [] ≫= λ _,
  mret [reply_on_success
    (WasmExecute module_factory (ToModuleFactory (factory_modules acc) salt) fs)
    REGISTER_MODULES_DEPENDENCIES_REPLY_ID].

(** [install_modules] *)
Definition install_modules (env : Env) (info : MessageInfo) (modules : list ModuleInstallConfig) :
    AccM AccResponse :=
  assert_nested_owner_sender (sender info) ≫= λ _,
  code_id ← lift (map_err AccStd (abstract_code_id (contract_address env)));
  install_msgs ← install_modules_internal modules (funds info) code_id;
  mret (mkResponse "install_modules" install_msgs).

(** [uninstall_module] *)
Definition uninstall_module (env : Env) (info : MessageInfo) (module_id : string) : AccM AccResponse :=
  assert_nested_owner_sender (sender info) ≫= λ _,
  d ← gets (λ s, dependents s !! module_id);
  match d with
  | Some d =>
      ensure (bool_decide (d = (∅ : gset string))) (ModuleHasDependents (elements d)) ≫= λ _,
      modify (λ s, set_dependents (delete module_id (dependents s)) s)
  | None => mret tt
  end ≫= λ _,
  module_data ← load_module_data module_id;
  remove_as_dependent module_id (md_dependencies module_data) ≫= λ _,
  registry ← find_registry env;
  module_info ← lift (map_err AccAbstract
    (module_info_from_id (md_module module_data)
       (Version (md_version module_data))));
  module ← lift (map_err AccRegistry (registry_query_module registry module_info));
  (if should_be_whitelisted module then
     module_addr ← load_module_addr module_id; update_whitelisted_modules [] [module_addr]
   else mret tt) ≫= λ _,
  modify (λ s, set_account_modules (delete module_id (account_modules s)) s) ≫= λ _,
  mret (mkResponse "uninstall_module" []).

(** [query_module]: the reference of the requested version, which may not be
    older than the contract's; versions are parsed with [unwrap]. *)
Definition query_module (env : Env) (module_info : ModuleInfo) (old_contract : ContractVersion) :
    AccM ModuleResponse :=
  registry ← find_registry env;
  module ← match mi_version module_info with
    | Version new_version =>
        new_version ← lift (unwrap (parse_version new_version));
        old_version ← lift (unwrap (parse_version (cv_version old_contract)));
        ensure (negb (version_ltb new_version old_version))
          (OlderVersion (show_version new_version) (show_version old_version)) ≫= λ _,
        reference ← lift (map_err AccRegistry (query_module_reference_raw registry module_info));
        mret (mkModule module_info reference)
    | Latest => lift (map_err AccRegistry (registry_query_module registry module_info))
    end;
  cfg ← lift (map_err AccRegistry (query_config registry module_info));
  mret (mkModuleResponse module cfg).

Definition configure_adapter (adapter_address : Addr) (to_add to_remove : list string) : CosmosMsg :=
  WasmExecute adapter_address (ToAdapterAuthorized to_add to_remove) [].

(** [query_module_version] (queries.rs) *)
Definition query_module_version (module_addr registry : Addr) : outcome StdError ContractVersion :=
  let cw2 := info ← cw2_contract module_addr;
    if is_ok (module_info_from_id (cv_contract info) (Version (cv_version info))) then Some info
    else None in
  match cw2 with
  | Some info => Ok info
  | None =>
      module_info ← match query_service_info_raw registry module_addr with
        | Ok module_info => Ok module_info
        | Panic => Panic
        | Err _ =>
            contract_info ← query_r (wasm_contract_info module_addr);
            map_err (λ _, StdMsg "registry")
              (query_standalone_info_raw registry (ci_code_id contract_info))
        end;
      map_err (λ _, StdMsg "version") (contract_version_of module_info)
  end.

(** ** Upgrading modules (modules/migration.rs) *)

Definition add_module_upgrade_to_context (module_id : string) (module_deps : list Dependency) :
    AccM unit :=
  c ← load "migrate_context" migrate_context;
  modify (set_migrate_context (Some (c ++ [(module_id, module_deps)]))).
Definition build_module_migrate_msg (module_addr : Addr) (new_code_id : Z) (migrate_msg : Body) :
    CosmosMsg :=
  WasmMigrate module_addr new_code_id migrate_msg.

(** [replace_adapter] *)
Definition replace_adapter (env : Env) (new_adapter_addr old_adapter_addr : Addr) :
    AccM (list CosmosMsg) :=
  authorized_to_migrate ← lift (map_err AccStd
    (query_r (authorized_addresses_of old_adapter_addr (contract_address env))));
  update_whitelisted_modules [new_adapter_addr] [old_adapter_addr] ≫= λ _,
  mret [configure_adapter old_adapter_addr [] authorized_to_migrate;
        configure_adapter new_adapter_addr authorized_to_migrate []].

(** What both kinds of upgrade record before the module changes. *)
Definition prepare_migration (module_info : ModuleInfo) : AccM (list Dependency) :=
  let module_id := module_id module_info in
  v ← lift (map_err AccAbstract (module_version_try_into (mi_version module_info)));
  assert_migrate_requirements module_id v ≫= λ _,
  load_module_dependencies module_id.
Definition handle_adapter_migration (env : Env) (module_info : ModuleInfo)
    (old_adapter_addr new_adapter_addr : Addr) : AccM (list CosmosMsg) :=
  old_deps ← prepare_migration module_info;
  update_module_addresses [(module_id module_info, new_adapter_addr)] [] ≫= λ _,
  add_module_upgrade_to_context (module_id module_info) old_deps ≫= λ _,
  replace_adapter env new_adapter_addr old_adapter_addr.
Definition handle_app_migration (migrate_msg : option string) (old_module_addr : Addr)
    (module_info : ModuleInfo) (code_id : Z) : AccM (list CosmosMsg) :=
  old_deps ← prepare_migration module_info;
  add_module_upgrade_to_context (module_id module_info) old_deps ≫= λ _,
  mret [build_module_migrate_msg old_module_addr code_id
    (match migrate_msg with Some m => Raw m | None => EmptyMsg end)].

(** [set_migrate_msgs_and_context]: the messages it appends; the message of a
    standalone is [unwrap]ped. *)
Definition set_migrate_msgs_and_context (env : Env) (module_info : ModuleInfo)
    (migrate_msg : option string) : AccM (list CosmosMsg) :=
  registry ← find_registry env;
  old_module_addr ← load_module_addr (module_id module_info);
  old_module_cw2 ← lift (map_err AccStd (query_module_version old_module_addr registry));
  requested_module ← query_module env module_info old_module_cw2;
  let requested := resp_module requested_module in
  match mod_reference requested with
  | RefAdapter new_adapter_addr =>
      handle_adapter_migration env (mod_info requested) old_module_addr new_adapter_addr
  | RefApp code_id => handle_app_migration migrate_msg old_module_addr (mod_info requested) code_id
  | RefStandalone code_id =>
      migrate_msg ← lift (unwrap migrate_msg);
      mret [build_module_migrate_msg old_module_addr code_id (Raw migrate_msg)]
  | _ => fail (NotUpgradeable module_info)
  end.

(** [self_upgrade_msg] *)
Definition self_upgrade_msg (env : Env) (module_info : ModuleInfo) (migrate_msg : string) :
    AccM CosmosMsg :=
  contract ← load "contract_info" contract_version;
  module ← query_module env module_info contract;
  match mod_reference (resp_module module) with
  | RefAccount account_code_id =>
      mret (WasmMigrate (contract_address env) account_code_id (Raw migrate_msg))
  | _ => fail (AccRegistry (RqInvalidReference module_info))
  end.

(** The state of the loop of [upgrade_modules]. *)
Record Upgrading := mkUpgrading {
  upgraded_module_ids : list string;
  upgrade_msgs : list CosmosMsg;
  account_migrate_info : option (ModuleInfo * option string)
}.
(** The loop body of [upgrade_modules]. *)
Definition upgrade_one (env : Env) (u : Upgrading) (x : ModuleInfo * option string) : AccM Upgrading :=
  let '(module_info, migrate_msg) := x in
  let id := module_id module_info in
  ensure (negb (bool_decide (id ∈ upgraded_module_ids u))) (DuplicateModuleMigration id) ≫= λ _,
  let ids := upgraded_module_ids u ++ [id] in
  if decide (id = ACCOUNT) then mret (mkUpgrading ids (upgrade_msgs u) (Some (module_info, migrate_msg)))
  else
    msgs ← set_migrate_msgs_and_context env module_info migrate_msg;
    mret (mkUpgrading ids (upgrade_msgs u ++ msgs) (account_migrate_info u)).
(** The last message carries the reply: [pop] and [add_submessages]. *)
Fixpoint reply_on_last (id : Z) (l : list CosmosMsg) : list (SubMsg CosmosMsg) :=
  match l with
  | [] => []
  | [m] => [reply_on_success m id]
  | m :: l => send m :: reply_on_last id l
  end.

(** [upgrade_modules] *)
Definition upgrade_modules (env : Env) (info : MessageInfo) (modules : list (ModuleInfo * option string)) :
    AccM AccResponse :=
  assert_nested_owner_sender (sender info) ≫= λ _,
  ensure (negb (bool_decide (modules = []))) NoUpdates ≫= λ _,
  modify (set_calling_to_as_admin (Some CALLING_TO_AS_ADMIN_WILD_CARD)) ≫= λ _,
  u ← mfold modules (mkUpgrading [] [] None) (upgrade_one env);
  msgs ← match account_migrate_info u with
    | Some (account_info, account_migrate_msg) =>
        m ← self_upgrade_msg env account_info (default "" account_migrate_msg);
        mret (upgrade_msgs u ++ [m])
    | None => mret (upgrade_msgs u)
    end;
  mret (mkResponse "upgrade_modules"
    (reply_on_last ASSERT_MODULE_DEPENDENCIES_REQUIREMENTS_REPLY_ID msgs)).

(** The loop body of [assert_modules_dependency_requirements]. *)
Definition assert_migrated_module (x : string * list Dependency) : AccM unit :=
  let '(migrated_module_id, old_deps) := x in
  maybe_remove_old_deps migrated_module_id old_deps ≫= λ _,
  new_deps ← maybe_add_new_deps migrated_module_id old_deps;
  assert_dependency_requirements new_deps migrated_module_id.
Definition assert_modules_dependency_requirements : AccM AccResponse :=
  migrated_modules ← load "migrate_context" migrate_context;
  mfor migrated_modules assert_migrated_module ≫= λ _,
  modify (set_calling_to_as_admin None) ≫= λ _,
  modify (set_migrate_context (Some [])) ≫= λ _,
  mret (mkResponse "" []).

(** ** Executing messages (execution.rs) *)

Definition assert_whitelisted_owner_or_self (env : Env) (sender : Addr) : AccM unit :=
  w ← load "whitelisted_modules" whitelisted_modules;
  o ← gets ownership;
  ensure (bool_decide (sender ∈ w) || is_ok (assert_nested_owner o sender)
          || bool_decide (sender = contract_address env))%bool SenderNotWhitelistedOrOwner.
Definition execute_msgs (env : Env) (msg_sender : Addr) (msgs : list CosmosMsg) : AccM AccResponse :=
  assert_whitelisted_owner_or_self env msg_sender ≫= λ _,
  mret (mkResponse "execute_module_action" (send <$> msgs)).
Definition execute_msgs_with_data (env : Env) (msg_sender : Addr) (msg : CosmosMsg) :
    AccM AccResponse :=
  assert_whitelisted_owner_or_self env msg_sender ≫= λ _,
  mret (mkResponse "execute_module_action_response"
    [reply_on_success msg FORWARD_RESPONSE_REPLY_ID]).
Definition execute_on_module (env : Env) (info : MessageInfo) (module_id exec_msg : string)
    (fs : list Coin) : AccM AccResponse :=
  module_addr ← load_module_addr module_id;
  execute_msgs env (sender info) [WasmExecute module_addr (Raw exec_msg) fs].
Definition admin_execute (info : MessageInfo) (addr : Addr) (exec_msg : string) : AccM AccResponse :=
  assert_nested_owner_sender (sender info) ≫= λ _,
  c ← gets calling_to_as_admin;
  ensure (bool_decide (c = None)) CantChainAdminCalls ≫= λ _,
  modify (set_calling_to_as_admin (Some addr)) ≫= λ _,
  mret (mkResponse "admin_execute"
    [reply_on_success (WasmExecute addr (Raw exec_msg) (funds info)) ADMIN_ACTION_REPLY_ID]).
Definition admin_execute_on_module (info : MessageInfo) (module_id exec_msg : string) :
    AccM AccResponse :=
  module_addr ← load_module_addr module_id; admin_execute info module_addr exec_msg.
Definition ica_action (env : Env) (info : MessageInfo) (action_query : string) : AccM AccResponse :=
  assert_whitelisted_owner_or_self env (sender info) ≫= λ _,
  a ← gets (λ s, account_modules s !! ICA_CLIENT);
  ica_client_address ← lift (ok_or a (AccStd (StdMsg "ica_client not found on account")));
  msgs ← lift (map_err AccStd (query_r (ica_action_of ica_client_address action_query)));
  mret (mkResponse "ica_action" (send <$> msgs)).

(** ** Configuration (config.rs) *)

Definition update_account_status (info : MessageInfo) (suspension : option bool) : AccM AccResponse :=
  match suspension with
  | Some is_suspended =>
      assert_nested_owner_sender (sender info) ≫= λ _,
      modify (set_suspension_status (Some is_suspended)) ≫= λ _,
      mret (mkResponse "update_status" [])
  | None => fail NoUpdates
  end.
Definition update_internal_config (info : MessageInfo) (action : InternalConfigAction) :
    AccM AccResponse :=
  assert_nested_owner_sender (sender info) ≫= λ _,
  match action with
  | UpdateModuleAddresses to_add to_remove =>
      add ← lift (map_err AccStd
        (omapM (λ x, addr ← addr_validate_r x.2; Ok (x.1, addr)) to_add));
      update_module_addresses add to_remove ≫= λ _,
      mret (mkResponse "update_module_addresses" [])
  | UpdateWhitelist to_add to_remove =>
      add ← lift (map_err AccStd (omapM addr_validate_r to_add));
      remove ← lift (map_err AccStd (omapM addr_validate_r to_remove));
      update_whitelisted_modules add remove ≫= λ _,
      mret (mkResponse "update_whitelist" [])
  end.
Definition update_info (info : MessageInfo) (new_name new_description new_link : option string) :
    AccM AccResponse :=
  assert_nested_owner_sender (sender info) ≫= λ _,
  i ← gets account_info;
  match new_name with
  | Some n => lift (map_err AccValidation (validate_title n))
  | None => mret tt
  end ≫= λ _,
  let n := match new_name with Some n => Some n | None => name (default default_info i) end in
  lift (map_err AccValidation (validate_description new_description)) ≫= λ _,
  lift (map_err AccValidation (validate_link new_link)) ≫= λ _,
  modify (set_account_info (Some (mkAccountInfo n new_description new_link))) ≫= λ _,
  mret (mkResponse "update_info" []).

(** ** Sub-accounts (sub_account.rs) *)

Definition create_sub_account (env : Env) (info : MessageInfo)
    (new_name new_description new_link new_namespace : option string)
    (install : list ModuleInstallConfig) (new_account_id : option Z) : AccM AccResponse :=
  assert_nested_owner_sender (sender info) ≫= λ _,
  contract_info ← lift (map_err AccStd (query_r (wasm_contract_info (contract_address env))));
  let self_code_id := ci_code_id contract_info in
  registry ← lift (map_err AccAbstract (registry_new self_code_id));
  next ← lift (map_err AccStd (query_local_account_sequence registry));
  let account_id := account_id_local (default next new_account_id) in
  let salt := generate_instantiate_salt account_id in
  code_info ← lift (map_err AccStd (query_r (wasm_code_info self_code_id)));
  self_canon_addr ← lift (map_err AccStd
    (ok_or (addr_canonicalize (contract_address env)) (StdMsg "invalid address")));
  let create_account_msg := mkAccountInit self_code_id (Some (SubAccount (contract_address env)))
    (Some account_id) new_namespace install new_name new_description new_link in
  account_canon_addr ← lift (ok_or
    (instantiate2_address (code_checksum code_info) self_canon_addr salt) AccInstantiate2Address);
  account_addr ← lift (map_err AccStd
    (ok_or (addr_humanize account_canon_addr) (StdMsg "invalid address")));
  mret (mkResponse "create_sub_account"
    [send (WasmInstantiate2 (Some account_addr) self_code_id (show_account_id account_id)
       (ToNewAccount create_account_msg) (funds info) salt)]).

Definition unregister_sub_account (env : Env) (info : MessageInfo) (id : Z) : AccM AccResponse :=
  registry ← find_registry env;
  account ← lift (map_err AccStd (query_account_address registry (account_id_local id)));
  match account with
  | Some account =>
      if decide (account = sender info) then
        modify (λ s, set_sub_accounts (sub_accounts s ∖ {[id]}) s) ≫= λ _,
        mret (mkResponse "unregister_sub_account" [])
      else fail SubAccountIsNotCaller
  | None => fail SubAccountDoesntExist
  end.
Definition register_sub_account (env : Env) (info : MessageInfo) (id : Z) : AccM AccResponse :=
  registry ← find_registry env;
  account ← lift (map_err AccStd (query_account_address registry (account_id_local id)));
  if decide (account = Some (sender info)) then
    modify (λ s, set_sub_accounts ({[id]} ∪ sub_accounts s) s) ≫= λ _,
    mret (mkResponse "register_sub_account" [])
  else fail SubAccountRegisterFailed.
(** [handle_sub_account_action] *)
Definition handle_sub_account_action (env : Env) (info : MessageInfo) (action : UpdateSubAccountAction) :
    AccM AccResponse :=
  match action with
  | UnregisterSubAccount id => unregister_sub_account env info id
  | RegisterSubAccount id => register_sub_account env info id
  end.

(** A message to the account that owns this one. *)
Definition to_owning_account (account : Addr) (a : UpdateSubAccountAction) : CosmosMsg :=
  WasmExecute account (ToSubAccountOwner a) [].
Definition get_ownership : AccM (Ownership Addr) := load "ownership" ownership.
(** [maybe_update_sub_account_governance] *)
Definition maybe_update_sub_account_governance : AccM (list CosmosMsg) :=
  o ← get_ownership;
  pending_governance ← lift (ok_or (pending_owner o) (AccOwnership TransferNotFound));
  unregister ← match owner o with
    | SubAccount account =>
        id ← load "account_id" account_id;
        mret [to_owning_account account (UnregisterSubAccount (acc_seq id))]
    | _ => mret []
    end;
  register ← match pending_governance with
    | SubAccount account =>
        id ← load "account_id" account_id;
        mret [to_owning_account account (RegisterSubAccount (acc_seq id))]
    | _ => mret []
    end;
  mret (unregister ++ register).
(** [remove_account_from_contracts] *)
Definition remove_account_from_contracts (env : Env) : AccM (list CosmosMsg) :=
  account_id ← load "account_id" account_id;
  sub ← gets sub_accounts;
  ensure (bool_decide (sub = (∅ : gset Z))) RenounceWithSubAccount ≫= λ _,
  o ← get_ownership;
  let unregister := match owner o with
    | SubAccount account => [to_owning_account account (UnregisterSubAccount (acc_seq account_id))]
    | _ => []
    end in
  registry ← find_registry env;
  namespaces ← lift (map_err AccRegistry (query_namespaces registry [account_id]));
  let forgo := match last namespaces with
    | Some (namespace, _) =>
        [WasmExecute registry (ToRegistry (Registry.ForgoNamespace [namespace])) []]
    | None => []
    end in
  mret (unregister ++ forgo).

(** [ownership::update_ownership] on the account's cell *)
Definition update_ownership_cell (env : Env) (sender : Addr) (action : GovAction) : AccM unit := λ s,
  match update_ownership (block env) sender action (ownership s) with
  | Ok (_, o) => Ok (tt, set_ownership o s)
  | Err e => Err (AccOwnership e)
  | Panic => Panic
  end.
Definition execute_update_ownership (env : Env) (info : MessageInfo) (action : GovAction) :
    AccM AccResponse :=
  msgs ← match action with
    | TransferOwnership _ _ => mret []
    | AcceptOwnership => maybe_update_sub_account_governance
    | RenounceOwnership => remove_account_from_contracts env
    end;
  update_ownership_cell env (sender info) action ≫= λ _,
  mret (mkResponse "update_ownership" (send <$> msgs)).

(** ** Entry points (contract.rs) *)

(** The messages of a module, once the account is known not to be suspended. *)
Definition execute_active (env : Env) (info : MessageInfo) (msg : ExecuteMsg) : AccM AccResponse :=
  match msg with
  | Execute msgs => execute_msgs env (sender info) msgs
  | AdminExecute addr msg =>
      addr ← lift (map_err AccStd (addr_validate_r addr)); admin_execute info addr msg
  | ExecuteWithData msg => execute_msgs_with_data env (sender info) msg
  | ExecuteOnModule module_id exec_msg fs => execute_on_module env info module_id exec_msg fs
  | AdminExecuteOnModule module_id msg => admin_execute_on_module info module_id msg
  | IcaAction action_query_msg => ica_action env info action_query_msg
  | UpdateInternalConfig config => update_internal_config info config
  | InstallModules modules => install_modules env info modules
  | UninstallModule module_id => uninstall_module env info module_id
  | Upgrade modules => upgrade_modules env info modules
  | UpdateInfo n d l => update_info info n d l
  | UpdateOwnership action => execute_update_ownership env info action
  | CreateSubAccount n d l ns install id => create_sub_account env info n d l ns install id
  | UpdateSubAccount action => handle_sub_account_action env info action
  | UpdateStatus _ => trap
  | AddAuthMethod | RemoveAuthMethod _ => fail NoAuthFeature
  end.
(** [execute] *)
Definition execute (env : Env) (info : MessageInfo) (msg : ExecuteMsg) : AccM AccResponse :=
  match msg with
  | UpdateStatus suspension_status => update_account_status info suspension_status
  | msg =>
      is_suspended ← load "suspension_status" suspension_status;
      ensure (negb is_suspended) AccountSuspended ≫= λ _,
      execute_active env info msg
  end.

(** [verify_nft_ownership] *)
Definition verify_nft_ownership (sender nft_addr : Addr) (nft_id : string) :
    outcome AccountError unit :=
  o ← map_err AccStd (query_r (nft_owner_of nft_addr nft_id));
  o ← map_err AccStd (addr_validate_r o);
  guard_or (bool_decide (sender = o)) (AccOwnership NotOwner).
(** The check of [instantiate] on the proposed governance. *)
Definition verify_creator (env : Env) (info : MessageInfo) (g : GovernanceDetails Addr) :
    outcome AccountError unit :=
  match g with
  | SubAccount account =>
      guard_or (bool_decide (sender info = account)) (SubAccountCreatorNotAccount (sender info) account)
  | NFT collection_addr token_id => verify_nft_ownership (sender info) collection_addr token_id
  | AbstractAccount address =>
      guard_or (bool_decide (address = contract_address env))
        (AbstractAccountInvalidAddress address (contract_address env)) ≫= λ _,
      Err AbstractAccountNoAuth
  | _ => Ok tt
  end.
(** [ownership::initialize_owner] on the account's cell *)
Definition initialize_ownership_cell (g : GovernanceDetails string) : AccM (Ownership Addr) := λ s,
  match initialize_owner g (ownership s) with
  | Ok (o, cell) => Ok (o, set_ownership cell s)
  | Err e => Err (AccOwnership e)
  | Panic => Panic
  end.
(** Charging the fees to the received coins, one at a time. *)
Fixpoint coins_sub_all (cs : coins) (l : list Coin) : outcome AccountError coins :=
  match l with
  | [] => Ok cs
  | c :: l =>
      cs ← ok_or (coins_sub cs c) (AccAbstract (Fee "Invalid fee payment sent"));
      coins_sub_all cs l
  end.
Fixpoint coins_add_each (cs : coins) (l : list Coin) : outcome AccountError coins :=
  match l with [] => Ok cs | c :: l => cs ← unwrap (coins_add cs c); coins_add_each cs l end.
(** [SimulateInstallModules] of the module factory *)
Definition simulate_install (env : Env) (module_factory : Addr) (modules : list ModuleInfo) :
    outcome AccountError (list Coin) :=
  guard_or (module_factory_at module_factory) (AccStd query_failed) ≫= λ _,
  match query_simulate_install_modules (mkEnv (block env) module_factory) modules with
  | Ok r => Ok (total_required_funds r)
  | _ => Err (AccStd query_failed)
  end.
(** The modules an account installs when it is created, and what they cost. *)
Definition install_on_creation (env : Env) (module_factory : Addr) (code_id : Z)
    (modules : list ModuleInstallConfig) (total_fee : coins) :
    AccM (coins * list (SubMsg CosmosMsg)) :=
  if decide (modules = []) then mret (total_fee, [])
  else
    total_required ← lift (simulate_install env module_factory (mic_module <$> modules));
    total_fee ← lift (coins_add_each total_fee total_required);
    install_msgs ← install_modules_internal modules total_required code_id;
    mret (total_fee, install_msgs).

(** What [instantiate] writes and checks before it builds its messages. *)
Definition init_cells (env : Env) (info : MessageInfo) (msg : AccountInstantiateMsg) (id : AccountId) :
    AccM (Ownership Addr) :=
  modify (set_account_id (Some id)) ≫= λ _,
  modify (set_whitelisted_modules (Some [])) ≫= λ _,
  lift (map_err AccValidation (validate_description (init_description msg))) ≫= λ _,
  lift (map_err AccValidation (validate_link (init_link msg))) ≫= λ _,
  match init_name msg with
  | Some n => lift (map_err AccValidation (validate_title n))
  | None => mret tt
  end ≫= λ _,
  let i := mkAccountInfo (init_name msg) (init_description msg) (init_link msg) in
  (if has_info i then modify (set_account_info (Some i)) else mret tt) ≫= λ _,
  modify (set_migrate_context (Some [])) ≫= λ _,
  let owner := default (AbstractAccount (contract_address env)) (init_owner msg) in
  governance ← lift (map_err AccAbstract (verify_gov owner));
  lift (verify_creator env info governance) ≫= λ _,
  cw_gov_owner ← initialize_ownership_cell owner;
  modify (set_suspension_status (Some false)) ≫= λ _,
  mret cw_gov_owner.
(** [instantiate] *)
Definition instantiate (env : Env) (info : MessageInfo) (msg : AccountInstantiateMsg) :
    AccM AccResponse :=
  modify (set_contract_version (Some (mkContractVersion ACCOUNT CONTRACT_VERSION))) ≫= λ _,
  let code_id := init_code_id msg in
  registry ← lift (map_err AccAbstract (registry_new code_id));
  module_factory ← lift (map_err AccAbstract (module_factory_new code_id));
  id ← match init_account_id msg with
    | Some id => mret id
    | None =>
        seq ← lift (map_err AccStd (query_local_account_sequence registry));
        mret (account_id_local seq)
    end;
  cw_gov_owner ← init_cells env info msg id;
  funds_for_namespace_fee ← match init_namespace msg with
    | Some _ =>
        fee ← lift (map_err AccRegistry (query_namespace_registration_fee registry));
        mret (option_list fee)
    | None => mret []
    end;
  total_fee ← lift (unwrap (coins_try_from funds_for_namespace_fee));
  let add_account := send (WasmExecute registry
    (ToRegistry (Registry.AddAccount (init_namespace msg) (sender info))) funds_for_namespace_fee) in
  let register := match owner cw_gov_owner with
    | SubAccount account => [send (to_owning_account account (RegisterSubAccount (acc_seq id)))]
    | _ => []
    end in
  '(total_fee, install_msgs) ← install_on_creation env module_factory code_id
    (init_install_modules msg) total_fee;
  total_received ← lift (unwrap (coins_try_from (funds info)));
  _ ← lift (coins_sub_all total_received (coins_into_vec total_fee));
  mret (mkResponse "instantiate" (add_account :: register ++ install_msgs)).

(** ** Replies (reply.rs) *)

(** [forward_response_reply]: the data of the response, if any. *)
Definition forward_response_reply (result : outcome string (option string)) :
    outcome AccountError (option string) :=
  map_err (λ e, AccStd (StdMsg e)) result.
Definition admin_action_reply : AccM AccResponse :=
  modify (set_calling_to_as_admin None) ≫= λ _, mret (mkResponse "" []).
(** The loop body of [register_dependencies]. *)
Definition register_module (x : Module_ * option Addr) : AccM unit :=
  let '(module, module_addr) := x in
  lift (map_err AccAbstract (assert_module_data_validity module module_addr)) ≫= λ _,
  let id := module_id (mod_info module) in
  match mod_reference module with
  | RefApp _ | RefAdapter _ =>
      dependencies ← assert_install_requirements id; set_as_dependent id dependencies
  | RefStandalone _ =>
      dependencies ← assert_install_requirements_standalone id; set_as_dependent id dependencies
  | _ => mret tt
  end.
Definition register_dependencies : AccM AccResponse :=
  modules ← load "install_modules_context" install_modules_context;
  mfor modules register_module ≫= λ _, mret (mkResponse "" []).

(** [reply]: the response and its data *)
Definition reply (id : Z) (result : outcome string (option string)) :
    AccM (AccResponse * option string) :=
  if decide (id = FORWARD_RESPONSE_REPLY_ID) then
    d ← lift (forward_response_reply result); mret (mkResponse "forward_response_data_reply" [], d)
  else if decide (id = ADMIN_ACTION_REPLY_ID) then
    r ← admin_action_reply; mret (r, None)
  else if decide (id = REGISTER_MODULES_DEPENDENCIES_REPLY_ID) then
    r ← register_dependencies; mret (r, None)
  else if decide (id = ASSERT_MODULE_DEPENDENCIES_REQUIREMENTS_REPLY_ID) then
    r ← assert_modules_dependency_requirements; mret (r, None)
  else fail UnexpectedReply.

(** ** Migration (migrate.rs) *)

Definition migrate : AccM AccResponse :=
  v ← lift (unwrap (parse_version CONTRACT_VERSION));
  cv ← load "contract_info" contract_version;
  if decide (cv_contract cv = ACCOUNT) then
    lift (map_err AccAbstract (assert_contract_upgrade (Some cv) ACCOUNT v)) ≫= λ _,
    modify (set_contract_version (Some (mkContractVersion ACCOUNT CONTRACT_VERSION))) ≫= λ _,
    mret (mkResponse "migrate" [])
  else fail (AccAbstract (ContractNameMismatch (cv_contract cv) ACCOUNT)).

(** ** Queries (queries.rs) *)

Definition DEFAULT_LIMIT : Z := 5.
Definition MAX_LIMIT : Z := 10.
Definition query_limit (limit : option Z) : nat := Z.to_nat (Z.min (default DEFAULT_LIMIT limit) MAX_LIMIT).

Record ConfigResponse := mkConfigResponse {
  cfg_whitelisted_addresses : list Addr;
  cfg_account_id : AccountId;
  cfg_is_suspended : bool;
  cfg_registry_address : Addr;
  cfg_module_factory_address : Addr
}.
Record AccountModuleInfo := mkAccountModuleInfo {
  ami_id : string;
  ami_version : ContractVersion;
  ami_address : Addr
}.

(** [query_module_addresses]: the addresses of the installed modules asked
    for, in the order of their ids. *)
Definition query_module_addresses (s : State) (module_names : list string) : list (string * Addr) :=
  merge_sort (λ x y, String.le x.1 y.1)
    (map_to_list (filter (λ x, x.1 ∈ module_names) (account_modules s))).
Definition handle_module_address_query (s : State) (ids : list string) : list (string * Addr) :=
  query_module_addresses s ids.
(** The registry, for a query *)
Definition query_registry (env : Env) : outcome StdError Addr :=
  code_id ← abstract_code_id (contract_address env);
  map_err (λ _, StdMsg "registry") (registry_new code_id).
(** [query_module_versions] *)
Definition query_module_versions (s : State) (env : Env) (module_names : list string) :
    outcome StdError (list (string * ContractVersion)) :=
  registry ← query_registry env;
  omapM (λ x, v ← query_module_version x.2 registry; Ok (x.1, v)) (query_module_addresses s module_names).
Definition handle_module_versions_query (s : State) (env : Env) (ids : list string) :
    outcome StdError (list ContractVersion) :=
  response ← query_module_versions s env ids; Ok response.*2.
Definition handle_account_info_query (s : State) : AccountInfo := default default_info (account_info s).
Definition handle_config_query (s : State) (env : Env) : outcome StdError ConfigResponse :=
  id ← ok_or (account_id s) (StdNotFound "account_id");
  code_id ← abstract_code_id (contract_address env);
  registry ← map_err (λ _, StdMsg "registry") (registry_new code_id);
  module_factory ← map_err (λ _, StdMsg "module_factory") (module_factory_new code_id);
  suspended ← ok_or (suspension_status s) (StdNotFound "suspension_status");
  w ← ok_or (whitelisted_modules s) (StdNotFound "whitelisted_modules");
  Ok (mkConfigResponse w id suspended registry module_factory).
Definition handle_module_info_query (s : State) (env : Env) (last_module_id : option string)
    (limit : option Z) : outcome StdError (list AccountModuleInfo) :=
  let ids_and_addr := take (query_limit limit)
    (range text_lt last_module_id (map_to_list (account_modules s))) in
  registry ← query_registry env;
  omapM (λ x, version ← query_module_version x.2 registry; Ok (mkAccountModuleInfo x.1 version x.2))
    ids_and_addr.
Definition handle_sub_accounts_query (s : State) (last_account_id : option Z) (limit : option Z) :
    list Z :=
  let keys := match last_account_id with
    | Some b => filter (λ id, b < id) (elements (sub_accounts s))
    | None => elements (sub_accounts s)
    end in
  take (query_limit limit) (merge_sort Z.le keys).
Definition handle_top_level_owner_query (env : Env) : outcome StdError Addr :=
  query_top_level_owner_addr (contract_address env).
End operations.
