(* ===== verification/Ibc.v ===== *)
(** * What the interchain contracts share

    abstract-std/src/native/ibc.rs, ibc/polytone_callbacks.rs and the messages
    of ibc/ibc_client.rs and ibc/ibc_host.rs: actions on a remote account, the
    requests to a polytone note and its callbacks, and the identification of an
    installed module; with the module registry of abstract-sdk
    (apis/version_registry.rs) and the memo builder (apis/ibc_memo/hooks.rs).

    Polytone, which carries messages between chains, is code outside the
    repository: the contracts send requests to a note and accept callbacks. *)

From S2P Require Import Prelude Cosmos Strings Objects Names AccountIds Fees ModuleFactory Ownership Registry Clients Account.
From Stdlib Require Import Ascii String.
#[local] Open Scope string_scope.
#[local] Open Scope list_scope.
#[local] Open Scope Z_scope.

Definition PACKET_LIFETIME : Z := 60 * 60.
Definition ICS20 : string := "ics-20".
Definition ABSTRACT_EVENT_TYPE : string := "wasm-abstract".

(** [AbstractSdkError], as far as these contracts and the modules meet it; an
    error of a query names the API that made it. *)
Inductive SdkError : Type :=
  | SdkAbstract (e : AbstractError)
  | SdkStd (e : StdError)
  | SdkApiQuery (api : string) (e : RegistryQueryError)
  | SdkApiAnsQuery (api : string) (e : AnsHostError)
  | SdkApiStdQuery (api : string) (e : StdError)
  | SdkNotAModule (a : Addr)
  | SdkWrongModuleInfo (a : Addr) (m : Module_)
  | SdkMissingHandler (endpoint : string)
  | SdkMissingModule (module : string)
  | SdkMissingDependency (module : string)
  | SdkCallbackNotCalledByIbcClient (caller client_addr : Addr) (module : string)
  | SdkModuleIbcNotCalledByHost (caller host_addr : Addr) (module : string)
  | SdkNoModuleIbcHandler (module : string)
  | SdkOnlyAdmin
  | SdkAsset.

(** [assert_cw_contract_upgrade] (objects/module_version.rs): the version is
    printed and parsed again. *)
Definition assert_cw_contract_upgrade `{Semver} (stored : option ContractVersion)
    (to_contract : string) (to_version : version) : outcome AbstractError unit :=
  v ← unwrap (parse_version (show_version to_version));
  assert_contract_upgrade stored to_contract v.

(** ** Callbacks of polytone (ibc/polytone_callbacks.rs) *)

Record Event := mkEvent { ty : string; attributes : list (string * string) }.
(** A [SubMsgResponse], as far as its events. *)
Record SubMsgResponse := mkSubMsgResponse { events : list Event }.
Record ExecutionResponse := mkExecutionResponse { executed_by : string; result : list SubMsgResponse }.
Record ErrorResponse := mkErrorResponse { message_index : Z; error : string }.
Inductive QueryCallbackResult : Type := QuerySuccess (l : list string) | QueryError (e : ErrorResponse).
Inductive ExecutionCallbackResult : Type :=
  | ExecutionSuccess (r : ExecutionResponse)
  | ExecutionError (e : string).
Inductive PolytoneCallback : Type :=
  | CallbackQuery (r : QueryCallbackResult)
  | CallbackExecute (r : ExecutionCallbackResult)
  | CallbackFatalError (e : string).
Record CallbackRequest := mkCallbackRequest { receiver : string; request_msg : string }.
Record CallbackMessage := mkCallbackMessage {
  initiator : Addr;
  initiator_msg : string;
  callback_result : PolytoneCallback
}.

(** [Callback] of ibc.rs: the text a module gets back with the result. *)
Record Callback := mkCallback { callback_msg : string }.

(** ** Modules installed on an account (ibc/ibc_client.rs) *)

Record InstalledModuleIdentification := mkInstalledModule {
  im_module_info : ModuleInfo;
  im_account_id : option AccountId
}.
Record ModuleAddr := mkModuleAddr { ma_reference : ModuleReference; ma_address : Addr }.
Record ModuleQuery := mkModuleQuery { mq_target_module : InstalledModuleIdentification; mq_msg : string }.

(** [QueryRequest] of cosmwasm_std; the queries the client does not look into
    are their text. *)
Inductive WasmQuery : Type := Smart (contract_addr msg : string) | OtherWasmQuery (q : string).
Inductive QueryRequest (C : Type) : Type :=
  | QueryBank (q : string)
  | QueryCustom (c : C)
  | QueryStaking (q : string)
  | QueryDistribution (q : string)
  | QueryStargate (path data : string)
  | QueryIbc (q : string)
  | QueryWasm (q : WasmQuery)
  | QueryGrpc (q : string).
Arguments QueryBank {C} q.
Arguments QueryCustom {C} c.
Arguments QueryStaking {C} q.
Arguments QueryDistribution {C} q.
Arguments QueryStargate {C} path data.
Arguments QueryIbc {C} q.
Arguments QueryWasm {C} q.
Arguments QueryGrpc {C} q.

(** ** Results handed to a module (ibc.rs) *)

Inductive IbcResult : Type :=
  | ResultQuery (queries : list (QueryRequest ModuleQuery)) (results : QueryCallbackResult)
  | ResultExecute (initiator_msg : string) (r : ExecutionCallbackResult)
  | ResultFatalError (e : string).
Record IbcResponseMsg := mkIbcResponse { response_callback : Callback; response_result : IbcResult }.

Definition from_query (callback : PolytoneCallback) (queries : list (QueryRequest ModuleQuery)) :
    outcome StdError IbcResult :=
  match callback with
  | CallbackQuery q => Ok (ResultQuery queries q)
  | CallbackExecute _ => Err (StdMsg "Expected a query result, got an execute result")
  | CallbackFatalError e => Ok (ResultFatalError e)
  end.
Definition from_execute (callback : PolytoneCallback) (initiator_msg : string) :
    outcome StdError IbcResult :=
  match callback with
  | CallbackQuery _ => Err (StdMsg "Expected an execution result, got a query result")
  | CallbackExecute e => Ok (ResultExecute initiator_msg e)
  | CallbackFatalError e => Ok (ResultFatalError e)
  end.
(** Indexing out of range traps. *)
Definition get_query_result (r : IbcResult) (index : nat) :
    outcome StdError (QueryRequest ModuleQuery * string) :=
  match r with
  | ResultQuery queries results =>
      results ← match results with
        | QuerySuccess items => Ok items
        | QueryError err => Err (StdMsg (error err))
        end;
      q ← unwrap (queries !! index); b ← unwrap (results !! index); Ok (q, b)
  | ResultExecute _ _ => Err (StdMsg "expected query, got execute ibc result")
  | ResultFatalError err => Err (StdMsg err)
  end.
Definition get_execute_events (r : IbcResult) : outcome StdError (list Event) :=
  match r with
  | ResultExecute _ result =>
      items ← match result with
        | ExecutionSuccess items => Ok items
        | ExecutionError err => Err (StdMsg err)
        end;
      res ← unwrap (head (Ibc.result items)); Ok (events res)
  | ResultQuery _ _ => Err (StdMsg "expected execute, got query ibc result")
  | ResultFatalError err => Err (StdMsg err)
  end.

(** Calls of a module from another chain *)
Record ModuleIbcInfo := mkModuleIbcInfo { mii_chain : TruncatedChainId; mii_module : ModuleInfo }.
Record ModuleIbcMsg := mkModuleIbcMsg { src_module_info : ModuleIbcInfo; module_ibc_msg : string }.

(** Lifecycle notifications of the transfer hooks *)
Inductive IBCLifecycleComplete : Type :=
  | IBCAck (channel : string) (sequence : Z) (ack : string) (success : bool)
  | IBCTimeout (channel : string) (sequence : Z).
(** [ICS20PacketIdentifier]: the channel and the sequence of a packet. *)
Definition ICS20PacketIdentifier : Type := string * Z.

Section messages.
Context `{Semver, Api, Instantiate2, CwOwnable, CoinsOps, Sha256}.

(** ** Actions on a host (ibc/ibc_host.rs) *)

Inductive InternalAction : Type :=
  | RegisterAccount (reg_name reg_description reg_link reg_namespace : option string)
      (reg_install_modules : list ModuleInstallConfig).
Inductive HelperAction : Type := SendAllBack.
Inductive HostAction : Type :=
  | Dispatch (account_msgs : list Account.ExecuteMsg)
  | Internal (a : InternalAction)
  | Helpers (a : HelperAction).

(** [ibc_host::ExecuteMsg] *)
Inductive HostExecuteMsg : Type :=
  | HostUpdateOwnership (a : cw_action)
  | RegisterChainProxy (chain : TruncatedChainId) (proxy : string)
  | RemoveChainProxy (chain : TruncatedChainId)
  | HostExecute (account_id : AccountId) (account_address : string) (action : HostAction)
  | ModuleExecute (source_module : InstalledModuleIdentification) (target_module : ModuleInfo)
      (msg : string)
  | Fund (src_account : AccountId) (src_chain : TruncatedChainId).

(** [IbcClientCallback] *)
Inductive IbcClientCallback : Type :=
  | ModuleRemoteAction (sender_address : string) (callback : Callback) (initiator_msg : string)
  | ModuleRemoteQuery (sender_address : string) (callback : Callback)
      (queries : list (QueryRequest ModuleQuery))
  | CreateAccount (account_id : AccountId)
  | WhoAmI.

(** ** Memos of transfers (abstract-sdk, apis/ibc_memo/hooks.rs) *)

Record HookMemoBuilder := mkHookMemoBuilder {
  memo_contract_addr : string;
  memo_msg : HostExecuteMsg;
  memo_ibc_callback : option Addr
}.
Definition memo_builder_new (contract_addr : string) (msg : HostExecuteMsg) : HookMemoBuilder :=
  mkHookMemoBuilder contract_addr msg None.
Definition callback_contract (b : HookMemoBuilder) (callback_contract : Addr) : HookMemoBuilder :=
  mkHookMemoBuilder (memo_contract_addr b) (memo_msg b) (Some callback_contract).
Definition memo_callback (b : HookMemoBuilder) (env : Env) : HookMemoBuilder :=
  callback_contract b (contract_address env).
End messages.

(** The JSON texts of the values above: a callback is read back as it was
    written. *)
Class IbcJson `{Semver, CwOwnable} := {
  callback_to_json : IbcClientCallback → string;
  callback_from_json : string → option IbcClientCallback;
  (** the query [ModuleQuery] of a host *)
  module_query_to_json : InstalledModuleIdentification → string → string;
  (** the JSON object of a memo *)
  memo_to_json : HookMemoBuilder → string;
  (** the JSON of an account id, the salt of its contract *)
  account_id_to_json : AccountId → string;
  (** [MsgTransferResponse::decode] of the data of a reply *)
  transfer_sequence : string → option Z
}.
Class IbcJsonLaws `{IbcJson} : Prop := {
  callback_json_roundtrip c : callback_from_json (callback_to_json c) = Some c;
  account_id_json_inj a b : account_id_to_json a = account_id_to_json b → a = b
}.

(** [one_coin] and [parse_execute_response_data] of [cw_utils] (the outer
    [option] is the parsing), and the page length of [cw_paginate]. *)
Class CwUtils := {
  one_coin : list Coin → option Coin;
  parse_execute_response_data : string → option (option string);
  page_length : option Z → nat
}.
Class CwUtilsLaws `{CwUtils} : Prop := {
  one_coin_spec l c : one_coin l = Some c → l = [c]
}.

(** The accounts as other contracts see them: the state of the account at an
    address, the account an app names in its state, and the answer of a module
    to a smart query. *)
Class Accounts `{Semver} := {
  account_state : Addr → option Account.State;
  app_account : Addr → option Addr;
  smart_query_of : Addr → string → option string
}.

Section registry.
Context `{Semver, Api, Instantiate2, CwOwnable, !Querier, !Registries, !Accounts}.

(** ** The module registry (abstract-sdk, apis/version_registry.rs) *)

(** [ModuleRegistry::query_module] *)
Definition sdk_query_module (registry : Addr) (m : ModuleInfo) : outcome SdkError Module_ :=
  l ← map_err (SdkApiQuery "ModuleRegistry") (query_modules_configs registry [m]);
  r ← first_response l; Ok (resp_module r).
(** [ModuleRegistry::module_info] *)
Definition module_info (registry : Addr) (address : Addr) : outcome SdkError Module_ :=
  module_response ← ok_or (module_data_of address) (SdkNotAModule address);
  info ← map_err SdkAbstract (module_info_from_id (md_module module_response)
    (Version (md_version module_response)));
  module ← sdk_query_module registry info;
  match mod_reference module with
  | RefAdapter queried_address | RefNative queried_address | RefService queried_address =>
      if decide (queried_address = address) then Ok module
      else Err (SdkWrongModuleInfo address module)
  | RefApp queried_code_id | RefStandalone queried_code_id | RefAccount queried_code_id =>
      request_contract ← map_err SdkStd (query_r (wasm_contract_info address));
      if decide (queried_code_id = ci_code_id request_contract) then Ok module
      else Err (SdkWrongModuleInfo address module)
  end.

(** [InstalledModuleIdentification::addr] *)
Definition no_account_id_error : AbstractError :=
  AbsStd (StdMsg "Account id not specified in installed module definition").
Definition installed_module_addr (m : InstalledModuleIdentification) (registry : Addr) :
    outcome AbstractError ModuleAddr :=
  target ← map_err AbsRegistry (registry_query_module registry (im_module_info m));
  let reference := mod_reference target in
  address ← match reference with
    | RefAccount code_id =>
        target_account_id ← ok_or (im_account_id m) no_account_id_error;
        account ← map_err AbsRegistry (registry_account registry target_account_id);
        info ← map_err AbsStd (query_r (wasm_contract_info account));
        if decide (ci_code_id info = code_id) then Ok account
        else Err (AbsStd (StdMsg "Account contract doesn't correspond to code id of the account"))
    | RefNative addr | RefAdapter addr | RefService addr => Ok addr
    | RefApp _ | RefStandalone _ =>
        target_account_id ← ok_or (im_account_id m) no_account_id_error;
        account ← map_err AbsRegistry (registry_account registry target_account_id);
        s ← map_err AbsStd (query_r (account_state account));
        x ← ok_or (head (handle_module_address_query s [module_id (im_module_info m)]))
          (AppNotInstalled (show_module_info (im_module_info m)));
        Ok x.2
    end;
  Ok (mkModuleAddr reference address).
End registry.
