(* ===== verification/IbcClient.v ===== *)
(** * The IBC client contract

    framework/contracts/native/ibc-client: contract.rs, commands.rs, ibc.rs,
    ics20.rs, reply.rs, queries.rs and error.rs, on the state of
    abstract-std/src/native/ibc/ibc_client.rs.  Accounts and modules of this
    chain send their actions, queries and funds to other chains through it; the
    answers come back as callbacks of the polytone note and of the transfer
    hooks.  The theorems are in IbcClientProofs.v. *)

From S2P Require Import Prelude Cosmos Strings Objects Names AccountIds Fees ModuleFactory Ownership AnsObjects Ans AnsClient Registry Clients Account Ibc.
From Stdlib Require Import Ascii String.
#[local] Open Scope string_scope.
#[local] Open Scope list_scope.
#[local] Open Scope Z_scope.

Definition CONTRACT_VERSION : string := "0.26.1".
Definition SEND_FUNDS_WITH_ACTIONS_REPLY_ID : Z := 1.

(** [error.rs] *)
Inductive IbcClientError : Type :=
  | IcStd (e : StdError)
  | IcAbstract (e : AbstractError)
  | IcSdk (e : SdkError)
  | IcOwnership (e : OwnershipError)
  | IcRegistry (e : RegistryQueryError)
  | IcAnsHost (e : AnsHostError)
  | IcPayment
  | UnregisteredChain (chain : string)
  | ForbiddenInternalCall
  | IcUnauthorized
  | IbcFailed (m : CallbackMessage)
  | HostAddressExists
  | IbcClientNotInstalled (id : AccountId)
  | IcUnexpectedReply.

(** ** State *)

Record IbcInfrastructure := mkIbcInfrastructure {
  polytone_note : Addr;
  remote_abstract_host : string;
  remote_proxy : option string
}.
Record AccountCallbackPayload := mkPayload {
  payload_channel_id : string;
  payload_account_address : Addr;
  payload_funds : Coin;
  payload_msgs : list string
}.
(** The key of [ACCOUNTS]: trace, sequence and chain. *)
Definition RemoteAccountKey : Type := AccountKey * TruncatedChainId.

Section state.
Context `{Semver, CwOwnable}.
Record State := mkState {
  contract_version : option ContractVersion;
  module_data : option ModuleData;
  cw_ownership : option ownable;
  ibc_infra : gmap TruncatedChainId IbcInfrastructure;
  reverse_polytone_note : gmap Addr TruncatedChainId;
  accounts : gmap RemoteAccountKey string;
  ics20_account_callbacks : gmap ICS20PacketIdentifier (Addr * Coin * list string);
  ics20_account_callback_payload : option AccountCallbackPayload
}.
Definition set_contract_version (v : option ContractVersion) (s : State) : State :=
  mkState v (module_data s) (cw_ownership s) (ibc_infra s) (reverse_polytone_note s) (accounts s)
    (ics20_account_callbacks s) (ics20_account_callback_payload s).
Definition set_module_data (v : option ModuleData) (s : State) : State :=
  mkState (contract_version s) v (cw_ownership s) (ibc_infra s) (reverse_polytone_note s)
    (accounts s) (ics20_account_callbacks s) (ics20_account_callback_payload s).
Definition set_cw_ownership (v : option ownable) (s : State) : State :=
  mkState (contract_version s) (module_data s) v (ibc_infra s) (reverse_polytone_note s)
    (accounts s) (ics20_account_callbacks s) (ics20_account_callback_payload s).
Definition set_ibc_infra (v : gmap TruncatedChainId IbcInfrastructure) (s : State) : State :=
  mkState (contract_version s) (module_data s) (cw_ownership s) v (reverse_polytone_note s)
    (accounts s) (ics20_account_callbacks s) (ics20_account_callback_payload s).
Definition set_reverse_polytone_note (v : gmap Addr TruncatedChainId) (s : State) : State :=
  mkState (contract_version s) (module_data s) (cw_ownership s) (ibc_infra s) v (accounts s)
    (ics20_account_callbacks s) (ics20_account_callback_payload s).
Definition set_accounts (v : gmap RemoteAccountKey string) (s : State) : State :=
  mkState (contract_version s) (module_data s) (cw_ownership s) (ibc_infra s)
    (reverse_polytone_note s) v (ics20_account_callbacks s) (ics20_account_callback_payload s).
Definition set_ics20_account_callbacks (v : gmap ICS20PacketIdentifier (Addr * Coin * list string)) (s : State) : State :=
  mkState (contract_version s) (module_data s) (cw_ownership s) (ibc_infra s)
    (reverse_polytone_note s) (accounts s) v (ics20_account_callback_payload s).
Definition set_ics20_account_callback_payload (v : option AccountCallbackPayload) (s : State) : State :=
  mkState (contract_version s) (module_data s) (cw_ownership s) (ibc_infra s)
    (reverse_polytone_note s) (accounts s) (ics20_account_callbacks s) v.
Definition empty_state : State := mkState None None None ∅ ∅ ∅ ∅ None.
End state.

(** ** Messages *)

Section messages.
Context `{Semver, Api, Instantiate2, CwOwnable, CoinsOps, Sha256}.

Inductive ExecuteMsg : Type :=
  | UpdateOwnership (a : cw_action)
  | RegisterInfrastructure (chain : TruncatedChainId) (note host : string)
  | SendFunds (host_chain : TruncatedChainId) (receiver memo : option string)
  | SendFundsWithActions (host_chain : TruncatedChainId) (actions : list string)
  | Register (host_chain : TruncatedChainId) (namespace : option string)
      (install_modules : list ModuleInstallConfig)
  | ModuleIbcAction (host_chain : TruncatedChainId) (target_module : ModuleInfo) (msg : string)
      (callback : option Callback)
  | IbcQuery (host_chain : TruncatedChainId) (queries : list (QueryRequest ModuleQuery))
      (callback : Callback)
  | RemoteAction (host_chain : TruncatedChainId) (action : HostAction)
  | RemoveHost (host_chain : TruncatedChainId)
  | ReceiveCallback (c : CallbackMessage).

(** A message a note is asked to have executed on the other chain. *)
Record RemoteMsg := mkRemoteMsg { remote_host : string; remote_msg : HostExecuteMsg }.
(** [anybuf::ibc::MsgTransfer], without its constant fields *)
Record MsgTransfer := mkMsgTransfer {
  source_channel : string;
  token : Coin;
  transfer_sender : string;
  transfer_receiver : string;
  timeout_timestamp : Z;
  transfer_memo : string
}.
(** The messages the client sends. *)
Inductive ClientMsg : Type :=
  | NoteExecute (note : Addr) (msgs : list RemoteMsg) (callback : option CallbackRequest)
      (timeout_seconds : Z)
  | NoteQuery (note : Addr) (msgs : list (QueryRequest Empty_set)) (callback : CallbackRequest)
      (timeout_seconds : Z)
  | StargateTransfer (t : MsgTransfer)
  | IbcTransfer (channel_id to_address : string) (transfer_amount : Coin) (timeout : Z)
  | AccountExecute (account : Addr) (msg : string)
  | ClientBankSend (to_address : Addr) (send_amount : list Coin)
  | ModuleCallback (module : Addr) (m : IbcResponseMsg).
End messages.

Section client.
Context `{Semver, Api, Instantiate2, CwOwnable, CoinsOps, Sha256, CwAsset}.
Context `{!Querier, !Registries, !AnsHosts, !Accounts, !IbcJson, !CwUtils}.

Abbreviation IcM := (M State IbcClientError).
Abbreviation IcResponse := (Response ClientMsg).

(** [cw_ownable::assert_owner] *)
Definition assert_owner (info : MessageInfo) : IcM unit :=
  o ← gets cw_ownership;
  o ← lift (ok_or o (IcStd (StdNotFound "ownership")));
  lift (map_err IcOwnership (cw_assert_owner o (sender info))).
Definition verify_chain (c : TruncatedChainId) : IcM unit := lift (map_err IcAbstract (chain_verify c)).
(** The registry, from the code id of the client *)
Definition own_registry (env : Env) : IcM (Z * Addr) :=
  code_id ← lift (map_err IcStd (abstract_code_id (contract_address env)));
  registry ← lift (map_err IcAbstract (registry_new code_id));
  mret (code_id, registry).
(** [IBC_INFRA.load] *)
Definition load_infra (host_chain : TruncatedChainId) : IcM IbcInfrastructure :=
  o ← gets (λ s, ibc_infra s !! host_chain);
  lift (ok_or o (IcStd (StdNotFound "ibc_infra"))).
(** [account.account_id(deps)?] *)
Definition sdk_account_id (account : Addr) : IcM AccountId :=
  lift (map_err (λ e, IcSdk (SdkStd e)) (query_r (account_id_of account))).

(** ** Commands (commands.rs) *)

Definition execute_register_infrastructure (env : Env) (info : MessageInfo)
    (host_chain : TruncatedChainId) (host note : string) : IcM IcResponse :=
  verify_chain host_chain ≫= λ _,
  assert_owner info ≫= λ _,
  note ← lift (map_err IcStd (addr_validate_r note));
  infra ← gets (λ s, ibc_infra s !! host_chain);
  reverse ← gets (λ s, reverse_polytone_note s !! note);
  ensure (negb (bool_decide (infra ≠ None ∨ reverse ≠ None))) HostAddressExists ≫= λ _,
  modify (λ s, set_ibc_infra (<[host_chain := mkIbcInfrastructure note host None]> (ibc_infra s)) s) ≫= λ _,
  modify (λ s, set_reverse_polytone_note (<[note := host_chain]> (reverse_polytone_note s)) s) ≫= λ _,
  mret (mkResponse "allow_chain_port" [send (NoteExecute note []
    (Some (mkCallbackRequest (contract_address env) (callback_to_json WhoAmI))) PACKET_LIFETIME)]).

Definition execute_remove_host (info : MessageInfo) (host_chain : TruncatedChainId) : IcM IcResponse :=
  verify_chain host_chain ≫= λ _,
  assert_owner info ≫= λ _,
  o ← gets (λ s, ibc_infra s !! host_chain);
  match o with
  | Some infra =>
      modify (λ s, set_reverse_polytone_note (delete (polytone_note infra) (reverse_polytone_note s)) s)
  | None => mret tt
  end ≫= λ _,
  modify (λ s, set_ibc_infra (delete host_chain (ibc_infra s)) s) ≫= λ _,
  mret (mkResponse "remove_host" []).

Definition send_remote_host_action (account_id : AccountId) (account : Addr)
    (host_chain : TruncatedChainId) (action : HostAction) (callback_request : option CallbackRequest) :
    IcM ClientMsg :=
  infra ← load_infra host_chain;
  mret (NoteExecute (polytone_note infra)
    [mkRemoteMsg (remote_abstract_host infra) (HostExecute account_id account action)]
    callback_request PACKET_LIFETIME).

Definition execute_send_packet (env : Env) (info : MessageInfo) (host_chain : TruncatedChainId)
    (action : HostAction) : IcM IcResponse :=
  verify_chain host_chain ≫= λ _,
  '(_, registry) ← own_registry env;
  note_message ← match action with
    | Dispatch _ | Helpers _ =>
        account ← lift (map_err IcRegistry (assert_account registry (sender info)));
        account_id ← sdk_account_id account;
        send_remote_host_action account_id account host_chain action None
    | Internal _ => fail ForbiddenInternalCall
    end;
  mret (mkResponse "handle_send_msgs" [send note_message]).

(** The source of a module-to-module packet, from the kind of the module. *)
Definition source_module_of (info : MessageInfo) (registry : Addr) (m : Module_) :
    outcome IbcClientError InstalledModuleIdentification :=
  match mod_reference m with
  | RefAccount _ | RefNative _ | RefStandalone _ | RefService _ => Err IcUnauthorized
  | RefAdapter _ => Ok (mkInstalledModule (mod_info m) None)
  | RefApp _ =>
      account ← map_err IcStd (query_r (app_account (sender info)));
      account_id ← map_err IcRegistry (registry_account_id registry account);
      account ← map_err IcRegistry (registry_account registry account_id);
      s ← map_err IcStd (query_r (account_state account));
      guard_or (negb (bool_decide (account_modules s !! IBC_CLIENT = None)))
        (IbcClientNotInstalled account_id) ≫= λ _,
      Ok (mkInstalledModule (mod_info m) (Some account_id))
  end.
Definition execute_send_module_to_module_packet (env : Env) (info : MessageInfo)
    (host_chain : TruncatedChainId) (target_module : ModuleInfo) (msg : string)
    (callback : option Callback) : IcM IcResponse :=
  verify_chain host_chain ≫= λ _,
  '(_, registry) ← own_registry env;
  m ← lift (map_err IcSdk (module_info registry (sender info)));
  source_module ← lift (source_module_of info registry m);
  let callback_request := (λ c, mkCallbackRequest (contract_address env)
    (callback_to_json (ModuleRemoteAction (sender info) c msg))) <$> callback in
  infra ← load_infra host_chain;
  mret (mkResponse "handle_send_module_to_module_packet" [send (NoteExecute (polytone_note infra)
    [mkRemoteMsg (remote_abstract_host infra) (ModuleExecute source_module target_module msg)]
    callback_request PACKET_LIFETIME)]).

(** [map_query]; the kinds polytone does not support trap. *)
Definition map_query (ibc_host : string) (q : QueryRequest ModuleQuery) :
    outcome IbcClientError (QueryRequest Empty_set) :=
  match q with
  | QueryCustom q =>
      Ok (QueryWasm (Smart ibc_host (module_query_to_json (mq_target_module q) (mq_msg q))))
  | QueryBank q => Ok (QueryBank q)
  | QueryStaking q => Ok (QueryStaking q)
  | QueryStargate path data => Ok (QueryStargate path data)
  | QueryIbc q => Ok (QueryIbc q)
  | QueryWasm q => Ok (QueryWasm q)
  | QueryDistribution _ | QueryGrpc _ => Panic
  end.
Definition execute_send_query (env : Env) (info : MessageInfo) (host_chain : TruncatedChainId)
    (queries : list (QueryRequest ModuleQuery)) (callback : Callback) : IcM IcResponse :=
  verify_chain host_chain ≫= λ _,
  infra ← load_infra host_chain;
  let callback_request := mkCallbackRequest (contract_address env)
    (callback_to_json (ModuleRemoteQuery (sender info) callback queries)) in
  mapped ← lift (omapM (map_query (remote_abstract_host infra)) queries);
  mret (mkResponse "handle_send_msgs"
    [send (NoteQuery (polytone_note infra) mapped callback_request PACKET_LIFETIME)]).

Definition execute_register_account (info : MessageInfo) (env : Env) (host_chain : TruncatedChainId)
    (namespace : option string) (install_modules : list ModuleInstallConfig) : IcM IcResponse :=
  verify_chain host_chain ≫= λ _,
  '(_, registry) ← own_registry env;
  account ← lift (map_err IcRegistry (assert_account registry (sender info)));
  account_id ← sdk_account_id account;
  acc ← lift (map_err IcStd (query_r (account_state account)));
  let account_info := handle_account_info_query acc in
  note_message ← send_remote_host_action account_id account host_chain
    (Internal (RegisterAccount (name account_info) (description account_info) (link account_info)
      namespace install_modules))
    (Some (mkCallbackRequest (contract_address env) (callback_to_json (CreateAccount account_id))));
  mret (mkResponse "handle_register" [send note_message]).

(** [_ics_20_send_msg] on wasm32 *)
Definition ics_20_send_msg (env : Env) (ics20_channel_id : string) (coin : Coin) (receiver : string)
    (memo : option string) : outcome IbcClientError ClientMsg :=
  timeout ← plus_seconds (time (block env)) PACKET_LIFETIME;
  match memo with
  | Some memo => Ok (StargateTransfer (mkMsgTransfer ics20_channel_id coin (contract_address env)
      receiver timeout memo))
  | None => Ok (IbcTransfer ics20_channel_id receiver coin timeout)
  end.
(** The channel for transfers, resolved at the ANS host. *)
Definition ics20_channel (code_id : Z) (host_chain : TruncatedChainId) : IcM string :=
  ans ← lift (map_err IcAbstract (ans_host_new code_id));
  lift (map_err IcAnsHost (AnsClient.query_channel ans (mkChannelEntry host_chain ICS20))).

Definition execute_send_funds (env : Env) (info : MessageInfo) (host_chain : TruncatedChainId)
    (memo receiver : option string) : IcM IcResponse :=
  verify_chain host_chain ≫= λ _,
  '(code_id, registry) ← own_registry env;
  _ ← lift (map_err IcAbstract (ans_host_new code_id));
  account ← lift (map_err IcRegistry (assert_account registry (sender info)));
  remote_addr ← match receiver with
    | Some addr => mret addr
    | None =>
        account_id ← sdk_account_id account;
        o ← gets (λ s, accounts s !! (akey account_id, host_chain));
        lift (ok_or o (IcStd (StdNotFound "accounts")))
    end;
  channel ← ics20_channel code_id host_chain;
  transfers ← lift (omapM (λ coin, ics_20_send_msg env channel coin remote_addr memo) (funds info));
  mret (mkResponse "handle_send_funds" (send <$> transfers)).

Definition execute_send_funds_with_actions (env : Env) (info : MessageInfo)
    (host_chain : TruncatedChainId) (actions : list string) : IcM IcResponse :=
  verify_chain host_chain ≫= λ _,
  coin ← lift (ok_or (one_coin (funds info)) IcPayment);
  infra ← load_infra host_chain;
  '(code_id, registry) ← own_registry env;
  account ← lift (map_err IcRegistry (assert_account registry (sender info)));
  account_id ← sdk_account_id account;
  channel ← ics20_channel code_id host_chain;
  let memo := memo_to_json (memo_callback (memo_builder_new (remote_abstract_host infra)
    (Fund account_id (from_chain_id (chain_id (block env))))) env) in
  msg ← lift (ics_20_send_msg env channel coin (remote_abstract_host infra) (Some memo));
  modify (set_ics20_account_callback_payload (Some (mkPayload channel account coin actions))) ≫= λ _,
  mret (mkResponse "handle_send_funds_with_actions"
    [reply_on_success msg SEND_FUNDS_WITH_ACTIONS_REPLY_ID]).

(** ** Callbacks (ibc.rs) *)

(** The address of the new account: the first attribute [account_address] of
    the abstract events of the first response. *)
Definition created_address (r : SubMsgResponse) : option string :=
  snd <$> head (filter (λ a, a.1 = "account_address")
    (mjoin (attributes <$> filter (λ e, ty e = ABSTRACT_EVENT_TYPE) (events r)))).

Definition handle_callback (c : CallbackMessage) (host_chain : TruncatedChainId)
    (callback_msg : IbcClientCallback) : IcM IcResponse :=
  match callback_msg with
  | WhoAmI =>
      match callback_result c with
      | CallbackExecute (ExecutionSuccess er) =>
          o ← gets (λ s, ibc_infra s !! host_chain);
          counterpart ← lift (ok_or o (UnregisteredChain host_chain));
          modify (λ s, set_ibc_infra (<[host_chain := mkIbcInfrastructure (polytone_note counterpart)
            (remote_abstract_host counterpart) (Some (executed_by er))]> (ibc_infra s)) s)
      | CallbackExecute (ExecutionError e) => fail (IcStd (StdMsg e))
      | _ => fail (IbcFailed c)
      end ≫= λ _,
      mret (mkResponse "register_remote_proxy" [])
  | CreateAccount account_id =>
      match callback_result c with
      | CallbackExecute (ExecutionSuccess er) =>
          account_creation_result ← lift (unwrap (head (result er)));
          remote_account_address ← lift (ok_or (created_address account_creation_result) (IbcFailed c));
          modify (λ s, set_accounts
            (<[(akey account_id, host_chain) := remote_account_address]> (accounts s)) s)
      | _ => fail (IbcFailed c)
      end ≫= λ _,
      mret (mkResponse "acknowledge_remote_account_registration" [])
  | ModuleRemoteAction sender_address callback initiator_msg =>
      result ← lift (map_err IcStd (from_execute (callback_result c) initiator_msg));
      mret (mkResponse "module_action_ibc_callback"
        [send (ModuleCallback sender_address (mkIbcResponse callback result))])
  | ModuleRemoteQuery sender_address callback queries =>
      result ← lift (map_err IcStd (from_query (callback_result c) queries));
      mret (mkResponse "module_query_ibc_callback"
        [send (ModuleCallback sender_address (mkIbcResponse callback result))])
  end.
Definition receive_action_callback (env : Env) (info : MessageInfo) (c : CallbackMessage) :
    IcM IcResponse :=
  o ← gets (λ s, reverse_polytone_note s !! sender info);
  host_chain ← lift (ok_or o IcUnauthorized);
  ensure (bool_decide (initiator c = contract_address env)) IcUnauthorized ≫= λ _,
  callback_msg ← lift (ok_or (callback_from_json (initiator_msg c)) (IcStd (StdMsg "from_json")));
  handle_callback c host_chain callback_msg.

(** ** Transfers with actions (reply.rs, ics20.rs) *)

(** [save_callback_actions]; the result is the data of the reply, and an absent
    data traps. *)
Definition save_callback_actions (r : outcome string (option string)) : IcM IcResponse :=
  data ← lift (map_err (λ e, IcStd (StdMsg e)) r);
  data ← lift (unwrap data);
  sequence ← lift (ok_or (transfer_sequence data) (IcStd (StdMsg "decode")));
  o ← gets ics20_account_callback_payload;
  payload ← lift (ok_or o (IcStd (StdNotFound "payload")));
  modify (λ s, set_ics20_account_callbacks
    (<[(payload_channel_id payload, sequence) :=
       (payload_account_address payload, payload_funds payload, payload_msgs payload)]>
      (ics20_account_callbacks s)) s) ≫= λ _,
  mret (mkResponse "" []).

Definition load_packet (p : ICS20PacketIdentifier) : IcM (Addr * Coin * list string) :=
  o ← gets (λ s, ics20_account_callbacks s !! p);
  lift (ok_or o (IcStd (StdNotFound "ics20_account_callbacks"))).
Definition remove_packet (p : ICS20PacketIdentifier) : IcM unit :=
  modify (λ s, set_ics20_account_callbacks (delete p (ics20_account_callbacks s)) s).
Definition ics20_hook_callback (msg : IBCLifecycleComplete) : IcM IcResponse :=
  match msg with
  | IBCAck channel sequence _ success =>
      '(account_addr, coin, actions) ← load_packet (channel, sequence);
      let stored_msgs := if (success : bool)
        then (λ m, send (AccountExecute account_addr m)) <$> actions
        else [send (ClientBankSend account_addr [coin])] in
      remove_packet (channel, sequence) ≫= λ _,
      mret (mkResponse "ibc_source_callback" stored_msgs)
  | IBCTimeout channel sequence =>
      '(account_addr, coin, _) ← load_packet (channel, sequence);
      remove_packet (channel, sequence) ≫= λ _,
      mret (mkResponse "ibc_source_callback" [send (ClientBankSend account_addr [coin])])
  end.

(** ** Entry points (contract.rs) *)

Definition execute_update_ownership (env : Env) (info : MessageInfo) (a : cw_action) : IcM IcResponse :=
  o ← gets cw_ownership;
  o ← lift (ok_or o (IcOwnership CwOther));
  o' ← lift (map_err IcOwnership (cw_update_ownership o (block env) (sender info) a));
  modify (set_cw_ownership (Some o')) ≫= λ _,
  mret (mkResponse "update_ownership" []).

Definition execute (env : Env) (info : MessageInfo) (msg : ExecuteMsg) : IcM IcResponse :=
  match msg with
  | UpdateOwnership action => execute_update_ownership env info action
  | RemoteAction host_chain action => execute_send_packet env info host_chain action
  | RegisterInfrastructure chain note host => execute_register_infrastructure env info chain host note
  | SendFunds host_chain receiver memo => execute_send_funds env info host_chain memo receiver
  | SendFundsWithActions host_chain actions =>
      execute_send_funds_with_actions env info host_chain actions
  | Register host_chain namespace install_modules =>
      execute_register_account info env host_chain namespace install_modules
  | RemoveHost host_chain => execute_remove_host info host_chain
  | ReceiveCallback c => receive_action_callback env info c
  | ModuleIbcAction host_chain target_module msg callback =>
      execute_send_module_to_module_packet env info host_chain target_module msg callback
  | IbcQuery host_chain queries callback => execute_send_query env info host_chain queries callback
  end.

Definition instantiate (info : MessageInfo) : IcM IcResponse :=
  modify (set_contract_version (Some (mkContractVersion IBC_CLIENT CONTRACT_VERSION))) ≫= λ _,
  modify (set_module_data (Some (Names.set_module_data IBC_CLIENT CONTRACT_VERSION [] None))) ≫= λ _,
  o ← lift (ok_or (cw_initialize_owner (sender info)) (IcStd (StdMsg "invalid address")));
  modify (set_cw_ownership (Some o)) ≫= λ _,
  mret (mkResponse "instantiate" []).
Definition reply (id : Z) (r : outcome string (option string)) : IcM IcResponse :=
  if decide (id = SEND_FUNDS_WITH_ACTIONS_REPLY_ID) then save_callback_actions r
  else fail IcUnexpectedReply.
Definition sudo (msg : IBCLifecycleComplete) : IcM IcResponse := ics20_hook_callback msg.
Definition migrate : IcM IcResponse :=
  to_version ← lift (unwrap (parse_version CONTRACT_VERSION));
  cv ← gets contract_version;
  lift (map_err IcAbstract (assert_cw_contract_upgrade cv IBC_CLIENT to_version)) ≫= λ _,
  modify (set_contract_version (Some (mkContractVersion IBC_CLIENT CONTRACT_VERSION))) ≫= λ _,
  modify (λ s, set_module_data
    (Some (migrate_module_data (module_data s) IBC_CLIENT CONTRACT_VERSION None)) s) ≫= λ _,
  mret (mkResponse "migrate" []).

(** ** Queries (queries.rs) *)

Definition config (env : Env) : outcome IbcClientError (Addr * Addr) :=
  code_id ← map_err IcStd (abstract_code_id (contract_address env));
  ans_host ← map_err IcAbstract (ans_host_new code_id);
  registry ← map_err IcAbstract (registry_new code_id);
  Ok (ans_host, registry).
Definition host (s : State) (host_chain : TruncatedChainId) :
    outcome IbcClientError (string * option string) :=
  map_err IcAbstract (chain_verify host_chain) ≫= λ _,
  infra ← ok_or (ibc_infra s !! host_chain) (IcStd (StdNotFound "ibc_infra"));
  Ok (remote_abstract_host infra, remote_proxy infra).
Definition account (s : State) (host_chain : TruncatedChainId) (account_id : AccountId) :
    outcome IbcClientError (option string) :=
  map_err IcAbstract (chain_verify host_chain) ≫= λ _,
  Ok (accounts s !! (akey account_id, host_chain)).
(** [IBC_INFRA.range(..)] *)
Definition list_ibc_counterparts (s : State) : list (TruncatedChainId * IbcInfrastructure) :=
  range text_lt None (map_to_list (ibc_infra s)).
Definition list_remote_hosts (s : State) : list (TruncatedChainId * string) :=
  (λ x, (x.1, remote_abstract_host x.2)) <$> list_ibc_counterparts s.
Definition list_remote_proxies (s : State) : list (TruncatedChainId * option string) :=
  (λ x, (x.1, remote_proxy x.2)) <$> list_ibc_counterparts s.
Definition list_proxies_by_account_id (s : State) (account_id : AccountId) :
    list (TruncatedChainId * option string) :=
  let entries := omap (λ '((k, c), a), if decide (k = akey account_id) then Some (c, a) else None)
    (map_to_list (accounts s)) in
  (λ x, (x.1, Some x.2)) <$> take (page_length None) (range text_lt None entries).

(** [AccountTrace::from_vec] on the elements of a key: the sixth is not read. *)
Definition trace_of_key (l : list string) : outcome StdError AccountTrace :=
  if decide (head l = Some LOCAL) then Ok Local
  else
    chains ← omapM (λ c, unwrap (ok (chain_from_string c)))
      (filter (λ c, c ≠ "") (take (MAX_TRACE_LENGTH - 1) l));
    Ok (Remote chains).
Fixpoint elements_lt (k l : list string) : Prop :=
  match k, l with
  | a :: k, b :: l => prefixed_lt a b ∨ a = b ∧ elements_lt k l
  | _, _ => False
  end.
#[export] Instance elements_lt_dec k : ∀ l, Decision (elements_lt k l).
Proof. induction k as [|a k IH]; intros [|b l]; simpl; apply _. Defined.
Definition account_key_lt (x y : RemoteAccountKey) : Prop :=
  elements_lt x.1.1 y.1.1 ∨
  x.1.1 = y.1.1 ∧ (x.1.2 < y.1.2 ∨ x.1.2 = y.1.2 ∧ text_lt x.2 y.2).
#[export] Instance account_key_lt_dec x y : Decision (account_key_lt x y).
Proof. unfold account_key_lt. apply _. Defined.
Definition list_accounts (s : State) (start : option (AccountId * string)) (limit : option Z) :
    outcome IbcClientError (list (AccountId * TruncatedChainId * string)) :=
  start ← match start with
    | Some (account_id, chain) =>
        chain ← map_err IcAbstract (chain_from_string chain); Ok (Some (akey account_id, chain))
    | None => Ok None
    end;
  omapM (λ x, let '((trace, seq), chain, address) := x in
    trace ← map_err IcStd (trace_of_key trace);
    id ← unwrap (ok (account_id_new seq trace));
    Ok (id, chain, address))
    (take (page_length limit) (range account_key_lt start (map_to_list (accounts s)))).
End client.
