(* ===== verification/RegistryUpgrade.v ===== *)
(** * Upgrades and queries of the registry

    contracts/native/registry (migrate.rs, the queries of contract.rs, and the account
    list of queries.rs): the migration, which also takes over the namespaces and the
    configuration of a registry of version 0.24, what it does to the owners of
    namespaces, and the dispatch of queries. *)

From S2P Require Import Prelude Cosmos Strings Objects Names AccountIds Fees Ownership Clients Ibc IbcClient Registry RegistryProofs RegistryAccess.
From Stdlib Require Import Ascii String.
#[local] Open Scope string_scope.
#[local] Open Scope list_scope.
#[local] Open Scope Z_scope.

(** ** Storage (migrate.rs) *)

Record ConfigV0_24 := mkConfigV0_24 { security_disabled : bool; old_registration_fee : option Coin }.

Section upgrade.
Context `{Semver, Api, CwOwnable}.
(** The storage of a registry with what is left of version 0.24.  The cell "cfg" holds
    one text: that of [ConfigV0_24] if [old_config] is some, otherwise that of the
    [config] of the registry. *)
Record Store := mkStore {
  registry : State;
  contract : option ContractVersion;
  namespaces_info : gmap string AccountId;
  old_config : option ConfigV0_24
}.
Abbreviation UpM := (M Store RegistryError).
Definition update_registry (f : State → State) : UpM unit :=
  modify (λ s, mkStore (f (registry s)) (contract s) (namespaces_info s) (old_config s)).
(** [NAMESPACES_INFO.range(..)], then the namespace of Abstract *)
Definition old_namespaces (s : Store) : list (string * AccountId) :=
  range text_lt None (map_to_list (namespaces_info s)).
(** [NAMESPACES.save], [REV_NAMESPACES.save] *)
Definition put_namespace (x : string * AccountId) (s : State) : State :=
  set_rev_namespaces (<[akey x.2 := x.1]> (rev_namespaces s))
    (set_namespaces (<[x.1 := x.2]> (namespaces s)) s).
Definition save_namespace (x : string * AccountId) : UpM unit := update_registry (put_namespace x).
(** The configuration: the cell is read with [unwrap]; saving it replaces the text. *)
Definition migrate_config : UpM unit :=
  s ← gets id;
  match old_config s, config (registry s) with
  | Some old, _ => modify (λ s, mkStore
      (set_config (Some (mkConfig (negb (security_disabled old)) (old_registration_fee old))) (registry s))
      (contract s) (namespaces_info s) None)
  | None, Some _ => mret tt
  | None, None => trap
  end.
Inductive MigrateMsg : Type := MigrateInstantiate (msg : InstantiateMsg) | Migrate.
Definition set_contract (v : ContractVersion) : UpM unit :=
  modify (λ s, mkStore (registry s) (Some v) (namespaces_info s) (old_config s)).
(** [instantiate] with the version of cw2 it stores first *)
Definition instantiate_store (msg : InstantiateMsg) : UpM (Response RegistryMsg) :=
  set_contract (mkContractVersion REGISTRY CONTRACT_VERSION) ≫= λ _,
  zoom registry (λ r s, mkStore r (contract s) (namespaces_info s)
    (* [CONFIG.save] replaces the text *) None) (instantiate msg).
(** [migrate], with [migrate_instantiate] for the migration of a blob *)
Definition migrate `{!Querier} (env : Env) (msg : MigrateMsg) : UpM (Response RegistryMsg) :=
  match msg with
  | MigrateInstantiate msg =>
      cv ← gets contract;
      ensure (bool_decide (cv = None)) (RegStd (StdMsg "Second instantiation attempt")) ≫= λ _,
      contract_info ← lift (map_err RegStd (query_r (wasm_contract_info (contract_address env))));
      _ ← lift (unwrap (ci_admin contract_info));
      instantiate_store msg
  | Migrate =>
      to_version ← lift (ok_or (parse_version CONTRACT_VERSION) (RegSemVer CONTRACT_VERSION));
      old ← gets old_namespaces;
      abstract ← lift (map_err RegAbstract (namespace_new ABSTRACT_NAMESPACE));
      mfor (old ++ [(abstract, ABSTRACT_ACCOUNT_ID)]) save_namespace ≫= λ _,
      migrate_config ≫= λ _,
      cv ← gets contract;
      lift (map_err RegAbstract (assert_cw_contract_upgrade cv REGISTRY to_version)) ≫= λ _,
      set_contract (mkContractVersion REGISTRY CONTRACT_VERSION) ≫= λ _,
      mret (mkResponse "migrate" [])
  end.

(** ** Queries (contract.rs, queries.rs) *)

Definition account_id_lt (x y : AccountKey) : Prop := elements_lt x.1 y.1 ∨ x.1 = y.1 ∧ x.2 < y.2.
#[export] Instance account_id_lt_dec x y : Decision (account_id_lt x y).
Proof. unfold account_id_lt. apply _. Defined.
Definition handle_account_list_query (s : State) (start_after : option AccountId) (limit : option Z) :
    outcome StdError (list (AccountId * Addr)) :=
  omapM (λ x, trace ← trace_of_key x.1.1; Ok (mkAccountId trace x.1.2, x.2))
    (take (limit_of limit) (range account_id_lt (akey <$> start_after) (map_to_list (account_addresses s)))).
Inductive QueryMsg : Type :=
  | QueryAccounts (account_ids : list AccountId)
  | QueryModules (infos : list ModuleInfo)
  | QueryNamespaces (accounts : list AccountId)
  | QueryNamespace (namespace : Namespace)
  | QueryConfig
  | QueryAccountList (start_after : option AccountId) (limit : option Z)
  | QueryModuleList (f : option ModuleFilter) (start_after : option ModuleInfo) (limit : option Z)
  | QueryNamespaceList (start_after : option string) (limit : option Z)
  | QueryOwnership.
Inductive QueryResponse : Type :=
  | AccountsResponse (accounts : list Addr)
  | ModulesResponse (modules : list ModuleResponse)
  | NamespaceListResponse (namespaces : list (Namespace * AccountId))
  | NamespaceAnswer (n : NamespaceResponse)
  | ConfigResponse (security_enabled : bool) (namespace_registration_fee : option Coin) (local_account_sequence : Z)
  | AccountListResponse (accounts : list (AccountId * Addr))
  | OwnershipResponse (o : ownable).
Definition query (s : State) (msg : QueryMsg) : outcome RegistryError QueryResponse :=
  match msg with
  | QueryAccounts ids => r ← map_err RegStd (handle_accounts_address_query s ids); Ok (AccountsResponse r)
  | QueryModules infos => r ← map_err RegStd (handle_modules_query s infos); Ok (ModulesResponse r)
  | QueryNamespaces accounts => Ok (NamespaceListResponse (handle_namespaces_query s accounts))
  | QueryNamespace ns => r ← map_err RegStd (handle_namespace_query s ns); Ok (NamespaceAnswer r)
  | QueryConfig =>
      c ← ok_or (config s) (RegStd (StdNotFound "config"));
      n ← ok_or (local_account_sequence s) (RegStd (StdNotFound "local_account_sequence"));
      Ok (ConfigResponse (security_enabled c) (namespace_registration_fee c) n)
  | QueryAccountList start limit => r ← map_err RegStd (handle_account_list_query s start limit); Ok (AccountListResponse r)
  | QueryModuleList f start limit => r ← handle_module_list_query s start limit f; Ok (ModulesResponse r)
  | QueryNamespaceList start limit =>
      start ← match start with
        | Some ns => ns ← map_err RegAbstract (namespace_new ns); Ok (Some ns)
        | None => Ok None
        end;
      Ok (NamespaceListResponse (handle_namespace_list_query s start limit))
  | QueryOwnership =>
      o ← ok_or (cw_ownership s) (RegStd (StdNotFound "ownership")); Ok (OwnershipResponse o)
  end.
End upgrade.

(** ** What an upgrade does to the namespaces *)

Section namespaces.
Context `{Semver, Api, CwOwnable}.

(** The owner of a namespace in a list, and the namespace of an account: the last *)
Definition owner_in (l : list (string * AccountId)) (ns : string) : option AccountId :=
  snd <$> last (filter (λ x, x.1 = ns) l).
Definition namespace_in (l : list (string * AccountId)) (k : AccountKey) : option string :=
  fst <$> last (filter (λ x, akey x.2 = k) l).
(** Only the namespaces of two states differ. *)
Definition same_but_namespaces (s s' : State) : Prop :=
  s' = set_rev_namespaces (rev_namespaces s') (set_namespaces (namespaces s') s).
Lemma put_all_spec l s : let s' := foldl (λ s x, put_namespace x s) s l in
  same_but_namespaces s s' ∧
  (∀ ns, namespaces s' !! ns = match owner_in l ns with Some id => Some id | None => namespaces s !! ns end) ∧
  (∀ k, rev_namespaces s' !! k = match namespace_in l k with Some ns => Some ns | None => rev_namespaces s !! k end).
Proof.
  induction l as [|[ns id] l IH] using rev_ind; [by destruct s|]. cbv zeta in *. destruct IH as (Hs & Hn & Hr).
  rewrite foldl_app. cbn [foldl]. set (t := foldl _ s l) in *. split; [|split].
  - unfold same_but_namespaces in *. rewrite Hs. by destruct s.
  - intros ns'. unfold owner_in. rewrite filter_app, filter_cons, filter_nil. simpl. case_decide as Hd.
    + subst ns'. by rewrite last_snoc, lookup_insert_eq.
    + rewrite app_nil_r, lookup_insert_ne by done. apply Hn.
  - intros k. unfold namespace_in. rewrite filter_app, filter_cons, filter_nil. simpl. case_decide as Hd.
    + subst k. by rewrite last_snoc, lookup_insert_eq.
    + rewrite app_nil_r, lookup_insert_ne by done. apply Hr.
Qed.
Lemma save_all l s : mfor l save_namespace s = Ok (tt,
  mkStore (foldl (λ s x, put_namespace x s) (registry s) l) (contract s) (namespaces_info s) (old_config s)).
Proof. revert s. induction l as [|x l IH]; intros s; [by destruct s|]. cbn [mfor]. unfold mbind, M_bind, save_namespace at 1, update_registry, modify. by rewrite IH. Qed.

(** The namespaces of version 0.24, in the order of their texts *)
Lemma elem_of_old (s : Store) x : x ∈ old_namespaces s ↔ namespaces_info s !! x.1 = Some x.2.
Proof.
  unfold old_namespaces, range. rewrite merge_sort_Permutation. destruct x as [ns id]. apply elem_of_map_to_list.
Qed.
Lemma not_text_lt a b : ¬ text_lt b a ↔ String.le a b.
Proof.
  unfold text_lt. split.
  - intros Hn. destruct (base.total String.le a b) as [?|Hb]; [done|].
    destruct (decide (b = a)) as [->|?]; [done|by destruct Hn].
  - intros Hab [Hne Hba]. apply Hne. by apply (anti_symm String.le).
Qed.
Lemma old_sorted (s : Store) : StronglySorted (λ x y : string * AccountId, ¬ text_lt y.1 x.1) (old_namespaces s).
Proof.
  apply Sorted_StronglySorted; [|apply Sorted_merge_sort].
  - intros x y z. rewrite !not_text_lt. apply (transitivity (R:=String.le)).
  - intros x y. rewrite !not_text_lt. apply (base.total String.le).
Qed.
(** The last of the sorted list is the greatest. *)
Lemma last_greatest {A} (R : A → A → Prop) l x y : StronglySorted R l → last l = Some x → y ∈ l → y = x ∨ R y x.
Proof.
  intros Hs (l' & ->)%last_Some. rewrite elem_of_app, list_elem_of_singleton.
  intros [Hy| ->]; [right|by left]. apply StronglySorted_app in Hs as (Hs & _). apply Hs; [done|left].
Qed.
Lemma StronglySorted_filter {A} (R : A → A → Prop) (P : A → Prop) `{!∀ x, Decision (P x)} l :
  StronglySorted R l → StronglySorted R (filter P l).
Proof.
  induction 1 as [|x l _ IH Hx]; [constructor|]. rewrite filter_cons. case_decide; [|done].
  constructor; [done|]. rewrite Forall_forall in *. intros y [_ Hy]%list_elem_of_filter. by apply Hx.
Qed.
Lemma last_filter_None {A} (P : A → Prop) `{!∀ x, Decision (P x)} l : last (filter P l) = None → ∀ x, x ∈ l → ¬ P x.
Proof. intros Hl%last_None x Hx HP. assert (x ∈ filter P l) as Hin by (by apply list_elem_of_filter). rewrite Hl in Hin. by apply elem_of_nil in Hin. Qed.
Lemma last_filter_Some {A} (P : A → Prop) `{!∀ x, Decision (P x)} l x : last (filter P l) = Some x → x ∈ l ∧ P x.
Proof. intros (l' & Hl)%last_Some. assert (x ∈ filter P l) as [? ?]%list_elem_of_filter; [|done]. rewrite Hl, elem_of_app, list_elem_of_singleton. by right. Qed.

(** The owners after the upgrade, for a list that ends with the namespace of Abstract *)
Definition upgraded (s : Store) : list (string * AccountId) := old_namespaces s ++ [(ABSTRACT_NAMESPACE, ABSTRACT_ACCOUNT_ID)].
Lemma owner_upgraded s ns : owner_in (upgraded s) ns =
  if decide (ns = ABSTRACT_NAMESPACE) then Some ABSTRACT_ACCOUNT_ID else namespaces_info s !! ns.
Proof.
  unfold owner_in, upgraded. rewrite filter_app, filter_cons, filter_nil. cbn [fst]. destruct (decide (ns = _)) as [->|Hne].
  - rewrite decide_True by done. by rewrite last_snoc.
  - rewrite decide_False by done. rewrite app_nil_r.
    destruct (last _) as [[ns' id]|] eqn:Hl; simpl.
    + apply last_filter_Some in Hl as [Hin%elem_of_old <-]. done.
    + destruct (namespaces_info s !! ns) as [id|] eqn:Hi; [|done].
      by destruct (last_filter_None _ _ Hl (ns, id) (proj2 (elem_of_old s (ns, id)) Hi)).
Qed.
(** What an account owns according to version 0.24 *)
Definition owned_before (s : Store) (k : AccountKey) (ns : string) : Prop :=
  ∃ id, namespaces_info s !! ns = Some id ∧ akey id = k.
Lemma namespace_upgraded s k : k ≠ akey ABSTRACT_ACCOUNT_ID →
  match namespace_in (upgraded s) k with
  | Some ns => owned_before s k ns ∧ ∀ ns', owned_before s k ns' → String.le ns' ns
  | None => ∀ ns, ¬ owned_before s k ns
  end.
Proof.
  intros Hk. unfold namespace_in, upgraded. rewrite filter_app, filter_cons, filter_nil. cbn [snd].
  rewrite decide_False by done. rewrite app_nil_r. destruct (last _) as [[ns id]|] eqn:Hl; simpl.
  - pose proof (last_filter_Some _ _ _ Hl) as [Hin%elem_of_old Hid]. split; [by exists id|].
    intros ns' (id' & Hi & Hk'). pose proof (StronglySorted_filter _ (λ x, akey x.2 = k) _ (old_sorted s)) as Hs.
    destruct (last_greatest _ _ _ (ns', id') Hs Hl) as [[= -> _]|Hle]; [|done|by apply not_text_lt in Hle].
    apply list_elem_of_filter. split; [done|by apply elem_of_old].
  - intros ns (id & Hi & Hk'). by destruct (last_filter_None _ _ Hl (ns, id) (proj2 (elem_of_old s (ns, id)) Hi)).
Qed.
Lemma namespace_abstract s : namespace_in (upgraded s) (akey ABSTRACT_ACCOUNT_ID) = Some ABSTRACT_NAMESPACE.
Proof. unfold namespace_in, upgraded. rewrite filter_app, filter_cons, filter_nil, decide_True by done. by rewrite last_snoc. Qed.

(** ** The upgrade as a whole *)

Context `{!Querier}.
(** The configuration after an upgrade *)
Definition config_upgraded (s : Store) : option Config :=
  match old_config s with
  | Some old => Some (mkConfig (negb (security_disabled old)) (old_registration_fee old))
  | None => config (registry s)
  end.
Lemma migrate_config_Ok s u s' : migrate_config s = Ok (u, s') →
  is_Some (config_upgraded s) ∧ s' = mkStore (set_config (config_upgraded s) (registry s)) (contract s) (namespaces_info s) None.
Proof.
  destruct s as [st cv info old]. unfold migrate_config, config_upgraded. intros Hrun. inv_ok. unfold id in *.
  destruct old as [old|]; simpl in *; [inv_ok; by split|]. destruct (config st) eqn:Hc; [|done]. inv_ok.
  split; [done|]. f_equal. destruct st; simpl in *; by subst.
Qed.
Lemma registry_migrate_Ok env s r s' : migrate env Migrate s = Ok (r, s') →
  (∃ v, parse_version CONTRACT_VERSION = Some v ∧ assert_cw_contract_upgrade (contract s) REGISTRY v = Ok tt) ∧
  is_Some (config_upgraded s) ∧
  s' = mkStore (set_config (config_upgraded s) (foldl (λ s x, put_namespace x s) (registry s) (upgraded s)))
    (Some (mkContractVersion REGISTRY CONTRACT_VERSION)) (namespaces_info s) None.
Proof.
  unfold migrate. intros Hrun. inv_ok. unfold id in *.
  match goal with Hm : mfor _ _ _ = Ok _ |- _ => rewrite save_all in Hm; injection Hm as <- <- end.
  match goal with Hm : migrate_config _ = Ok _ |- _ => apply migrate_config_Ok in Hm as [Hc ->] end.
  assert (config (foldl (λ s x, put_namespace x s) (registry s) (upgraded s)) = config (registry s)) as Hfold
    by (destruct (put_all_spec (upgraded s) (registry s)) as (-> & _); by destruct (registry s)).
  unfold set_contract, config_upgraded, upgraded in *. simpl in *. inv_ok. rewrite Hfold in *.
  repeat match goal with u : unit |- _ => destruct u end. split; [by eexists|done].
Qed.

(** The upgrade of a registry to this version.  It is refused unless the stored
    version may be upgraded to it.  Then every namespace that the storage has from
    version 0.24 belongs to its account there, that of Abstract to Abstract, and the
    others to whom they did; an account with old namespaces answers the greatest of
    them, the others what they did.  The configuration becomes that of version 0.24
    if it still is; nothing else changes, and the old namespaces stay. *)
Theorem registry_upgrade (env : Env) (s s' : Store) (r : Response RegistryMsg) (Hrun : migrate env Migrate s = Ok (r, s')) :
  (∃ v, parse_version CONTRACT_VERSION = Some v ∧ assert_cw_contract_upgrade (contract s) REGISTRY v = Ok tt) ∧
  contract s' = Some (mkContractVersion REGISTRY CONTRACT_VERSION) ∧
  namespaces_info s' = namespaces_info s ∧ old_config s' = None ∧
  config (registry s') = config_upgraded s ∧
  same_but_namespaces (set_config (config_upgraded s) (registry s)) (registry s') ∧
  (∀ ns, namespaces (registry s') !! ns =
     if decide (ns = ABSTRACT_NAMESPACE) then Some ABSTRACT_ACCOUNT_ID
     else match namespaces_info s !! ns with Some id => Some id | None => namespaces (registry s) !! ns end) ∧
  rev_namespaces (registry s') !! akey ABSTRACT_ACCOUNT_ID = Some ABSTRACT_NAMESPACE ∧
  (∀ k, k ≠ akey ABSTRACT_ACCOUNT_ID →
     (∃ ns, rev_namespaces (registry s') !! k = Some ns ∧ owned_before s k ns ∧
        ∀ ns', owned_before s k ns' → String.le ns' ns) ∨
     ((∀ ns, ¬ owned_before s k ns) ∧ rev_namespaces (registry s') !! k = rev_namespaces (registry s) !! k)).
Proof.
  apply registry_migrate_Ok in Hrun as (Hv & Hc & ->). split; [done|].
  destruct (put_all_spec (upgraded s) (registry s)) as (Hs & Hn & Hr). simpl. do 4 (split; [done|]).
  split_and!.
  - unfold same_but_namespaces in *. rewrite Hs at 1. by destruct (registry s).
  - intros ns. rewrite Hn, owner_upgraded. by case_decide.
  - by rewrite Hr, namespace_abstract.
  - intros k Hk. rewrite Hr. pose proof (namespace_upgraded s k Hk). destruct (namespace_in _ k); naive_solver.
Qed.

(** The namespaces of version 0.24 that one account owns at most once, and where
    that of Abstract and no other is of Abstract's account *)
Definition one_each (s : Store) : Prop :=
  (∀ k ns ns', owned_before s k ns → owned_before s k ns' → ns = ns') ∧
  (∀ ns, owned_before s (akey ABSTRACT_ACCOUNT_ID) ns → ns = ABSTRACT_NAMESPACE) ∧
  (∀ id, namespaces_info s !! ABSTRACT_NAMESPACE = Some id → id = ABSTRACT_ACCOUNT_ID).
End namespaces.

(** ** A namespace that comes back *)

Module RegistryUpgradeExamples.
#[local] Existing Instance semver_ref.
#[local] Existing Instance api_ref.
#[local] Existing Instance RegistryExamples.ownable_ref.
#[local] Existing Instance RegistryExamples.chain.
Import RegistryExamples.

(** "astro" was of account 1 in version 0.24; account 2 has claimed it since. *)
Definition account (n : Z) : AccountId := mkAccountId Local n.
Definition claimed : State := commit init (claim_namespace_internal None by_admin (account 2) "astro" init).
Definition store (version : string) : Store :=
  mkStore claimed (Some (mkContractVersion REGISTRY version)) {["astro" := account 1]} None.
Definition upgrading (version : string) := migrate env Migrate (store version).
Definition after : Store := commit (store "0.26.0") (upgrading "0.26.0").
Ltac evaluate := match goal with |- _ = ?b => vm_cast_no_check (eq_refl b) end.
Lemma upgrading_Ok : is_ok (upgrading "0.26.0") = true.
Proof. evaluate. Qed.
Example astro_lost : (namespaces (registry after) !! "astro", handle_namespaces_query (registry after) [account 1; account 2]) =
  (Some (account 1), [("astro", account 1); ("astro", account 2)]).
Proof. evaluate. Qed.
Example accounts_listed : query (registry after) (QueryAccountList None None) = Ok (AccountListResponse []).
Proof. evaluate. Qed.
Lemma claimed_inverse : namespaces_inverse claimed.
Proof.
  apply (commit_preserves namespaces_inverse); [apply claim_inverse|].
  exact (namespaces_bijection init init_reachable).
Qed.
Lemma upgrade_run : ∃ r, upgrading "0.26.0" = Ok (r, after).
Proof. pose proof upgrading_Ok as Hok. unfold after. destruct (upgrading _) as [[r s]|e|]; [by exists r|discriminate Hok..]. Qed.
Lemma registry_upgrade_witness : config (registry after) = Some (mkConfig true None) ∧ namespaces_info after = {["astro" := account 1]}.
Proof.
  destruct upgrade_run as [r Hr]. destruct (registry_upgrade env _ _ r Hr) as (_ & _ & Hi & _ & Hc & _).
  split; [exact Hc|exact Hi].
Defined.
End RegistryUpgradeExamples.
