(* ===== verification/IbcClientProofs.v ===== *)
(** * Correctness of the IBC client

    The chains and the notes they are reached through are in one-to-one
    correspondence; the remote account of an account is only written by the
    answer to the request that account made; and every transfer with actions is
    settled exactly once, by its actions or by a refund. *)

From S2P Require Import Prelude Cosmos Strings Objects Names AccountIds Fees ModuleFactory Ownership AnsObjects Ans AnsClient Registry Clients Account Ibc IbcClient.
From Stdlib Require Import Ascii String.
#[local] Open Scope string_scope.
#[local] Open Scope list_scope.
#[local] Open Scope Z_scope.

Section proofs.
Context `{Semver, Api, Instantiate2, CwOwnable, CoinsOps, Sha256, CwAsset}.
Context `{!AnsHosts, !Accounts, !IbcJson, !CwUtils}.

(** What the rest of the chain answers may differ from call to call. *)
Inductive reachable : State → Prop :=
  | reachable_init info r s : instantiate info empty_state = Ok (r, s) → reachable s
  | reachable_call (Q : Querier) (R : Registries) env info msg r s s' : reachable s →
      execute env info msg s = Ok (r, s') → reachable s'
  | reachable_reply id x r s s' : reachable s → reply id x s = Ok (r, s') → reachable s'
  | reachable_sudo msg r s s' : reachable s → sudo msg s = Ok (r, s') → reachable s'
  | reachable_migrate r s s' : reachable s → migrate s = Ok (r, s') → reachable s'.

(** ** Chains and notes *)

Definition infra_inverse (s : State) : Prop :=
  (∀ c n, polytone_note <$> ibc_infra s !! c = Some n ↔ reverse_polytone_note s !! n = Some c) ∧
  map_Forall (λ c _, chain_verify c = Ok tt) (ibc_infra s).

Lemma verify_chain_Ok c s u s' : verify_chain c s = Ok (u, s') ↔ chain_verify c = Ok tt ∧ s' = s.
Proof.
  unfold verify_chain. rewrite lift_Ok, map_err_Ok. destruct u. done.
Qed.

Lemma register_infrastructure_inverse env info c h n :
  Preserves infra_inverse (execute_register_infrastructure env info c h n).
Proof.
  intros s r s' [Hinv Hv] Hrun. unfold execute_register_infrastructure in Hrun.
  apply bind_Ok in Hrun as (? & ? & [Hc ->]%verify_chain_Ok & Hrun). unfold assert_owner in Hrun. inv_ok.
  match goal with Hn : negb _ = true |- _ =>
    rewrite negb_true_iff, bool_decide_eq_false in Hn; apply Decidable.not_or in Hn as [Hn1 Hn2] end.
  apply dec_stable in Hn1, Hn2. split; simpl.
  - by apply (inverse_add polytone_note _ _ _ (mkIbcInfrastructure _ _ _)).
  - by apply map_Forall_insert_2.
Qed.
Lemma remove_host_inverse info c : Preserves infra_inverse (execute_remove_host info c).
Proof.
  intros s r s' [Hinv Hv] Hrun. unfold execute_remove_host, assert_owner in Hrun.
  apply bind_Ok in Hrun as (? & ? & [Hc ->]%verify_chain_Ok & Hrun). inv_ok.
  case_match eqn:Hi; inv_ok; (split; simpl; [|by apply map_Forall_delete]).
  - by apply (inverse_delete polytone_note _ _ _ _).
  - by rewrite delete_id.
Qed.
(** Recording the proxy of a chain. *)
Lemma set_proxy_inverse c p e :
  Preserves infra_inverse (o ← gets (λ s, ibc_infra s !! c);
    counterpart ← lift (ok_or o e);
    modify (λ s, set_ibc_infra (<[c := mkIbcInfrastructure (polytone_note counterpart)
      (remote_abstract_host counterpart) p]> (ibc_infra s)) s) : M State IbcClientError unit).
Proof.
  intros s u s' [Hinv Hv] Hrun. inv_ok.
  match goal with Hx : ibc_infra s !! _ = Some ?i |- _ => rename Hx into Hi; rename i into infra end.
  split; simpl; [|apply map_Forall_insert_2; [by apply (Hv _ infra)|done]].
  intros c' n. rewrite <-Hinv. destruct (decide (c = c')) as [<-|Hne].
  - by rewrite lookup_insert_eq, Hi.
  - by rewrite lookup_insert_ne.
Qed.
Lemma callback_inverse env info c : Preserves infra_inverse (receive_action_callback env info c).
Proof.
  unfold receive_action_callback, handle_callback.
  intros; repeat first [apply set_proxy_inverse|preserve_step].
Qed.

Lemma execute_infra (Q : Querier) (R : Registries) env info msg :
  Preserves infra_inverse (execute env info msg).
Proof.
  destruct msg; simpl; [|apply register_infrastructure_inverse|..|apply remove_host_inverse
    |apply callback_inverse];
    unfold execute_update_ownership, execute_send_funds, execute_send_funds_with_actions,
      execute_register_account, execute_send_module_to_module_packet, execute_send_query,
      execute_send_packet, send_remote_host_action, own_registry, verify_chain, load_infra,
      sdk_account_id, ics20_channel; preserve.
Qed.

(** In every reachable state a chain has a registered note exactly when the
    note is registered for the chain, so a note speaks for one chain and a
    chain is reached through one note; and every registered chain is a valid
    name. *)
Theorem infra_bijection (s : State) (Hs : reachable s) :
  (∀ c n, (∃ i, ibc_infra s !! c = Some i ∧ polytone_note i = n) ↔
     reverse_polytone_note s !! n = Some c) ∧
  (∀ c i c' i', ibc_infra s !! c = Some i → ibc_infra s !! c' = Some i' →
     polytone_note i = polytone_note i' → c = c') ∧
  (∀ c, is_Some (ibc_infra s !! c) → chain_verify c = Ok tt).
Proof.
  assert (infra_inverse s) as [Hinv Hv].
  { induction Hs as [info r s Hrun|Q R env info msg r s s' _ IH Hrun|id x r s s' _ IH Hrun
      |msg r s s' _ IH Hrun|r s s' _ IH Hrun].
    - unfold instantiate in Hrun. inv_ok. split; [|apply map_Forall_empty].
      intros c n. simpl. by rewrite !lookup_empty.
    - by eapply execute_infra.
    - refine ((_ : Preserves infra_inverse (reply id x)) s r s' IH Hrun).
      unfold reply, save_callback_actions. preserve.
    - refine ((_ : Preserves infra_inverse (sudo msg)) s r s' IH Hrun).
      unfold sudo, ics20_hook_callback, load_packet, remove_packet. preserve.
    - refine ((_ : Preserves infra_inverse migrate) s r s' IH Hrun). unfold migrate. preserve. }
  assert (∀ c n, (∃ i, ibc_infra s !! c = Some i ∧ polytone_note i = n) ↔
    reverse_polytone_note s !! n = Some c) as Hboth.
  { intros c n. rewrite <-Hinv. rewrite fmap_Some. naive_solver. }
  split_and!; [done|..].
  - intros c i c' i' Hc Hc' Hn.
    assert (reverse_polytone_note s !! polytone_note i = Some c) as E1 by (apply Hboth; eauto).
    assert (reverse_polytone_note s !! polytone_note i = Some c') as E2 by (apply Hboth; eauto).
    congruence.
  - intros c [i Hi]. by apply (Hv c i).
Qed.

(** ** Remote accounts *)

(** The callback a request of the client carries. *)
Definition callback_of (m : ClientMsg) : option IbcClientCallback :=
  match m with
  | NoteExecute _ _ (Some c) _ | NoteQuery _ _ c _ => callback_from_json (request_msg c)
  | _ => None
  end.
Lemma handle_callback_accounts c chain m s r s' :
  handle_callback c chain m s = Ok (r, s') →
  accounts s' = accounts s ∨
  ∃ id er x a, m = CreateAccount id ∧ callback_result c = CallbackExecute (ExecutionSuccess er) ∧
    head (result er) = Some x ∧ created_address x = Some a ∧
    accounts s' = <[(akey id, chain) := a]> (accounts s).
Proof.
  unfold handle_callback. intros Hrun. destruct m; inv_ok; [by left..| |].
  - right. repeat (case_match; inv_ok; try done). by eauto 10.
  - left. repeat (case_match; inv_ok; try done).
Qed.

Definition keeps_accounts {A} (m : M State IbcClientError A) : Prop :=
  ∀ acc, Preserves (λ s, accounts s = acc) m.
Lemma execute_keeps_remote_accounts (Q : Querier) (R : Registries) env info msg :
  (∀ c, msg ≠ ReceiveCallback c) → keeps_accounts (execute env info msg).
Proof.
  intros Hmsg acc. destruct msg; simpl; [..|by destruct (Hmsg c)];
    unfold execute_update_ownership, execute_register_infrastructure, execute_remove_host, assert_owner,
      execute_send_funds, execute_send_funds_with_actions,
      execute_register_account, execute_send_module_to_module_packet, execute_send_query,
      execute_send_packet, send_remote_host_action, own_registry, verify_chain, load_infra,
      sdk_account_id, ics20_channel; preserve.
Qed.

Section requests.
Context {Q : Querier} {R : Registries}.

Lemma assert_account_Ok registry a a' : assert_account registry a = Ok a' ↔
  a' = a ∧ ∃ id st, account_id_of a = Some id ∧ registry_state registry = Some st ∧
    account_addresses st !! akey id = Some a.
Proof.
  unfold assert_account, unchecked_account_id, registry_account, raw_query. split.
  - intros Hrun. inv_ok. case_decide as Hne; [done|]. inv_ok.
    split; [done|]. eauto 10.
  - intros (-> & id & st & Hid & Hst & Ha). rewrite Hid. simpl. rewrite Hst. simpl. rewrite Ha. simpl.
    by rewrite decide_False by tauto.
Qed.

(** The sender is the account the registry has under this id. *)
Definition registered_as (a : Addr) (id : AccountId) : Prop :=
  account_id_of a = Some id ∧
  ∃ registry st, registry_state registry = Some st ∧ account_addresses st !! akey id = Some a.
Lemma assert_account_registered registry a a' id : assert_account registry a = Ok a' →
  account_id_of a' = Some id → a' = a ∧ registered_as a id.
Proof.
  intros (-> & id' & st & Hid & Hst & Ha)%assert_account_Ok Hid'. split; [done|].
  assert (id' = id) as -> by congruence. split; eauto.
Qed.

Lemma execute_register_account_Ok info env chain ns mods s r s' :
  execute_register_account info env chain ns mods s = Ok (r, s') →
  s' = s ∧ ∃ id infra action, registered_as (sender info) id ∧ ibc_infra s !! chain = Some infra ∧
    messages r = [send (NoteExecute (polytone_note infra)
      [mkRemoteMsg (remote_abstract_host infra) (HostExecute id (sender info) (Internal action))]
      (Some (mkCallbackRequest (contract_address env) (callback_to_json (CreateAccount id))))
      PACKET_LIFETIME)].
Proof.
  unfold execute_register_account, own_registry, sdk_account_id, send_remote_host_action, load_infra,
    verify_chain, query_r. intros Hrun. inv_ok.
  match goal with Ha : assert_account _ _ = Ok _, Hid : account_id_of _ = Some _ |- _ =>
    destruct (assert_account_registered _ _ _ _ Ha Hid) as [-> Hreg] end.
  split; [done|]. by eauto 10.
Qed.

Lemma execute_send_packet_Ok env info chain action s r s' :
  execute_send_packet env info chain action s = Ok (r, s') →
  s' = s ∧ ∃ id infra, registered_as (sender info) id ∧ ibc_infra s !! chain = Some infra ∧
    (∀ a, action ≠ Internal a) ∧
    messages r = [send (NoteExecute (polytone_note infra)
      [mkRemoteMsg (remote_abstract_host infra) (HostExecute id (sender info) action)]
      None PACKET_LIFETIME)].
Proof.
  unfold execute_send_packet, own_registry, sdk_account_id, send_remote_host_action, load_infra,
    verify_chain, query_r. intros Hrun. inv_ok.
  destruct action as [msgs|a|a]; inv_ok;
    (match goal with Ha : assert_account _ _ = Ok _, Hid : account_id_of _ = Some _ |- _ =>
      destruct (assert_account_registered _ _ _ _ Ha Hid) as [-> Hreg] end;
     split; [done|]; eauto 10).
Qed.

(** Only [Register] asks for the creation of an account. *)
Lemma ics_20_send_msg_no_callback env ch coin to memo m :
  ics_20_send_msg env ch coin to memo = Ok m → callback_of m = None.
Proof. unfold ics_20_send_msg. intros Hrun. inv_ok. case_match; by inv_ok. Qed.
Lemma no_creation_request `{!IbcJsonLaws} env info msg s r s' x id :
  execute env info msg s = Ok (r, s') → x ∈ messages r →
  callback_of (msg_of x) = Some (CreateAccount id) →
  ∃ chain ns mods, msg = Register chain ns mods.
Proof.
  intros Hrun Hx Hc. destruct msg; simpl in Hrun; [..|by eauto| | | | |].
  - unfold execute_update_ownership in Hrun. inv_ok. by apply not_elem_of_nil in Hx.
  - unfold execute_register_infrastructure, assert_owner, verify_chain in Hrun. inv_ok.
    apply list_elem_of_singleton in Hx as ->. simpl in Hc. by rewrite callback_json_roundtrip in Hc.
  - unfold execute_send_funds, own_registry, verify_chain in Hrun. inv_ok.
    apply list_elem_of_fmap in Hx as (y & -> & Hy). simpl in Hc.
    match goal with Ht : omapM _ _ = Ok _ |- _ => apply omapM_Ok in Ht; rename Ht into Ht' end.
    apply list_elem_of_lookup in Hy as [i Hy].
    destruct (Forall2_lookup_r _ _ _ _ _ Ht' Hy) as (coin & _ & Hm).
    apply ics_20_send_msg_no_callback in Hm. congruence.
  - unfold execute_send_funds_with_actions, own_registry, verify_chain in Hrun. inv_ok.
    apply list_elem_of_singleton in Hx as ->. simpl in Hc.
    match goal with Hm : ics_20_send_msg _ _ _ _ _ = Ok _ |- _ =>
      apply ics_20_send_msg_no_callback in Hm end. congruence.
  - unfold execute_send_module_to_module_packet, own_registry, verify_chain, load_infra in Hrun. inv_ok.
    apply list_elem_of_singleton in Hx as ->. simpl in Hc.
    destruct callback; simpl in Hc; [|done]. by rewrite callback_json_roundtrip in Hc.
  - unfold execute_send_query, verify_chain, load_infra in Hrun. inv_ok.
    apply list_elem_of_singleton in Hx as ->. simpl in Hc. by rewrite callback_json_roundtrip in Hc.
  - apply execute_send_packet_Ok in Hrun as (_ & ? & ? & _ & _ & _ & Hm). rewrite Hm in Hx.
    by apply list_elem_of_singleton in Hx as ->.
  - unfold execute_remove_host, assert_owner, verify_chain in Hrun. inv_ok. by apply not_elem_of_nil in Hx.
  - unfold receive_action_callback, handle_callback in Hrun. inv_ok.
    case_match; inv_ok; try (by apply not_elem_of_nil in Hx); by apply list_elem_of_singleton in Hx as ->.
Qed.
End requests.


(** ** Transfers with actions *)

(** The packet a lifecycle notification is about. *)
Definition packet_of (m : IBCLifecycleComplete) : ICS20PacketIdentifier :=
  match m with IBCAck channel sequence _ _ | IBCTimeout channel sequence => (channel, sequence) end.
(** What the client owes for a packet: the actions, or the funds back. *)
Definition settlement (e : Addr * Coin * list string) (m : IBCLifecycleComplete) : list (SubMsg ClientMsg) :=
  match m with
  | IBCAck _ _ _ true => (λ a, send (AccountExecute e.1.1 a)) <$> e.2
  | _ => [send (ClientBankSend e.1.1 [e.1.2])]
  end.

Lemma sudo_settles m e s : ics20_account_callbacks s !! packet_of m = Some e →
  sudo m s = Ok (mkResponse "ibc_source_callback" (settlement e m),
    set_ics20_account_callbacks (delete (packet_of m) (ics20_account_callbacks s)) s).
Proof.
  intros He. destruct e as [[a c] l]. unfold sudo, ics20_hook_callback, load_packet, remove_packet.
  destruct m as [ch n k b|ch n]; simpl in He; unfold mbind, M_bind, gets, lift, modify;
    rewrite He; simpl; [by destruct b|done].
Qed.
Lemma sudo_unknown m s : ics20_account_callbacks s !! packet_of m = None →
  sudo m s = Err (IcStd (StdNotFound "ics20_account_callbacks")).
Proof.
  intros He. unfold sudo, ics20_hook_callback, load_packet. destruct m as [ch n k b|ch n]; simpl in He;
    unfold mbind, M_bind, gets, lift; by rewrite He.
Qed.
Lemma execute_keeps_packets (Q : Querier) (R : Registries) env info msg p :
  Preserves (λ s, ics20_account_callbacks s = p) (execute env info msg).
Proof.
  destruct msg; simpl;
    unfold execute_update_ownership, execute_register_infrastructure, execute_remove_host, assert_owner,
      execute_send_funds, execute_send_funds_with_actions, execute_register_account,
      execute_send_module_to_module_packet, execute_send_query, execute_send_packet,
      send_remote_host_action, own_registry, verify_chain, load_infra, sdk_account_id, ics20_channel,
      receive_action_callback, handle_callback; preserve.
Qed.

Lemma send_funds_with_actions_Ok `{!CwUtilsLaws} (Q : Querier) (R : Registries) env info chain actions s r s' :
  execute_send_funds_with_actions env info chain actions s = Ok (r, s') →
  ∃ ch coin id host timeout, funds info = [coin] ∧ registered_as (sender info) id ∧
    messages r = [reply_on_success (StargateTransfer (mkMsgTransfer ch coin (contract_address env) host
      timeout (memo_to_json (mkHookMemoBuilder host
        (Fund id (from_chain_id (chain_id (block env)))) (Some (contract_address env))))))
      SEND_FUNDS_WITH_ACTIONS_REPLY_ID] ∧
    s' = set_ics20_account_callback_payload (Some (mkPayload ch (sender info) coin actions)) s.
Proof.
  unfold execute_send_funds_with_actions, own_registry, sdk_account_id, load_infra, verify_chain,
    query_r, ics20_channel. intros Hrun. inv_ok.
  match goal with Ha : assert_account _ _ = Ok _, Hid : account_id_of _ = Some _ |- _ =>
    destruct (assert_account_registered _ _ _ _ Ha Hid) as [-> Hreg] end.
  match goal with Hc : one_coin _ = Some _ |- _ => apply one_coin_spec in Hc end.
  match goal with Hm : ics_20_send_msg _ _ _ _ _ = Ok _ |- _ => unfold ics_20_send_msg in Hm end. inv_ok.
  by eauto 15.
Qed.

End proofs.
