(* ===== verification/IbcHost.v ===== *)
(** * The IBC host contract

    framework/contracts/native/ibc-host: endpoints/*.rs, account_commands.rs,
    contract.rs and error.rs, on the state of
    abstract-std/src/native/ibc/ibc_host.rs.  The proxies of other chains act
    through it on the accounts it creates for accounts of those chains, and
    their modules call the modules of this chain.  The theorems are in
    IbcHostProofs.v. *)

From S2P Require Import Prelude Cosmos Strings Objects Names AccountIds Fees ModuleFactory Ownership AnsObjects Ans AnsClient Registry Clients Account Ibc.
From Stdlib Require Import Ascii String.
#[local] Open Scope string_scope.
#[local] Open Scope list_scope.
#[local] Open Scope Z_scope.

Definition CONTRACT_VERSION : string := "0.26.1".
Definition INIT_BEFORE_ACTION_REPLY_ID : Z := 28379.
Definition RESPONSE_REPLY_ID : Z := 362738.

(** [error.rs] *)
Inductive HostError : Type :=
  | HoStd (e : StdError)
  | HoAbstract (e : AbstractError)
  | HoOwnership (e : OwnershipError)
  | HoRegistry (e : RegistryQueryError)
  | HoAnsHost (e : AnsHostError)
  | HoInstantiate2Address
  | ProxyAddressExists
  | WrongModuleAction (msg : string).

(** ** State and messages *)

Section state.
Context `{Semver, Api, Instantiate2, CwOwnable, CoinsOps, Sha256}.

Record ActionAfterCreationCache := mkActionCache {
  cache_client_account_address : string;
  cache_account_id : AccountId;
  cache_action : HostAction;
  cache_chain_name : TruncatedChainId
}.
Record State := mkState {
  contract_version : option ContractVersion;
  module_data : option ModuleData;
  cw_ownership : option ownable;
  chain_proxies : gmap TruncatedChainId Addr;
  reverse_chain_proxies : gmap Addr TruncatedChainId;
  temp_action_after_creation : option ActionAfterCreationCache
}.
Definition set_contract_version (v : option ContractVersion) (s : State) : State :=
  mkState v (module_data s) (cw_ownership s) (chain_proxies s) (reverse_chain_proxies s)
    (temp_action_after_creation s).
Definition set_module_data (v : option ModuleData) (s : State) : State :=
  mkState (contract_version s) v (cw_ownership s) (chain_proxies s) (reverse_chain_proxies s)
    (temp_action_after_creation s).
Definition set_cw_ownership (v : option ownable) (s : State) : State :=
  mkState (contract_version s) (module_data s) v (chain_proxies s) (reverse_chain_proxies s)
    (temp_action_after_creation s).
Definition set_chain_proxies (v : gmap TruncatedChainId Addr) (s : State) : State :=
  mkState (contract_version s) (module_data s) (cw_ownership s) v (reverse_chain_proxies s)
    (temp_action_after_creation s).
Definition set_reverse_chain_proxies (v : gmap Addr TruncatedChainId) (s : State) : State :=
  mkState (contract_version s) (module_data s) (cw_ownership s) (chain_proxies s) v
    (temp_action_after_creation s).
Definition set_temp_action_after_creation (v : option ActionAfterCreationCache) (s : State) : State :=
  mkState (contract_version s) (module_data s) (cw_ownership s) (chain_proxies s)
    (reverse_chain_proxies s) v.
Definition empty_state : State := mkState None None None ∅ ∅ None.

(** The messages the host sends: the messages the account contract sends too,
    calls of an account, and calls of a module on behalf of a module. *)
Inductive HostMsg : Type :=
  | HostCosmos (m : CosmosMsg)
  | AccountCall (account : Addr) (msg : Account.ExecuteMsg)
  | ModuleIbc (module : Addr) (src_chain : TruncatedChainId) (src_module : ModuleInfo) (msg : string).
End state.

(** [AccountId::push_chain] *)
Definition push_account_chain (id : AccountId) (chain : TruncatedChainId) : AccountId :=
  mkAccountId (push_chain (acc_trace id) chain) (acc_seq id).

Section host.
Context `{Semver, Api, Instantiate2, CwOwnable, CoinsOps, Sha256, CwAsset}.
Context `{!Querier, !Registries, !AnsHosts, !Accounts, !IbcJson, !CwUtils}.

Abbreviation HoM := (M State HostError).
Abbreviation HoResponse := (Response HostMsg).

Definition assert_owner (info : MessageInfo) : HoM unit :=
  o ← gets cw_ownership;
  o ← lift (ok_or o (HoStd (StdNotFound "ownership")));
  lift (map_err HoOwnership (cw_assert_owner o (sender info))).

(** ** Accounts of other chains (account_commands.rs) *)

(** [get_account] *)
Definition get_account (env : Env) (account_id : AccountId) : outcome HostError Addr :=
  code_id ← map_err HoStd (abstract_code_id (contract_address env));
  registry ← map_err HoAbstract (registry_new code_id);
  map_err HoRegistry (registry_account registry account_id).

(** The message that instantiates the account. *)
Definition create_account_msg (env : Env) (code_id : Z) (account_id : AccountId)
    (name description link namespace : option string) (install_modules : list ModuleInstallConfig) :
    AccountInstantiateMsg :=
  mkAccountInit code_id (Some (External (contract_address env) "abstract-ibc")) (Some account_id)
    namespace install_modules name description link.

Definition receive_register (env : Env) (account_id : AccountId)
    (name description link namespace : option string) (install_modules : list ModuleInstallConfig)
    (with_reply : bool) (funds : list Coin) : outcome HostError HoResponse :=
  abstract_id ← map_err HoStd (abstract_code_id (contract_address env));
  registry ← map_err HoAbstract (registry_new abstract_id);
  map_err HoAbstract (verify_remote (acc_trace account_id)) ≫= λ _,
  let salt := account_id_to_json account_id in
  account_module_info ← map_err HoAbstract (module_info_from_id_latest ACCOUNT);
  m ← map_err HoRegistry (registry_query_module registry account_module_info);
  code_id ← match mod_reference m with
    | RefAccount code_id => Ok code_id
    | _ => Err (HoRegistry (RqInvalidReference account_module_info))
    end;
  code_info ← map_err HoStd (query_r (wasm_code_info code_id));
  self_canon_addr ← map_err HoStd (ok_or (addr_canonicalize (contract_address env)) (StdMsg "invalid address"));
  account_canon_addr ← ok_or (instantiate2_address (code_checksum code_info) self_canon_addr salt)
    HoInstantiate2Address;
  account_addr ← map_err HoStd (ok_or (addr_humanize account_canon_addr) (StdMsg "invalid address"));
  let account_creation_message := HostCosmos (WasmInstantiate2 (Some account_addr) code_id
    (show_account_id account_id)
    (ToNewAccount (create_account_msg env code_id account_id name description link namespace
      install_modules)) funds salt) in
  Ok (mkResponse "register" [if with_reply
    then reply_on_success account_creation_message INIT_BEFORE_ACTION_REPLY_ID
    else send account_creation_message]).

Definition receive_dispatch (account : Addr) (account_msgs : list Account.ExecuteMsg) : HoResponse :=
  mkResponse "receive_dispatch"
    ((λ m, reply_on_success (AccountCall account m) RESPONSE_REPLY_ID) <$> account_msgs).

(** [send_all_back]: the loop over the coins is commented out in the source. *)
Definition send_all_back (env : Env) (account : Addr) (src_chain : TruncatedChainId) :
    outcome HostError HostMsg :=
  code_id ← map_err HoStd (abstract_code_id (contract_address env));
  ans ← map_err HoAbstract (ans_host_new code_id);
  _ ← map_err HoAnsHost (AnsClient.query_channel ans (mkChannelEntry src_chain ICS20));
  Ok (AccountCall account (Account.Execute [])).
Definition receive_send_all_back (env : Env) (account : Addr) (src_chain : TruncatedChainId) :
    outcome HostError HoResponse :=
  wasm_msg ← send_all_back env account src_chain;
  Ok (mkResponse "receive_dispatch" [send wasm_msg]).

(** ** Packets (endpoints/packet.rs) *)

(** The name of an account created on the fly. *)
Definition default_account_name (src_chain : TruncatedChainId) (account_id : AccountId) : string :=
  "Remote Abstract Account for " +:+ src_chain +:+ "/" +:+ show_account_id account_id.

Definition handle_host_action (env : Env) (src_chain : TruncatedChainId) (account_address : string)
    (received_account_id : AccountId) (host_action : HostAction) : HoM HoResponse :=
  let account_id := push_account_chain received_account_id src_chain in
  match host_action with
  | Internal (RegisterAccount name description link namespace install_modules) =>
      lift (receive_register env account_id name description link namespace install_modules false [])
  | Dispatch _ | Helpers _ =>
      match get_account env account_id with
      | Ok account =>
          match host_action with
          | Dispatch account_msgs => mret (receive_dispatch account account_msgs)
          | Helpers SendAllBack => lift (receive_send_all_back env account src_chain)
          | Internal _ => trap
          end
      | Panic => trap
      | Err _ =>
          modify (set_temp_action_after_creation (Some (mkActionCache account_address
            received_account_id host_action src_chain))) ≫= λ _,
          lift (receive_register env account_id (Some (default_account_name src_chain account_id))
            None None None [] true [])
      end
  end.

(** [client_to_host_module_account_id]; the last chain of an empty trace traps. *)
Definition client_to_host_module_account_id {E} (env : Env) (remote_chain : TruncatedChainId)
    (account_id : AccountId) : outcome E AccountId :=
  match acc_trace account_id with
  | Local => Ok (push_account_chain account_id remote_chain)
  | Remote trace =>
      let current_chain_name := from_chain_id (chain_id (block env)) in
      l ← unwrap (last trace);
      if decide (current_chain_name = l) then
        let trace := removelast trace in
        Ok (mkAccountId (if decide (trace = []) then Local else Remote trace) (acc_seq account_id))
      else Ok (mkAccountId (Remote (trace ++ [remote_chain])) (acc_seq account_id))
  end.

Definition handle_module_execute (env : Env) (src_chain : TruncatedChainId)
    (source_module : InstalledModuleIdentification) (target_module : ModuleInfo) (msg : string) :
    outcome HostError HoResponse :=
  code_id ← map_err HoStd (abstract_code_id (contract_address env));
  registry ← map_err HoAbstract (registry_new code_id);
  account_id ← match im_account_id source_module with
    | Some a => a ← client_to_host_module_account_id env src_chain a; Ok (Some a)
    | None => Ok None
    end;
  target ← map_err HoAbstract (installed_module_addr (mkInstalledModule target_module account_id) registry);
  match ma_reference target with
  | RefAccount _ | RefNative _ | RefService _ =>
      Err (WrongModuleAction "Can't send module-to-module message to an account, service or a native module")
  | _ => Ok tt
  end ≫= λ _,
  Ok (mkResponse "module-ibc-call"
    [send (ModuleIbc (ma_address target) src_chain (im_module_info source_module) msg)]).

Definition handle_host_module_query (env : Env) (target_module : InstalledModuleIdentification)
    (msg : string) : outcome HostError string :=
  code_id ← map_err HoStd (abstract_code_id (contract_address env));
  registry ← map_err HoAbstract (registry_new code_id);
  target ← map_err HoAbstract (installed_module_addr target_module registry);
  ok_or (smart_query_of (ma_address target) msg) (HoStd (StdMsg "Querier contract error")).

(** ** Execution (endpoints/execute.rs) *)

Definition register_chain_proxy (info : MessageInfo) (chain : TruncatedChainId) (proxy : string) :
    HoM HoResponse :=
  assert_owner info ≫= λ _,
  lift (map_err HoAbstract (chain_verify chain)) ≫= λ _,
  proxy ← lift (map_err HoStd (addr_validate_r proxy));
  p ← gets (λ s, chain_proxies s !! chain);
  c ← gets (λ s, reverse_chain_proxies s !! proxy);
  ensure (negb (bool_decide (p ≠ None ∨ c ≠ None))) ProxyAddressExists ≫= λ _,
  modify (λ s, set_chain_proxies (<[chain := proxy]> (chain_proxies s)) s) ≫= λ _,
  modify (λ s, set_reverse_chain_proxies (<[proxy := chain]> (reverse_chain_proxies s)) s) ≫= λ _,
  mret (mkResponse "register_chain_client" []).
Definition remove_chain_proxy (info : MessageInfo) (chain : TruncatedChainId) : HoM HoResponse :=
  assert_owner info ≫= λ _,
  lift (map_err HoAbstract (chain_verify chain)) ≫= λ _,
  o ← gets (λ s, chain_proxies s !! chain);
  match o with
  | Some proxy =>
      modify (λ s, set_reverse_chain_proxies (delete proxy (reverse_chain_proxies s)) s)
  | None => mret tt
  end ≫= λ _,
  modify (λ s, set_chain_proxies (delete chain (chain_proxies s)) s) ≫= λ _,
  mret (mkResponse "register_chain_client" []).
(** [REVERSE_CHAIN_PROXIES.load(&info.sender)] *)
Definition source_chain (info : MessageInfo) : HoM TruncatedChainId :=
  o ← gets (λ s, reverse_chain_proxies s !! sender info);
  lift (ok_or o (HoStd (StdNotFound "reverse_chain_proxies"))).
Definition execute_fund (env : Env) (info : MessageInfo) (src_account : AccountId)
    (src_chain : TruncatedChainId) : outcome HostError HoResponse :=
  let account_id := push_account_chain src_account src_chain in
  match get_account env account_id with
  | Ok account => Ok (mkResponse "" [send (HostCosmos (MsgBankSend account (funds info)))])
  | Panic => Panic
  | Err _ =>
      receive_register env account_id (Some (default_account_name src_chain account_id))
        None None None [] false (funds info)
  end.
Definition execute_update_ownership (env : Env) (info : MessageInfo) (a : cw_action) : HoM HoResponse :=
  o ← gets cw_ownership;
  o ← lift (ok_or o (HoOwnership CwOther));
  o' ← lift (map_err HoOwnership (cw_update_ownership o (block env) (sender info) a));
  modify (set_cw_ownership (Some o')) ≫= λ _,
  mret (mkResponse "update_ownership" []).
Definition execute (env : Env) (info : MessageInfo) (msg : HostExecuteMsg) : HoM HoResponse :=
  match msg with
  | RegisterChainProxy chain proxy => register_chain_proxy info chain proxy
  | RemoveChainProxy chain => remove_chain_proxy info chain
  | HostExecute account_id account_address action =>
      src_chain ← source_chain info;
      handle_host_action env src_chain account_address account_id action
  | HostUpdateOwnership action => execute_update_ownership env info action
  | ModuleExecute source_module target_module msg =>
      src_chain ← source_chain info;
      lift (handle_module_execute env src_chain source_module target_module msg)
  | Fund src_account src_chain => lift (execute_fund env info src_account src_chain)
  end.

(** ** Replies, instantiation and migration *)

(** [reply_execute_action] *)
Definition reply_execute_action (env : Env) : HoM HoResponse :=
  o ← gets temp_action_after_creation;
  action_cache ← lift (ok_or o (HoStd (StdNotFound "temp_action_after_creation")));
  modify (set_temp_action_after_creation None) ≫= λ _,
  handle_host_action env (cache_chain_name action_cache) (cache_client_account_address action_cache)
    (cache_account_id action_cache) (cache_action action_cache).
(** [reply_forward_response_data]: the data set on the response, if any. *)
Definition reply_forward_response_data (r : outcome string (option string)) : option string :=
  match r with
  | Ok data =>
      match parse_execute_response_data (default "" data) with Some (Some data) => Some data | _ => None end
  | _ => None
  end.
(** [reply]: the response, and the data it carries. *)
Definition reply (env : Env) (id : Z) (r : outcome string (option string)) :
    HoM (HoResponse * option string) :=
  if decide (id = INIT_BEFORE_ACTION_REPLY_ID) then x ← reply_execute_action env; mret (x, None)
  else if decide (id = RESPONSE_REPLY_ID) then
    mret (mkResponse "forward_response_data_reply" [], reply_forward_response_data r)
  else fail (HoStd (StdMsg "Not implemented")).

Definition instantiate (info : MessageInfo) : HoM HoResponse :=
  modify (set_contract_version (Some (mkContractVersion IBC_HOST CONTRACT_VERSION))) ≫= λ _,
  o ← lift (ok_or (cw_initialize_owner (sender info)) (HoStd (StdMsg "invalid address")));
  modify (set_cw_ownership (Some o)) ≫= λ _,
  mret (mkResponse "instantiate" []).
Definition migrate : HoM HoResponse :=
  to_version ← lift (unwrap (parse_version CONTRACT_VERSION));
  cv ← gets contract_version;
  lift (map_err HoAbstract (assert_cw_contract_upgrade cv IBC_HOST to_version)) ≫= λ _,
  modify (set_contract_version (Some (mkContractVersion IBC_HOST CONTRACT_VERSION))) ≫= λ _,
  modify (λ s, set_module_data
    (Some (migrate_module_data (module_data s) IBC_HOST CONTRACT_VERSION None)) s) ≫= λ _,
  mret (mkResponse "migrate" []).

(** ** Queries (endpoints/query.rs) *)

(** ANS host, module factory and registry *)
Definition config (env : Env) : outcome HostError (Addr * Addr * Addr) :=
  code_id ← map_err HoStd (abstract_code_id (contract_address env));
  ans_host ← map_err HoAbstract (ans_host_new code_id);
  module_factory ← map_err HoAbstract (module_factory_new code_id);
  registry ← map_err HoAbstract (registry_new code_id);
  Ok (ans_host, module_factory, registry).
Definition registered_chains (s : State) (start_after : option string) (limit : option Z) :
    outcome HostError (list (TruncatedChainId * Addr)) :=
  start ← match start_after with
    | Some c => c ← map_err HoAbstract (chain_from_string c); Ok (Some c)
    | None => Ok None
    end;
  Ok (take (page_length limit) (range text_lt start (map_to_list (chain_proxies s)))).
Definition associated_client (s : State) (chain : string) : outcome HostError Addr :=
  c ← map_err HoAbstract (chain_from_string chain);
  ok_or (chain_proxies s !! c) (HoStd (StdNotFound "chain_proxies")).
End host.
