(* ===== verification/Sdk.v ===== *)
(** * What abstract-sdk gives every module

    abstract-sdk/src/base (contract_base.rs, handler.rs, endpoints/*.rs), the
    verification of accounts (apis/verify.rs), and the static dependencies of a
    module (abstract-std/src/objects/dependency.rs).

    A module is a value of [AbstractContract] with the handlers its developer
    supplied; the base decides who reaches them.  The developer's types and the
    storage are parameters, and so is [Self], the part of the module object that
    the base sets before it calls a handler: the target account of an adapter,
    and nothing for an app. *)

From S2P Require Import Prelude Cosmos Strings Objects Names AccountIds Fees ModuleFactory Ownership Registry Clients Account Ibc.
From Stdlib Require Import Ascii String.
#[local] Open Scope string_scope.
#[local] Open Scope list_scope.
#[local] Open Scope Z_scope.

(** ** Static dependencies *)

(** [Comparator::parse] of semver *)
Class ComparatorParse `{Semver} := parse_comparator : string → option comparator.

Record StaticDependency := mkStaticDependency { sd_id : string; sd_version_req : list string }.

Section dependencies.
Context `{ComparatorParse}.
(** [StaticDependency::check]; the error is [semver::Error]. *)
Definition dependency_check (d : StaticDependency) : outcome unit unit :=
  ofor (sd_version_req d) (λ req, map_err (λ _, tt) (_ ← ok_or (parse_comparator req) tt; Ok tt)).
(** [StaticDependency::matches]: a requirement that does not parse traps, when
    the ones before it match. *)
Fixpoint requirements_match {E} (reqs : list string) (v : version) : outcome E bool :=
  match reqs with
  | [] => Ok true
  | req :: reqs =>
      c ← unwrap (parse_comparator req);
      if comparator_matches c v then requirements_match reqs v else Ok false
  end.
Definition dependency_matches {E} (d : StaticDependency) (v : version) : outcome E bool :=
  requirements_match (sd_version_req d) v.
(** [Dependency::from]: every requirement is parsed with [unwrap]. *)
Definition dependency_from {E} (d : StaticDependency) : outcome E Dependency :=
  reqs ← omapM (λ req, unwrap (parse_comparator req)) (sd_version_req d);
  Ok (mkDependency (sd_id d) reqs).
End dependencies.

(** ** Errors of a module *)

(** [ContractError]: the errors of the base are errors of the module. *)
Class ContractError (Error : Type) := {
  from_std : StdError → Error;
  from_sdk : SdkError → Error;
  from_abstract : AbstractError → Error
}.

(** ** Handlers (base/contract_base.rs, base/handler.rs) *)

Section handlers.
Context {Self St Error Msg InitMsg ExecMsg QueryMsg MigrateMsg SudoMsg : Type}.
Context `{!ContractError Error}.

Abbreviation Run A := (M St Error A).
Abbreviation ModResponse := (Response Msg).

Definition InstantiateHandlerFn : Type := Env → MessageInfo → Self → InitMsg → Run ModResponse.
Definition ExecuteHandlerFn : Type := Env → MessageInfo → Self → ExecMsg → Run ModResponse.
Definition QueryHandlerFn : Type := Env → Self → QueryMsg → St → outcome Error string.
Definition IbcCallbackHandlerFn : Type := Env → Self → Callback → IbcResult → Run ModResponse.
Definition ModuleIbcHandlerFn : Type := Env → Self → ModuleIbcInfo → string → Run ModResponse.
Definition MigrateHandlerFn : Type := Env → Self → MigrateMsg → Run ModResponse.
Definition SudoHandlerFn : Type := Env → Self → SudoMsg → Run ModResponse.
(** A [Reply], as far as its result. *)
Definition ReplyHandlerFn : Type := Env → Self → outcome string (option string) → Run ModResponse.

(** [AbstractContract]; the two lists of reply handlers are those of the base
    and those of the module. *)
Record AbstractContract := mkContract {
  info : string * string * option string;
  dependencies : list StaticDependency;
  maybe_instantiate_handler : option InstantiateHandlerFn;
  maybe_execute_handler : option ExecuteHandlerFn;
  maybe_query_handler : option QueryHandlerFn;
  maybe_migrate_handler : option MigrateHandlerFn;
  maybe_sudo_handler : option SudoHandlerFn;
  reply_handlers : list (Z * ReplyHandlerFn) * list (Z * ReplyHandlerFn);
  maybe_ibc_callback_handler : option IbcCallbackHandlerFn;
  maybe_module_ibc_handler : option ModuleIbcHandlerFn
}.
Definition module_name (c : AbstractContract) : string := (info c).1.1.
Definition module_version_string (c : AbstractContract) : string := (info c).1.2.
Definition module_metadata (c : AbstractContract) : option string := (info c).2.

Definition execute_handler (c : AbstractContract) : outcome SdkError ExecuteHandlerFn :=
  ok_or (maybe_execute_handler c) (SdkMissingHandler "execution handler").
Definition query_handler (c : AbstractContract) : outcome SdkError QueryHandlerFn :=
  ok_or (maybe_query_handler c) (SdkMissingHandler "query").
(** [maybe_reply_handler]: the first handler of the id, the base's before the
    module's. *)
Definition maybe_reply_handler (c : AbstractContract) (id : Z) : option ReplyHandlerFn :=
  snd <$> head (filter (λ h, h.1 = id) ((reply_handlers c).1 ++ (reply_handlers c).2)).
Definition reply_handler (c : AbstractContract) (id : Z) : outcome SdkError ReplyHandlerFn :=
  ok_or (maybe_reply_handler c id) (SdkMissingHandler ("reply with id " +:+ pretty id)).

(** ** Endpoints (base/endpoints/*.rs) *)

(** [IbcCallbackEndpoint::ibc_callback], for the address of the IBC client the
    module finds *)
Definition ibc_callback (c : AbstractContract) (self : Self) (ibc_client_addr : outcome Error Addr)
    (env : Env) (i : MessageInfo) (msg : IbcResponseMsg) : Run ModResponse :=
  ensure (existsb (λ d, bool_decide (sd_id d = IBC_CLIENT)) (dependencies c))
    (from_sdk (SdkStd (StdMsg ("Ibc Client is not dependency of " +:+ module_name c)))) ≫= λ _,
  ibc_client ← lift ibc_client_addr;
  ensure (bool_decide (sender i = ibc_client))
    (from_sdk (SdkCallbackNotCalledByIbcClient (sender i) ibc_client (module_name c))) ≫= λ _,
  ibc_callback_handler ← lift (ok_or (maybe_ibc_callback_handler c)
    (from_sdk (SdkNoModuleIbcHandler (module_name c))));
  ibc_callback_handler env self (response_callback msg) (response_result msg).
(** [ModuleIbcEndpoint::module_ibc], for the address of the IBC host *)
Definition module_ibc (c : AbstractContract) (self : Self) (ibc_host : outcome Error Addr)
    (env : Env) (i : MessageInfo) (msg : ModuleIbcMsg) : Run ModResponse :=
  ibc_host ← lift ibc_host;
  ensure (bool_decide (sender i = ibc_host))
    (from_sdk (SdkModuleIbcNotCalledByHost (sender i) ibc_host (module_name c))) ≫= λ _,
  handler ← lift (ok_or (maybe_module_ibc_handler c) (from_sdk (SdkNoModuleIbcHandler (module_name c))));
  handler env self (src_module_info msg) (module_ibc_msg msg).
(** [ReplyEndpoint::reply], [SudoEndpoint::sudo] *)
Definition reply (c : AbstractContract) (self : Self) (env : Env) (id : Z)
    (r : outcome string (option string)) : Run ModResponse :=
  handler ← lift (map_err from_sdk (reply_handler c id));
  handler env self r.
Definition sudo (c : AbstractContract) (self : Self) (env : Env) (msg : SudoMsg) : Run ModResponse :=
  match maybe_sudo_handler c with
  | None => fail (from_sdk (SdkMissingHandler "sudo"))
  | Some f => f env self msg
  end.
End handlers.
Arguments AbstractContract : clear implicits.

(** [ExecuteMsg] of base.rs *)
Inductive BaseMsg (Base Custom : Type) : Type :=
  | Base_ (m : Base)
  | Module_msg (m : Custom)
  | IbcCallbackMsg (m : IbcResponseMsg)
  | ModuleIbcCall (m : ModuleIbcMsg).
Arguments Base_ {Base Custom} m.
Arguments Module_msg {Base Custom} m.
Arguments IbcCallbackMsg {Base Custom} m.
Arguments ModuleIbcCall {Base Custom} m.

(** ** Accounts and native contracts *)

Section verify.
Context `{Semver, Api, Instantiate2, CwOwnable, !Querier, !Registries}.

(** [AccountRegistry::assert_is_account] *)
Definition assert_is_account (registry : Addr) (maybe_account : Addr) : outcome SdkError Addr :=
  map_err (SdkApiQuery "AccountRegistry") (assert_account registry maybe_account).
(** [AccountRegistry::assert_is_account_admin] *)
Definition assert_is_account_admin (env : Env) (registry : Addr) (maybe_account : Addr) :
    outcome SdkError Addr :=
  account ← assert_is_account registry maybe_account;
  guard_or (assert_account_calling_to_as_admin_is_self env maybe_account) SdkOnlyAdmin ≫= λ _,
  Ok account.

(** [ibc_client_addr] and [ibc_host] of apps and adapters: the native contract
    the registry has under the id, at the version the module was built with. *)
Definition native_addr {Error} `{!ContractError Error} (registry : outcome SdkError Addr)
    (id version : string) : outcome Error Addr :=
  registry ← map_err from_sdk registry;
  i ← map_err from_abstract (module_info_from_id id (Version version));
  m ← map_err (λ e, from_abstract (AbsRegistry e)) (registry_query_module registry i);
  map_err from_abstract (unwrap_native (mod_reference m)).
End verify.

(** ** Lemmas *)

Section lemmas.
Context {Self St Error Msg InitMsg ExecMsg QueryMsg MigrateMsg SudoMsg : Type}.
Context `{!ContractError Error}.
Implicit Types c : AbstractContract Self St Error Msg InitMsg ExecMsg QueryMsg MigrateMsg SudoMsg.

Lemma ibc_callback_Ok c self client env i msg s x :
  ibc_callback c self client env i msg s = Ok x →
  client = Ok (sender i) ∧ (∃ d, d ∈ dependencies c ∧ sd_id d = IBC_CLIENT) ∧
  ∃ h, maybe_ibc_callback_handler c = Some h ∧
    h env self (response_callback msg) (response_result msg) s = Ok x.
Proof.
  destruct x as [r s']. unfold ibc_callback. intros Hrun. inv_ok.
  match goal with Hb : bool_decide _ = true |- _ => apply bool_decide_eq_true in Hb end.
  match goal with He : existsb _ _ = true |- _ => apply existsb_exists in He as (d & Hd & Hid) end.
  apply bool_decide_eq_true in Hid. subst. split; [done|]. split; [|by eauto].
  exists d. split; [by apply list_elem_of_In|done].
Qed.
Lemma module_ibc_Ok c self host env i msg s x :
  module_ibc c self host env i msg s = Ok x →
  host = Ok (sender i) ∧
  ∃ h, maybe_module_ibc_handler c = Some h ∧
    h env self (src_module_info msg) (module_ibc_msg msg) s = Ok x.
Proof.
  destruct x as [r s']. unfold module_ibc. intros Hrun. inv_ok.
  match goal with Hb : bool_decide _ = true |- _ => apply bool_decide_eq_true in Hb end.
  subst. by eauto.
Qed.
End lemmas.

Section verify_lemmas.
Context `{Semver, Api, Instantiate2, CwOwnable, !Querier, !Registries}.
(** The registry vouches for an account: it has the account's address under the
    id the account itself reports. *)
Definition registered_account (registry a : Addr) : Prop :=
  ∃ id s, account_id_of a = Some id ∧ registry_state registry = Some s ∧
    account_addresses s !! akey id = Some a.
Lemma assert_is_account_Ok registry a b :
  assert_is_account registry a = Ok b ↔ b = a ∧ registered_account registry a.
Proof.
  unfold assert_is_account, assert_account, unchecked_account_id, registry_account, raw_query, registered_account.
  rewrite map_err_Ok. split.
  - intros Hrun. inv_ok. case_decide; inv_ok. naive_solver.
  - intros (-> & id & s & Hid & Hs & Ha). rewrite Hid. simpl. rewrite Hs. simpl. rewrite Ha. simpl.
    by rewrite decide_False by auto.
Qed.
End verify_lemmas.
