(* ===== verification/SdkApis.v ===== *)
(** * The APIs of abstract-sdk an app acts with

    abstract-sdk/src/apis/bank.rs and execution.rs, account_action.rs,
    base/features/executor.rs and base/endpoints/execute.rs: transfers from and
    to the account of a module, and the messages a module has its account run. *)

From S2P Require Import Prelude Cosmos Strings Objects Names AccountIds Fees ModuleFactory Ownership AnsObjects Ans AnsClient Registry Clients Account Ibc.
From Stdlib Require Import Ascii String.
#[local] Open Scope string_scope.
#[local] Open Scope list_scope.
#[local] Open Scope Z_scope.

(** Assets of [cw_asset] as messages: the message that transfers an amount
    names the recipient, and is a bank transfer for a native denomination. *)
Class CwAssetMsgs `{CwAsset, CwOwnable} := {
  asset_native : string → asset_info;
  asset_cw20 : Addr → asset_info;
  show_asset_info : asset_info → string;
  asset_transfer_msg : asset_info → Z → Addr → option CosmosMsg
}.
Class CwAssetMsgsLaws `{CwAssetMsgs} : Prop := {
  asset_native_inj d e : asset_native d = asset_native e → d = e;
  native_transfer d n a : asset_transfer_msg (asset_native d) n a = Some (MsgBankSend a [mkCoin d n])
}.

(** What kind of asset a description is ([AssetInfo::Native], [AssetInfo::Cw20];
    the type is not exhaustive). *)
Inductive AssetKind : Type := IsNative (denom : string) | IsCw20 (token : Addr) | IsOther.
Class CwAssetKinds `{CwAssetMsgs} := { asset_kind : asset_info → AssetKind }.
Class CwAssetKindsLaws `{CwAssetKinds} : Prop := {
  kind_native i d : asset_kind i = IsNative d ↔ i = asset_native d;
  kind_cw20 i a : asset_kind i = IsCw20 a ↔ i = asset_cw20 a
}.

(** The unchecked form of a checked description (its conversion to text). *)
Class CwAssetTexts `{CwAsset} := { asset_info_uncheck : asset_info → asset_info_unchecked }.
Class CwAssetTextsLaws `{CwAssetTexts} : Prop := {
  uncheck_check i : asset_info_check (asset_info_uncheck i) = Some i
}.
(** [AssetBase<String>] *)
Record AssetUnchecked `{CwAsset} := mkUnchecked { au_info : asset_info_unchecked; au_amount : Z }.
Arguments mkUnchecked {_} au_info au_amount.

Section apis.
Context `{CwAssetMsgs}.

Record Asset := mkAsset { as_info : asset_info; as_amount : Z }.
(** [Asset::from(coin)] *)
Definition asset_of_coin (c : Coin) : Asset := mkAsset (asset_native (denom c)) (amount c).
Definition transfer_msg (a : Asset) (recipient : Addr) : outcome SdkError CosmosMsg :=
  ok_or (asset_transfer_msg (as_info a) (as_amount a) recipient) SdkAsset.
(** [AssetBase::<String>::check], [Coin::try_from(asset)] *)
Definition asset_check (a : AssetUnchecked) : option Asset :=
  i ← asset_info_check (au_info a); Some (mkAsset i (au_amount a)).
Definition asset_to_coin `{!CwAssetKinds} (a : Asset) : option Coin :=
  match asset_kind (as_info a) with IsNative d => Some (mkCoin d (as_amount a)) | _ => None end.

(** [Chargeable for Asset] (cw_helpers/fees.rs): the amount charged, or the
    message that pays it, and the asset that is left *)
Definition charge_fee `{DecimalOps} (a : Asset) (fee : FeeShare) : outcome SdkError (Z * Asset) :=
  fee_amount ← map_err SdkAbstract (fee_compute fee (as_amount a));
  left ← sub_u (as_amount a) fee_amount;
  Ok (fee_amount, mkAsset (as_info a) left).
Definition charge_usage_fee `{DecimalOps} (a : Asset) (fee : UsageFee) :
    outcome SdkError (option CosmosMsg * Asset) :=
  fee_amount ← map_err SdkAbstract (usage_fee_compute fee (as_amount a));
  if decide (fee_amount = 0) then Ok (None, a) else
  left ← sub_u (as_amount a) fee_amount;
  m ← transfer_msg (mkAsset (as_info a) fee_amount) (uf_recipient fee);
  Ok (Some m, mkAsset (as_info a) left).

(** [Transferable] of an asset of the name service ([transferable_asset]), for
    the name service of the module *)
Definition transferable_ans `{!AnsHosts} (ans_host : outcome SdkError Addr) (a : AnsAsset) : outcome SdkError Asset :=
  host ← ans_host;
  resolved ← map_err (SdkApiAnsQuery "Transferable") (resolve_ans_asset host a);
  Ok (mkAsset resolved.1 resolved.2).

(** [name_service], of the name service of the module: it traps without one;
    [AbstractNameServiceClient::query], [registered_dexes] *)
Definition name_service {E} (ans_host : outcome SdkError Addr) : outcome E Addr := unwrap (ok ans_host).
Definition ns_query `{!AnsHosts} {T O} `{!Resolve T O} (host : Addr) (entry : T) : outcome SdkError O :=
  map_err (SdkApiAnsQuery "AbstractNameServiceClient") (resolve host entry).
Definition ns_registered_dexes `{!AnsHosts} (host : Addr) : outcome SdkError (list string) :=
  map_err (SdkApiAnsQuery "AbstractNameServiceClient") (query_registered_dexes host).

(** [AccountAction] *)
Definition AccountAction : Type := list CosmosMsg.

(** What a module sends: a message of its own, or a call of its account. *)
Inductive ModuleMsg : Type :=
  | FromModule (m : CosmosMsg)
  | OnAccount (account : Addr) (msg : Account.ExecuteMsg) (msg_funds : list Coin).

(** [AccountExecutor::execute_on_account], for the account of the module *)
Definition execute_on_account (account : outcome SdkError Addr) (msg : Account.ExecuteMsg)
    (funds : list Coin) : outcome SdkError ModuleMsg :=
  account_address ← account; Ok (OnAccount account_address msg funds).
(** [Executor::execute_with_funds], [execute], [execute_with_data] *)
Definition execute_with_funds (account : outcome SdkError Addr) (actions : list AccountAction)
    (funds : list Coin) : outcome SdkError ModuleMsg :=
  execute_on_account account (Account.Execute (mjoin actions)) funds.
Definition executor_execute (account : outcome SdkError Addr) (actions : list AccountAction) :
    outcome SdkError ModuleMsg :=
  execute_with_funds account actions [].
Definition execute_with_data (account : outcome SdkError Addr) (msg : CosmosMsg) :
    outcome SdkError ModuleMsg :=
  execute_on_account account (Account.ExecuteWithData msg) [].

(** [Bank::deposit], [Bank::transfer], [Bank::withdraw], for assets *)
Definition deposit (account : outcome SdkError Addr) (funds : list Asset) : outcome SdkError (list CosmosMsg) :=
  recipient ← account; omapM (λ a, transfer_msg a recipient) funds.
Definition transfer (funds : list Asset) (recipient : Addr) : outcome SdkError AccountAction :=
  omapM (λ a, transfer_msg a recipient) funds.
Definition withdraw (env : Env) (funds : list Asset) : outcome SdkError AccountAction :=
  transfer funds (contract_address env).
End apis.
