(* ===== verification/Adapter.v ===== *)
(** * The base of adapters

    framework/packages/abstract-adapter (endpoints/*.rs, state.rs, features.rs,
    error.rs), on the messages of abstract-std/src/adapter.rs.  An adapter is one
    contract for all accounts: the base finds out on which account a call acts,
    and lets the account, the addresses it authorised and its top-level owner
    call. *)

From S2P Require Import Prelude Cosmos Strings Objects Names AccountIds Fees ModuleFactory Ownership AnsObjects Ans AnsClient Registry Clients Account Ibc IbcClient IbcHost Sdk.
From Stdlib Require Import Ascii String.
#[local] Open Scope string_scope.
#[local] Open Scope list_scope.
#[local] Open Scope Z_scope.

Definition MAXIMUM_AUTHORIZED_ADDRESSES : Z := 15.

(** [AdapterError] *)
Inductive AdapterError : Type :=
  | AdapterStd (e : StdError)
  | AdapterSdk (e : SdkError)
  | UnauthorizedAdapterRequest (adapter sender : string)
  | UnauthorizedAddressAdapterRequest (adapter sender : string)
  | AuthorizedAddressOrModuleIdNotPresent (addr_or_module_id : string)
  | AuthorizedAddressOrModuleIdNotValid (addr_or_module_id : string)
  | AuthorizedAddressOrModuleIdAlreadyPresent (addr_or_module_id : string)
  | TooManyAuthorizedAddresses (max : Z).
Class AdapterContractError (Error : Type) `{!ContractError Error} :=
  from_adapter : AdapterError → Error.

(** ** Messages (abstract-std/src/adapter.rs) *)

Inductive AdapterBaseMsg : Type := UpdateAuthorizedAddresses (to_add to_remove : list string).
Record BaseExecuteMsg := mkBaseExecute { be_account_address : option string; be_msg : AdapterBaseMsg }.
Record AdapterRequestMsg (Request : Type) := mkRequest {
  rq_account_address : option string;
  rq_request : Request
}.
Arguments mkRequest {Request} rq_account_address rq_request.
Arguments rq_account_address {Request} a.
Arguments rq_request {Request} a.
Definition ExecuteMsg (Request : Type) : Type := BaseMsg BaseExecuteMsg (AdapterRequestMsg Request).
(** [From<Request> for ExecuteMsg<Request>] *)
Definition request_msg {Request} (r : Request) : ExecuteMsg Request := Module_msg (mkRequest None r).
Record AdapterConfigResponse := mkAdapterConfig {
  ac_registry_address : Addr;
  ac_ans_host_address : Addr;
  ac_dependencies : list string
}.

(** ** State *)

Section state.
Context `{Semver} {C : Type}.
(** The storage of an adapter: the base's items, and the developer's. *)
Record State := mkState {
  contract_version : option ContractVersion;
  module_data : option ModuleData;
  base_state : option Z;
  authorized_addresses : gmap Addr (list Addr);
  custom : C
}.
Definition set_contract_version (v : option ContractVersion) (s : State) : State :=
  mkState v (module_data s) (base_state s) (authorized_addresses s) (custom s).
Definition set_module_data (v : option ModuleData) (s : State) : State :=
  mkState (contract_version s) v (base_state s) (authorized_addresses s) (custom s).
Definition set_base_state (v : option Z) (s : State) : State :=
  mkState (contract_version s) (module_data s) v (authorized_addresses s) (custom s).
Definition set_authorized_addresses (v : gmap Addr (list Addr)) (s : State) : State :=
  mkState (contract_version s) (module_data s) (base_state s) v (custom s).
Definition set_custom (v : C) (s : State) : State :=
  mkState (contract_version s) (module_data s) (base_state s) (authorized_addresses s) v.
(** The addresses an account authorised. *)
Definition authorized (s : State) (account : Addr) : list Addr :=
  default [] (authorized_addresses s !! account).
End state.
Arguments State {H} C.

Section adapter.
Context `{Semver, Api, Instantiate2, CwOwnable, !Querier, !Registries, !Accounts, !ComparatorParse}.
Context {C Error Msg InitMsg ExecMsg QueryMsg SudoMsg : Type}.
Context `{!ContractError Error, !AdapterContractError Error}.

(** [AdapterContract]; what the base sets before it calls a handler is the
    target account. *)
Abbreviation AdapterContract :=
  (AbstractContract (option Addr) (State C) Error Msg InitMsg ExecMsg QueryMsg () SudoMsg).
Abbreviation AdM := (M (State C) AdapterError).
Abbreviation AdResponse := (Response Msg).
Variable module : AdapterContract.

(** [abstract_registry], [ans_host] (features.rs) *)
Definition abstract_registry (s : State C) : outcome SdkError Addr :=
  code_id ← ok_or (base_state s) (SdkStd (StdNotFound "base_state"));
  map_err SdkAbstract (registry_new code_id).
Definition ans_host (s : State C) : outcome SdkError Addr :=
  code_id ← ok_or (base_state s) (SdkStd (StdNotFound "base_state"));
  map_err SdkAbstract (ans_host_new code_id).
(** [account], the target account *)
Definition account (target_account : option Addr) : outcome SdkError Addr :=
  ok_or target_account (SdkStd (StdMsg "No target Account specified to execute on.")).

(** ** Execution (endpoints/execute.rs) *)

Definition is_top_level_owner (account sender : Addr) : outcome StdError bool :=
  owner ← query_top_level_owner_addr account; Ok (bool_decide (owner = sender)).
(** [.unwrap_or(false)] *)
Definition is_top_level_owner_or_false (account sender : Addr) : bool :=
  default false (ok (is_top_level_owner account sender)).

(** [get_addr_from_module_id_or_addr] *)
Definition get_addr_from_module_id_or_addr (account : Addr) (addr_or_module_id : string) :
    outcome AdapterError Addr :=
  match st ← account_state account; account_modules st !! addr_or_module_id with
  | Some addr => Ok addr
  | None =>
      match addr_validate addr_or_module_id with
      | Some addr => Ok addr
      | None => Err (AuthorizedAddressOrModuleIdNotValid addr_or_module_id)
      end
  end.

(** The bodies of the two loops of [update_authorized_addresses]. *)
Definition authorize (sender : Addr) (authorized_addrs : list Addr) (authorized : string) :
    outcome AdapterError (list Addr) :=
  authorized_addr ← get_addr_from_module_id_or_addr sender authorized;
  if decide (authorized_addr ∈ authorized_addrs) then
    Err (AuthorizedAddressOrModuleIdAlreadyPresent authorized)
  else Ok (authorized_addrs ++ [authorized_addr]).
Definition deauthorize (sender : Addr) (authorized_addrs : list Addr) (deauthorized : string) :
    outcome AdapterError (list Addr) :=
  deauthorized_addr ← get_addr_from_module_id_or_addr sender deauthorized;
  if decide (deauthorized_addr ∈ authorized_addrs) then
    Ok (filter (λ addr, addr ≠ deauthorized_addr) authorized_addrs)
  else Err (AuthorizedAddressOrModuleIdNotPresent deauthorized).

Definition update_authorized_addresses (target_account : option Addr) (info : MessageInfo)
    (to_add to_remove : list string) : AdM AdResponse :=
  account_addr ← lift (unwrap target_account);
  authorized_addrs ← gets (λ s : State C, authorized s account_addr);
  authorized_addrs ← lift (ofold to_add authorized_addrs (authorize (sender info)));
  authorized_addrs ← lift (ofold to_remove authorized_addrs (deauthorize (sender info)));
  ensure (bool_decide (Z.of_nat (List.length authorized_addrs) ≤ MAXIMUM_AUTHORIZED_ADDRESSES))
    (TooManyAuthorizedAddresses MAXIMUM_AUTHORIZED_ADDRESSES) ≫= λ _,
  modify (λ s, set_authorized_addresses
    (<[account_addr := authorized_addrs]> (authorized_addresses s)) s) ≫= λ _,
  mret (mkResponse "update_authorized_addresses" []).

(** The account a configuration acts on. *)
Definition base_account (env : Env) (info : MessageInfo) (registry : Addr)
    (account_address : option string) : outcome AdapterError Addr :=
  let unauthorized := UnauthorizedAdapterRequest (module_name module) (sender info) in
  match assert_is_account_admin env registry (sender info) with
  | Ok account => Ok account
  | Panic => Panic
  | Err _ =>
      match account_address with
      | Some requested_account =>
          account_address ← map_err AdapterStd (addr_validate_r requested_account);
          account ← map_err AdapterSdk (assert_is_account registry account_address);
          if is_top_level_owner_or_false account (sender info) then Ok account else Err unauthorized
      | None => Err unauthorized
      end
  end.
Definition base_execute (env : Env) (info : MessageInfo) (message : BaseExecuteMsg) : AdM AdResponse :=
  s ← gets id;
  account_registry ← lift (map_err AdapterSdk (abstract_registry s));
  account ← lift (base_account env info account_registry (be_account_address message));
  match be_msg message with
  | UpdateAuthorizedAddresses to_add to_remove =>
      update_authorized_addresses (Some account) info to_add to_remove
  end.

(** The account a request acts on. *)
Definition request_account (s : State C) (info : MessageInfo) (registry : Addr)
    (account_address : option string) : outcome AdapterError Addr :=
  let unauthorized_sender := UnauthorizedAddressAdapterRequest (module_name module) (sender info) in
  match account_address with
  | Some requested_account =>
      account_address ← map_err AdapterStd (addr_validate_r requested_account);
      requested_core ← map_err AdapterSdk (assert_is_account registry account_address);
      if decide (requested_core = sender info) then Ok requested_core
      else
        let authorized := authorized s account_address in
        if (bool_decide (sender info ∈ authorized)
            || is_top_level_owner_or_false requested_core (sender info))%bool
        then Ok requested_core
        else Err unauthorized_sender
  | None => map_err (λ _, unauthorized_sender) (assert_is_account registry (sender info))
  end.
Definition handle_app_msg (env : Env) (info : MessageInfo) (request : AdapterRequestMsg ExecMsg) :
    M (State C) Error AdResponse :=
  s ← gets id;
  account_registry ← lift (map_err from_sdk (abstract_registry s));
  account ← lift (map_err from_adapter
    (request_account s info account_registry (rq_account_address request)));
  handler ← lift (map_err from_sdk (execute_handler module));
  handler env info (Some account) (rq_request request).

Definition execute (env : Env) (info : MessageInfo) (msg : ExecuteMsg ExecMsg) :
    M (State C) Error AdResponse :=
  match msg with
  | Module_msg request => handle_app_msg env info request
  | Base_ exec_msg => within from_adapter (base_execute env info exec_msg)
  | IbcCallbackMsg msg =>
      s ← gets id;
      ibc_callback module None (native_addr (abstract_registry s) IBC_CLIENT IbcClient.CONTRACT_VERSION)
        env info msg
  | ModuleIbcCall msg =>
      s ← gets id;
      module_ibc module None (native_addr (abstract_registry s) IBC_HOST IbcHost.CONTRACT_VERSION)
        env info msg
  end.

(** ** Instantiation and queries *)

(** [instantiate] (endpoints/instantiate.rs), for the registry the message names *)
Definition instantiate (env : Env) (info : MessageInfo) (registry_address : string) (msg : InitMsg) :
    M (State C) Error AdResponse :=
  contract_info ← lift (map_err from_std (query_r (wasm_contract_info registry_address)));
  deps ← lift (omapM dependency_from (dependencies module));
  modify (set_module_data (Some (Names.set_module_data (module_name module)
    (module_version_string module) deps (module_metadata module)))) ≫= λ _,
  modify (set_contract_version (Some (mkContractVersion (module_name module)
    (module_version_string module)))) ≫= λ _,
  modify (set_base_state (Some (ci_code_id contract_info))) ≫= λ _,
  match maybe_instantiate_handler module with
  | None => mret (mkResponse "" [])
  | Some handler => handler env info None msg
  end.

(** [BaseQueryMsg] (endpoints/query.rs) *)
Definition dapp_config (s : State C) : outcome StdError AdapterConfigResponse :=
  let any {E A} (o : outcome E A) : outcome StdError A := map_err (λ _, StdMsg "native address") o in
  abstract_code_id ← ok_or (base_state s) (StdNotFound "base_state");
  registry_address ← any (registry_new abstract_code_id);
  ans_host_address ← any (ans_host_new abstract_code_id);
  Ok (mkAdapterConfig registry_address ans_host_address (sd_id <$> dependencies module)).
Definition query_authorized_addresses (s : State C) (account_address : string) :
    outcome StdError (list Addr) :=
  account_address ← addr_validate_r account_address; Ok (authorized s account_address).
Definition query_module_data (s : State C) : outcome StdError ModuleData :=
  ok_or (module_data s) (StdNotFound "module_data").
(** [QueryMsg::Module] *)
Definition query_custom (s : State C) (env : Env) (msg : QueryMsg) : outcome Error string :=
  h ← map_err from_sdk (query_handler module); h env None msg s.
End adapter.
