(* ===== verification/App.v ===== *)
(** * The bases of apps and standalones

    framework/packages/abstract-app (endpoints/*.rs, state.rs, features.rs) and
    abstract-standalone (endpoints/*.rs, state.rs, features.rs), on the messages
    of abstract-std/src/app.rs and standalone.rs.  An app is a contract of one
    account: it trusts callbacks of the IBC client and calls of the IBC host,
    and its administrator is its account.  The theorems are at the end. *)

From S2P Require Import Prelude Cosmos Strings Objects Names AccountIds Fees ModuleFactory Ownership AnsObjects Ans AnsClient Registry Clients Account Ibc IbcClient IbcHost Sdk.
From Stdlib Require Import Ascii String.
#[local] Open Scope string_scope.
#[local] Open Scope list_scope.
#[local] Open Scope Z_scope.

(** [AppError] *)
Inductive AppError : Type := AppAdmin (e : AdminError).
Class AppContractError (Error : Type) `{!ContractError Error} := from_app : AppError → Error.

(** [app::BaseExecuteMsg] has no messages. *)
Inductive BaseExecuteMsg : Type := .
Definition ExecuteMsg (Request : Type) : Type := BaseMsg BaseExecuteMsg Request.
Record AppConfigResponse := mkAppConfig {
  app_config_account : Addr;
  app_config_ans_host : Addr;
  app_config_registry : Addr
}.

(** ** State *)

Section state.
Context `{Semver} {C : Type}.
(** The storage of an app: the base's items, and the developer's.  An
    administrator that was never set is [None], one set to nobody [Some None]. *)
Record State := mkState {
  contract_version : option ContractVersion;
  module_data : option ModuleData;
  base_state : option Addr;
  admin : option (option Addr);
  custom : C
}.
Definition set_contract_version (v : option ContractVersion) (s : State) : State :=
  mkState v (module_data s) (base_state s) (admin s) (custom s).
Definition set_module_data (v : option ModuleData) (s : State) : State :=
  mkState (contract_version s) v (base_state s) (admin s) (custom s).
Definition set_base_state (v : option Addr) (s : State) : State :=
  mkState (contract_version s) (module_data s) v (admin s) (custom s).
Definition set_admin (v : option (option Addr)) (s : State) : State :=
  mkState (contract_version s) (module_data s) (base_state s) v (custom s).
Definition set_custom (v : C) (s : State) : State :=
  mkState (contract_version s) (module_data s) (base_state s) (admin s) v.
End state.
Arguments State {H} C.

(** What apps and standalones have in common: the account in the base state. *)
Section account.
Context `{Semver, Api, Instantiate2, !Querier} {C : Type}.
(** [account] (features.rs) *)
Definition account (s : State C) : outcome SdkError Addr :=
  ok_or (base_state s) (SdkStd (StdNotFound "base_state")).
Definition account_code_id (s : State C) : outcome SdkError Z :=
  account ← account s; map_err SdkStd (abstract_code_id account).
(** [ans_host], [abstract_registry] *)
Definition ans_host (s : State C) : outcome SdkError Addr :=
  abstract_code_id ← account_code_id s; map_err SdkAbstract (ans_host_new abstract_code_id).
Definition abstract_registry (s : State C) : outcome SdkError Addr :=
  abstract_code_id ← account_code_id s; map_err SdkAbstract (registry_new abstract_code_id).

(** [module.admin.assert_admin] *)
Definition assert_app_admin (env : Env) (sender : Addr) : M (State C) AdminError unit :=
  zoom admin set_admin (Ownership.assert_admin env sender).
End account.

Section app.
Context `{Semver, Api, Instantiate2, CwOwnable, !Querier, !Registries, !ComparatorParse}.
Context {C Error Msg InitMsg ExecMsg QueryMsg MigrateMsg SudoMsg : Type}.
Context `{!ContractError Error}.

(** [AppContract]; the base sets nothing in the module object. *)
Abbreviation AppContract :=
  (AbstractContract () (State C) Error Msg InitMsg ExecMsg QueryMsg MigrateMsg SudoMsg).
Abbreviation AppM := (M (State C) Error).
Abbreviation AppResponse := (Response Msg).
Variable module : AppContract.

(** ** Execution (endpoints/execute.rs) *)

Definition base_execute (message : BaseExecuteMsg) : AppM AppResponse := match message with end.
Definition execute (env : Env) (info : MessageInfo) (msg : ExecuteMsg ExecMsg) : AppM AppResponse :=
  match msg with
  | Module_msg request =>
      handler ← lift (map_err from_sdk (execute_handler module));
      handler env info tt request
  | Base_ exec_msg => base_execute exec_msg
  | IbcCallbackMsg msg =>
      s ← gets id;
      ibc_callback module tt (native_addr (abstract_registry s) IBC_CLIENT IbcClient.CONTRACT_VERSION)
        env info msg
  | ModuleIbcCall msg =>
      s ← gets id;
      module_ibc module tt (native_addr (abstract_registry s) IBC_HOST IbcHost.CONTRACT_VERSION)
        env info msg
  end.

(** ** Instantiation and migration (endpoints/instantiate.rs, migrate.rs) *)

Definition save_module_data : AppM unit :=
  deps ← lift (omapM dependency_from (dependencies module));
  modify (set_module_data (Some (Names.set_module_data (module_name module)
    (module_version_string module) deps (module_metadata module)))).
Definition save_contract_version : AppM unit :=
  modify (set_contract_version (Some (mkContractVersion (module_name module)
    (module_version_string module)))).
(** [instantiate], for the account the base message names *)
Definition instantiate (env : Env) (info : MessageInfo) (account : Addr) (module_msg : InitMsg) :
    AppM AppResponse :=
  save_module_data ≫= λ _,
  save_contract_version ≫= λ _,
  modify (set_base_state (Some account)) ≫= λ _,
  modify (set_admin (Some (Some account))) ≫= λ _,
  match maybe_instantiate_handler module with
  | None => mret (mkResponse "" [])
  | Some handler => handler env info tt module_msg
  end.
Definition migrate (env : Env) (msg : MigrateMsg) : AppM AppResponse :=
  to_version ← lift (unwrap (parse_version (module_version_string module)));
  cv ← gets contract_version;
  lift (map_err from_abstract (assert_contract_upgrade cv (module_name module) to_version)) ≫= λ _,
  save_module_data ≫= λ _,
  save_contract_version ≫= λ _,
  match maybe_migrate_handler module with
  | None => mret (mkResponse "" [])
  | Some migrate_fn => migrate_fn env tt msg
  end.

(** ** Queries (endpoints/query.rs) *)

Definition dapp_config (s : State C) : outcome StdError AppConfigResponse :=
  let any {E A} (o : outcome E A) : outcome StdError A := map_err (λ _, StdMsg "native address") o in
  account ← ok_or (base_state s) (StdNotFound "base_state");
  abstract_code_id ← abstract_code_id account;
  ans_host ← any (ans_host_new abstract_code_id);
  registry ← any (registry_new abstract_code_id);
  Ok (mkAppConfig account ans_host registry).
Definition base_admin (s : State C) : outcome StdError (option Addr) :=
  ok_or (admin s) (StdNotFound "admin").
Definition query_module_data (s : State C) : outcome StdError ModuleData :=
  ok_or (module_data s) (StdNotFound "module_data").
(** [top_level_owner]: an administrator set to nobody traps. *)
Definition top_level_owner (s : State C) : outcome StdError Addr :=
  account ← ok_or (admin s) (StdNotFound "admin");
  account ← unwrap account;
  query_top_level_owner_addr account.
Definition query_custom (s : State C) (env : Env) (msg : QueryMsg) : outcome Error string :=
  h ← map_err from_sdk (query_handler module); h env tt msg s.
End app.

(** ** Standalones *)

(** The state of a module factory, for the [CURRENT_BASE] a standalone reads. *)
Class Factories `{CwOwnable} := factory_state : Addr → option ModuleFactory.State.

(** [StandaloneContract]: static data only; the developer writes the rest of the
    contract around it. *)
Record StandaloneContract := mkStandalone {
  st_info : string * string * option string;
  st_dependencies : list StaticDependency
}.
Section standalone.
Context `{Semver, Api, Instantiate2, CwOwnable, !Querier, !Factories, !ComparatorParse}.
Context {C : Type}.
(** [StandaloneState]: whether it may be migrated is kept beside the base's items. *)
Abbreviation StState := (State (bool * C)).
Variable module : StandaloneContract.

Definition st_save_module_data {E} : M StState E unit :=
  deps ← lift (omapM dependency_from (st_dependencies module));
  modify (set_module_data (Some (Names.set_module_data (st_info module).1.1 (st_info module).1.2 deps
    (st_info module).2))).
Definition st_save_contract_version {E} : M StState E unit :=
  modify (set_contract_version (Some (mkContractVersion (st_info module).1.1 (st_info module).1.2))).
Definition standalone_instantiate (info : MessageInfo) (is_migratable : bool) : M StState SdkError unit :=
  account ← lift (map_err SdkStd (query_r (f ← factory_state (sender info); current_base f)));
  st_save_module_data ≫= λ _,
  st_save_contract_version ≫= λ _,
  modify (set_base_state (Some account)) ≫= λ _,
  modify (λ s, set_custom (is_migratable, (custom s).2) s) ≫= λ _,
  modify (set_admin (Some (Some account))).
Definition standalone_migrate : M StState AbstractError unit :=
  b ← gets base_state;
  _ ← lift (ok_or b (AbsStd (StdNotFound "base_state")));
  is_migratable ← gets (λ s : StState, (custom s).1);
  ensure is_migratable (AbsStd (StdMsg "Migration is not enabled on contract")) ≫= λ _,
  to_version ← lift (unwrap (parse_version (st_info module).1.2));
  cv ← gets contract_version;
  lift (assert_contract_upgrade cv (st_info module).1.1 to_version) ≫= λ _,
  st_save_module_data ≫= λ _,
  st_save_contract_version.
End standalone.
