(* ===== verification/SdkModules.v ===== *)
(** * The APIs of abstract-sdk that reach other modules

    abstract-sdk/src/apis: modules.rs, app.rs, adapter.rs (modules on the same
    account), ibc.rs (modules, accounts and hosts on other chains), the wrappers
    of the registry in version_registry.rs and verify.rs, splitter.rs, and the
    fees of cw_helpers/fees.rs.

    A module is seen through the accessors of base/features its APIs are generic
    over: the record [Features], filled in for an app and for an adapter. *)

From S2P Require Import Prelude Cosmos Strings Objects Names AccountIds Fees ModuleFactory Ownership AnsObjects Ans AnsClient Registry Clients Account Ibc IbcClient Sdk SdkApis Adapter App.
From Stdlib Require Import Ascii String.
#[local] Open Scope string_scope.
#[local] Open Scope list_scope.
#[local] Open Scope Z_scope.

(** [to_json_binary] and [from_json] of a type of messages or answers. *)
Class ToJson (T : Type) := to_json : T → string.
Class FromJson (T : Type) := from_json : string → option T.

(** The state of the IBC client at an address. *)
Class IbcClients `{Semver, CwOwnable} := ibc_client_state : Addr → option IbcClient.State.

(** [ModuleIdentification], [Dependencies], [AccountIdentification],
    [AbstractRegistryAccess] and [AbstractNameService] (base/features) *)
Record Features := mkFeatures {
  f_module_id : string;
  f_dependencies : list StaticDependency;
  f_account : outcome SdkError Addr;
  f_registry : outcome SdkError Addr;
  f_ans_host : outcome SdkError Addr
}.

Section features.
Context `{Semver, Api, Instantiate2, CwOwnable, !Querier, !Registries, !ComparatorParse}.
Context {C Error Msg InitMsg ExecMsg QueryMsg MigrateMsg SudoMsg : Type}.

(** The accessors of an adapter that acts on an account, and of an app. *)
Definition adapter_features
    (c : AbstractContract (option Addr) (Adapter.State C) Error Msg InitMsg ExecMsg QueryMsg MigrateMsg SudoMsg)
    (target_account : option Addr) (s : Adapter.State C) : Features :=
  mkFeatures (module_name c) (dependencies c) (Adapter.account target_account)
    (Adapter.abstract_registry s) (Adapter.ans_host s).
Definition app_features
    (c : AbstractContract () (App.State C) Error Msg InitMsg ExecMsg QueryMsg MigrateMsg SudoMsg)
    (s : App.State C) : Features :=
  mkFeatures (module_name c) (dependencies c) (App.account s) (App.abstract_registry s) (App.ans_host s).
End features.

Section apis.
Context `{Semver, Api, Instantiate2, CwOwnable, CoinsOps, Sha256, !Querier, !Registries, !Accounts}.
Variable base : Features.

(** [AccountIdentification::account_id] *)
Definition account_id : outcome SdkError AccountId :=
  account ← f_account base; map_err SdkStd (query_r (account_id_of account)).

(** ** Modules on the account (apis/modules.rs) *)

Definition module_address (module_id : string) : outcome SdkError Addr :=
  account_addr ← f_account base;
  s ← map_err SdkStd (query_r (account_state account_addr));
  ok_or (account_modules s !! module_id) (SdkMissingModule module_id).
Definition module_version (module_id : string) : outcome SdkError ContractVersion :=
  module_address ← module_address module_id;
  map_err SdkStd (query_r (cw2_contract module_address)).
Definition assert_module_dependency (module_id : string) : outcome SdkError unit :=
  guard_or (existsb (λ d, bool_decide (sd_id d = module_id)) (f_dependencies base))
    (SdkMissingDependency module_id).

(** A smart query, its answer parsed *)
Definition smart_query {Q R} `{!ToJson Q, !FromJson R} (api : string) (addr : Addr) (query : Q) :
    outcome SdkError R :=
  map_err (SdkApiStdQuery api)
    (answer ← query_r (smart_query_of addr (to_json query)); query_r (from_json answer)).

(** [Apps::execute], [Apps::query] (apis/app.rs) *)
Definition apps_execute {Request} `{!ToJson (App.ExecuteMsg Request)} (app_id : string)
    (message : App.ExecuteMsg Request) : outcome SdkError CosmosMsg :=
  _ ← assert_module_dependency app_id;
  app_address ← module_address app_id;
  Ok (WasmExecute app_address (Raw (to_json message)) []).
Definition apps_query {Q R} `{!ToJson Q, !FromJson R} (app_id : string) (query : Q) : outcome SdkError R :=
  app_address ← module_address app_id; smart_query "Apps" app_address query.

(** [Adapters::execute], [Adapters::query] (apis/adapter.rs): the request names
    the account *)
Definition adapters_execute {Request} `{!ToJson (Adapter.ExecuteMsg Request)} (adapter_id : string)
    (message : Request) : outcome SdkError CosmosMsg :=
  _ ← assert_module_dependency adapter_id;
  account ← f_account base;
  let adapter_msg : Adapter.ExecuteMsg Request := Module_msg (mkRequest (Some account) message) in
  adapter_address ← module_address adapter_id;
  Ok (WasmExecute adapter_address (Raw (to_json adapter_msg)) []).
Definition adapters_query {Q R} `{!ToJson Q, !FromJson R} (adapter_id : string) (query : Q) : outcome SdkError R :=
  adapter_address ← module_address adapter_id; smart_query "Adapters" adapter_address query.

(** ** Registry (apis/version_registry.rs, apis/verify.rs) *)

Definition in_registry {A} (query : Addr → outcome RegistryQueryError A) : outcome SdkError A :=
  registry ← f_registry base; map_err (SdkApiQuery "ModuleRegistry") (query registry).
Definition mr_query_module_reference_raw (m : ModuleInfo) : outcome SdkError ModuleReference :=
  in_registry (λ r, query_module_reference_raw r m).
Definition mr_query_config (m : ModuleInfo) : outcome SdkError ModuleConfiguration :=
  l ← in_registry (λ r, query_modules_configs r [m]); r ← first_response l; Ok (resp_config r).
Definition mr_query_modules_configs (infos : list ModuleInfo) : outcome SdkError (list ModuleResponse) :=
  in_registry (λ r, query_modules_configs r infos).
Definition mr_query_namespace (namespace : Namespace) : outcome SdkError NamespaceResponse :=
  in_registry (λ r, query_namespace r namespace).
Definition mr_query_namespace_raw (namespace : Namespace) : outcome SdkError (option AccountId) :=
  in_registry (λ r, query_namespace_raw r namespace).
Definition mr_query_namespaces (accounts : list AccountId) : outcome SdkError (list (Namespace * AccountId)) :=
  in_registry (λ r, query_namespaces r accounts).
Definition mr_query_standalone_info_raw (code_id : Z) : outcome SdkError ModuleInfo :=
  in_registry (λ r, query_standalone_info_raw r code_id).
(** [AccountRegistry::account], [account_id], [namespace_registration_fee] *)
Definition in_account_registry {A} (query : Addr → outcome RegistryQueryError A) : outcome SdkError A :=
  registry ← f_registry base; map_err (SdkApiQuery "AccountRegistry") (query registry).
Definition ar_account (id : AccountId) : outcome SdkError Addr :=
  in_account_registry (λ r, registry_account r id).
Definition ar_account_id (maybe_account_contract_addr : Addr) : outcome SdkError AccountId :=
  in_account_registry (λ r, registry_account_id r maybe_account_contract_addr).
Definition ar_namespace_registration_fee : outcome SdkError (option Coin) :=
  in_account_registry query_namespace_registration_fee.

(** ** Other chains (apis/ibc.rs) *)

Section ibc.
Context `{!ToJson IbcClient.ExecuteMsg, !IbcClients}.

Definition ibc_module_address : outcome SdkError Addr :=
  _ ← assert_module_dependency IBC_CLIENT;
  registry ← f_registry base;
  i ← map_err SdkAbstract (module_info_from_id IBC_CLIENT (Version IbcClient.CONTRACT_VERSION));
  m ← sdk_query_module registry i;
  map_err SdkAbstract (unwrap_native (mod_reference m)).
(** A call of the IBC client by the module *)
Definition call_ibc_client (msg : IbcClient.ExecuteMsg) : outcome SdkError CosmosMsg :=
  ibc_client_addr ← ibc_module_address;
  Ok (WasmExecute ibc_client_addr (Raw (to_json msg)) []).
Definition module_ibc_action {M} `{!ToJson M} (host_chain : TruncatedChainId) (target_module : ModuleInfo)
    (exec_msg : M) (callback : option Callback) : outcome SdkError CosmosMsg :=
  call_ibc_client (IbcClient.ModuleIbcAction host_chain target_module (to_json exec_msg) callback).
Definition ibc_queries (host_chain : TruncatedChainId) (queries : list (QueryRequest ModuleQuery))
    (callback : Callback) : outcome SdkError CosmosMsg :=
  call_ibc_client (IbcClient.IbcQuery host_chain queries callback).
Definition ibc_query (host_chain : TruncatedChainId) (query : QueryRequest ModuleQuery)
    (callback : Callback) : outcome SdkError CosmosMsg :=
  call_ibc_client (IbcClient.IbcQuery host_chain [query] callback).
Definition module_ibc_query {M} `{!ToJson M} (host_chain : TruncatedChainId)
    (target_module : InstalledModuleIdentification) (query_msg : M) (callback : Callback) :
    outcome SdkError CosmosMsg :=
  call_ibc_client (IbcClient.IbcQuery host_chain
    [QueryCustom (mkModuleQuery target_module (to_json query_msg))] callback).
Definition remote_account_of (ibc_client_addr : Addr) (account_id : AccountId) (host_chain : TruncatedChainId) :
    outcome SdkError (option string) :=
  s ← map_err SdkStd (query_r (ibc_client_state ibc_client_addr));
  Ok (IbcClient.accounts s !! (akey account_id, host_chain)).
Definition remote_account_addr (host_chain : TruncatedChainId) : outcome SdkError (option string) :=
  ibc_client_addr ← ibc_module_address;
  account_id ← account_id;
  remote_account_of ibc_client_addr account_id host_chain.
Definition remote_account (host_chain : TruncatedChainId) : outcome SdkError (option string) :=
  account_id ← account_id;
  ibc_client_addr ← ibc_module_address;
  remote_account_of ibc_client_addr account_id host_chain.

(** [IbcClient::execute]: the account calls the IBC client that is installed on it *)
Definition ibc_execute (msg : IbcClient.ExecuteMsg) (funds : list Coin) : outcome SdkError ModuleMsg :=
  account ← f_account base;
  Ok (OnAccount account (Account.ExecuteOnModule IBC_CLIENT (to_json msg) funds) []).
Definition create_remote_account (host_chain : TruncatedChainId) : outcome SdkError ModuleMsg :=
  ibc_execute (IbcClient.Register host_chain None []) [].
Definition host_action (host_chain : TruncatedChainId) (action : HostAction) : outcome SdkError ModuleMsg :=
  ibc_execute (IbcClient.RemoteAction host_chain action) [].
Definition ics20_transfer (host_chain : TruncatedChainId) (funds : list Coin) (memo receiver : option string) :
    outcome SdkError ModuleMsg :=
  ibc_execute (IbcClient.SendFunds host_chain receiver memo) funds.
Definition install_remote_app {M} `{!ToJson M} (host_chain : TruncatedChainId) (module : ModuleInfo)
    (init_msg : M) : outcome SdkError ModuleMsg :=
  host_action host_chain (Dispatch [Account.InstallModules [mkInstall module (Some (to_json init_msg))]]).
Definition install_remote_api (host_chain : TruncatedChainId) (module : ModuleInfo) : outcome SdkError ModuleMsg :=
  host_action host_chain (Dispatch [Account.InstallModules [mkInstall module None]]).
Definition execute_on_module {M} `{!ToJson M} (host_chain : TruncatedChainId) (module_id : string)
    (exec_msg : M) : outcome SdkError ModuleMsg :=
  host_action host_chain (Dispatch [Account.ExecuteOnModule module_id (to_json exec_msg) []]).
End ibc.

(** ** Splits (apis/splitter.rs) *)

Definition split `{!UintRatio, !CwAsset, !AnsHosts, !CwAssetMsgs} (asset : AnsAsset) (receivers : list Addr) :
    outcome SdkError AccountAction :=
  each ← unwrap (uint_multiply_ratio 256 (aa_amount asset) 1 (Z.of_nat (List.length receivers)));
  ofold receivers [] (λ acc receiver,
    a ← transferable_ans (f_ans_host base) (mkAnsAsset (aa_name asset) each);
    action ← transfer [a] receiver;
    Ok (acc ++ action)).
End apis.

(** ** Lemmas *)

Section lemmas.
Context `{Semver, Api, Instantiate2, CwOwnable, CoinsOps, Sha256, !Querier, !Registries, !Accounts}.
Implicit Types base : Features.

Lemma in_registry_Ok {A} base registry (q : Addr → outcome RegistryQueryError A) a :
  f_registry base = Ok registry → in_registry base q = Ok a → q registry = Ok a.
Proof. unfold in_registry. intros ->. simpl. by rewrite map_err_Ok. Qed.
Lemma in_account_registry_Ok {A} base registry (q : Addr → outcome RegistryQueryError A) a :
  f_registry base = Ok registry → in_account_registry base q = Ok a → q registry = Ok a.
Proof. unfold in_account_registry. intros ->. simpl. by rewrite map_err_Ok. Qed.
Lemma assert_module_dependency_Ok base id x :
  assert_module_dependency base id = Ok x ↔ ∃ d, d ∈ f_dependencies base ∧ sd_id d = id.
Proof.
  unfold assert_module_dependency, guard_or. destruct x. destruct (existsb _ _) eqn:He.
  - split; [intros _|done]. apply existsb_exists in He as (d & Hd & Hid%bool_decide_eq_true).
    exists d. split; [by apply list_elem_of_In|done].
  - split; [done|]. intros (d & Hd & Hid). exfalso.
    assert (existsb (λ d, bool_decide (sd_id d = id)) (f_dependencies base) = true); [|congruence].
    apply existsb_exists. exists d. split; [by apply list_elem_of_In|by apply bool_decide_eq_true].
Qed.
(** A request to an adapter goes to the adapter of the account, a dependency of
    the module, and names the account. *)
Lemma adapters_execute_Ok {Request} `{!ToJson (Adapter.ExecuteMsg Request)} base id (message : Request) m :
  adapters_execute base id message = Ok m ↔
  (∃ d, d ∈ f_dependencies base ∧ sd_id d = id) ∧
  ∃ account st adapter, f_account base = Ok account ∧ account_state account = Some st ∧
    account_modules st !! id = Some adapter ∧
    m = WasmExecute adapter (Raw (to_json (Module_msg (mkRequest (Some account) message) : Adapter.ExecuteMsg Request))) [].
Proof.
  unfold adapters_execute, module_address. split.
  - intros Hrun. inv_ok. rewrite assert_module_dependency_Ok in *. unfold query_r in *. split; [done|].
    repeat match goal with Hx : ok_or _ _ = Ok _ |- _ => apply ok_or_Ok in Hx end.
    match goal with Ha : f_account base = Ok ?a, Hb : f_account base = Ok ?b |- _ =>
      assert (a = b) as -> by congruence end. by eauto 10.
  - intros (Hdep & account & st & adapter & Ha & Hst & Had & ->).
    assert (assert_module_dependency base id = Ok tt) as -> by by apply assert_module_dependency_Ok.
    simpl. rewrite Ha. simpl. unfold query_r. rewrite Hst. simpl. by rewrite Had.
Qed.

(** ** Splits *)

Lemma split_go `{!CwAsset, !AnsHosts, !CwAssetMsgs} base host info name each receivers acc action :
  f_ans_host base = Ok host → query_asset host name = Ok info →
  ofold receivers acc (λ acc receiver,
    a ← transferable_ans (f_ans_host base) (mkAnsAsset name each);
    action ← transfer [a] receiver;
    Ok (acc ++ action)) = Ok action →
  ∃ sent, action = acc ++ sent ∧ Forall2 (λ r m, asset_transfer_msg info each r = Some m) receivers sent.
Proof.
  intros Hh Hi. revert acc. induction receivers as [|r receivers IH]; intros acc.
  { intros [= <-]. exists []. by rewrite app_nil_r. }
  cbn [ofold]. unfold transferable_ans, resolve_ans_asset, transfer, transfer_msg. rewrite Hh. simpl.
  rewrite Hi. simpl. intros Hrun. inv_ok.
  match goal with Hf : ofold _ _ _ = Ok _ |- _ =>
    unfold transferable_ans, resolve_ans_asset, transfer, transfer_msg in IH; rewrite Hh in IH; simpl in IH;
    rewrite Hi in IH; simpl in IH; destruct (IH _ Hf) as (sent & -> & Hsent) end.
  eexists (_ :: sent). split; [by rewrite <-app_assoc|]. by constructor.
Qed.
(** Every receiver is sent the same amount, and what remains of the asset is
    less than one unit for each. *)
Lemma split_Ok `{!UintRatio, !UintRatioLaws, !CwAsset, !AnsHosts, !CwAssetMsgs} base asset receivers action :
  split base asset receivers = Ok action → 0 ≤ aa_amount asset →
  receivers ≠ [] ∧ ∃ each host info, f_ans_host base = Ok host ∧ query_asset host (aa_name asset) = Ok info ∧
    Forall2 (λ r m, asset_transfer_msg info each r = Some m) receivers action ∧
    0 ≤ aa_amount asset - each * Z.of_nat (List.length receivers) < Z.of_nat (List.length receivers).
Proof.
  unfold split. intros Hrun Ha. inv_ok.
  match goal with Hu : uint_multiply_ratio _ _ _ _ = Some ?n, Hf : ofold _ _ _ = Ok _ |- _ =>
    rename Hu into Hratio; rename n into each; rename Hf into Hgo end.
  destruct receivers as [|r0 rs]; [by rewrite multiply_ratio_zero in Hratio|]. split; [done|]. exists each.
  assert (∃ host info, f_ans_host base = Ok host ∧ query_asset host (aa_name asset) = Ok info) as (host & info & Hh & Hi).
  { cbn [ofold] in Hgo. unfold transferable_ans, resolve_ans_asset in Hgo. inv_ok. by eauto. }
  exists host, info. destruct (split_go _ _ _ _ _ _ _ _ Hh Hi Hgo) as (sent & -> & Hsent). clear Hgo.
  assert (0 < Z.of_nat (List.length (r0 :: rs))) as Hn by (simpl; lia).
  revert Hratio Hn. generalize (Z.of_nat (List.length (r0 :: rs))). intros n Hratio Hn.
  rewrite multiply_ratio_spec in Hratio by lia. case_decide; [|done]. rewrite Z.mul_1_r in Hratio.
  injection Hratio as <-. pose proof (Z.mul_div_le (aa_amount asset) n Hn).
  pose proof (Z.mul_succ_div_gt (aa_amount asset) n Hn). split_and!; [done..|lia|lia].
Qed.
End lemmas.
