(* ===== verification/PfmMemo.v ===== *)
(** * Memos of the packet-forward middleware

    abstract-sdk/src/apis/ibc_memo/pfm.rs: a builder of the memo that has a transfer
    forwarded over several channels, a JSON object nested once for every hop. *)

From S2P Require Import Prelude Cosmos Strings.
From Stdlib Require Import Ascii String.
#[local] Open Scope string_scope.
#[local] Open Scope list_scope.
#[local] Open Scope Z_scope.

#[local] Set Warnings "-register-all".
(** [serde_cw_value::Value], as far as the memos use it: a map has its keys in
    order. *)
Inductive Value : Type :=
  | VString (s : string)
  | VU8 (n : Z)
  | VMap (m : list (string * Value)).
(** [BTreeMap::insert], [BTreeMap::from] and lookup, for keys that are strings *)
Fixpoint btree_insert (k : string) (v : Value) (m : list (string * Value)) : list (string * Value) :=
  match m with
  | [] => [(k, v)]
  | (k', v') :: m' =>
      if decide (k = k') then (k, v) :: m'
      else if String.ltb k k' then (k, v) :: m else (k', v') :: btree_insert k v m'
  end.
Definition btree_from (l : list (string * Value)) : list (string * Value) :=
  foldl (λ m x, btree_insert x.1 x.2 m) [] l.
Fixpoint btree_get (k : string) (m : list (string * Value)) : option Value :=
  match m with [] => None | (k', v) :: m => if decide (k = k') then Some v else btree_get k m end.
(** [to_json_string] of a map *)
Class ValueJson := { value_to_json : list (string * Value) → string }.

(** ** The builder *)

(** [PacketForwardMiddlewareHop], [PfmMemoBuilder] *)
Record Hop := mkHop { hop_channel : string; hop_timeout : option string; hop_retries : option Z }.
Definition hop_new (channel : string) : Hop := mkHop channel None None.
Record PfmMemoBuilder := mkPfm { pfm_port : option string; pfm_hops : list Hop }.
Definition pfm_new (first_hop_channel : string) : PfmMemoBuilder := mkPfm None [hop_new first_hop_channel].
Definition port (b : PfmMemoBuilder) (p : string) : PfmMemoBuilder := mkPfm (Some p) (pfm_hops b).
Definition hop (b : PfmMemoBuilder) (channel : string) : PfmMemoBuilder :=
  mkPfm (pfm_port b) (pfm_hops b ++ [hop_new channel]).
(** [hops.last_mut()] *)
Definition change_last {A} (f : A → A) (l : list A) : list A :=
  alter f (List.length l - 1)%nat l.
Definition timeout (b : PfmMemoBuilder) (t : string) : PfmMemoBuilder :=
  mkPfm (pfm_port b) (change_last (λ h, mkHop (hop_channel h) (Some t) (hop_retries h)) (pfm_hops b)).
Definition retries (b : PfmMemoBuilder) (r : Z) : PfmMemoBuilder :=
  mkPfm (pfm_port b) (change_last (λ h, mkHop (hop_channel h) (hop_timeout h) (Some r)) (pfm_hops b)).

(** ** The memo *)

(** [ForwardMemo] *)
Record ForwardMemo := mkForward {
  fm_receiver : option string;
  fm_port : string;
  fm_channel : string;
  fm_timeout : option string;
  fm_retries : option Z
}.
Definition build_value_map (f : ForwardMemo) : list (string * Value) :=
  let receiver := default "pfm" (fm_receiver f) in
  let forward_value := btree_from [("receiver", VString receiver); ("port", VString (fm_port f));
    ("channel", VString (fm_channel f))] in
  let forward_value := match fm_timeout f with
    | Some t => btree_insert "timeout" (VString t) forward_value | None => forward_value end in
  match fm_retries f with Some r => btree_insert "retries" (VU8 r) forward_value | None => forward_value end.
(** The hops with the receiver at the last *)
Definition forwards (b : PfmMemoBuilder) (receiver : string) : list ForwardMemo :=
  let p := default "transfer" (pfm_port b) in
  change_last (λ f, mkForward (Some receiver) (fm_port f) (fm_channel f) (fm_timeout f) (fm_retries f))
    ((λ h, mkForward None p (hop_channel h) (hop_timeout h) (hop_retries h)) <$> pfm_hops b).
(** A hop around what is built so far; an empty map is no next hop. *)
Definition wrap_hop (f : ForwardMemo) (head : list (string * Value)) : list (string * Value) :=
  let forward_msg := build_value_map f in
  let forward_msg := match head with [] => forward_msg | _ => btree_insert "next" (VMap head) forward_msg end in
  btree_from [("forward", VMap forward_msg)].
(** From behind *)
Definition memo_value (b : PfmMemoBuilder) (receiver : string) : list (string * Value) :=
  foldr wrap_hop [] (forwards b receiver).
Definition pfm_build `{ValueJson} (b : PfmMemoBuilder) (receiver : string) : outcome StdError string :=
  Ok (value_to_json (memo_value b receiver)).

(** ** What the middleware reads *)

Definition as_string (v : Value) : option string := match v with VString s => Some s | _ => None end.
Definition as_map (v : Value) : option (list (string * Value)) := match v with VMap m => Some m | _ => None end.
Definition as_u8 (v : Value) : option Z := match v with VU8 n => Some n | _ => None end.
(** The hops of a memo, each with its port, and the receiver at the end: a hop that
    is followed by another has the receiver "pfm", which is nobody's address. *)
Fixpoint read_memo (fuel : nat) (memo : list (string * Value)) : option (list (string * Hop) * string) :=
  match fuel with
  | O => None
  | S fuel =>
      m ← btree_get "forward" memo ≫= as_map;
      receiver ← btree_get "receiver" m ≫= as_string;
      p ← btree_get "port" m ≫= as_string;
      channel ← btree_get "channel" m ≫= as_string;
      let h := mkHop channel (btree_get "timeout" m ≫= as_string) (btree_get "retries" m ≫= as_u8) in
      match btree_get "next" m with
      | None => Some ([(p, h)], receiver)
      | Some next =>
          rest ← as_map next ≫= read_memo fuel;
          if decide (receiver = "pfm") then Some ((p, h) :: rest.1, rest.2) else None
      end
  end.

(** ** Lemmas *)

Lemma btree_get_insert k k' v m : btree_get k (btree_insert k' v m) = if decide (k = k') then Some v else btree_get k m.
Proof.
  induction m as [|[k1 v1] m IH]; [done|]. simpl. destruct (decide (k' = k1)) as [->|Hne].
  { simpl. by repeat case_decide. }
  destruct (String.ltb k' k1); [done|]. simpl. rewrite IH. repeat case_decide; congruence.
Qed.
Lemma get_forward f head : btree_get "forward" (wrap_hop f head) ≫= as_map =
  Some (match head with [] => build_value_map f | _ => btree_insert "next" (VMap head) (build_value_map f) end).
Proof. done. Qed.
(** What is read of the map of a hop *)
Lemma get_hop f k : btree_get k (build_value_map f) =
  if decide (k = "receiver") then Some (VString (default "pfm" (fm_receiver f)))
  else if decide (k = "port") then Some (VString (fm_port f))
  else if decide (k = "channel") then Some (VString (fm_channel f))
  else if decide (k = "timeout") then VString <$> fm_timeout f
  else if decide (k = "retries") then VU8 <$> fm_retries f
  else None.
Proof.
  unfold build_value_map, btree_from. cbn [foldl fst snd].
  destruct (fm_timeout f), (fm_retries f); rewrite ?btree_get_insert; repeat case_decide; subst; done.
Qed.
Lemma get_next f v m : btree_get m (btree_insert "next" v (build_value_map f)) =
  if decide (m = "next") then Some v else btree_get m (build_value_map f).
Proof. apply btree_get_insert. Qed.
Lemma wrap_not_nil f head : wrap_hop f head ≠ [].
Proof. done. Qed.
Definition hop_of (f : ForwardMemo) : string * Hop := (fm_port f, mkHop (fm_channel f) (fm_timeout f) (fm_retries f)).
(** Reading a hop around nothing, or around a memo that reads *)
Lemma read_last f n : read_memo (S n) (wrap_hop f []) = Some ([hop_of f], default "pfm" (fm_receiver f)).
Proof.
  cbn [read_memo]. rewrite get_forward. cbn [mbind option_bind]. rewrite !get_hop. simpl.
  by destruct f as [r p c [t|] [u|]].
Qed.
Lemma read_next f n g head hops receiver : fm_receiver f = None →
  read_memo n (wrap_hop g head) = Some (hops, receiver) →
  read_memo (S n) (wrap_hop f (wrap_hop g head)) = Some (hop_of f :: hops, receiver).
Proof.
  intros Hf Hread. cbn [read_memo]. rewrite get_forward.
  destruct (wrap_hop g head) as [|x m] eqn:Hm; [done|]. cbn [mbind option_bind].
  rewrite !get_next, !get_hop. simpl. rewrite Hf, Hread. simpl. by destruct f as [r p c [t|] [u|]].
Qed.
Lemma change_last_snoc {A} (f : A → A) l x : change_last f (l ++ [x]) = l ++ [f x].
Proof.
  unfold change_last. rewrite length_app. simpl. replace (List.length l + 1 - 1)%nat with (List.length l + 0)%nat by lia.
  by rewrite alter_app_r.
Qed.
Lemma read_all n fs f receiver : fm_receiver f = Some receiver → Forall (λ f, fm_receiver f = None) fs →
  (List.length fs < n)%nat → read_memo n (foldr wrap_hop [] (fs ++ [f])) = Some (hop_of <$> (fs ++ [f]), receiver).
Proof.
  intros Hf Hall. revert n. induction Hall as [|g fs Hg Hall IH]; intros n Hn; (destruct n as [|n]; [simpl in Hn; lia|]).
  - simpl foldr. rewrite read_last. by rewrite Hf.
  - specialize (IH n ltac:(simpl in Hn; lia)). destruct fs as [|g' fs]; simpl in *; by apply read_next.
Qed.

(** C29. The memo takes the packet where the builder says.  Whoever reads the memo of a
    builder, hop by hop, finds the hops of the builder in their order, each on the
    builder's port, or "transfer", with its channel, timeout and retries, and the
    receiver at the end of the last; the hops before it name no receiver. *)
Theorem memo_reads_back (b : PfmMemoBuilder) (receiver : string) (Hhops : pfm_hops b ≠ []) :
  read_memo (List.length (pfm_hops b)) (memo_value b receiver) =
  Some ((λ h, (default "transfer" (pfm_port b), h)) <$> pfm_hops b, receiver).
Proof.
  unfold memo_value, forwards. destruct (pfm_hops b) as [|h hs _] using rev_ind; [done|].
  rewrite fmap_app. cbn [fmap list_fmap]. rewrite change_last_snoc, (read_all _ _ _ receiver).
  - f_equal. f_equal. rewrite !fmap_app, <-list_fmap_compose. f_equal; [|by destruct h].
    apply list_fmap_ext. by intros i [].
  - done.
  - apply Forall_fmap, Forall_true. done.
  - rewrite length_fmap, length_app. simpl. lia.
Qed.

Module PfmExamples.
Definition three_hops : PfmMemoBuilder := hop (hop (retries (timeout (port (pfm_new "channel-1") "p") "10m") 4) "channel-2") "channel-3".
Example complete_memo : memo_value (hop (retries (timeout (port (pfm_new "channel-1") "different_port") "10m") 4) "channel-2") "foo" =
  [("forward", VMap [("channel", VString "channel-1");
    ("next", VMap [("forward", VMap [("channel", VString "channel-2"); ("port", VString "different_port"); ("receiver", VString "foo")])]);
    ("port", VString "different_port"); ("receiver", VString "pfm"); ("retries", VU8 4); ("timeout", VString "10m")])].
Proof. reflexivity. Qed.
Lemma memo_reads_back_witness : pfm_hops three_hops ≠ [] ∧
  read_memo 3 (memo_value three_hops "bob") = Some ([("p", mkHop "channel-1" (Some "10m") (Some 4));
    ("p", hop_new "channel-2"); ("p", hop_new "channel-3")], "bob").
Proof. split; [discriminate|]. exact (memo_reads_back three_hops "bob" ltac:(discriminate)). Defined.
End PfmExamples.
