(* ===== verification/SdkStargate.v ===== *)
(** * Grants, fee allowances and distribution

    abstract-sdk/src/apis/stargate (mod.rs, authz.rs, feegrant.rs, gov.rs), authz.rs,
    feegrant.rs and distribution.rs: messages of the Cosmos SDK, which a module
    encodes itself.  The encoding, and the names of the messages, are those of
    packages outside the repository. *)

From S2P Require Import Prelude Cosmos Strings Objects Names AccountIds Fees ModuleFactory Ownership AnsObjects Ans AnsClient Registry Clients Account Ibc IbcClient Sdk SdkApis Adapter App SdkModules.
From Stdlib Require Import Ascii String.
#[local] Open Scope string_scope.
#[local] Open Scope list_scope.
#[local] Open Scope Z_scope.

(** ** Messages (stargate/*.rs) *)

(** [base::v1beta1::Coin], [Any], [Timestamp], [Duration] of the protobuf packages *)
Record ProtoCoin := mkProtoCoin { pc_denom : string; pc_amount : string }.
Record ProtoAny := mkAny { any_type_url : string; any_value : string }.
Record ProtoTime := mkProtoTime { pt_seconds : Z; pt_nanos : Z }.
Inductive ProtoVote : Type := PYes | PNo | PAbstain | PNoWithVeto.
Inductive ProtoAuthorization : Type := PUnspecified | PDelegate | PUndelegate | PRedelegate.
Inductive ProtoValidators : Type := PAllowList (l : list string) | PDenyList (l : list string).
Record ProtoBasic := mkProtoBasic { pb_spend_limit : list ProtoCoin; pb_expiration : option ProtoTime }.

(** The messages of the Cosmos SDK a module builds *)
Inductive ProtoMsg : Type :=
  | PMsgRevoke (granter grantee msg_type_url : string)
  | PMsgGrant (granter grantee : string) (authorization : ProtoAny) (expiration : option ProtoTime)
  | PMsgExec (grantee : string) (msgs : list ProtoAny)
  | PMsgExecuteContract (sender contract msg : string) (funds : list ProtoCoin)
  | PMsgInstantiateContract (sender admin : string) (code_id : Z) (label msg : string) (funds : list ProtoCoin)
  | PMsgInstantiateContract2 (sender admin : string) (code_id : Z) (label msg : string) (funds : list ProtoCoin)
      (salt : string) (fix_msg : bool)
  | PMsgMigrateContract (sender contract : string) (code_id : Z) (msg : string)
  | PMsgUpdateAdmin (sender new_admin contract : string)
  | PMsgClearAdmin (sender contract : string)
  | PMsgSend (from_address to_address : string) (amount : list ProtoCoin)
  | PMsgDelegate (delegator validator : string) (amount : ProtoCoin)
  | PMsgUndelegate (delegator validator : string) (amount : ProtoCoin)
  | PMsgBeginRedelegate (delegator validator_src validator_dst : string) (amount : ProtoCoin)
  | PMsgSetWithdrawAddress (delegator withdraw : string)
  | PMsgWithdrawDelegatorReward (delegator validator : string)
  | PMsgWithdrawValidatorCommission (validator : string)
  | PMsgFundCommunityPool (amount : list ProtoCoin) (depositor : string)
  | PMsgTransfer (source_port source_channel : string) (token : ProtoCoin) (sender receiver : string)
      (timeout_height : option (Z * Z)) (timeout_timestamp : Z) (memo : string)
  | PMsgVote (proposal_id : Z) (voter : string) (vote : ProtoVote)
  | PMsgVoteWeighted (proposal_id : Z) (voter : string) (options : list (ProtoVote * string))
  | PMsgRevokeAllowance (granter grantee : string)
  | PMsgGrantAllowance (granter grantee : string) (allowance : ProtoAny)
  | PGenericAuthorization (msg : string)
  | PSendAuthorization (spend_limit : list ProtoCoin) (allow_list : list string)
  | PStakeAuthorization (max_tokens : option ProtoCoin) (ty : ProtoAuthorization) (validators : option ProtoValidators)
  | PBasicAllowance (b : ProtoBasic)
  | PPeriodicAllowance (basic : option ProtoBasic) (period : option ProtoTime)
      (period_spend_limit period_can_spend : list ProtoCoin) (period_reset : option ProtoTime)
  | PAllowedMsgAllowance (allowance : option ProtoAny) (allowed_messages : list string).

(** [Message::encode_to_vec] and [Name::type_url] *)
Class Prost := { encode : ProtoMsg → string; type_url : ProtoMsg → string }.
(** The names of three messages *)
Class ProstLaws `{Prost} : Prop := {
  url_instantiate2 g a c l m f s x : type_url (PMsgInstantiateContract2 g a c l m f s x) = "/cosmwasm.wasm.v1.MsgInstantiateContract2";
  url_vote i g v : type_url (PMsgVote i g v) = "/cosmos.gov.v1beta1.MsgVote";
  url_vote_weighted i g l : type_url (PMsgVoteWeighted i g l) = "/cosmos.gov.v1beta1.MsgVoteWeighted"
}.
(** The text of a body *)
Class BodyText `{CwOwnable} := { body_text : Body → string }.

(** [convert_coin], [convert_ibc_coin], [convert_coins], [convert_stamp]; [as i64]
    and [as i32] wrap around. *)
Definition as_i (w x : Z) : Z := (x + 2 ^ (w - 1)) mod 2 ^ w - 2 ^ (w - 1).
Definition convert_coin (c : Coin) : ProtoCoin := mkProtoCoin (denom c) (pretty (amount c)).
Definition convert_coins (l : list Coin) : list ProtoCoin := convert_coin <$> l.
Definition convert_stamp (stamp : Z) : ProtoTime := mkProtoTime (as_i 64 (seconds stamp)) (as_i 32 stamp).
(** gov.rs *)
Definition vote_to_option (v : VoteOption) : ProtoVote :=
  match v with VoteYes => PYes | VoteNo => PNo | VoteAbstain => PAbstain | VoteNoWithVeto => PNoWithVeto end.

(** [AuthorizationType], [Policy] (stargate/authz.rs), and what they convert into *)
Inductive AuthorizationType : Type := AuthUnspecified | AuthDelegate | AuthUndelegate | AuthRedelegate.
Definition proto_authorization (t : AuthorizationType) : ProtoAuthorization :=
  match t with
  | AuthUnspecified => PUnspecified | AuthDelegate => PDelegate
  | AuthUndelegate => PUndelegate | AuthRedelegate => PRedelegate
  end.
Inductive Policy : Type := AllowList (l : list Addr) | DenyList (l : list Addr).
Definition proto_policy (p : Policy) : ProtoValidators :=
  match p with AllowList l => PAllowList l | DenyList l => PDenyList l end.
(** [GenericAuthorization], [SendAuthorization], [StakeAuthorization] *)
Inductive Authorization : Type :=
  | GenericAuthorization (msg_type_url : string)
  | SendAuthorization (spend_limit : list Coin)
  | StakeAuthorization (max_tokens : option Coin) (authorization_type : AuthorizationType) (validators : option Policy).
(** [StargateMessage::type_url], [to_proto] *)
Definition authorization_type_url (a : Authorization) : string :=
  match a with
  | GenericAuthorization _ => "/cosmos.authz.v1beta1.GenericAuthorization"
  | SendAuthorization _ => "/cosmos.bank.v1beta1.SendAuthorization"
  | StakeAuthorization _ _ _ => "/cosmos.staking.v1beta.StakeAuthorization"
  end.
Definition authorization_proto (a : Authorization) : ProtoMsg :=
  match a with
  | GenericAuthorization url => PGenericAuthorization url
  | SendAuthorization spend_limit => PSendAuthorization (convert_coins spend_limit) []
  | StakeAuthorization max_tokens ty validators =>
      PStakeAuthorization (convert_coin <$> max_tokens) (proto_authorization ty) (proto_policy <$> validators)
  end.

(** [BasicAllowance], [PeriodicAllowance], [AllowedMsgAllowance] (stargate/feegrant.rs);
    a duration is its whole seconds and its nanoseconds. *)
Record BasicAllowance := mkBasic { ba_spend_limit : list Coin; ba_expiration : option Z }.
Record StdDuration := mkStdDuration { as_secs : Z; subsec_nanos : Z }.
Inductive BasicOrPeriodic : Type :=
  | Basic (b : BasicAllowance)
  | Periodic (basic : option BasicAllowance) (period : option StdDuration)
      (period_spend_limit period_can_spend : list Coin) (period_reset : option Z).
Inductive MsgAllowance : Type :=
  | Allowance (a : BasicOrPeriodic)
  | AllowedMsg (allowance : option BasicOrPeriodic) (allowed_messages : list string).
Definition basic_proto (b : BasicAllowance) : ProtoBasic :=
  mkProtoBasic (convert_coins (ba_spend_limit b)) (convert_stamp <$> ba_expiration b).
(** The fraction of a second of a period is dropped. *)
Definition allowance_proto (a : BasicOrPeriodic) : ProtoMsg :=
  match a with
  | Basic b => PBasicAllowance (basic_proto b)
  | Periodic basic period period_spend_limit period_can_spend period_reset =>
      PPeriodicAllowance (basic_proto <$> basic) ((λ p, mkProtoTime (as_i 64 (as_secs p)) 0) <$> period)
        (convert_coins period_spend_limit) (convert_coins period_can_spend) (convert_stamp <$> period_reset)
  end.

Section stargate.
Context `{Semver, Api, Instantiate2, CwOwnable, !Prost, !BodyText}.

(** [stargate_msg] of an encoded message *)
Definition stargate_msg (p : ProtoMsg) : CosmosMsg := MsgStargate (type_url p) (encode p).
(** [StargateMessage::to_any] of messages and of authorizations *)
Definition to_any (p : ProtoMsg) : ProtoAny := mkAny (type_url p) (encode p).
Definition authorization_any (a : Authorization) : ProtoAny :=
  mkAny (authorization_type_url a) (encode (authorization_proto a)).
Definition msg_allowance_proto (a : MsgAllowance) : ProtoMsg :=
  match a with
  | Allowance a => allowance_proto a
  | AllowedMsg allowance allowed_messages =>
      PAllowedMsgAllowance ((λ a, to_any (allowance_proto a)) <$> allowance) allowed_messages
  end.

(** ** Authorizations (authz.rs) *)

(** [auth_z], [fee_granter]: the granter is the account, if it is not another *)
Definition granter_or_account (base : Features) (granter : option Addr) : outcome SdkError Addr :=
  account ← f_account base; Ok (default account granter).
Definition revoke (granter grantee : Addr) (url : string) : CosmosMsg :=
  stargate_msg (PMsgRevoke granter grantee url).
Definition grant_authorization (granter grantee : Addr) (expiration : option Z) (a : Authorization) : CosmosMsg :=
  stargate_msg (PMsgGrant granter grantee (authorization_any a) (convert_stamp <$> expiration)).
Definition grant_generic (granter grantee : Addr) (msg_type_url : string) (expiration : option Z) : CosmosMsg :=
  grant_authorization granter grantee expiration (GenericAuthorization msg_type_url).
Definition grant_send (granter grantee : Addr) (spend_limit : list Coin) (expiration : option Z) : CosmosMsg :=
  grant_authorization granter grantee expiration (SendAuthorization spend_limit).
Definition grant_stake (granter grantee : Addr) (max_tokens : option Coin) (ty : AuthorizationType)
    (validators : option Policy) (expiration : option Z) : CosmosMsg :=
  grant_authorization granter grantee expiration (StakeAuthorization max_tokens ty validators).
(** The messages of the chain's own modules, for a sender *)
Definition staking_proto (g : Addr) (m : StakingMsg) : ProtoMsg :=
  match m with
  | Delegate validator c => PMsgDelegate g validator (convert_coin c)
  | Undelegate validator c => PMsgUndelegate g validator (convert_coin c)
  | Redelegate src dst c => PMsgBeginRedelegate g src dst (convert_coin c)
  end.
Definition gov_proto (g : Addr) (m : GovMsg) : ProtoMsg :=
  match m with
  | GovVote proposal_id o => PMsgVote proposal_id g (vote_to_option o)
  | GovVoteWeighted proposal_id options => PMsgVoteWeighted proposal_id g ((λ o, (vote_to_option o.1, o.2)) <$> options)
  end.
(** The type and value [execute] gives a message: burning coins, funding the
    community pool and custom messages trap. *)
Definition authz_value {E} (g : Addr) (m : CosmosMsg) : outcome E ProtoAny :=
  match m with
  | WasmExecute contract msg funds => Ok (to_any (PMsgExecuteContract g contract (body_text msg) (convert_coins funds)))
  | WasmInstantiate admin code_id label msg funds =>
      Ok (to_any (PMsgInstantiateContract g (default "" admin) code_id label (body_text msg) (convert_coins funds)))
  | WasmInstantiate2 admin code_id label msg funds salt =>
      let p := PMsgInstantiateContract2 g (default "" admin) code_id label (body_text msg) (convert_coins funds) salt false in
      Ok (mkAny "/cosmwasm.wasm.v1.MsgInstantiateContract2" (encode p))
  | WasmMigrate contract new_code_id msg => Ok (to_any (PMsgMigrateContract g contract new_code_id (body_text msg)))
  | WasmUpdateAdmin contract admin => Ok (to_any (PMsgUpdateAdmin g admin contract))
  | WasmClearAdmin contract => Ok (to_any (PMsgClearAdmin g contract))
  | MsgStargate url value => Ok (mkAny url value)
  | MsgBankSend to_address amount => Ok (to_any (PMsgSend g to_address (convert_coins amount)))
  | MsgStaking m => Ok (to_any (staking_proto g m))
  | MsgDistribution (SetWithdrawAddress a) => Ok (to_any (PMsgSetWithdrawAddress g a))
  | MsgDistribution (WithdrawDelegatorReward v) => Ok (to_any (PMsgWithdrawDelegatorReward g v))
  | MsgIbcTransfer channel to_address c timeout memo =>
      Ok (to_any (PMsgTransfer "transfer" channel (convert_coin c) g to_address (Clients.timeout_block timeout)
        (default 0 (Clients.timeout_timestamp timeout)) (default "" memo)))
  | MsgGov (GovVote _ _ as m) => Ok (mkAny "/cosmos.gov.v1beta1.MsgVote" (encode (gov_proto g m)))
  | MsgGov (GovVoteWeighted _ _ as m) => Ok (mkAny "/cosmos.gov.v1beta1.MsgVoteWeighted" (encode (gov_proto g m)))
  | MsgDistribution (FundCommunityPool _) | MsgBankBurn _ | OtherMsg _ => Panic
  end.
Definition execute_raw (grantee : Addr) (v : ProtoAny) : CosmosMsg := stargate_msg (PMsgExec grantee [v]).
Definition authz_execute {E} (granter grantee : Addr) (m : CosmosMsg) : outcome E CosmosMsg :=
  v ← authz_value granter m; Ok (execute_raw grantee v).

(** ** Fee allowances (feegrant.rs) *)

Definition revoke_allowance (granter grantee : Addr) : CosmosMsg := stargate_msg (PMsgRevokeAllowance granter grantee).
Definition grant_allowance (granter grantee : Addr) (a : MsgAllowance) : CosmosMsg :=
  stargate_msg (PMsgGrantAllowance granter grantee (to_any (msg_allowance_proto a))).
Definition grant_basic_allowance (granter grantee : Addr) (spend_limit : list Coin) (expiration : option Z) : CosmosMsg :=
  grant_allowance granter grantee (Allowance (Basic (mkBasic spend_limit expiration))).
Definition grant_periodic_allowance (granter grantee : Addr) (basic : option BasicAllowance) (period : option StdDuration)
    (period_spend_limit period_can_spend : list Coin) (period_reset : option Z) : CosmosMsg :=
  grant_allowance granter grantee (Allowance (Periodic basic period period_spend_limit period_can_spend period_reset)).
Definition grant_allowed_msg_allowance (granter grantee : Addr) (allowed_messages : list string)
    (allowance : option BasicOrPeriodic) : CosmosMsg :=
  grant_allowance granter grantee (AllowedMsg allowance allowed_messages).

(** ** Distribution (distribution.rs) *)

(** [to_json_binary] of bytes: a JSON array of numbers *)
Definition byte_text (c : ascii) : string := pretty (Z.of_nat (nat_of_ascii c)).
Definition json_of_bytes (b : string) : string :=
  "[" +:+ join ","%char (byte_text <$> list_ascii_of_string b) +:+ "]".
(** The message of the distribution module, encoded, then written as JSON *)
Definition distribution_msg (p : ProtoMsg) : outcome SdkError AccountAction :=
  Ok [MsgStargate (type_url p) (json_of_bytes (encode p))].
Definition set_withdraw_address (delegator withdraw : Addr) : outcome SdkError AccountAction :=
  distribution_msg (PMsgSetWithdrawAddress delegator withdraw).
Definition withdraw_delegator_reward (validator delegator : Addr) : outcome SdkError AccountAction :=
  distribution_msg (PMsgWithdrawDelegatorReward delegator validator).
Definition withdraw_delegator_commission (validator : Addr) : outcome SdkError AccountAction :=
  distribution_msg (PMsgWithdrawValidatorCommission validator).
Definition fund_community_pool (amount : list Coin) (depositor : Addr) : outcome SdkError AccountAction :=
  distribution_msg (PMsgFundCommunityPool (convert_coins amount) depositor).
End stargate.
