(* ===== verification/Subscription.v ===== *)
(** * The subscription app

    modules/contracts/apps/subscription (state.rs, msg.rs, contract.rs,
    handlers/*.rs): the storage of the app, payments in native coins and through
    cw20 contracts, the emissions of subscribers, the removal of expired
    subscribers, and the average income.  The handlers run on the storage of an
    app (App.v), whose developer's part is [SubStorage].

    cosmwasm_std's decimal arithmetic and the JSON texts are parameters. *)

From S2P Require Import Prelude Cosmos Strings Objects Names AccountIds Fees ModuleFactory Ownership AnsObjects Ans AnsClient Registry Clients Account Ibc Sdk SdkApis App.
From Stdlib Require Import Ascii String.
#[local] Open Scope string_scope.
#[local] Open Scope list_scope.
#[local] Open Scope Z_scope.

(** [Uint128::checked_mul_ceil] and [checked_div_floor] with a decimal,
    [Decimal::from_atomics] without decimal places, and the product of decimals,
    which traps when it does not fit. *)
Class DecimalArith := {
  checked_mul_ceil : Z → Z → option Z;
  checked_div_floor : Z → Z → option Z;
  decimal_from_uint : Z → option Z;
  decimal_mul : Z → Z → option Z
}.
Class DecimalArithLaws `{DecimalArith} : Prop := {
  mul_ceil_spec a d : 0 ≤ a → 0 ≤ d →
    let r := (a * d + DECIMAL_ONE - 1) / DECIMAL_ONE in
    checked_mul_ceil a d = if decide (r < 2 ^ 128) then Some r else None;
  div_floor_spec a d : 0 ≤ a → 0 ≤ d →
    checked_div_floor a d =
      if decide (d ≠ 0 ∧ a * DECIMAL_ONE / d < 2 ^ 128) then Some (a * DECIMAL_ONE / d) else None;
  from_uint_spec n : 0 ≤ n →
    decimal_from_uint n = if decide (n * DECIMAL_ONE < 2 ^ 128) then Some (n * DECIMAL_ONE) else None;
  decimal_mul_spec a d : 0 ≤ a → 0 ≤ d →
    decimal_mul a d = if decide (a * d / DECIMAL_ONE < 2 ^ 128) then Some (a * d / DECIMAL_ONE) else None
}.

(** ** State (state.rs) *)

Definition MAX_UNSUBS : Z := 15.

Inductive EmissionType (A : Type) : Type :=
  | NoEmission
  | SecondShared (emissions : Z) (token : A)
  | SecondPerUser (emissions : Z) (token : A).
Arguments NoEmission {A}.
Arguments SecondShared {A} emissions token.
Arguments SecondPerUser {A} emissions token.

Record Subscriber := mkSubscriber {
  expiration_timestamp : Z;
  last_emission_claim_timestamp : Z
}.
Definition set_expiration (t : Z) (s : Subscriber) : Subscriber :=
  mkSubscriber t (last_emission_claim_timestamp s).
Definition set_last_claim (t : Z) (s : Subscriber) : Subscriber :=
  mkSubscriber (expiration_timestamp s) t.
(** [Subscriber::new], [extend], [is_expired] *)
Definition subscriber_new {E} (b : BlockInfo) (paid_for_seconds : Z) : outcome E Subscriber :=
  expiration ← plus_seconds (time b) paid_for_seconds; Ok (mkSubscriber expiration (time b)).
Definition extend {E} (s : Subscriber) (paid_for_seconds : Z) : outcome E Subscriber :=
  expiration ← plus_seconds (expiration_timestamp s) paid_for_seconds; Ok (set_expiration expiration s).
Definition is_expired (s : Subscriber) (b : BlockInfo) : bool :=
  bool_decide (expiration_timestamp s ≤ time b).

(** ** Messages and errors (msg.rs, error.rs) *)

Section types.
Context `{CwAsset}.
Definition emission_check (e : EmissionType asset_info_unchecked) : option (EmissionType asset_info) :=
  match e with
  | NoEmission => Some NoEmission
  | SecondShared d a => SecondShared d <$> asset_info_check a
  | SecondPerUser d a => SecondPerUser d <$> asset_info_check a
  end.
Record SubscriptionConfig := mkSubscriptionConfig {
  payment_asset : asset_info;
  subscription_cost_per_second : Z;
  subscription_per_second_emissions : EmissionType asset_info;
  unsubscribe_hook_addr : option Addr
}.
Record SubscriptionInstantiateMsg := mkSubscriptionInit {
  si_payment_asset : asset_info_unchecked;
  si_cost_per_second : Z;
  si_emissions : EmissionType asset_info_unchecked;
  si_averaging_period : Z;
  si_hook_addr : option string
}.
Inductive SubscriptionExecuteMsg : Type :=
  | Pay (subscriber_addr : option string)
  | Unsubscribe (unsubscribe_addrs : list string)
  | ClaimEmissions (addr : string)
  | UpdateSubscriptionConfig (asset : option asset_info_unchecked) (cost : option Z)
      (emissions : option (EmissionType asset_info_unchecked)) (hook : option (Clearable string))
  | RefreshTWA.
Inductive SubscriptionQueryMsg : Type :=
  | QueryState
  | QueryConfig
  | QueryFee
  | QuerySubscriber (addr : string)
  | QuerySubscribers (start_after : option Addr) (limit : option Z) (expired_subs : option bool).
Record SubscriberResponse := mkSubscriberResponse {
  currently_subscribed : bool;
  subscriber_details : option Subscriber
}.
Inductive SubscriptionResponse : Type :=
  | StateResponse (active_subs : Z)
  | ConfigResponse (c : SubscriptionConfig)
  | FeeResponse (info : asset_info) (fee : Z)
  | OneSubscriber (r : SubscriberResponse)
  | Subscribers (l : list (Addr * SubscriberResponse)).

(** [SubscriptionError] *)
Inductive SubscriptionError : Type :=
  | SubStd (e : StdError)
  | SubAbstract (e : AbstractError)
  | SubSdk (e : SdkError)
  | SubAsset
  | SubAdmin (e : AdminError)
  | SubDecimal
  | SubApp (e : AppError)
  | SubFraction
  | WrongToken (i : asset_info)
  | NotUsingCW20Hook
  | EmissionsAlreadyClaimed
  | InsufficientPayment (required : Z) (token : string)
  | SubscriberEmissionsNotEnabled
  | NoOneUnsubbed
  | TooManyUnsubs
  | ZeroAveragePeriod.
#[export] Instance subscription_contract_error : ContractError SubscriptionError :=
  {| from_std := SubStd; from_sdk := SubSdk; from_abstract := SubAbstract |}.

(** A [cw20::Cw20ReceiveMsg]. *)
Record Cw20ReceiveMsg := mkCw20Receive { cw20_sender : string; cw20_amount : Z; cw20_msg : string }.
Inductive CustomExecuteMsg : Type :=
  | CustomBase (m : App.BaseExecuteMsg)
  | CustomModule (m : SubscriptionExecuteMsg)
  | Receive (m : Cw20ReceiveMsg).

(** The storage of the developer's part of the app. *)
Record SubStorage := mkSubStorage {
  sub_config : option SubscriptionConfig;
  sub_state : option Z;
  subscribers : gmap Addr Subscriber;
  expired_subscribers : gmap Addr Subscriber;
  income_twa : option TimeWeightedAverageData
}.
Definition set_sub_config (v : option SubscriptionConfig) (s : SubStorage) : SubStorage :=
  mkSubStorage v (sub_state s) (subscribers s) (expired_subscribers s) (income_twa s).
Definition set_sub_state (v : option Z) (s : SubStorage) : SubStorage :=
  mkSubStorage (sub_config s) v (subscribers s) (expired_subscribers s) (income_twa s).
Definition set_subscribers (v : gmap Addr Subscriber) (s : SubStorage) : SubStorage :=
  mkSubStorage (sub_config s) (sub_state s) v (expired_subscribers s) (income_twa s).
Definition set_expired_subscribers (v : gmap Addr Subscriber) (s : SubStorage) : SubStorage :=
  mkSubStorage (sub_config s) (sub_state s) (subscribers s) v (income_twa s).
Definition set_income_twa (v : option TimeWeightedAverageData) (s : SubStorage) : SubStorage :=
  mkSubStorage (sub_config s) (sub_state s) (subscribers s) (expired_subscribers s) v.
Definition no_subscriptions : SubStorage := mkSubStorage None None ∅ ∅ None.
End types.

(** The texts of the hook message, of [DepositHookMsg] and of the answers. *)
Class SubscriptionJson `{CwAsset} := {
  hook_to_json : list string → string;
  deposit_hook_from_json : string → option (option string);
  response_to_json : SubscriptionResponse → string
}.

(** ** Handlers *)

Section handlers.
Context `{CwAssetMsgs, Semver, Api, Instantiate2, !Querier, DecimalOps, DecimalArith, !SubscriptionJson}.
Abbreviation SubM := (M (State SubStorage) SubscriptionError).
Abbreviation SubResponse := (Response ModuleMsg).

(** Reading and writing the items of the developer's part. *)
Definition load_config : SubM SubscriptionConfig :=
  c ← gets (λ s, sub_config (custom s)); lift (ok_or c (SubStd (StdNotFound "config"))).
Definition load_sub_state : SubM Z :=
  n ← gets (λ s, sub_state (custom s)); lift (ok_or n (SubStd (StdNotFound "state"))).
Definition load_subscriber (a : Addr) : SubM Subscriber :=
  o ← gets (λ s, subscribers (custom s) !! a); lift (ok_or o (SubStd (StdNotFound "subs"))).
Definition update_custom (f : SubStorage → SubStorage) : SubM unit :=
  modify (λ s, set_custom (f (custom s)) s).
Definition save_subscriber (a : Addr) (sub : Subscriber) : SubM unit :=
  update_custom (λ c, set_subscribers (<[a := sub]> (subscribers c)) c).
(** [INCOME_TWA] *)
Definition on_twa {A} (m : M (option TimeWeightedAverageData) AbstractError A) : SubM A :=
  within SubAbstract (zoom (λ s, income_twa (custom s)) (λ t s, set_custom (set_income_twa t (custom s)) s) m).
(** Accumulates the income of the subscribers since the last time. *)
Definition accumulate_income (env : Env) (active_subs cost : Z) : SubM unit :=
  n ← lift (ok_or (decimal_from_uint active_subs) SubDecimal);
  v ← lift (unwrap (decimal_mul n cost));
  on_twa (accumulate env v) ≫= λ _, mret tt.

(** *** Payments (handlers/execute.rs, receive.rs) *)

(** The two branches of [try_pay]. *)
Definition extend_subscription (a : Addr) (active_sub : Subscriber) (paid_for_seconds : Z) : SubM unit :=
  active_sub ← lift (extend active_sub paid_for_seconds); save_subscriber a active_sub.
Definition activate_subscription (env : Env) (cost : Z) (a : Addr) (paid_for_seconds : Z) : SubM unit :=
  subscriber ← lift (subscriber_new (block env) paid_for_seconds);
  active_subs ← load_sub_state;
  accumulate_income env active_subs cost ≫= λ _,
  update_custom (λ c, set_expired_subscribers (delete a (expired_subscribers c)) c) ≫= λ _,
  save_subscriber a subscriber ≫= λ _,
  active_subs ← lift (add_u 32 active_subs 1);
  update_custom (set_sub_state (Some active_subs)).
Definition try_pay (env : Env) (asset : Asset) (subscriber_addr : Addr) : SubM SubResponse :=
  config ← load_config;
  twa_data ← on_twa twa_load;
  base ← gets base_state;
  base ← lift (ok_or base (SubStd (StdNotFound "base_state")));
  let cost := subscription_cost_per_second config in
  ensure (bool_decide (payment_asset config = as_info asset)) (WrongToken (payment_asset config)) ≫= λ _,
  required_payment ← lift (ok_or (checked_mul_ceil (averaging_period twa_data) cost) SubFraction);
  paid ← lift (ok_or (checked_div_floor (as_amount asset) cost) SubFraction);
  let paid_for_seconds := wrap_u 64 paid in
  current ← gets (λ s, subscribers (custom s) !! subscriber_addr);
  (match current with
   | Some active_sub => extend_subscription subscriber_addr active_sub paid_for_seconds
   | None =>
       ensure (bool_decide (required_payment ≤ as_amount asset))
         (InsufficientPayment required_payment (show_asset_info (payment_asset config))) ≫= λ _,
       activate_subscription env cost subscriber_addr paid_for_seconds
   end) ≫= λ _,
  msg ← lift (ok_or (asset_transfer_msg (as_info asset) (as_amount asset) base) SubAsset);
  mret (mkResponse "pay" [send (FromModule msg)]).

Definition validate_addr (human : string) : outcome SubscriptionError Addr :=
  map_err SubStd (addr_validate_r human).
Definition execute_pay (env : Env) (info : MessageInfo) (subscriber_addr : option string) : SubM SubResponse :=
  addr ← lift (match subscriber_addr with
    | Some human => validate_addr human
    | None => Ok (sender info)
    end);
  match last (funds info) with
  | Some coin => try_pay env (asset_of_coin coin) addr
  | None => fail NotUsingCW20Hook
  end.
Definition receive_cw20 (env : Env) (info : MessageInfo) (m : Cw20ReceiveMsg) : SubM SubResponse :=
  subscriber_addr ← lift (ok_or (deposit_hook_from_json (cw20_msg m)) (SubStd (StdMsg "invalid hook message")));
  addr ← lift (validate_addr (default (cw20_sender m) subscriber_addr));
  try_pay env (mkAsset (asset_cw20 (sender info)) (cw20_amount m)) addr.

(** *** Emissions *)

(** What a subscriber is due for some seconds. *)
Definition emission_due (seconds_passed active_subs : Z) (e : EmissionType asset_info) :
    outcome SubscriptionError Asset :=
  match e with
  | NoEmission => Err SubscriberEmissionsNotEnabled
  | SecondShared shared token =>
      total ← unwrap (uint_mul_floor 128 seconds_passed shared);
      if decide (active_subs = 0) then Panic else Ok (mkAsset token (total / active_subs))
  | SecondPerUser per_user token =>
      amount ← unwrap (uint_mul_floor 128 seconds_passed per_user); Ok (mkAsset token amount)
  end.
(** [claim_emissions_msg]: the claim, and the subscriber it leaves. *)
Definition claim_emissions_msg (env : Env) (subscriber : Subscriber) (subscriber_addr : Addr)
    (e : EmissionType asset_info) (active_subs : Z) :
    outcome SubscriptionError (option AccountAction * Subscriber) :=
  let now := time (block env) in
  let last_claim := last_emission_claim_timestamp subscriber in
  if decide (now ≤ last_claim) then Err EmissionsAlreadyClaimed else
  duration ← sub_u now (seconds last_claim * NANOS);
  asset ← emission_due (seconds duration) active_subs e;
  if decide (as_amount asset = 0) then Ok (None, subscriber) else
  send_msg ← map_err SubSdk (transfer [asset] subscriber_addr);
  Ok (Some send_msg, set_last_claim now subscriber).

Definition app_account : SubM (outcome SdkError Addr) := gets account.
Definition claim_subscriber_emissions (env : Env) (addr : string) : SubM SubResponse :=
  subscriber_addr ← lift (validate_addr addr);
  active_subs ← load_sub_state;
  config ← load_config;
  subscriber ← load_subscriber subscriber_addr;
  '(maybe_action, subscriber) ← lift (claim_emissions_msg env subscriber subscriber_addr
    (subscription_per_second_emissions config) active_subs);
  save_subscriber subscriber_addr subscriber ≫= λ _,
  account ← app_account;
  match maybe_action with
  | Some action =>
      msg ← lift (map_err SubSdk (executor_execute account [action]));
      mret (mkResponse "claim_emissions" [send msg])
  | None => mret (mkResponse "claim_emissions" [])
  end.

(** *** Expired subscribers *)

(** A claim that is refused because nothing can be claimed is no claim. *)
Definition last_claim (o : outcome SubscriptionError (option AccountAction * Subscriber)) (subscriber : Subscriber) :
    outcome SubscriptionError (option AccountAction * Subscriber) :=
  match o with
  | Err EmissionsAlreadyClaimed | Err SubscriberEmissionsNotEnabled => Ok (None, subscriber)
  | _ => o
  end.
(** The number of active subscribers, the cancelled ones, and the claims. *)
Record Unsubscribed := mkUnsubscribed {
  un_active_subs : Z;
  canceled_subs : list Addr;
  claim_actions : list AccountAction
}.
(** The body of the loop of [unsubscribe]. *)
Definition unsubscribe_one (env : Env) (e : EmissionType asset_info) (u : Unsubscribed) (addr : Addr) :
    SubM Unsubscribed :=
  subscriber ← load_subscriber addr;
  if is_expired subscriber (block env) then
    '(maybe_claim, subscriber) ←
      lift (last_claim (claim_emissions_msg env subscriber addr e (un_active_subs u)) subscriber);
    active_subs ← lift (sub_u (un_active_subs u) 1);
    update_custom (λ c, set_subscribers (delete addr (subscribers c)) c) ≫= λ _,
    update_custom (λ c, set_expired_subscribers (<[addr := subscriber]> (expired_subscribers c)) c) ≫= λ _,
    mret (mkUnsubscribed active_subs (canceled_subs u ++ [addr])
      (claim_actions u ++ match maybe_claim with Some a => [a] | None => [] end))
  else mret u.
(** [into_cosmos_msg] of the hook message *)
Definition hook_msg (hook : Addr) (unsubscribed : list Addr) : ModuleMsg :=
  FromModule (WasmExecute hook (Raw (hook_to_json unsubscribed)) []).
Definition unsubscribe (env : Env) (unsubscribe_addrs : list string) : SubM SubResponse :=
  ensure (bool_decide (Z.of_nat (List.length unsubscribe_addrs) ≤ MAX_UNSUBS)) TooManyUnsubs ≫= λ _,
  addrs ← lift (omapM validate_addr unsubscribe_addrs);
  active_subs ← load_sub_state;
  config ← load_config;
  accumulate_income env active_subs (subscription_cost_per_second config) ≫= λ _,
  u ← mfold addrs (mkUnsubscribed active_subs [] [])
    (unsubscribe_one env (subscription_per_second_emissions config));
  ensure (bool_decide (canceled_subs u ≠ [])) NoOneUnsubbed ≫= λ _,
  update_custom (set_sub_state (Some (un_active_subs u))) ≫= λ _,
  account ← app_account;
  let claims := match executor_execute account (claim_actions u) with Ok m => [send m] | _ => [] end in
  let hook := match unsubscribe_hook_addr config with
    | Some hook => [send (hook_msg hook (canceled_subs u))] | None => [] end in
  mret (mkResponse "unsubscribe" (claims ++ hook)).

(** *** Configuration *)

(** [Clearable::check] *)
Definition clearable_check (c : Clearable string) : outcome SubscriptionError (option Addr) :=
  match c with
  | ClearableSet human => a ← validate_addr human; Ok (Some a)
  | Clear => Ok None
  end.
Definition checked_asset (o : option asset_info_unchecked) (old : asset_info) : outcome SubscriptionError asset_info :=
  match o with Some a => ok_or (asset_info_check a) SubAsset | None => Ok old end.
Definition checked_emissions (o : option (EmissionType asset_info_unchecked)) (old : EmissionType asset_info) :
    outcome SubscriptionError (EmissionType asset_info) :=
  match o with Some e => ok_or (emission_check e) (SubAbstract AbsAsset) | None => Ok old end.
Definition update_subscription_config (env : Env) (info : MessageInfo) (asset : option asset_info_unchecked)
    (cost : option Z) (emissions : option (EmissionType asset_info_unchecked))
    (hook : option (Clearable string)) : SubM SubResponse :=
  within SubAdmin (assert_app_admin env (sender info)) ≫= λ _,
  config ← load_config;
  asset ← lift (checked_asset asset (payment_asset config));
  emissions ← lift (checked_emissions emissions (subscription_per_second_emissions config));
  hook ← lift (match hook with
    | Some h => clearable_check h | None => Ok (unsubscribe_hook_addr config) end);
  update_custom (set_sub_config (Some (mkSubscriptionConfig asset
    (default (subscription_cost_per_second config) cost) emissions hook))) ≫= λ _,
  mret (mkResponse "update_subscription_config" []).

(** [execute_handler] *)
Definition execute_handler (env : Env) (info : MessageInfo) (module : unit) (msg : SubscriptionExecuteMsg) :
    SubM SubResponse :=
  match msg with
  | Pay subscriber_addr => execute_pay env info subscriber_addr
  | Unsubscribe unsubscribe_addrs => unsubscribe env unsubscribe_addrs
  | ClaimEmissions addr => claim_subscriber_emissions env addr
  | UpdateSubscriptionConfig asset cost emissions hook =>
      update_subscription_config env info asset cost emissions hook
  | RefreshTWA => on_twa (try_update_value env) ≫= λ _, mret (mkResponse "" [])
  end.
(** [instantiate_handler] *)
Definition instantiate_handler (env : Env) (info : MessageInfo) (module : unit) (msg : SubscriptionInstantiateMsg) :
    SubM SubResponse :=
  asset ← lift (ok_or (asset_info_check (si_payment_asset msg)) SubAsset);
  emissions ← lift (ok_or (emission_check (si_emissions msg)) (SubAbstract AbsAsset));
  hook ← lift (match si_hook_addr msg with
    | Some human => a ← validate_addr human; Ok (Some a) | None => Ok None end);
  update_custom (set_sub_config (Some (mkSubscriptionConfig asset (si_cost_per_second msg) emissions hook))) ≫= λ _,
  update_custom (set_sub_state (Some 0)) ≫= λ _,
  ensure (bool_decide (si_averaging_period msg ≠ 0)) ZeroAveragePeriod ≫= λ _,
  update_custom (set_income_twa (Some (twa_instantiate env None (si_averaging_period msg)))) ≫= λ _,
  mret (mkResponse "" []).

(** ** Queries (handlers/query.rs) *)

(** [DEFAULT_LIMIT] of the voting module; [limit as usize] on a 32-bit target *)
Definition DEFAULT_LIMIT : Z := 25.
Definition query_subscriber (s : SubStorage) (addr : string) : outcome SubscriptionError SubscriberResponse :=
  addr ← validate_addr addr;
  Ok (match subscribers s !! addr with
    | Some sub => mkSubscriberResponse true (Some sub)
    | None => mkSubscriberResponse false (expired_subscribers s !! addr)
    end).
Definition query_subscribers (s : SubStorage) (start_after : option Addr) (limit : option Z)
    (expired_subs : option bool) : list (Addr * SubscriberResponse) :=
  let subscribed := negb (default false expired_subs) in
  let map := if subscribed then subscribers s else expired_subscribers s in
  (λ x, (x.1, mkSubscriberResponse subscribed (Some x.2))) <$>
    take (Z.to_nat (wrap_u 32 (default DEFAULT_LIMIT limit))) (range text_lt start_after (map_to_list map)).
Definition query_fee (s : SubStorage) : outcome SubscriptionError SubscriptionResponse :=
  config ← ok_or (sub_config s) (SubStd (StdNotFound "config"));
  twa_data ← ok_or (income_twa s) (SubAbstract (AbsStd (StdNotFound "twa")));
  minimal_cost ← unwrap (uint_mul_floor 128 (averaging_period twa_data) (subscription_cost_per_second config));
  Ok (FeeResponse (payment_asset config) minimal_cost).
Definition answer_query (s : SubStorage) (msg : SubscriptionQueryMsg) :
    outcome SubscriptionError SubscriptionResponse :=
  match msg with
  | QueryState => n ← ok_or (sub_state s) (SubStd (StdNotFound "state")); Ok (StateResponse n)
  | QueryConfig => c ← ok_or (sub_config s) (SubStd (StdNotFound "config")); Ok (ConfigResponse c)
  | QueryFee => query_fee s
  | QuerySubscriber addr => r ← query_subscriber s addr; Ok (OneSubscriber r)
  | QuerySubscribers start_after limit expired_subs =>
      Ok (Subscribers (query_subscribers s start_after limit expired_subs))
  end.
Definition query_handler (env : Env) (module : unit) (msg : SubscriptionQueryMsg) (s : State SubStorage) :
    outcome SubscriptionError string :=
  r ← answer_query (custom s) msg; Ok (response_to_json r).

(** ** The contract (contract.rs, handlers/custom.rs) *)

Definition SUBSCRIPTION_ID : string := "abstract:subscription".
Definition CONTRACT_VERSION : string := "0.26.1".
Definition SubscriptionApp : Type := AbstractContract () (State SubStorage) SubscriptionError ModuleMsg
  SubscriptionInstantiateMsg SubscriptionExecuteMsg SubscriptionQueryMsg unit unit.
Definition SUBSCRIPTION_MODULE : SubscriptionApp :=
  mkContract (SUBSCRIPTION_ID, CONTRACT_VERSION, None) [] (Some instantiate_handler)
    (Some execute_handler) (Some query_handler) None None ([], []) None None.

Context `{!Registries, !ComparatorParse}.
(** The execute entry point: messages of the base and of the app go to the base
    of apps, a cw20 receipt to its own handler. *)
Definition execute (env : Env) (info : MessageInfo) (msg : CustomExecuteMsg) : SubM SubResponse :=
  match msg with
  | CustomBase m => App.execute SUBSCRIPTION_MODULE env info (Base_ m)
  | CustomModule m => App.execute SUBSCRIPTION_MODULE env info (Module_msg m)
  | Receive m => receive_cw20 env info m
  end.
End handlers.
