(* ===== verification/Challenge.v ===== *)
(** * The challenge app

    modules/contracts/apps/challenge (state.rs, msg.rs, contract.rs,
    handlers/*.rs): an account sets itself challenges, its friends vote on
    whether it failed them, and a vote that passes charges the account a penalty
    that goes to the friends.  The voting object of abstract-std (Voting.v) is
    embedded in the storage of the app, and its methods are called through it. *)

From S2P Require Import Prelude Cosmos Strings Voting Objects Names AccountIds Fees ModuleFactory Ownership AnsObjects Ans AnsClient Registry Clients Account Ibc Sdk SdkApis App.
From Stdlib Require Import Ascii String.
#[local] Open Scope string_scope.
#[local] Open Scope list_scope.
#[local] Open Scope Z_scope.

(** ** State (state.rs) *)

Definition MAX_AMOUNT_OF_FRIENDS : Z := 20.

Inductive StrikeStrategy : Type := Split (amount : Z) | PerFriend (amount : Z).
Record AdminStrikes := mkAdminStrikes { num_strikes : Z; strike_limit : Z }.
(** [AdminStrikes::new]; [strike], which also answers whether the limit is
    reached *)
Definition admin_strikes_new (limit : option Z) : AdminStrikes := mkAdminStrikes 0 (default 1 limit).
Definition strike {E} (a : AdminStrikes) : outcome E (bool * AdminStrikes) :=
  n ← add_u 8 (num_strikes a) 1;
  Ok (bool_decide (strike_limit a ≤ n), mkAdminStrikes n (strike_limit a)).

(** [Friend], with an address that is checked or not; [FriendByAddr] *)
Inductive Friend : Type :=
  | FriendByAddr (address : Addr) (name : string)
  | AbstractAccount (account_id : AccountId).
#[export] Instance Friend_eq_dec : EqDecision Friend.
Proof. solve_decision. Defined.

Record ChallengeRequest := mkChallengeRequest {
  rq_name : string;
  rq_strike_asset : AssetEntry;
  rq_strike_strategy : StrikeStrategy;
  rq_description : option string;
  rq_challenge_duration_seconds : Z;
  rq_proposal_duration_seconds : Z;
  rq_strikes_limit : option Z;
  rq_init_friends : list Friend
}.
Record ChallengeEntry := mkChallenge {
  ch_name : string;
  strike_asset : AssetEntry;
  strike_strategy : StrikeStrategy;
  ch_description : string;
  admin_strikes : AdminStrikes;
  proposal_duration_seconds : Z;
  ch_end_timestamp : Z
}.
Definition set_ch_name (n : string) (c : ChallengeEntry) : ChallengeEntry :=
  mkChallenge n (strike_asset c) (strike_strategy c) (ch_description c) (admin_strikes c)
    (proposal_duration_seconds c) (ch_end_timestamp c).
Definition set_ch_description (d : string) (c : ChallengeEntry) : ChallengeEntry :=
  mkChallenge (ch_name c) (strike_asset c) (strike_strategy c) d (admin_strikes c)
    (proposal_duration_seconds c) (ch_end_timestamp c).
Definition set_ch_end (t : Z) (c : ChallengeEntry) : ChallengeEntry :=
  mkChallenge (ch_name c) (strike_asset c) (strike_strategy c) (ch_description c) (admin_strikes c)
    (proposal_duration_seconds c) t.
(** [ChallengeEntry::new] *)
Definition challenge_new (request : ChallengeRequest) (end_ : Z) : outcome ValidationError ChallengeEntry :=
  validate_title (rq_name request) ≫= λ _,
  validate_description (rq_description request) ≫= λ _,
  Ok (mkChallenge (rq_name request) (rq_strike_asset request) (rq_strike_strategy request)
    (default "" (rq_description request)) (admin_strikes_new (rq_strikes_limit request))
    (rq_proposal_duration_seconds request) end_).

Record ChallengeEntryUpdate := mkChallengeUpdate { up_name : option string; up_description : option string }.
Inductive UpdateFriendsOpKind : Type := Add | Remove.

(** The storage of the developer's part of the app. *)
Record ChallengeStorage := mkChallengeStorage {
  next_id : option Z;
  simple_voting : SimpleVoting;
  challenges : gmap Z ChallengeEntry;
  challenge_friends : gmap Z (list Friend);
  challenge_proposals : gset (Z * Z)
}.
Definition set_next_id (v : option Z) (s : ChallengeStorage) : ChallengeStorage :=
  mkChallengeStorage v (simple_voting s) (challenges s) (challenge_friends s) (challenge_proposals s).
Definition set_simple_voting (v : SimpleVoting) (s : ChallengeStorage) : ChallengeStorage :=
  mkChallengeStorage (next_id s) v (challenges s) (challenge_friends s) (challenge_proposals s).
Definition set_challenges (v : gmap Z ChallengeEntry) (s : ChallengeStorage) : ChallengeStorage :=
  mkChallengeStorage (next_id s) (simple_voting s) v (challenge_friends s) (challenge_proposals s).
Definition set_challenge_friends (v : gmap Z (list Friend)) (s : ChallengeStorage) : ChallengeStorage :=
  mkChallengeStorage (next_id s) (simple_voting s) (challenges s) v (challenge_proposals s).
Definition set_challenge_proposals (v : gset (Z * Z)) (s : ChallengeStorage) : ChallengeStorage :=
  mkChallengeStorage (next_id s) (simple_voting s) (challenges s) (challenge_friends s) v.
Definition no_challenges : ChallengeStorage := mkChallengeStorage None empty_voting ∅ ∅ ∅.

(** ** Messages and errors (msg.rs, error.rs) *)

Inductive ChallengeExecuteMsg : Type :=
  | UpdateConfig (new_vote_config : VoteConfig)
  | CreateChallenge (challenge_req : ChallengeRequest)
  | UpdateChallenge (challenge_id : Z) (challenge : ChallengeEntryUpdate)
  | CancelChallenge (challenge_id : Z)
  | UpdateFriendsForChallenge (challenge_id : Z) (friends : list Friend) (op_kind : UpdateFriendsOpKind)
  | CastVote (challenge_id : Z) (vote_to_punish : Vote)
  | CountVotes (challenge_id : Z)
  | Veto (challenge_id : Z).
Inductive ChallengeQueryMsg : Type :=
  | QueryChallenge (challenge_id : Z)
  | QueryChallenges (start_after limit : option Z)
  | QueryFriends (challenge_id : Z)
  | QueryVote (voter_addr : string) (challenge_id : Z) (proposal_id : option Z)
  | QueryVotes (challenge_id : Z) (proposal_id : option Z) (start_after : option Addr) (limit : option Z)
  | QueryProposals (challenge_id : Z) (start_after limit : option Z).
(** [ChallengeEntryResponse], and the responses *)
Record ChallengeEntryResponse := from_entry {
  er_entry : ChallengeEntry;
  er_challenge_id : Z;
  er_active_proposal : option ProposalInfo
}.
Inductive ChallengeResponse : Type :=
  | OneChallenge (challenge : option ChallengeEntryResponse)
  | Challenges (l : list ChallengeEntryResponse)
  | FriendsResponse (friends : list Friend)
  | VoteResponse (vote : option Vote)
  | VotesResponse (votes : list (Addr * option Vote))
  | ProposalsResponse (proposals : list (Z * ProposalInfo)).

(** [AppError] *)
Inductive ChallengeError : Type :=
  | ChStd (e : StdError)
  | ChAbstract (e : AbstractError)
  | ChSdk (e : SdkError)
  | ChAdmin (e : AdminError)
  | ChVote (e : VoteError)
  | ChValidation (e : ValidationError)
  | ChallengeNotFound
  | ZeroFriends
  | TooManyFriends
  | DuplicateFriends
  | FriendsEditDuringProposal (end_ : Z)
  | ChallengeExpired
  | ExpectedProposal.
#[export] Instance challenge_contract_error : ContractError ChallengeError :=
  {| from_std := ChStd; from_sdk := ChSdk; from_abstract := ChAbstract |}.

(** The text of an answer. *)
Class ChallengeJson := { challenge_to_json : ChallengeResponse → string }.

(** ** Handlers (handlers/execute.rs) *)

(** [last_proposal]: the greatest id among the proposals of a challenge *)
Definition proposals_of (challenge_id : Z) (s : ChallengeStorage) : list Z :=
  snd <$> filter (λ x, x.1 = challenge_id) (elements (challenge_proposals s)).
Definition greatest (l : list Z) : option Z :=
  foldr (λ p o, Some (match o with Some q => Z.max p q | None => p end)) None l.
Definition last_proposal (challenge_id : Z) (s : ChallengeStorage) : option Z :=
  greatest (proposals_of challenge_id s).

Section handlers.
Context `{CwAssetMsgs, !AnsHosts, Semver, Api, Instantiate2, !Querier, !Registries, DecimalOps, !ChallengeJson}.
Abbreviation ChM := (M (State ChallengeStorage) ChallengeError).
Abbreviation ChResponse := (Response ModuleMsg).

Definition update_custom (f : ChallengeStorage → ChallengeStorage) : ChM unit :=
  modify (λ s, set_custom (f (custom s)) s).
(** A method of the voting object. *)
Definition on_voting {A} (m : M SimpleVoting VoteError A) : ChM A :=
  within ChVote (zoom (λ s, simple_voting (custom s)) (λ v s, set_custom (set_simple_voting v (custom s)) s) m).
Definition assert_challenge_admin (env : Env) (info : MessageInfo) : ChM unit :=
  within ChAdmin (assert_app_admin env (sender info)).
Definition load_challenge (challenge_id : Z) : ChM ChallengeEntry :=
  c ← gets (λ s, challenges (custom s) !! challenge_id); lift (ok_or c (ChStd (StdNotFound "challenges"))).
Definition load_friends (challenge_id : Z) : ChM (list Friend) :=
  l ← gets (λ s, challenge_friends (custom s) !! challenge_id); lift (ok_or l (ChStd (StdNotFound "friends"))).
Definition save_challenge (challenge_id : Z) (c : ChallengeEntry) : ChM unit :=
  update_custom (λ s, set_challenges (<[challenge_id := c]> (challenges s)) s).
Definition save_friends (challenge_id : Z) (l : list Friend) : ChM unit :=
  update_custom (λ s, set_challenge_friends (<[challenge_id := l]> (challenge_friends s)) s).
Definition last_proposal_of (challenge_id : Z) : ChM (option Z) :=
  gets (λ s, last_proposal challenge_id (custom s)).

(** *** Friends (msg.rs) *)

(** [AccountRegistry::account] *)
Definition account_by_id (registry : Addr) (id : AccountId) : outcome SdkError Addr :=
  map_err (SdkApiQuery "AccountRegistry") (registry_account registry id).
(** [Friend::check] and [Friend::addr] *)
Definition friend_check (registry : outcome SdkError Addr) (human : Friend) : outcome SdkError (Addr * Friend) :=
  account_registry ← registry;
  match human with
  | FriendByAddr address name =>
      checked ← map_err SdkStd (addr_validate_r address); Ok (checked, FriendByAddr checked name)
  | AbstractAccount account_id =>
      base ← account_by_id account_registry account_id; Ok (base, AbstractAccount account_id)
  end.
Definition friend_addr (registry : outcome SdkError Addr) (friend : Friend) : outcome SdkError Addr :=
  match friend with
  | FriendByAddr address _ => Ok address
  | AbstractAccount account_id => account_registry ← registry; account_by_id account_registry account_id
  end.
Definition check_friends (friends : list Friend) : ChM (list Addr * list Friend) :=
  registry ← gets abstract_registry;
  l ← lift (map_err ChSdk (omapM (friend_check registry) friends));
  mret (l.*1, l.*2).
Definition friends_addrs (friends : list Friend) : ChM (list Addr) :=
  registry ← gets abstract_registry; lift (map_err ChSdk (omapM (friend_addr registry) friends)).

(** *** Challenges *)

Definition create_challenge (env : Env) (info : MessageInfo) (req : ChallengeRequest) : ChM ChResponse :=
  assert_challenge_admin env info ≫= λ _,
  ensure (bool_decide (Z.of_nat (List.length (rq_init_friends req)) < MAX_AMOUNT_OF_FRIENDS)) TooManyFriends ≫= λ _,
  '(friend_addrs, friends) ← check_friends (rq_init_friends req);
  ensure (bool_decide (NoDup friend_addrs)) DuplicateFriends ≫= λ _,
  id ← gets (λ s, next_id (custom s));
  id ← lift (ok_or id (ChStd (StdNotFound "next_id")));
  challenge_id ← lift (add_u 64 id 1);
  update_custom (set_next_id (Some challenge_id)) ≫= λ _,
  save_friends challenge_id friends ≫= λ _,
  end_ ← lift (plus_seconds (time (block env)) (rq_challenge_duration_seconds req));
  challenge ← lift (map_err ChValidation (challenge_new req end_));
  save_challenge challenge_id challenge ≫= λ _,
  mret (mkResponse "create_challenge" []).
Definition update_challenge (env : Env) (info : MessageInfo) (challenge_id : Z) (u : ChallengeEntryUpdate) :
    ChM ChResponse :=
  assert_challenge_admin env info ≫= λ _,
  c ← gets (λ s, challenges (custom s) !! challenge_id);
  c ← lift (ok_or c ChallengeNotFound);
  let c := match up_name u with Some name => set_ch_name name c | None => c end in
  let c := match up_description u with Some d => set_ch_description d c | None => c end in
  save_challenge challenge_id c ≫= λ _,
  mret (mkResponse "update_challenge" []).
Definition cancel_challenge (env : Env) (info : MessageInfo) (challenge_id : Z) : ChM ChResponse :=
  assert_challenge_admin env info ≫= λ _,
  challenge ← load_challenge challenge_id;
  ensure (bool_decide (time (block env) < ch_end_timestamp challenge)) ChallengeExpired ≫= λ _,
  last ← last_proposal_of challenge_id;
  (match last with
   | Some proposal_id => on_voting (cancel_proposal (block env) proposal_id) ≫= λ _, mret tt
   | None => mret tt
   end) ≫= λ _,
  save_challenge challenge_id (set_ch_end (time (block env)) challenge) ≫= λ _,
  mret (mkResponse "cancel_challenge" []).

Definition add_friends (challenge_id : Z) (voters_addrs : list Addr) (friends : list Friend) : ChM unit :=
  current ← gets (λ s, challenge_friends (custom s) !! challenge_id);
  current_friends ← lift (ok_or current ChallengeNotFound);
  ensure (bool_decide (Z.of_nat (List.length friends + List.length current_friends) < MAX_AMOUNT_OF_FRIENDS))
    TooManyFriends ≫= λ _,
  current_addrs ← friends_addrs current_friends;
  ensure (bool_decide (NoDup (current_addrs ++ voters_addrs))) DuplicateFriends ≫= λ _,
  save_friends challenge_id (current_friends ++ friends).
Definition remove_friends (challenge_id : Z) (friends : list Friend) : ChM unit :=
  current ← gets (λ s, challenge_friends (custom s) !! challenge_id);
  current_friends ← lift (ok_or current ZeroFriends);
  save_friends challenge_id
    (foldl (λ current rem_friend, filter (λ friend, friend ≠ rem_friend) current) current_friends friends).
Definition update_friends_for_challenge (env : Env) (info : MessageInfo) (challenge_id : Z)
    (friends : list Friend) (op_kind : UpdateFriendsOpKind) : ChM ChResponse :=
  assert_challenge_admin env info ≫= λ _,
  '(voters_addrs, friends) ← check_friends friends;
  last ← last_proposal_of challenge_id;
  (match last with
   | Some proposal_id =>
       p ← on_voting (load_proposal (block env) proposal_id);
       ensure (bool_decide (end_timestamp p ≤ time (block env))) (FriendsEditDuringProposal (end_timestamp p))
   | None => mret tt
   end) ≫= λ _,
  (match op_kind with
   | Add => add_friends challenge_id voters_addrs friends
   | Remove => remove_friends challenge_id friends
   end) ≫= λ _,
  mret (mkResponse "update_friends" []).

(** *** Votes *)

Definition get_or_create_active_proposal (env : Env) (challenge_id : Z) : ChM Z :=
  challenge ← load_challenge challenge_id;
  last ← last_proposal_of challenge_id;
  active ← match last with
    | Some proposal_id =>
        proposal ← on_voting (load_proposal (block env) proposal_id);
        mret (if is_ok (assert_active_proposal proposal) then Some proposal_id else None)
    | None => mret None
    end;
  match active with
  | Some proposal_id => mret proposal_id
  | None =>
      ensure (bool_decide (time (block env) < ch_end_timestamp challenge)) ChallengeExpired ≫= λ _,
      friends ← load_friends challenge_id;
      addrs ← friends_addrs friends;
      end_ ← lift (plus_seconds (time (block env)) (proposal_duration_seconds challenge));
      proposal_id ← on_voting (new_proposal end_ addrs);
      update_custom (λ s, set_challenge_proposals ({[(challenge_id, proposal_id)]} ∪ challenge_proposals s) s) ≫= λ _,
      mret proposal_id
  end.
Definition execute_cast_vote (env : Env) (info : MessageInfo) (v : Vote) (challenge_id : Z) : ChM ChResponse :=
  proposal_id ← get_or_create_active_proposal env challenge_id;
  registry ← gets abstract_registry;
  registry ← lift (map_err ChSdk registry);
  let voter := match assert_is_account registry (sender info) with Ok base => base | _ => sender info end in
  on_voting (cast_vote (block env) proposal_id voter v) ≫= λ _,
  mret (mkResponse "cast_vote" []).
Definition execute_veto (env : Env) (info : MessageInfo) (challenge_id : Z) : ChM ChResponse :=
  last ← last_proposal_of challenge_id;
  proposal_id ← lift (ok_or last ExpectedProposal);
  assert_challenge_admin env info ≫= λ _,
  on_voting (veto_proposal (block env) proposal_id) ≫= λ _,
  mret (mkResponse "veto" []).

(** *** Penalties *)

(** What every friend gets, and what is left. *)
Definition penalty_shares (s : StrikeStrategy) (num_friends : Z) : Z * Z :=
  match s with
  | Split amount => (amount / num_friends, amount mod num_friends)
  | PerFriend amount => (amount, 0)
  end.
(** [charge_penalty]; the remainder is only an attribute. *)
Definition charge_penalty (challenge : ChallengeEntry) (friends : list Friend) : ChM ChResponse :=
  let num_friends := Z.of_nat (List.length friends) in
  ensure (bool_decide (num_friends ≠ 0)) ZeroFriends ≫= λ _,
  let '(amount_per_friend, remainder) := penalty_shares (strike_strategy challenge) num_friends in
  let asset_per_friend := mkAnsAsset (strike_asset challenge) amount_per_friend in
  registry ← gets abstract_registry;
  host ← gets ans_host;
  transfer_actions ← lift (map_err ChSdk (omapM (λ friend,
    recipient ← friend_addr registry friend;
    asset ← transferable_ans host asset_per_friend;
    transfer [asset] recipient) friends));
  account ← gets account;
  transfer_msg ← lift (map_err ChSdk (executor_execute account transfer_actions));
  mret (mkResponse "charge_penalty" [send transfer_msg]).
(** [try_finish_challenge]: the strike is counted on a copy of the challenge,
    which is not saved. *)
Definition try_finish_challenge (outcome : ProposalOutcome) (challenge : ChallengeEntry) (challenge_id : Z) :
    ChM ChResponse :=
  friends ← load_friends challenge_id;
  match outcome with
  | Passed =>
      '(challenge_finished, strikes) ← lift (strike (admin_strikes challenge));
      charge_penalty challenge friends
  | _ => mret (mkResponse "finish_vote" [])
  end.
Definition execute_count_votes (env : Env) (info : MessageInfo) (challenge_id : Z) : ChM ChResponse :=
  challenge ← load_challenge challenge_id;
  last ← last_proposal_of challenge_id;
  proposal_id ← lift (ok_or last ExpectedProposal);
  '(proposal_info, outcome) ← on_voting (count_votes (block env) proposal_id);
  try_finish_challenge outcome challenge challenge_id.

(** [execute_handler]: the configuration of votes is open to everybody. *)
Definition execute_handler (env : Env) (info : MessageInfo) (module : unit) (msg : ChallengeExecuteMsg) :
    ChM ChResponse :=
  match msg with
  | CreateChallenge challenge_req => create_challenge env info challenge_req
  | UpdateChallenge challenge_id challenge => update_challenge env info challenge_id challenge
  | CancelChallenge challenge_id => cancel_challenge env info challenge_id
  | UpdateFriendsForChallenge challenge_id friends op_kind =>
      update_friends_for_challenge env info challenge_id friends op_kind
  | CastVote challenge_id vote => execute_cast_vote env info vote challenge_id
  | CountVotes challenge_id => execute_count_votes env info challenge_id
  | Veto challenge_id => execute_veto env info challenge_id
  | UpdateConfig new_vote_config => on_voting (update_vote_config new_vote_config) ≫= λ _, mret (mkResponse "" [])
  end.
(** [instantiate_handler] *)
Definition instantiate_handler (env : Env) (info : MessageInfo) (module : unit) (c : VoteConfig) : ChM ChResponse :=
  update_custom (set_next_id (Some 0)) ≫= λ _,
  on_voting (Voting.instantiate c) ≫= λ _,
  mret (mkResponse "" []).

(** ** Queries (handlers/query.rs) *)

(** A read of the voting object. *)
Definition read_voting {A} (m : M SimpleVoting VoteError A) (s : ChallengeStorage) : outcome ChallengeError A :=
  map_err ChVote ('(a, _) ← m (simple_voting s); Ok a).
Definition get_proposal_if_active (challenge_id : Z) (s : ChallengeStorage) (b : BlockInfo) :
    outcome ChallengeError (option ProposalInfo) :=
  match last_proposal challenge_id s with
  | Some id =>
      proposal ← read_voting (load_proposal b id) s;
      Ok (if is_ok (assert_active_proposal proposal) then Some proposal else None)
  | None => Ok None
  end.
Definition query_challenge (s : ChallengeStorage) (env : Env) (challenge_id : Z) :
    outcome ChallengeError ChallengeResponse :=
  proposal ← get_proposal_if_active challenge_id s (block env);
  Ok (OneChallenge ((λ entry, from_entry entry challenge_id proposal) <$> challenges s !! challenge_id)).
(** [limit as usize], on a 32-bit target *)
Definition limit_of (limit : option Z) : nat := Z.to_nat (wrap_u 32 (default DEFAULT_LIMIT limit)).
(** An error of the proposal shows as none; a trap is one of the query. *)
Definition query_challenges (s : ChallengeStorage) (env : Env) (start limit : option Z) :
    outcome ChallengeError ChallengeResponse :=
  l ← omapM (λ '(challenge_id, entry),
    match get_proposal_if_active challenge_id s (block env) with
    | Ok proposal => Ok (from_entry entry challenge_id proposal)
    | Err _ => Ok (from_entry entry challenge_id None)
    | Panic => Panic
    end) (take (limit_of limit) (range Z.lt start (map_to_list (challenges s))));
  Ok (Challenges l).
(** Only proposals of the challenge are looked at. *)
Definition proposal_of_challenge (s : ChallengeStorage) (challenge_id : Z) (proposal_id : option Z) : option Z :=
  match proposal_id with
  | Some proposal_id => if decide ((challenge_id, proposal_id) ∈ challenge_proposals s) then Some proposal_id else None
  | None => last_proposal challenge_id s
  end.
Definition query_vote (s : ChallengeStorage) (voter_addr : string) (challenge_id : Z) (proposal_id : option Z) :
    outcome ChallengeError ChallengeResponse :=
  voter ← map_err ChStd (addr_validate_r voter_addr);
  match proposal_of_challenge s challenge_id proposal_id with
  | Some proposal_id => v ← read_voting (load_vote proposal_id voter) s; Ok (VoteResponse v)
  | None => Ok (VoteResponse None)
  end.
Definition query_proposals (s : ChallengeStorage) (env : Env) (challenge_id : Z) (start_after limit : option Z) :
    outcome ChallengeError ChallengeResponse :=
  let ids := (take (limit_of limit) (range Z.lt start_after ((λ p, (p, tt)) <$> proposals_of challenge_id s))).*1 in
  results ← omapM (λ id, v ← read_voting (load_proposal (block env) id) s; Ok (id, v)) ids;
  Ok (ProposalsResponse results).
Definition query_votes (s : ChallengeStorage) (challenge_id : Z) (proposal_id : option Z)
    (start_after : option Addr) (limit : option Z) : ChallengeResponse :=
  VotesResponse (match proposal_of_challenge s challenge_id proposal_id with
    | Some proposal_id => query_by_id (simple_voting s) proposal_id start_after limit
    | None => []
    end).
Definition answer_query (s : ChallengeStorage) (env : Env) (msg : ChallengeQueryMsg) :
    outcome ChallengeError ChallengeResponse :=
  match msg with
  | QueryChallenge challenge_id => query_challenge s env challenge_id
  | QueryChallenges start_after limit => query_challenges s env start_after limit
  | QueryFriends challenge_id => Ok (FriendsResponse (default [] (challenge_friends s !! challenge_id)))
  | QueryVote voter_addr challenge_id proposal_id => query_vote s voter_addr challenge_id proposal_id
  | QueryVotes challenge_id proposal_id start_after limit =>
      Ok (query_votes s challenge_id proposal_id start_after limit)
  | QueryProposals challenge_id start_after limit => query_proposals s env challenge_id start_after limit
  end.
Definition query_handler (env : Env) (module : unit) (msg : ChallengeQueryMsg) (s : State ChallengeStorage) :
    outcome ChallengeError string :=
  r ← answer_query (custom s) env msg; Ok (challenge_to_json r).

(** ** The contract (contract.rs) *)

Definition CHALLENGE_APP_ID : string := "abstract:challenge".
Definition CHALLENGE_APP_VERSION : string := "0.4.0".
Definition ChallengeApp : Type := AbstractContract () (State ChallengeStorage) ChallengeError ModuleMsg
  VoteConfig ChallengeExecuteMsg ChallengeQueryMsg unit unit.
Definition CHALLENGE_APP : ChallengeApp :=
  mkContract (CHALLENGE_APP_ID, CHALLENGE_APP_VERSION, None) [] (Some instantiate_handler)
    (Some execute_handler) (Some query_handler) None None ([], []) None None.
End handlers.
