(* ===== verification/Calendar.v ===== *)
(** * The calendar app

    modules/contracts/apps/calendar (state.rs, msg.rs, error.rs, contract.rs,
    handlers/*.rs): an account offers meetings in the hours of its calendar;
    whoever requests one stakes a price per minute in the app, and the
    administrator returns the stake, or slashes it, after the meeting. *)

From S2P Require Import Prelude Cosmos Strings Objects Names AccountIds Fees ModuleFactory Ownership AnsObjects Ans AnsClient Registry Clients Account Ibc Sdk SdkApis App.
From Stdlib Require Import Ascii String.
#[local] Open Scope string_scope.
#[local] Open Scope list_scope.
#[local] Open Scope Z_scope.

(** ** Packages underneath *)

Definition DAY : Z := 86400.

(** [chrono]: the offsets of time zones, and instants in them, which have a
    timestamp, and a date and a time of day on the local calendar.  Dates are
    days since the epoch, times of day seconds since midnight; an instant made
    from a whole timestamp has no fraction of a second. *)
Class Chrono := {
  FixedOffset : Type;
  DateTime : Type;
  east_opt : Z → option FixedOffset;
  timestamp_opt : FixedOffset → Z → option DateTime;
  timestamp : DateTime → Z;
  date_naive : DateTime → Z;
  naive_time : DateTime → Z
}.
Class ChronoLaws `{Chrono} : Prop := {
  timestamp_of o t d : timestamp_opt o t = Some d → timestamp d = t;
  local_date s o t d : east_opt s = Some o → timestamp_opt o t = Some d → date_naive d = (t + s) / DAY;
  local_time s o t d : east_opt s = Some o → timestamp_opt o t = Some d → naive_time d = (t + s) mod DAY
}.

(** [cw_utils::must_pay] *)
Inductive PaymentError : Type := NoFunds | MissingDenom (denom : string) | MultipleDenoms.
Class MustPay := { must_pay : MessageInfo → string → outcome PaymentError Z }.
Class MustPayLaws `{MustPay} : Prop := {
  must_pay_Ok i d n : must_pay i d = Ok n → funds i = [mkCoin d n] ∧ 0 < n
}.

(** ** Messages and state (msg.rs, state.rs) *)

Record Time := mkTime { hour : Z; minute : Z }.
Record CalendarInstantiateMsg := mkCalendarInit {
  init_price_per_minute : Z;
  init_denom : AssetEntry;
  init_utc_offset : Z;
  init_start_time : Time;
  init_end_time : Time
}.
Inductive CalendarExecuteMsg : Type :=
  | RequestMeeting (start_time end_time : Z)
  | SlashFullStake (day_datetime meeting_index : Z)
  | SlashPartialStake (day_datetime meeting_index minutes_late : Z)
  | ReturnStake (day_datetime meeting_index : Z)
  | UpdateConfig (price_per_minute : option Z) (denom : option AssetEntry).
Inductive CalendarQueryMsg : Type := QueryConfig | QueryMeetings (day_datetime : Z).

Record Config := mkConfig {
  price_per_minute : Z;
  cal_denom : string;
  utc_offset : Z;
  cal_start : Time;
  cal_end : Time
}.
Definition set_price_per_minute (v : Z) (c : Config) : Config :=
  mkConfig v (cal_denom c) (utc_offset c) (cal_start c) (cal_end c).
Definition set_cal_denom (v : string) (c : Config) : Config :=
  mkConfig (price_per_minute c) v (utc_offset c) (cal_start c) (cal_end c).
Record Meeting := mkMeeting {
  start_time : Z;
  end_time : Z;
  requester : Addr;
  amount_staked : Z
}.
Definition unstaked (m : Meeting) : Meeting := mkMeeting (start_time m) (end_time m) (requester m) 0.
Inductive CalendarResponse : Type :=
  | ConfigResponse (price_per_minute utc_offset : Z) (start_time end_time : Time)
  | MeetingsResponse (meetings : list Meeting).

(** [CONFIG], and [CALENDAR]: the meetings of the day that starts at a timestamp *)
Record CalendarStorage := mkCalendarStorage {
  config : option Config;
  calendar : gmap Z (list Meeting)
}.
Definition set_config (v : option Config) (s : CalendarStorage) : CalendarStorage :=
  mkCalendarStorage v (calendar s).
Definition set_calendar (v : gmap Z (list Meeting)) (s : CalendarStorage) : CalendarStorage :=
  mkCalendarStorage (config s) v.
Definition empty_calendar : CalendarStorage := mkCalendarStorage None ∅.

(** [CalendarError] (error.rs) *)
Inductive CalendarError : Type :=
  | CalStd (e : StdError)
  | CalAbstract (e : AbstractError)
  | CalSdk (e : SdkError)
  | CalAdmin (e : AdminError)
  | CalPayment (e : PaymentError)
  | StartTimeMustBeInFuture
  | OutOfBoundsStartTime
  | OutOfBoundsEndTime
  | EndTimeMustBeAfterStartTime
  | MeetingConflictExists
  | InvalidTime
  | StartAndEndTimeNotOnSameDay
  | StartTimeNotRoundedToNearestMinute
  | EndTimeNotRoundedToNearestMinute
  | InvalidStakeAmountSent (expected_amount : Z)
  | NoMeetingsAtGivenDayDateTime
  | MeetingDoesNotExist
  | MeetingNotFinishedYet
  | StakeAlreadyHandled
  | MinutesLateCannotExceedDurationOfMeeting
  | InvalidUtcOffset
  | HourOutOfBounds
  | MinutesOutOfBounds.
#[export] Instance calendar_contract_error : ContractError CalendarError :=
  {| from_std := CalStd; from_sdk := CalSdk; from_abstract := CalAbstract |}.

(** [Time::validate] *)
Definition time_validate (t : Time) : outcome CalendarError unit :=
  if decide (23 < hour t) then Err HourOutOfBounds
  else if decide (59 < minute t) then Err MinutesOutOfBounds
  else Ok tt.
(** [NaiveTime::from(time)]: [from_hms_opt(..).unwrap()] *)
Definition naive_of_time {E} (t : Time) : outcome E Z :=
  if decide (hour t < 24 ∧ minute t < 60) then Ok (hour t * 3600 + minute t * 60) else Panic.
(** [PartialOrd] of [Time], derived *)
Definition time_ltb (a b : Time) : bool :=
  bool_decide (hour a < hour b ∨ (hour a = hour b ∧ minute a < minute b)).

(** [Meeting::new] *)
Definition meeting_new `{Chrono} (c : Config) (b : BlockInfo) (meeting_start_datetime meeting_end_datetime : DateTime)
    (requester : Addr) (amount_staked : Z) : outcome CalendarError Meeting :=
  let meeting_start_timestamp := timestamp meeting_start_datetime in
  let meeting_end_timestamp := timestamp meeting_end_datetime in
  let meeting_start_time := naive_time meeting_start_datetime in
  let meeting_end_time := naive_time meeting_end_datetime in
  calendar_start_time ← naive_of_time (cal_start c);
  calendar_end_time ← naive_of_time (cal_end c);
  guard_or (bool_decide (date_naive meeting_start_datetime = date_naive meeting_end_datetime))
    StartAndEndTimeNotOnSameDay ≫= λ _,
  guard_or (bool_decide (meeting_start_time mod 60 = 0)) StartTimeNotRoundedToNearestMinute ≫= λ _,
  guard_or (bool_decide (meeting_end_time mod 60 = 0)) EndTimeNotRoundedToNearestMinute ≫= λ _,
  guard_or (bool_decide (seconds (time b) ≤ meeting_start_timestamp)) StartTimeMustBeInFuture ≫= λ _,
  guard_or (bool_decide (meeting_start_time < meeting_end_time)) EndTimeMustBeAfterStartTime ≫= λ _,
  guard_or (bool_decide (calendar_start_time ≤ meeting_start_time ≤ calendar_end_time))
    OutOfBoundsStartTime ≫= λ _,
  guard_or (bool_decide (calendar_start_time ≤ meeting_end_time ≤ calendar_end_time))
    OutOfBoundsEndTime ≫= λ _,
  Ok (mkMeeting meeting_start_timestamp meeting_end_timestamp requester amount_staked).

(** The text of an answer. *)
Class CalendarJson := { calendar_to_json : CalendarResponse → string }.

(** ** Handlers (handlers/execute.rs) *)

Inductive StakeAction : Type := Return | FullSlash | PartialSlash (minutes_late : Z).

(** The test of a requested meeting against one of the day *)
Definition conflicts (meeting_start_timestamp meeting_end_timestamp : Z) (m : Meeting) : bool :=
  bool_decide (start_time m ≤ meeting_start_timestamp < end_time m) ||
  bool_decide (start_time m < meeting_end_timestamp ≤ end_time m).

Section handlers.
Context `{CwAssetKinds, !AnsHosts, Semver, Api, Instantiate2, !Querier, Chrono, MustPay, UintRatio, !CalendarJson}.
Abbreviation CalM := (M (State CalendarStorage) CalendarError).
Abbreviation CalResponse := (Response ModuleMsg).

Definition update_custom (f : CalendarStorage → CalendarStorage) : CalM unit :=
  modify (λ s, set_custom (f (custom s)) s).
Definition assert_calendar_admin (env : Env) (i : MessageInfo) : CalM unit :=
  within CalAdmin (assert_app_admin env (sender i)).
Definition load_config : CalM Config :=
  c ← gets (λ s, config (custom s)); lift (ok_or c (CalStd (StdNotFound "config"))).
Definition get_date_time (timezone : FixedOffset) (t : Z) : CalM DateTime :=
  lift (ok_or (timestamp_opt timezone t) InvalidTime).
(** The messages of a deposit of coins to the account, and of a bank transfer *)
Definition bank_deposit (coins : list Coin) : CalM (list (SubMsg ModuleMsg)) :=
  a ← gets account;
  msgs ← lift (map_err CalSdk (deposit a (asset_of_coin <$> coins)));
  mret ((λ m, send (FromModule m)) <$> msgs).
Definition bank_send (to_address : Addr) (c : Coin) : SubMsg ModuleMsg :=
  send (FromModule (MsgBankSend to_address [c])).
Definition resolve_native_ans_denom (denom : AssetEntry) : CalM string :=
  host ← gets ans_host;
  host ← lift (name_service host);
  resolved_denom ← lift (map_err CalSdk (ns_query (O:=asset_info) host denom));
  lift (match asset_kind resolved_denom with
    | IsNative denom => Ok denom
    | _ => Err (CalStd (StdMsg "Non-native denom not supported"))
    end).

Definition request_meeting (i : MessageInfo) (env : Env) (meeting_start_time meeting_end_time : Z) : CalM CalResponse :=
  c ← load_config;
  amount_sent ← lift (map_err CalPayment (must_pay i (cal_denom c)));
  timezone ← lift (ok_or (east_opt (utc_offset c)) InvalidUtcOffset);
  meeting_start_datetime ← get_date_time timezone meeting_start_time;
  meeting_end_datetime ← get_date_time timezone meeting_end_time;
  meeting ← lift (meeting_new c (block env) meeting_start_datetime meeting_end_datetime (sender i) amount_sent);
  let duration_in_minutes := (naive_time meeting_end_datetime - naive_time meeting_start_datetime) / 60 in
  expected_amount ← lift (mul_u 256 duration_in_minutes (price_per_minute c));
  ensure (bool_decide (amount_sent = expected_amount)) (InvalidStakeAmountSent expected_amount) ≫= λ _,
  let start_of_day_timestamp := date_naive meeting_start_datetime * DAY in
  existing ← gets (λ s, calendar (custom s) !! start_of_day_timestamp);
  let existing_meetings := default [] existing in
  ensure (negb (existsb (conflicts (start_time meeting) (end_time meeting)) existing_meetings))
    MeetingConflictExists ≫= λ _,
  update_custom (λ s, set_calendar
    (<[start_of_day_timestamp := existing_meetings ++ [meeting]]> (calendar s)) s) ≫= λ _,
  mret (mkResponse "request_meeting" []).

(** The messages of the three ways to handle a stake *)
Definition stake_messages (c : Config) (meeting : Meeting) (a : StakeAction) : CalM CalResponse :=
  let staked := amount_staked meeting in
  match a with
  | Return => mret (mkResponse "return_stake" [bank_send (requester meeting) (mkCoin (cal_denom c) staked)])
  | FullSlash =>
      account_deposit_msgs ← bank_deposit [mkCoin (cal_denom c) staked];
      mret (mkResponse "full_slash" account_deposit_msgs)
  | PartialSlash minutes_late =>
      let meeting_duration_in_minutes := wrap_u 32 ((end_time meeting - start_time meeting) / 60) in
      ensure (bool_decide (minutes_late ≤ meeting_duration_in_minutes))
        MinutesLateCannotExceedDurationOfMeeting ≫= λ _,
      amount_to_slash ← lift (unwrap (uint_multiply_ratio 256 staked minutes_late meeting_duration_in_minutes));
      account_deposit_msgs ← bank_deposit [mkCoin (cal_denom c) amount_to_slash];
      rest ← lift (sub_u staked amount_to_slash);
      mret (mkResponse "partial_slash" (bank_send (requester meeting) (mkCoin (cal_denom c) rest) :: account_deposit_msgs))
  end.
Definition handle_stake (i : MessageInfo) (env : Env) (day_datetime meeting_index : Z) (a : StakeAction) :
    CalM CalResponse :=
  assert_calendar_admin env i ≫= λ _,
  c ← load_config;
  meetings ← gets (λ s, calendar (custom s) !! day_datetime);
  meetings ← lift (ok_or meetings NoMeetingsAtGivenDayDateTime);
  meeting ← lift (ok_or (meetings !! Z.to_nat meeting_index) MeetingDoesNotExist);
  ensure (bool_decide (end_time meeting < seconds (time (block env)))) MeetingNotFinishedYet ≫= λ _,
  ensure (bool_decide (amount_staked meeting ≠ 0)) StakeAlreadyHandled ≫= λ _,
  response ← stake_messages c meeting a;
  update_custom (λ s, set_calendar
    (<[day_datetime := <[Z.to_nat meeting_index := unstaked meeting]> meetings]> (calendar s)) s) ≫= λ _,
  mret response.

Definition update_config (env : Env) (i : MessageInfo) (price : option Z) (denom : option AssetEntry) :
    CalM CalResponse :=
  assert_calendar_admin env i ≫= λ _,
  c ← load_config;
  let c := match price with Some p => set_price_per_minute p c | None => c end in
  c ← match denom with
      | Some unresolved => d ← resolve_native_ans_denom unresolved; mret (set_cal_denom d c)
      | None => mret c
      end;
  update_custom (set_config (Some c)) ≫= λ _,
  mret (mkResponse "update_config" []).

Definition execute_handler (env : Env) (i : MessageInfo) (module : unit) (msg : CalendarExecuteMsg) : CalM CalResponse :=
  match msg with
  | RequestMeeting start_time end_time => request_meeting i env start_time end_time
  | SlashFullStake day_datetime meeting_index => handle_stake i env day_datetime meeting_index FullSlash
  | SlashPartialStake day_datetime meeting_index minutes_late =>
      handle_stake i env day_datetime meeting_index (PartialSlash minutes_late)
  | ReturnStake day_datetime meeting_index => handle_stake i env day_datetime meeting_index Return
  | UpdateConfig price_per_minute denom => update_config env i price_per_minute denom
  end.

(** ** Instantiation, migration and queries *)

Definition instantiate_handler (env : Env) (i : MessageInfo) (module : unit) (msg : CalendarInstantiateMsg) :
    CalM CalResponse :=
  denom ← resolve_native_ans_denom (init_denom msg);
  lift (time_validate (init_start_time msg)) ≫= λ _,
  lift (time_validate (init_end_time msg)) ≫= λ _,
  ensure (time_ltb (init_start_time msg) (init_end_time msg)) EndTimeMustBeAfterStartTime ≫= λ _,
  update_custom (set_config (Some (mkConfig (init_price_per_minute msg) denom (init_utc_offset msg)
    (init_start_time msg) (init_end_time msg)))) ≫= λ _,
  mret (mkResponse "" []).
Definition migrate_handler (env : Env) (module : unit) (msg : unit) : CalM CalResponse :=
  mret (mkResponse "migrate" []).

Definition query_config (s : CalendarStorage) : outcome StdError CalendarResponse :=
  c ← ok_or (config s) (StdNotFound "config");
  Ok (ConfigResponse (price_per_minute c) (utc_offset c) (cal_start c) (cal_end c)).
Definition query_meetings (s : CalendarStorage) (day_datetime : Z) : CalendarResponse :=
  MeetingsResponse (default [] (calendar s !! day_datetime)).
Definition query_handler (env : Env) (module : unit) (msg : CalendarQueryMsg) (s : State CalendarStorage) :
    outcome CalendarError string :=
  r ← map_err CalStd match msg with
    | QueryConfig => query_config (custom s)
    | QueryMeetings day_datetime => Ok (query_meetings (custom s) day_datetime)
    end;
  Ok (calendar_to_json r).

(** ** The contract (contract.rs) *)

Definition CALENDAR_APP_ID : string := "abstract:calendar".
Definition CALENDAR_APP_VERSION : string := "0.3.0".
Definition CalendarApp : Type := AbstractContract () (State CalendarStorage) CalendarError ModuleMsg
  CalendarInstantiateMsg CalendarExecuteMsg CalendarQueryMsg unit unit.
Definition CALENDAR_APP : CalendarApp :=
  mkContract (CALENDAR_APP_ID, CALENDAR_APP_VERSION, None) [] (Some instantiate_handler)
    (Some execute_handler) (Some query_handler) (Some migrate_handler) None ([], []) None None.
End handlers.
