(* ===== verification/DexStandard.v ===== *)
(** * The standard of dex adapters

    framework/packages/standards/utils (identity.rs, util.rs) and
    framework/packages/standards/dex (action.rs, ans_action.rs, command.rs,
    error.rs, msg.rs): the name of a platform on a chain, what an exchange
    offers to the adapter, the actions an account asks for, with assets or with
    names of the name service, and the fee of a swap. *)

From S2P Require Import Prelude Cosmos Strings Objects Names AccountIds Fees ModuleFactory Ownership AnsObjects Ans AnsClient Registry Clients Account Ibc Sdk SdkApis Adapter.
From Stdlib Require Import Ascii String.
#[local] Open Scope string_scope.
#[local] Open Scope list_scope.
#[local] Open Scope Z_scope.

(** ** Platforms (utils/src/identity.rs) *)

(** [Identify] *)
Record Identify := mkIdentify { platform_name : string; available_on : string → bool }.

(** [splitn(2, '>')]: a chain before the first ['>'], if there is one *)
Definition decompose_platform_name (platform_name : string) : option string * string :=
  match split_once ">" platform_name with
  | Some (chain_name, platform_name) => (Some chain_name, platform_name)
  | None => (None, platform_name)
  end.
(** [rsplitn(2, '-')], its last part *)
Definition get_chain_name (env : Env) : string :=
  default (chain_id (block env)) (before_last "-" (chain_id (block env))).
Definition is_current_chain (env : Env) (chain_name : string) : bool :=
  bool_decide (get_chain_name env = chain_name).
Definition is_available_on (platform : Identify) (env : Env) (chain_name : option string) : bool :=
  available_on platform (default (get_chain_name env) chain_name).

(** ** Errors (dex/src/error.rs) *)

Inductive DexError : Type :=
  | DexStd (e : StdError)
  | DexAbstract (e : AbstractError)
  | DexSdk (e : SdkError)
  | DexAsset
  | DexAdapterError (e : AdapterError)
  | DexAnsHost (e : AnsHostError)
  | UnknownDexOnThisPlatform (dex : string) (chain : option string)
  | UnknownDex (dex : string)
  | ForeignDex (dex : string)
  | UnsupportedAssetType (asset : string)
  | TooFewAssets
  | TooManyAssets (max : Z)
  | ArgumentMismatch (asset : string) (pool : list string)
  | BalancerNotSupported (dex : string)
  | DexMismatch (pair dex address : string)
  | NotImplemented (dex : string)
  | MaxSlippageAssertion (spread dex : string)
  | IbcMsgQuery
  | AssetPairingNotFound (asset_pairing : DexAssetPairing)
  | InvalidGenerateMessage
  | PoolAddressEmpty
  | DexUnauthorized.
#[export] Instance dex_contract_error : ContractError DexError :=
  {| from_std := DexStd; from_sdk := DexSdk; from_abstract := DexAbstract |}.
#[export] Instance dex_adapter_error : AdapterContractError DexError := DexAdapterError.

Section standard.
Context `{Semver, Api, CwOwnable, CwAsset, !CwAssetMsgs, !CwAssetKinds, !CwAssetTexts}.

(** ** Assets in messages (utils/src/util.rs) *)

(** The JSON of [Cw20ExecuteMsg::IncreaseAllowance] that does not expire *)
Class Cw20Json := {
  increase_allowance_json : Addr → Z → string;
  (** [Cw20ExecuteMsg::Send] to a contract, of a message *)
  cw20_send_json : Addr → Z → string → string
}.
Definition cw_approve_msgs `{!Cw20Json} (assets : list Asset) (spender : Addr) : list CosmosMsg :=
  omap (λ a, match asset_kind (as_info a) with
    | IsCw20 addr => Some (WasmExecute addr (Raw (increase_allowance_json spender (as_amount a))) [])
    | _ => None
    end) assets.
(** Sorted by denomination; coins of one denomination keep their order here,
    the source leaves it open. *)
Definition coins_in_assets (assets : list Asset) : list Coin :=
  merge_sort (λ a b, String.le (denom a) (denom b)) (omap (λ a, match asset_kind (as_info a) with
    | IsNative d => Some (mkCoin d (as_amount a))
    | _ => None
    end) assets).

(** ** Actions (dex/src/action.rs, msg.rs) *)

(** [SwapNode<String>], [SwapNode<Addr>] *)
Record SwapNode := mkSwapNode { pool_id : PoolAddress; node_ask_asset : asset_info }.
Record UncheckedSwapNode := mkUncheckedSwapNode {
  u_pool_id : UncheckedPoolAddress;
  u_ask_asset : asset_info_unchecked
}.
Definition swap_node_check (n : UncheckedSwapNode) : outcome AbstractError SwapNode :=
  pool ← pool_address_check (u_pool_id n);
  ask ← ok_or (asset_info_check (u_ask_asset n)) AbsAsset;
  Ok (mkSwapNode pool ask).

Inductive DexAction : Type :=
  | ProvideLiquidity (pool : UncheckedPoolAddress) (assets : list AssetUnchecked) (max_spread : option Z)
  | WithdrawLiquidity (pool : UncheckedPoolAddress) (lp_token : AssetUnchecked)
  | Swap (pool : UncheckedPoolAddress) (offer_asset : AssetUnchecked) (ask_asset : asset_info_unchecked)
      (max_spread belief_price : option Z)
  | RouteSwap (route : list UncheckedSwapNode) (offer_asset : AssetUnchecked)
      (max_spread belief_price : option Z).
Inductive DexExecuteMsg : Type :=
  | UpdateFee (swap_fee : option Z) (recipient_account : option Z)
  | Action (dex : string) (action : DexAction).
Record DexInstantiateMsg := mkDexInit { init_swap_fee : Z; init_recipient_account : Z }.
Inductive DexQueryMsg : Type :=
  | SimulateSwap (offer_asset : AnsAsset) (ask_asset : AssetEntry) (dex : string)
  | SimulateSwapRaw (offer_asset : AssetUnchecked) (ask_asset : asset_info_unchecked)
      (pool : UncheckedPoolAddress) (dex : string)
  | GenerateMessages (message : DexExecuteMsg) (addr_as_sender : string)
  | QueryFees.
(** [SimulateSwapResponse<A>] *)
Record SimulateSwapResponse (A : Type) := mkSimulateSwap {
  sim_pool : A * A * string;
  return_amount : Z;
  spread_amount : Z;
  commission : A * Z;
  usage_fee : Z
}.
(** [PoolAddress::into] of an unchecked pool, [Asset::into] of an unchecked asset *)
Definition pool_uncheck (p : PoolAddress) : UncheckedPoolAddress := p.
Definition asset_unchecked (a : Asset) : AssetUnchecked := mkUnchecked (asset_info_uncheck (as_info a)) (as_amount a).

(** ** Fees (dex/src/msg.rs) *)

(** [Decimal::percent(5)] *)
Definition MAX_FEE : Z := 5 * 10 ^ 16.
Record DexFees := mkDexFees { swap_fee : FeeShare; fee_recipient : Addr }.
Definition check_fee_share (fee : Z) : outcome AbstractError unit :=
  guard_or (bool_decide (fee ≤ MAX_FEE)) (Fee "fee share can't be bigger than 0.05").
Definition dex_fees_new (swap_fee_share : Z) (recipient : Addr) : outcome AbstractError DexFees :=
  _ ← check_fee_share swap_fee_share;
  fee ← fee_new swap_fee_share;
  Ok (mkDexFees fee recipient).
Definition set_swap_fee_share (f : DexFees) (new_swap_fee_share : Z) : outcome AbstractError DexFees :=
  _ ← check_fee_share new_swap_fee_share;
  fee ← fee_new new_swap_fee_share;
  Ok (mkDexFees fee (fee_recipient f)).
Definition set_fee_recipient (f : DexFees) (recipient : Addr) : DexFees := mkDexFees (swap_fee f) recipient.
Definition swap_usage_fee (f : DexFees) : outcome AbstractError UsageFee :=
  usage_fee_new (share (swap_fee f)) (fee_recipient f).

(** ** What an exchange offers (dex/src/command.rs)

    [Box<dyn DexCommand>]: an exchange has its name, the data [fetch_data]
    leaves in it before a call, and its operations. *)
Record DexCommand := mkDexCommand {
  dex_identify : Identify;
  dex_data : Type;
  dex_default : dex_data;
  (** sender, registry and name service *)
  fetch_data : Addr → Addr → Addr → dex_data → outcome DexError dex_data;
  (** pool, offered, asked, belief price and spread *)
  dex_swap : dex_data → PoolAddress → Asset → asset_info → option Z → option Z → outcome DexError (list CosmosMsg);
  dex_swap_route : dex_data → list SwapNode → Asset → option Z → option Z → outcome DexError (list CosmosMsg);
  dex_provide_liquidity : dex_data → PoolAddress → list Asset → option Z → outcome DexError (list CosmosMsg);
  dex_withdraw_liquidity : dex_data → PoolAddress → Asset → outcome DexError (list CosmosMsg);
  (** returned, spread, fee, and whether the fee is on the input *)
  dex_simulate_swap : dex_data → PoolAddress → Asset → asset_info → outcome DexError (Z * Z * Z * bool)
}.
Definition dex_name (d : DexCommand) : string := platform_name (dex_identify d).
(** The methods with a body: [fetch_data] does nothing, [swap_route] traps. *)
Definition default_fetch_data {D} (sender registry ans_host : Addr) (data : D) : outcome DexError D := Ok data.
Definition default_swap_route {D} (data : D) (route : list SwapNode) (offer : Asset)
    (belief_price max_spread : option Z) : outcome DexError (list CosmosMsg) := Panic.

Section ans.
Context `{!AnsHosts}.
(** [DexCommand::pool_reference], [pair_address]; [pop] takes the last. *)
Definition pool_reference (d : DexCommand) (ans_host : Addr) (assets : AssetEntry * AssetEntry) :
    outcome DexError PoolReference :=
  let dex_pair := pairing_new assets.1 assets.2 (dex_name d) in
  pool_ref ← map_err DexAnsHost (query_asset_pairing ans_host dex_pair);
  ok_or (last pool_ref) (AssetPairingNotFound dex_pair).
Definition pair_address (d : DexCommand) (ans_host : Addr) (assets : AssetEntry * AssetEntry) :
    outcome DexError PoolAddress :=
  found ← pool_reference d ans_host assets; Ok (AnsObjects.pool_address found).

(** ** Actions on named assets (dex/src/ans_action.rs) *)

Inductive DexAnsAction : Type :=
  | AnsProvideLiquidity (assets : list AnsAsset) (max_spread : option Z)
  | AnsWithdrawLiquidity (lp_token : AnsAsset)
  | AnsSwap (offer_asset : AnsAsset) (ask_asset : AssetEntry) (max_spread belief_price : option Z).
(** [WholeDexAction]: the dex and the action *)
Definition WholeDexAction : Type := string * DexAnsAction.

(** [pool_address] *)
Definition dex_pool_address (dex : string) (assets : AssetEntry * AssetEntry) (ans_host : Addr) :
    outcome AnsHostError PoolAddress :=
  let dex_pair := pairing_new assets.1 assets.2 dex in
  pool_ref ← query_asset_pairing ans_host dex_pair;
  found ← ok_or (last pool_ref) (AnsDexPairingNotFound (show_pairing dex_pair) ans_host);
  Ok (AnsObjects.pool_address found).
(** [assets.resolve], [asset.resolve] *)
Definition resolved_asset (ans_host : Addr) (a : AnsAsset) : outcome AnsHostError Asset :=
  r ← resolve_ans_asset ans_host a; Ok (mkAsset r.1 r.2).
(** [Resolve for WholeDexAction]: [swap_remove(0)] traps without the asset. *)
Definition resolve_dex_ans_action (ans_host : Addr) (w : WholeDexAction) : outcome AnsHostError DexExecuteMsg :=
  let '(dex, action) := w in
  match action with
  | AnsProvideLiquidity assets max_spread =>
      resolved ← omapM (resolved_asset ans_host) assets;
      match aa_name <$> take 2 assets with
      | [a; b] =>
          pool ← dex_pool_address dex (a, b) ans_host;
          Ok (Action dex (ProvideLiquidity (pool_uncheck pool) (asset_unchecked <$> resolved) max_spread))
      | _ => Panic
      end
  | AnsWithdrawLiquidity lp_token =>
      lp_asset ← resolved_asset ans_host lp_token;
      lp ← asset_lp_token (aa_name lp_token);
      lp_pairing ← lp_token_pairing lp;
      pool_ids ← query_asset_pairing ans_host lp_pairing;
      match pool_ids with
      | [p] => Ok (Action dex (WithdrawLiquidity (pool_uncheck (AnsObjects.pool_address p)) (asset_unchecked lp_asset)))
      | _ => Err (AnsQueryFailed "lp_pairing.resolve")
      end
  | AnsSwap offer_asset ask_asset max_spread belief_price =>
      let offer_name := to_lowercase (aa_name offer_asset) in
      let ask_name := to_lowercase ask_asset in
      offer_info ← query_asset ans_host offer_name;
      ask_info ← query_asset ans_host ask_name;
      pool ← dex_pool_address dex (offer_name, ask_name) ans_host;
      Ok (Action dex (Swap (pool_uncheck pool) (asset_unchecked (mkAsset offer_info (aa_amount offer_asset)))
        (asset_info_uncheck ask_info) max_spread belief_price))
  end.
#[export] Instance Resolve_dex_action : Resolve WholeDexAction DexExecuteMsg :=
  {| resolve := resolve_dex_ans_action |}.
End ans.
End standard.
Arguments mkSimulateSwap {A} sim_pool return_amount spread_amount commission usage_fee.
Arguments sim_pool {A} s.
Arguments return_amount {A} s.
Arguments spread_amount {A} s.
Arguments commission {A} s.
Arguments usage_fee {A} s.
