(* ===== verification/Dex.v ===== *)
(** * The dex adapter

    modules/contracts/adapters/dex (adapter.rs, handlers/*.rs,
    exchanges/exchange_resolver.rs, state.rs, contract.rs, api.rs): swaps and
    liquidity of an account on an exchange of its chain, with a fee on swaps, and
    the requests it sends to other chains. *)

From S2P Require Import Prelude Cosmos Strings Objects Names AccountIds Fees ModuleFactory Ownership AnsObjects Ans AnsClient Registry Clients Account Ibc IbcClient Sdk SdkApis Adapter App SdkModules DexStandard.
From Stdlib Require Import Ascii String.
#[local] Open Scope string_scope.
#[local] Open Scope list_scope.
#[local] Open Scope Z_scope.

Definition DEX_ADAPTER_ID : string := "abstract:dex".
Definition DEX_VERSION : string := "0.26.1".
Definition WYNDEX : string := "wyndex".
Definition NEUTRON : string := "neutron".
Definition OSMOSIS : string := "osmosis".
Definition FIN : string := "fin".
Definition ASTROVAULT : string := "astrovault".
Definition ASTROPORT : string := "astroport".
Definition PROVIDE_LIQUIDITY : Z := 7542.
Definition WITHDRAW_LIQUIDITY : Z := 7546.
Definition SWAP : Z := 7544.
Definition SWAP_ROUTE : Z := 7545.

Section exchanges.
Context `{Semver, Api, Instantiate2, CwOwnable, CwAsset, !CwAssetMsgs, !CwAssetKinds, !CwAssetTexts}.

(** The integrations with exchanges (src/integrations), and the features the
    adapter is built with *)
Class Exchanges := { exchange_of : string → DexCommand; exchange_feature : string → bool }.
Context `{!Exchanges}.

(** ** Exchanges (exchanges/exchange_resolver.rs) *)

(** [identify_exchange]: every platform, built in or not *)
Definition identify_exchange (value : string) : outcome DexError Identify :=
  if decide (value ∈ [WYNDEX; NEUTRON; FIN; OSMOSIS; ASTROVAULT]) then Ok (dex_identify (exchange_of value))
  else Err (UnknownDex value).
(** [resolve_exchange]: the feature an exchange is behind *)
Definition feature_of (value : string) : option string :=
  if decide (value = WYNDEX) then Some "wynd"
  else if decide (value ∈ [NEUTRON; OSMOSIS; ASTROPORT; FIN; ASTROVAULT]) then Some value
  else None.
Definition resolve_exchange (value : string) : outcome DexError DexCommand :=
  match feature_of value with
  | Some feature => if exchange_feature feature then Ok (exchange_of value) else Err (ForeignDex value)
  | None => Err (ForeignDex value)
  end.
(** [is_over_ibc]: the name of the platform without the chain, and whether it is
    on another chain *)
Definition is_over_ibc (env : Env) (platform_name : string) : outcome DexError (string * bool) :=
  let '(chain_name, local_platform_name) := decompose_platform_name platform_name in
  let elsewhere := match chain_name with Some c => negb (is_current_chain env c) | None => false end in
  if elsewhere then Ok (local_platform_name, true) else
  platform_id ← identify_exchange local_platform_name;
  guard_or (is_available_on platform_id env chain_name)
    (UnknownDexOnThisPlatform platform_name chain_name) ≫= λ _,
  Ok (local_platform_name, false).
End exchanges.

Section dex.
Context `{Semver, Api, Instantiate2, CwOwnable, CoinsOps, Sha256, CwAsset, !CwAssetMsgs, !CwAssetKinds, !CwAssetTexts}.
Context `{!DecimalOps, !Querier, !Registries, !Accounts, !AnsHosts, !ComparatorParse, !Exchanges}.
Context `{!ToJson IbcClient.ExecuteMsg, !ToJson (Adapter.ExecuteMsg DexExecuteMsg)}.

(** [DEX_FEES] *)
Abbreviation DexStorage := (option DexFees).
Abbreviation DexState := (Adapter.State DexStorage).
Abbreviation DexM := (M DexState DexError).
Abbreviation DexResponse := (Response ModuleMsg).
Definition load_fees (fees : DexStorage) : outcome DexError DexFees :=
  ok_or fees (DexStd (StdNotFound "dex_fees")).

(** ** Actions (adapter.rs) *)

Section actions.
Variables (base : Features) (fees : DexStorage) (sender : Addr).

(** What the exchange is told before a call *)
Definition fetched (exchange : DexCommand) : outcome DexError (dex_data exchange) :=
  registry ← map_err DexSdk (f_registry base);
  ans ← map_err DexSdk (f_ans_host base);
  fetch_data exchange sender registry ans (dex_default exchange).
Definition check_asset (a : AssetUnchecked) : outcome DexError Asset := ok_or (asset_check a) DexAsset.
Definition check_pool (p : UncheckedPoolAddress) : outcome DexError PoolAddress :=
  map_err DexAbstract (pool_address_check p).
(** The fee of a swap: its message, and the asset that is swapped *)
Definition charge_swap_fee (offer_asset : Asset) : outcome DexError (option CosmosMsg * Asset) :=
  dex_fees ← load_fees fees;
  usage_fee ← map_err DexAbstract (swap_usage_fee dex_fees);
  map_err DexSdk (charge_usage_fee offer_asset usage_fee).

Definition resolve_swap (offer_asset : AssetUnchecked) (ask_asset : asset_info_unchecked)
    (pool : UncheckedPoolAddress) (exchange : DexCommand) (max_spread belief_price : option Z) :
    outcome DexError (list CosmosMsg) :=
  pool_address ← check_pool pool;
  offer_asset ← check_asset offer_asset;
  ask_asset ← ok_or (asset_info_check ask_asset) DexAsset;
  '(fee_msg, offer_asset) ← charge_swap_fee offer_asset;
  data ← fetched exchange;
  swap_msgs ← dex_swap exchange data pool_address offer_asset ask_asset belief_price max_spread;
  Ok (swap_msgs ++ option_list fee_msg).
Definition resolve_route_swap (offer_asset : AssetUnchecked) (swap_route : list UncheckedSwapNode)
    (exchange : DexCommand) (max_spread belief_price : option Z) : outcome DexError (list CosmosMsg) :=
  offer_asset ← check_asset offer_asset;
  swap_route ← map_err DexAbstract (omapM swap_node_check swap_route);
  '(fee_msg, offer_asset) ← charge_swap_fee offer_asset;
  data ← fetched exchange;
  swap_msgs ← dex_swap_route exchange data swap_route offer_asset belief_price max_spread;
  Ok (swap_msgs ++ option_list fee_msg).
Definition resolve_provide_liquidity (offer_assets : list AssetUnchecked) (pool : UncheckedPoolAddress)
    (exchange : DexCommand) (max_spread : option Z) : outcome DexError (list CosmosMsg) :=
  pool_address ← check_pool pool;
  offer_assets ← omapM check_asset offer_assets;
  data ← fetched exchange;
  dex_provide_liquidity exchange data pool_address offer_assets max_spread.
Definition resolve_withdraw_liquidity (lp_token : AssetUnchecked) (pool : UncheckedPoolAddress)
    (exchange : DexCommand) : outcome DexError (list CosmosMsg) :=
  pool_address ← check_pool pool;
  lp_token ← check_asset lp_token;
  data ← fetched exchange;
  dex_withdraw_liquidity exchange data pool_address lp_token.
(** The messages, and the reply id no caller uses *)
Definition resolve_dex_action (action : DexAction) (exchange : DexCommand) :
    outcome DexError (list CosmosMsg * Z) :=
  match action with
  | ProvideLiquidity pool assets max_spread =>
      if decide (List.length assets < 2)%nat then Err TooFewAssets else
      msgs ← resolve_provide_liquidity assets pool exchange max_spread; Ok (msgs, PROVIDE_LIQUIDITY)
  | WithdrawLiquidity pool lp_token =>
      msgs ← resolve_withdraw_liquidity lp_token pool exchange; Ok (msgs, WITHDRAW_LIQUIDITY)
  | Swap pool offer_asset ask_asset max_spread belief_price =>
      msgs ← resolve_swap offer_asset ask_asset pool exchange max_spread belief_price; Ok (msgs, SWAP)
  | RouteSwap route offer_asset max_spread belief_price =>
      msgs ← resolve_route_swap offer_asset route exchange max_spread belief_price; Ok (msgs, SWAP_ROUTE)
  end.

(** ** Requests (handlers/execute.rs) *)

(** [resolve_assets_to_transfer] *)
Definition offer_to_coin (offer : AssetUnchecked) : outcome DexError Coin :=
  ok_or (asset_check offer ≫= asset_to_coin) DexAsset.
Definition resolve_assets_to_transfer (dex_action : DexAction) : outcome DexError (list Coin) :=
  match dex_action with
  | RouteSwap _ offer_asset _ _ | Swap _ offer_asset _ _ _ => omapM offer_to_coin [offer_asset]
  | ProvideLiquidity _ assets _ => omapM offer_to_coin assets
  | WithdrawLiquidity _ lp_token => omapM offer_to_coin [lp_token]
  end.
(** [handle_ibc_request]: the name service traps when there is none; the
    callback it prepares is not used. *)
Definition handle_ibc_request (dex_name : string) (action : DexAction) : outcome DexError DexResponse :=
  host_chain ← map_err DexAbstract (chain_from_string dex_name);
  _ ← name_service (f_ans_host base);
  coins ← resolve_assets_to_transfer action;
  ics20_transfer_msg ← map_err DexSdk (ics20_transfer base host_chain coins None None);
  ibc_action_msg ← map_err DexSdk (execute_on_module base host_chain DEX_ADAPTER_ID
    (request_msg (Action dex_name action)));
  Ok (mkResponse "" [send ics20_transfer_msg; send ibc_action_msg]).
End actions.

Definition handle_local_request (base : Features) (fees : DexStorage) (exchange : string)
    (action : DexAction) : outcome DexError DexResponse :=
  exchange ← resolve_exchange exchange;
  target_account ← map_err DexSdk (f_account base);
  '(msgs, _) ← resolve_dex_action base fees target_account action exchange;
  account_msg ← map_err DexSdk (executor_execute (f_account base) ((λ m, [m]) <$> msgs));
  Ok (mkResponse "" [send account_msg]).
Definition execute_action (base : Features) (fees : DexStorage) (env : Env) (dex : string)
    (action : DexAction) : outcome DexError DexResponse :=
  '(local_dex_name, over_ibc) ← is_over_ibc env dex;
  if over_ibc : bool then handle_ibc_request base local_dex_name action
  else handle_local_request base fees local_dex_name action.

Definition DexAdapterT : Type := AbstractContract (option Addr) DexState DexError ModuleMsg
  DexInstantiateMsg DexExecuteMsg DexQueryMsg unit unit.
(** The features of the adapter: it has no dependencies. *)
Definition dex_features (target_account : option Addr) (s : DexState) : Features :=
  mkFeatures DEX_ADAPTER_ID [] (Adapter.account target_account) (Adapter.abstract_registry s) (Adapter.ans_host s).

(** The two optional parts of an update of the fee *)
Definition update_swap_share (swap_fee : option Z) (fee : DexFees) : outcome DexError DexFees :=
  match swap_fee with
  | Some swap_fee => map_err DexAbstract (set_swap_fee_share fee swap_fee)
  | None => Ok fee
  end.
Definition update_recipient (base : Features) (recipient_account : option Z) (fee : DexFees) :
    outcome DexError DexFees :=
  match recipient_account with
  | Some account_id =>
      id ← map_err DexAbstract (account_id_new account_id Local);
      recipient ← map_err DexSdk (ar_account base id);
      Ok (set_fee_recipient fee recipient)
  | None => Ok fee
  end.
(** [UpdateFee]: the account of the namespace [abstract] only *)
Definition update_fee (target_account : option Addr) (swap_fee recipient_account : option Z) : DexM DexResponse :=
  s ← gets id;
  let base := dex_features target_account s in
  abstract ← lift (map_err DexAbstract (namespace_new ABSTRACT_NAMESPACE));
  namespace ← lift (map_err DexSdk (mr_query_namespace base abstract));
  owner ← lift (match namespace with Claimed _ account => Ok account | Unclaimed => Panic end);
  target ← lift (unwrap target_account);
  ensure (bool_decide (owner = target)) DexUnauthorized ≫= λ _,
  fee ← lift (load_fees (Adapter.custom s));
  fee ← lift (update_swap_share swap_fee fee);
  fee ← lift (update_recipient base recipient_account fee);
  modify (Adapter.set_custom (Some fee)) ≫= λ _,
  mret (mkResponse "" []).
Definition dex_execute_handler (env : Env) (info : MessageInfo) (target_account : option Addr)
    (msg : DexExecuteMsg) : DexM DexResponse :=
  match msg with
  | Action dex action =>
      s ← gets id; lift (execute_action (dex_features target_account s) (Adapter.custom s) env dex action)
  | UpdateFee swap_fee recipient_account => update_fee target_account swap_fee recipient_account
  end.
(** [instantiate_handler] *)
Definition dex_instantiate_handler (env : Env) (info : MessageInfo) (target_account : option Addr)
    (msg : DexInstantiateMsg) : DexM DexResponse :=
  s ← gets id;
  let base := dex_features target_account s in
  id ← lift (map_err DexAbstract (account_id_new (init_recipient_account msg) Local));
  recipient ← lift (map_err DexSdk (ar_account base id));
  dex_fees ← lift (map_err DexAbstract (dex_fees_new (init_swap_fee msg) recipient));
  modify (Adapter.set_custom (Some dex_fees)) ≫= λ _,
  mret (mkResponse "" []).

(** ** Queries (handlers/query.rs) *)

(** The text of an error, and the JSON of the answers *)
Class DexJson := {
  dex_error_text : DexError → string;
  simulate_json : SimulateSwapResponse AssetEntry → string;
  simulate_raw_json : SimulateSwapResponse asset_info → string;
  messages_json : list CosmosMsg → string;
  fees_json : FeeShare → Addr → string
}.
Context `{!DexJson}.
Definition as_std {A} (o : outcome DexError A) : outcome DexError A :=
  map_err (λ e, DexStd (StdMsg (dex_error_text e))) o.

(** [simulate_swap]; descriptions of assets are kept checked. *)
Definition simulate_swap (fees : DexStorage) (dex : string) (pool : PoolAddress) (offer_asset : Asset)
    (ask_asset : asset_info) : outcome DexError (SimulateSwapResponse asset_info) :=
  exchange ← as_std (resolve_exchange dex);
  let pool_info := (as_info offer_asset, ask_asset, to_lowercase (dex_name exchange)) in
  dex_fees ← load_fees fees;
  adapter_fee ← map_err DexAbstract (fee_compute (swap_fee dex_fees) (as_amount offer_asset));
  amount ← sub_u (as_amount offer_asset) adapter_fee;
  let offer_asset := mkAsset (as_info offer_asset) amount in
  '(return_amount, spread_amount, commission_amount, fee_on_input) ←
    as_std (dex_simulate_swap exchange (dex_default exchange) pool offer_asset ask_asset);
  let commission_asset := if fee_on_input : bool then ask_asset else as_info offer_asset in
  Ok (mkSimulateSwap pool_info return_amount spread_amount (commission_asset, commission_amount) adapter_fee).
(** [SimulateSwap]: the assets and the pool by their names *)
Definition simulate_ans_swap (base : Features) (fees : DexStorage) (offer_asset : AnsAsset)
    (ask_asset : AssetEntry) (dex : string) : outcome DexError (SimulateSwapResponse AssetEntry) :=
  ans ← name_service (f_ans_host base);
  cw_offer_asset ← map_err DexSdk (ns_query ans offer_asset);
  cw_ask_asset ← map_err DexSdk (ns_query ans ask_asset);
  pool_address ← map_err DexAnsHost (dex_pool_address dex (aa_name offer_asset, ask_asset) ans);
  simulated ← simulate_swap fees dex pool_address (mkAsset cw_offer_asset.1 cw_offer_asset.2) cw_ask_asset;
  let commission_entry := if decide ((commission simulated).1 = cw_ask_asset) then ask_asset else aa_name offer_asset in
  Ok (mkSimulateSwap (pairing_new (aa_name offer_asset) ask_asset dex) (return_amount simulated)
    (spread_amount simulated) (commission_entry, (commission simulated).2) (usage_fee simulated)).
(** [GenerateMessages]: the messages of an action on an exchange of this chain *)
Definition generate_messages (base : Features) (fees : DexStorage) (env : Env) (message : DexExecuteMsg)
    (addr_as_sender : string) : outcome DexError (list CosmosMsg) :=
  match message with
  | Action dex action =>
      '(local_dex_name, over_ibc) ← is_over_ibc env dex;
      if over_ibc : bool then Err IbcMsgQuery else
      exchange ← resolve_exchange local_dex_name;
      sender ← map_err DexStd (addr_validate_r addr_as_sender);
      '(messages, _) ← resolve_dex_action base fees sender action exchange;
      Ok messages
  | UpdateFee _ _ => Err InvalidGenerateMessage
  end.
Definition dex_query_handler (env : Env) (target_account : option Addr) (msg : DexQueryMsg) (s : DexState) :
    outcome DexError string :=
  let base := dex_features target_account s in
  match msg with
  | SimulateSwapRaw offer_asset ask_asset pool dex =>
      pool ← check_pool pool;
      offer_asset ← check_asset offer_asset;
      ask_asset ← ok_or (asset_info_check ask_asset) DexAsset;
      r ← simulate_swap (Adapter.custom s) dex pool offer_asset ask_asset; Ok (simulate_raw_json r)
  | GenerateMessages message addr_as_sender =>
      messages ← generate_messages base (Adapter.custom s) env message addr_as_sender; Ok (messages_json messages)
  | QueryFees => dex_fees ← load_fees (Adapter.custom s); Ok (fees_json (swap_fee dex_fees) (fee_recipient dex_fees))
  | SimulateSwap offer_asset ask_asset dex =>
      r ← simulate_ans_swap base (Adapter.custom s) offer_asset ask_asset dex; Ok (simulate_json r)
  end.

(** ** The contract (contract.rs) *)

Definition DEX_ADAPTER : DexAdapterT :=
  mkContract (DEX_ADAPTER_ID, DEX_VERSION, None) [] (Some dex_instantiate_handler) (Some dex_execute_handler)
    (Some dex_query_handler) None None ([], []) None None.
End dex.

(** ** What a module asks of the adapter (api.rs) *)

Section api.
Context `{Semver, Api, Instantiate2, CwOwnable, CoinsOps, Sha256, CwAsset, !CwAssetMsgs, !CwAssetTexts}.
Context `{!Querier, !Registries, !Accounts, !AnsHosts}.
Context `{!ToJson (Adapter.ExecuteMsg DexExecuteMsg), !ToJson DexQueryMsg}.

(** [Dex] and [AnsDex]: the module, the name of the dex, the id of the adapter *)
Record DexApi := mkDexApi { api_base : Features; api_name : string; api_module_id : string }.
Definition dex (base : Features) (name : string) : DexApi := mkDexApi base name DEX_ADAPTER_ID.
Definition with_module_id (d : DexApi) (module_id : string) : DexApi :=
  mkDexApi (api_base d) (api_name d) module_id.

Definition api_execute (d : DexApi) (action : DexAction) : outcome SdkError CosmosMsg :=
  adapters_execute (api_base d) (api_module_id d) (Action (api_name d) action).
Definition api_swap (d : DexApi) (offer_asset : Asset) (ask_asset : asset_info)
    (max_spread belief_price : option Z) (pool : PoolAddress) : outcome SdkError CosmosMsg :=
  api_execute d (Swap (pool_uncheck pool) (asset_unchecked offer_asset) (asset_info_uncheck ask_asset)
    max_spread belief_price).
Definition api_provide_liquidity (d : DexApi) (assets : list Asset) (max_spread : option Z)
    (pool : PoolAddress) : outcome SdkError CosmosMsg :=
  api_execute d (ProvideLiquidity (pool_uncheck pool) (asset_unchecked <$> assets) max_spread).
Definition api_withdraw_liquidity (d : DexApi) (lp_token : Asset) (pool : PoolAddress) : outcome SdkError CosmosMsg :=
  api_execute d (WithdrawLiquidity (pool_uncheck pool) (asset_unchecked lp_token)).
(** The queries go to the adapter under its own id, whatever id was set. *)
Definition api_query {R} `{!FromJson R} (d : DexApi) (query_msg : DexQueryMsg) : outcome SdkError R :=
  adapters_query (api_base d) DEX_ADAPTER_ID query_msg.
Definition api_simulate_swap `{!FromJson (SimulateSwapResponse asset_info)} (d : DexApi) (offer_asset : Asset)
    (ask_asset : asset_info) (pool : PoolAddress) : outcome SdkError (SimulateSwapResponse asset_info) :=
  api_query d (SimulateSwapRaw (asset_unchecked offer_asset) (asset_info_uncheck ask_asset)
    (pool_uncheck pool) (api_name d)).
Definition api_generate_swap_messages `{!FromJson (list CosmosMsg)} (d : DexApi) (offer_asset : Asset)
    (ask_asset : asset_info) (pool : PoolAddress) (max_spread belief_price : option Z) (addr_as_sender : string) :
    outcome SdkError (list CosmosMsg) :=
  api_query d (GenerateMessages (Action (api_name d) (Swap (pool_uncheck pool) (asset_unchecked offer_asset)
    (asset_info_uncheck ask_asset) max_spread belief_price)) addr_as_sender).

(** [AnsDex]: the actions on named assets, resolved first *)
Definition ans_message (d : DexApi) (action : DexAnsAction) : outcome SdkError DexExecuteMsg :=
  ans_host ← f_ans_host (api_base d);
  map_err (λ e, SdkAbstract (AbsAnsHost e)) (resolve_dex_ans_action ans_host (api_name d, action)).
Definition ans_execute (d : DexApi) (action : DexAnsAction) : outcome SdkError CosmosMsg :=
  message ← ans_message d action; adapters_execute (api_base d) (api_module_id d) message.
Definition ans_swap (d : DexApi) (offer_asset : AnsAsset) (ask_asset : AssetEntry)
    (max_spread belief_price : option Z) : outcome SdkError CosmosMsg :=
  ans_execute d (AnsSwap offer_asset ask_asset max_spread belief_price).
Definition ans_provide_liquidity (d : DexApi) (assets : list AnsAsset) (max_spread : option Z) :
    outcome SdkError CosmosMsg := ans_execute d (AnsProvideLiquidity assets max_spread).
Definition ans_withdraw_liquidity (d : DexApi) (lp_token : AnsAsset) : outcome SdkError CosmosMsg :=
  ans_execute d (AnsWithdrawLiquidity lp_token).
Definition ans_simulate_swap `{!FromJson (SimulateSwapResponse AssetEntry)} (d : DexApi) (offer_asset : AnsAsset)
    (ask_asset : AssetEntry) : outcome SdkError (SimulateSwapResponse AssetEntry) :=
  api_query d (SimulateSwap offer_asset ask_asset (api_name d)).
Definition ans_generate_swap_messages `{!FromJson (list CosmosMsg)} (d : DexApi) (offer_asset : AnsAsset)
    (ask_asset : AssetEntry) (max_spread belief_price : option Z) (addr_as_sender : string) :
    outcome SdkError (list CosmosMsg) :=
  message ← ans_message d (AnsSwap offer_asset ask_asset max_spread belief_price);
  api_query d (GenerateMessages message addr_as_sender).
End api.
