(* ===== verification/Payment.v ===== *)
(** * The payment app

    modules/contracts/apps/payment (state.rs, msg.rs, error.rs, contract.rs,
    handlers/*.rs): tips in native coins or through a cw20 contract, which the
    app forwards to its account and may have the account swap into a desired
    asset, and the history of the tips of every tipper. *)

From S2P Require Import Prelude Cosmos Strings Objects Names AccountIds Fees ModuleFactory Ownership AnsObjects Ans AnsClient Registry Clients Account Ibc Sdk SdkApis Adapter App SdkModules Subscription DexStandard Dex.
From Stdlib Require Import Ascii String.
#[local] Open Scope string_scope.
#[local] Open Scope list_scope.
#[local] Open Scope Z_scope.

(** ** Packages underneath *)

(** [cw_storage_plus::SnapshotMap] with a checkpoint at every block: the current
    entries, and the value an entry had at the beginning of the block of a
    height.  [snap_until m h] says that nothing was saved after the height [h]. *)
Class SnapshotMaps := {
  SnapshotMap : ∀ (K V : Type) `{Countable K}, Type;
  snap_empty : ∀ {K V} `{Countable K}, SnapshotMap K V;
  snap_entries : ∀ {K V} `{Countable K}, SnapshotMap K V → gmap K V;
  snap_save : ∀ {K V} `{Countable K}, K → V → Z → SnapshotMap K V → SnapshotMap K V;
  snap_at_height : ∀ {K V} `{Countable K}, SnapshotMap K V → K → Z → option V;
  snap_until : ∀ {K V} `{Countable K}, SnapshotMap K V → Z → Prop
}.
Class SnapshotMapsLaws `{SnapshotMaps} : Prop := {
  entries_empty {K V} `{Countable K} : snap_entries (snap_empty (K:=K) (V:=V)) = ∅;
  entries_save {K V} `{Countable K} (m : SnapshotMap K V) k v h :
    snap_entries (snap_save k v h m) = <[k := v]> (snap_entries m);
  until_empty {K V} `{Countable K} h : snap_until (snap_empty (K:=K) (V:=V)) h;
  until_save {K V} `{Countable K} (m : SnapshotMap K V) k v h h' :
    snap_until m h → h ≤ h' → snap_until (snap_save k v h' m) h';
  until_mono {K V} `{Countable K} (m : SnapshotMap K V) h h' : snap_until m h → h ≤ h' → snap_until m h';
  at_height_latest {K V} `{Countable K} (m : SnapshotMap K V) k h h' :
    snap_until m h → h < h' → snap_at_height m k h' = snap_entries m !! k;
  at_height_past {K V} `{Countable K} (m : SnapshotMap K V) k k' v h h' :
    snap_until m h → h' ≤ h → snap_at_height (snap_save k v h m) k' h' = snap_at_height m k' h'
}.

(** [cw_asset::AssetList]: the list of coins, and the addition of an asset,
    which fails when the amounts overflow. *)
Class AssetLists `{CwAssetMsgs} := { asset_list_add : list Asset → Asset → option (list Asset) }.
(** What a list holds of an asset *)
Definition held `{CwAssetMsgs} (i : asset_info) (l : list Asset) : Z :=
  zsum (as_amount <$> filter (λ a, as_info a = i) l).
Class AssetListsLaws `{AssetLists} : Prop := {
  asset_list_add_held l a l' i : asset_list_add l a = Some l' →
    held i l' = held i l + (if decide (as_info a = i) then as_amount a else 0)
}.

(** ** Messages and state (msg.rs, state.rs, error.rs) *)

Record PaymentInit := mkPaymentInit {
  init_desired_asset : option AssetEntry;
  init_denom_asset : string;
  init_exchanges : list string
}.
Inductive PaymentExecuteMsg : Type :=
  | Tip
  | UpdateConfig (desired_asset : option (Clearable AssetEntry)) (denom_asset : option string)
      (exchanges : option (list string)).
Inductive CustomExecuteMsg : Type :=
  | CustomBase (m : BaseExecuteMsg)
  | CustomModule (m : PaymentExecuteMsg)
  | CustomReceive (m : Cw20ReceiveMsg).
Inductive PaymentQueryMsg : Type :=
  | QueryConfig
  | QueryTipper (address : string) (start_after : option AssetEntry) (limit : option Z) (at_height : option Z)
  | QueryTipCount
  | QueryListTippersCount (start_after : option string) (limit : option Z).

Record Config := mkConfig {
  desired_asset : option AssetEntry;
  denom_asset : string;
  exchanges : list string
}.
Definition set_desired_asset (v : option AssetEntry) (c : Config) : Config := mkConfig v (denom_asset c) (exchanges c).
Definition set_denom_asset (v : string) (c : Config) : Config := mkConfig (desired_asset c) v (exchanges c).
Definition set_exchanges (v : list string) (c : Config) : Config := mkConfig (desired_asset c) (denom_asset c) v.

Record TipperResponse := mkTipper { tipper_address : Addr; tipper_tips : Z; total_amounts : list AnsAsset }.
Inductive PaymentResponse : Type :=
  | ConfigResponse (c : Config)
  | TipperAnswer (r : TipperResponse)
  | TippersCountResponse (tippers : list (Addr * Z))
  | TipCountResponse (count : Z).
(** The text of an answer. *)
Class PaymentJson := { payment_to_json : PaymentResponse → string }.

Inductive PaymentError : Type :=
  | PayStd (e : StdError)
  | PayAbstract (e : AbstractError)
  | PaySdk (e : SdkError)
  | PayAsset
  | PayAdmin (e : AdminError)
  | PayDapp (e : AppError)
  | TipperDoesNotExist
  | DesiredAssetDoesNotExist
  | DexNotRegistered (dex : string).
#[export] Instance payment_contract_error : ContractError PaymentError :=
  {| from_std := PayStd; from_sdk := PaySdk; from_abstract := PayAbstract |}.

Section state.
Context `{SnapshotMaps}.
(** [CONFIG], [TIPPERS], [TIP_COUNT], [TIPPER_COUNT] *)
Record PaymentStorage := mkPaymentStorage {
  config : option Config;
  tippers : SnapshotMap (Addr * AssetEntry) Z;
  tip_count : option Z;
  tipper_count : SnapshotMap Addr Z
}.
Definition set_config (v : option Config) (s : PaymentStorage) : PaymentStorage :=
  mkPaymentStorage v (tippers s) (tip_count s) (tipper_count s).
Definition set_tippers (v : SnapshotMap (Addr * AssetEntry) Z) (s : PaymentStorage) : PaymentStorage :=
  mkPaymentStorage (config s) v (tip_count s) (tipper_count s).
Definition set_tip_count (v : option Z) (s : PaymentStorage) : PaymentStorage :=
  mkPaymentStorage (config s) (tippers s) v (tipper_count s).
Definition set_tipper_count (v : SnapshotMap Addr Z) (s : PaymentStorage) : PaymentStorage :=
  mkPaymentStorage (config s) (tippers s) (tip_count s) v.
Definition empty_payment : PaymentStorage := mkPaymentStorage None snap_empty None snap_empty.
End state.

Section app.
Context `{SnapshotMaps, Semver, Api, Instantiate2, CwOwnable, CoinsOps, Sha256, CwAsset, !CwAssetMsgs, !CwAssetTexts}.
Context `{!AssetLists, !Querier, !Registries, !Accounts, !AnsHosts, !ComparatorParse, !PaymentJson}.
Context `{!ToJson (Adapter.ExecuteMsg DexExecuteMsg), !ToJson DexQueryMsg, !FromJson (SimulateSwapResponse AssetEntry)}.
Abbreviation PayState := (App.State PaymentStorage).
Abbreviation PayM := (M PayState PaymentError).
Abbreviation PayResponse := (Response ModuleMsg).

Definition PAYMENT_ID : string := "abstract:payment".
Definition PAYMENT_VERSION : string := "0.4.0".
Definition DEX_DEPENDENCY : StaticDependency := mkStaticDependency DEX_ADAPTER_ID [DEX_VERSION].
(** The module object, as its features see it *)
Definition payment_features (s : PayState) : Features :=
  mkFeatures PAYMENT_ID [DEX_DEPENDENCY] (App.account s) (App.abstract_registry s) (App.ans_host s).

Definition update_custom (f : PaymentStorage → PaymentStorage) : PayM unit :=
  modify (λ s, App.set_custom (f (App.custom s)) s).
Definition load_config : PayM Config :=
  c ← gets (λ s, config (App.custom s)); lift (ok_or c (PayStd (StdNotFound "config"))).
Definition load_names : PayM Addr := host ← gets App.ans_host; lift (name_service host).

(** [AbstractNameServiceClient::pool_list], a query of the host *)
Definition pool_list (host : Addr) (f : option AssetPairingFilter) (page_limit : option Z)
    (start_after : option DexAssetPairing) : outcome SdkError (list (DexAssetPairing * list PoolReference)) :=
  map_err (SdkApiStdQuery "AbstractNameServiceClient")
    (query_r (s ← ans_state host; ok (list_pool_entries s f start_after page_limit))).

(** ** Tips (handlers/execute.rs) *)

(** [Decimal::percent(20)] *)
Definition MAX_SPREAD : Z := 2 * 10 ^ 17.

Definition update_tipper_asset (sender : Addr) (height : Z) (a : AnsAsset) : PayM unit :=
  s ← gets (λ s, tippers (App.custom s));
  let total_tipper_amount := default 0 (snap_entries s !! (sender, aa_name a)) in
  total_tipper_amount ← lift (add_u 128 total_tipper_amount (aa_amount a));
  update_custom (set_tippers (snap_save (sender, aa_name a) total_tipper_amount height s)).
Definition update_tipper_history (sender : Addr) (assets : list AnsAsset) (height : Z) : PayM unit :=
  total_count ← gets (λ s, tip_count (App.custom s));
  total_count ← lift (ok_or total_count (PayStd (StdNotFound "tip_count")));
  total_count ← lift (add_u 32 total_count 1);
  update_custom (set_tip_count (Some total_count)) ≫= λ _,
  s ← gets (λ s, tipper_count (App.custom s));
  count ← lift (add_u 32 (default 0 (snap_entries s !! sender)) 1);
  update_custom (set_tipper_count (snap_save sender count height s)) ≫= λ _,
  mfor assets (update_tipper_asset sender height).

(** The pair a payment is swapped on: the first with pools on a dex of the app *)
Definition swap_pair (c : Config) (desired : AssetEntry) (host : Addr) (pay_asset : AnsAsset) :
    outcome PaymentError (option DexAssetPairing) :=
  resp ← map_err PaySdk (pool_list host
    (Some (mkAssetPairingFilter (Some (desired, aa_name pay_asset)) None)) None None);
  Ok (fst <$> find (λ '(p, refs), bool_decide (refs ≠ [] ∧ pairing_dex p ∈ exchanges c)) resp).
(** What the loop over the payments accumulates: the amount of the desired
    asset, the other assets, and the swaps *)
Record Received := mkReceived { desired_amount : Z; assets_to_add : list AnsAsset; swap_msgs : list CosmosMsg }.
Definition receive_asset (base : Features) (c : Config) (desired : AssetEntry) (host : Addr) (acc : Received)
    (pay_asset : AnsAsset) : outcome PaymentError Received :=
  if decide (aa_name pay_asset = desired) then
    amount ← add_u 128 (desired_amount acc) (aa_amount pay_asset);
    Ok (mkReceived amount (assets_to_add acc) (swap_msgs acc))
  else
    swapped_on ← swap_pair c desired host pay_asset;
    match swapped_on with
    | Some p =>
        let dex := dex base (pairing_dex p) in
        trigger_swap_msg ← map_err PaySdk (ans_swap dex pay_asset desired (Some MAX_SPREAD) None);
        simulated ← map_err PaySdk (ans_simulate_swap dex pay_asset desired);
        amount ← add_u 128 (desired_amount acc) (return_amount simulated);
        Ok (mkReceived amount (assets_to_add acc) (swap_msgs acc ++ [trigger_swap_msg]))
    | None => Ok (mkReceived (desired_amount acc) (assets_to_add acc ++ [pay_asset]) (swap_msgs acc))
    end.
(** The assets of the history, and the swaps *)
Definition receive_assets (base : Features) (c : Config) (host : Addr) (asset_entries : list AnsAsset) :
    outcome PaymentError (list AnsAsset * list CosmosMsg) :=
  match desired_asset c with
  | None => Ok (asset_entries, [])
  | Some desired =>
      acc ← ofold asset_entries (mkReceived 0 [] []) (receive_asset base c desired host);
      let credited := if decide (desired_amount acc = 0) then [] else [mkAnsAsset desired (desired_amount acc)] in
      Ok (assets_to_add acc ++ credited, swap_msgs acc)
  end.
Definition tip (env : Env) (info : MessageInfo) (cw20_receipt : option Asset) : PayM PayResponse :=
  let funds := asset_of_coin <$> funds info in
  deposited_assets ← lift match cw20_receipt with
    | Some cw20_deposit => ok_or (asset_list_add funds cw20_deposit) PayAsset
    | None => Ok funds
    end;
  base ← gets payment_features;
  forward_payment_msgs ← lift (map_err PaySdk (deposit (f_account base) deposited_assets));
  c ← load_config;
  host ← load_names;
  asset_entries ← lift (map_err PaySdk (ns_query (T:=list AnsClient.Asset) (O:=list AnsAsset) host
    ((λ a, (as_info a, as_amount a)) <$> deposited_assets)));
  '(recorded, swap_msgs) ← lift (receive_assets base c host asset_entries);
  update_tipper_history (sender info) recorded (height (block env)) ≫= λ _,
  mret (mkResponse "receive_tip" ((λ m, send (FromModule m)) <$> forward_payment_msgs ++ swap_msgs)).

(** ** The configuration (handlers/execute.rs, instantiate.rs) *)

Definition assert_asset_registered (host : Addr) (a : AssetEntry) : outcome PaymentError unit :=
  match ns_query (O:=asset_info) host a with
  | Ok _ => Ok tt
  | Err _ => Err DesiredAssetDoesNotExist
  | Panic => Panic
  end.
Definition assert_dexes_registered (ans_dexes exchanges : list string) : outcome PaymentError unit :=
  ofor exchanges (λ dex, guard_or (bool_decide (dex ∈ ans_dexes)) (DexNotRegistered dex)).
(** The optional parts of an update *)
Definition update_desired (host : Addr) (desired : option (Clearable AssetEntry)) (c : Config) : outcome PaymentError Config :=
  match desired with
  | Some desired =>
      match desired with ClearableSet a => assert_asset_registered host a | Clear => Ok tt end ≫= λ _,
      Ok (set_desired_asset (of_clearable desired) c)
  | None => Ok c
  end.
Definition update_exchanges (host : Addr) (exchanges : option (list string)) (c : Config) : outcome PaymentError Config :=
  match exchanges with
  | Some exchanges =>
      ans_dexes ← map_err PaySdk (ns_registered_dexes host);
      assert_dexes_registered ans_dexes exchanges ≫= λ _, Ok (set_exchanges exchanges c)
  | None => Ok c
  end.
Definition update_config (env : Env) (msg_info : MessageInfo) (desired : option (Clearable AssetEntry))
    (denom : option string) (exchanges : option (list string)) : PayM PayResponse :=
  within PayAdmin (assert_app_admin env (sender msg_info)) ≫= λ _,
  host ← load_names;
  c ← load_config;
  c ← lift (update_desired host desired c);
  c ← lift (update_exchanges host exchanges c);
  let c := match denom with Some denom => set_denom_asset denom c | None => c end in
  update_custom (set_config (Some c)) ≫= λ _,
  mret (mkResponse "update_config" []).
Definition payment_instantiate_handler (env : Env) (info : MessageInfo) (module : unit) (msg : PaymentInit) :
    PayM PayResponse :=
  host ← load_names;
  lift (match init_desired_asset msg with Some a => assert_asset_registered host a | None => Ok tt end) ≫= λ _,
  ans_dexes ← lift (map_err PaySdk (ns_registered_dexes host));
  lift (assert_dexes_registered ans_dexes (init_exchanges msg)) ≫= λ _,
  update_custom (set_config (Some (mkConfig (init_desired_asset msg) (init_denom_asset msg) (init_exchanges msg)))) ≫= λ _,
  update_custom (set_tip_count (Some 0)) ≫= λ _,
  mret (mkResponse "" []).
Definition payment_migrate_handler (env : Env) (module : unit) (msg : unit) : PayM PayResponse :=
  mret (mkResponse "migrate" []).
Definition payment_execute_handler (env : Env) (info : MessageInfo) (module : unit) (msg : PaymentExecuteMsg) :
    PayM PayResponse :=
  match msg with
  | UpdateConfig desired_asset denom_asset exchanges => update_config env info desired_asset denom_asset exchanges
  | Tip => tip env info None
  end.
(** [receive_handler] (handlers/receive.rs): the caller is the cw20 contract *)
Definition receive_handler (env : Env) (info : MessageInfo) (msg : Cw20ReceiveMsg) : PayM PayResponse :=
  let receipt := mkAsset (asset_cw20 (sender info)) (cw20_amount msg) in
  tipper ← lift (map_err PayStd (addr_validate_r (cw20_sender msg)));
  tip env (mkInfo tipper (funds info)) (Some receipt).

(** ** Queries (handlers/query.rs) *)

Definition PAYMENT_LIMIT : Z := 10.
Definition take_limit {A} (limit : option Z) : list A → list A := take (Z.to_nat (default PAYMENT_LIMIT limit)).
Definition query_config (s : PaymentStorage) : outcome PaymentError Config :=
  ok_or (config s) (PayStd (StdNotFound "config")).
Definition query_tip_count (s : PaymentStorage) : Z := default 0 (tip_count s).
(** The entries of [TIPPERS] of a tipper *)
Definition tipper_range (s : PaymentStorage) (address : Addr) (start_after : option AssetEntry) :
    list (AssetEntry * Z) :=
  range text_lt start_after (omap (λ '((a, n), v), if decide (a = address) then Some (n, v) else None)
    (map_to_list (snap_entries (tippers s)))).
Definition tipper_at_height (s : PaymentStorage) (address : Addr) (start_after : option AssetEntry)
    (limit : option Z) (height : Z) : TipperResponse :=
  let entries := take_limit limit (tipper_range s address start_after).*1 in
  mkTipper address (default 0 (snap_at_height (tipper_count s) address height))
    ((λ entry, mkAnsAsset entry (default 0 (snap_at_height (tippers s) (address, entry) height))) <$> entries).
Definition query_tipper (s : PaymentStorage) (address : string) (start_after : option AssetEntry)
    (limit at_height : option Z) : outcome PaymentError TipperResponse :=
  address ← map_err PayStd (addr_validate_r address);
  match at_height with
  | Some height => Ok (tipper_at_height s address start_after limit height)
  | None => Ok (mkTipper address (default 0 (snap_entries (tipper_count s) !! address))
      ((λ '(asset, amount), mkAnsAsset asset amount) <$> take_limit limit (tipper_range s address start_after)))
  end.
Definition query_list_tippers_count (s : PaymentStorage) (start_after : option string) (limit : option Z) :
    outcome PaymentError (list (Addr * Z)) :=
  start_after ← match start_after with
    | Some human => a ← map_err PayStd (addr_validate_r human); Ok (Some a)
    | None => Ok None
    end;
  Ok (take_limit limit (range text_lt start_after (map_to_list (snap_entries (tipper_count s))))).
Definition payment_query_handler (env : Env) (module : unit) (msg : PaymentQueryMsg) (s : PayState) :
    outcome PaymentError string :=
  let s := App.custom s in
  r ← match msg with
    | QueryConfig => c ← query_config s; Ok (ConfigResponse c)
    | QueryListTippersCount start_after limit =>
        l ← query_list_tippers_count s start_after limit; Ok (TippersCountResponse l)
    | QueryTipCount => Ok (TipCountResponse (query_tip_count s))
    | QueryTipper address start_after limit at_height =>
        t ← query_tipper s address start_after limit at_height; Ok (TipperAnswer t)
    end;
  Ok (payment_to_json r).

(** ** The contract (contract.rs, handlers/custom.rs) *)

Definition PaymentApp : Type := AbstractContract () PayState PaymentError ModuleMsg PaymentInit PaymentExecuteMsg
  PaymentQueryMsg unit unit.
Definition PAYMENT_APP : PaymentApp :=
  mkContract (PAYMENT_ID, PAYMENT_VERSION, None) [DEX_DEPENDENCY] (Some payment_instantiate_handler)
    (Some payment_execute_handler) (Some payment_query_handler) (Some payment_migrate_handler) None ([], []) None None.
(** [try_into_base]: what is left is the message of the cw20 contract *)
Definition try_into_base (m : CustomExecuteMsg) : App.ExecuteMsg PaymentExecuteMsg + Cw20ReceiveMsg :=
  match m with
  | CustomBase m => inl (Base_ m)
  | CustomModule m => inl (Module_msg m)
  | CustomReceive m => inr m
  end.
(** The entry point [export_endpoints] makes *)
Definition payment_execute (env : Env) (info : MessageInfo) (m : CustomExecuteMsg) : PayM PayResponse :=
  match try_into_base m with
  | inl m => App.execute PAYMENT_APP env info m
  | inr m => receive_handler env info m
  end.
End app.
