(* ===== verification/MoneyMarketStandard.v ===== *)
(** * The standard of money market adapters

    framework/packages/standards/money-market (raw_action.rs, ans_action.rs,
    command.rs, error.rs, msg.rs, query.rs): what a money market offers to the
    adapter, the actions and queries of an account, with assets or with names of
    the name service, and how the names are resolved. *)

From S2P Require Import Prelude Cosmos Strings Objects Names AccountIds Fees ModuleFactory Ownership AnsObjects Ans AnsClient Registry Clients Account Ibc Sdk SdkApis Adapter DexStandard.
From Stdlib Require Import Ascii String.
#[local] Open Scope string_scope.
#[local] Open Scope list_scope.
#[local] Open Scope Z_scope.

(** [MoneyMarketError] (error.rs) *)
Inductive MoneyMarketError : Type :=
  | MmStd (e : StdError)
  | MmFromRatio
  | MmAbstract (e : AbstractError)
  | MmSdk (e : SdkError)
  | MmAsset
  | MmAdapterError (e : AdapterError)
  | MmAnsHost (e : AnsHostError)
  | MmConversionOverflow
  | MmDecimalRangeExceeded
  | UnknownMoneyMarket (name : string)
  | ForeignMoneyMarket (name : string)
  | MmUnsupportedAssetType (asset : string)
  | MmArgumentMismatch (asset : string) (market : list string)
  | MmNotImplemented (name : string)
  | MmIbcMsgQuery
  | MmInvalidGenerateMessage
  | ContractAddressEmpty
  | MmUnauthorized
  | ExpectedNative.
#[export] Instance mm_contract_error : ContractError MoneyMarketError :=
  {| from_std := MmStd; from_sdk := MmSdk; from_abstract := MmAbstract |}.
#[export] Instance mm_adapter_error : AdapterContractError MoneyMarketError := MmAdapterError.

Definition MONEY_MARKET_ADAPTER_ID : string := "abstract:money-market".
(** [MAX_FEE], which nothing uses *)
Definition MM_MAX_FEE : Z := 5 * 10 ^ 16.

Section standard.
Context `{Semver, Api, CwOwnable, CwAsset, !CwAssetMsgs, !CwAssetKinds, !CwAssetTexts}.
Abbreviation InfoU := asset_info_unchecked.

(** ** Messages (raw_action.rs, ans_action.rs, msg.rs) *)

Inductive MoneyMarketRawRequest : Type :=
  | RawDeposit (lending_asset : AssetUnchecked)
  | RawWithdraw (lent_asset : AssetUnchecked)
  | RawProvideCollateral (borrowable_asset : InfoU) (collateral_asset : AssetUnchecked)
  | RawWithdrawCollateral (borrowable_asset : InfoU) (collateral_asset : AssetUnchecked)
  | RawBorrow (borrow_asset : AssetUnchecked) (collateral_asset : InfoU)
  | RawRepay (borrowed_asset : AssetUnchecked) (collateral_asset : InfoU).
Record MoneyMarketRawAction := mkRawAction { raw_request : MoneyMarketRawRequest; raw_contract_addr : string }.
Inductive MoneyMarketAnsAction : Type :=
  | AnsDeposit (lending_asset : AnsAsset)
  | AnsWithdraw (lent_asset : AnsAsset)
  | AnsProvideCollateral (borrowable_asset : AssetEntry) (collateral_asset : AnsAsset)
  | AnsWithdrawCollateral (borrowable_asset : AssetEntry) (collateral_asset : AnsAsset)
  | AnsBorrow (borrow_asset : AnsAsset) (collateral_asset : AssetEntry)
  | AnsRepay (borrowed_asset : AnsAsset) (collateral_asset : AssetEntry).
Record MoneyMarketInit := mkMmInit { mm_init_fee : Z; mm_init_recipient_account : Z }.
Inductive MoneyMarketExecuteMsg : Type :=
  | MmUpdateFee (money_market_fee recipient_account : option Z)
  | MmAnsAction (money_market : string) (action : MoneyMarketAnsAction)
  | MmRawAction (money_market : string) (action : MoneyMarketRawAction).
Inductive MoneyMarketQueryMsg : Type :=
  | MmGenerateMessages (message : MoneyMarketExecuteMsg) (addr_as_sender : string)
  | RawUserDeposit (user : string) (asset : InfoU) (contract_addr money_market : string)
  | RawUserCollateral (user : string) (collateral_asset borrowed_asset : InfoU) (contract_addr money_market : string)
  | RawUserBorrow (user : string) (collateral_asset borrowed_asset : InfoU) (contract_addr money_market : string)
  | RawCurrentLTV (user : string) (collateral_asset borrowed_asset : InfoU) (contract_addr money_market : string)
  | RawMaxLTV (user : string) (collateral_asset borrowed_asset : InfoU) (contract_addr money_market : string)
  | RawPrice (quote base : InfoU) (money_market : string)
  | AnsUserDeposit (user : string) (asset : AssetEntry) (money_market : string)
  | AnsUserCollateral (user : string) (collateral_asset borrowed_asset : AssetEntry) (money_market : string)
  | AnsUserBorrow (user : string) (collateral_asset borrowed_asset : AssetEntry) (money_market : string)
  | AnsCurrentLTV (user : string) (collateral_asset borrowed_asset : AssetEntry) (money_market : string)
  | AnsMaxLTV (user : string) (collateral_asset borrowed_asset : AssetEntry) (money_market : string)
  | AnsPrice (quote base : AssetEntry) (money_market : string)
  | MmFees.
(** [MoneyMarketQueryMsg::money_market] *)
Definition query_money_market (q : MoneyMarketQueryMsg) : outcome StdError string :=
  match q with
  | RawUserDeposit _ _ _ money_market | RawUserCollateral _ _ _ _ money_market
  | RawUserBorrow _ _ _ _ money_market | RawCurrentLTV _ _ _ _ money_market
  | RawMaxLTV _ _ _ _ money_market | RawPrice _ _ money_market
  | AnsUserDeposit _ _ money_market | AnsUserCollateral _ _ _ money_market
  | AnsUserBorrow _ _ _ money_market | AnsCurrentLTV _ _ _ money_market
  | AnsMaxLTV _ _ _ money_market | AnsPrice _ _ money_market => Ok money_market
  | MmGenerateMessages _ _ | MmFees => Err (StdMsg "Wrong query type")
  end.
(** The responses of the queries *)
Inductive MoneyMarketResponse : Type :=
  | GenerateMessagesResponse (messages : list CosmosMsg)
  | UserDepositResponse (amount : Z)
  | UserCollateralResponse (amount : Z)
  | UserBorrowResponse (amount : Z)
  | UserCurrentLTVResponse (current_ltv : Z)
  | UserMaxLTVResponse (max_ltv : Z)
  | PriceResponse (price : Z)
  | MoneyMarketFeesResponse (fees : UsageFee).

(** ** What a money market offers (command.rs)

    [Box<dyn MoneyMarketCommand>], with the data [fetch_data] leaves in it. *)
Record MoneyMarketCommand := mkMoneyMarketCommand {
  mm_identify : Identify;
  mm_data : Type;
  mm_default : mm_data;
  (** sender and name service *)
  mm_fetch_data : Addr → Addr → mm_data → outcome MoneyMarketError mm_data;
  (** name service; the lending asset, or the borrowed and the collateral asset *)
  lending_address : mm_data → Addr → AssetEntry → outcome AnsHostError Addr;
  collateral_address : mm_data → Addr → AssetEntry → AssetEntry → outcome AnsHostError Addr;
  borrow_address : mm_data → Addr → AssetEntry → AssetEntry → outcome AnsHostError Addr;
  current_ltv_address : mm_data → Addr → AssetEntry → AssetEntry → outcome AnsHostError Addr;
  max_ltv_address : mm_data → Addr → AssetEntry → AssetEntry → outcome AnsHostError Addr;
  mm_deposit : mm_data → Addr → Asset → outcome MoneyMarketError (list CosmosMsg);
  mm_withdraw : mm_data → Addr → Asset → outcome MoneyMarketError (list CosmosMsg);
  mm_provide_collateral : mm_data → Addr → Asset → outcome MoneyMarketError (list CosmosMsg);
  mm_withdraw_collateral : mm_data → Addr → Asset → outcome MoneyMarketError (list CosmosMsg);
  mm_borrow : mm_data → Addr → Asset → outcome MoneyMarketError (list CosmosMsg);
  mm_repay : mm_data → Addr → Asset → outcome MoneyMarketError (list CosmosMsg);
  (** base and quote *)
  mm_price : mm_data → asset_info → asset_info → outcome MoneyMarketError Z;
  (** contract, user, and the asset, or the borrowed and the collateral asset *)
  mm_user_deposit : mm_data → Addr → Addr → asset_info → outcome MoneyMarketError Z;
  mm_user_collateral : mm_data → Addr → Addr → asset_info → asset_info → outcome MoneyMarketError Z;
  mm_user_borrow : mm_data → Addr → Addr → asset_info → asset_info → outcome MoneyMarketError Z;
  mm_current_ltv : mm_data → Addr → Addr → asset_info → asset_info → outcome MoneyMarketError Z;
  mm_max_ltv : mm_data → Addr → Addr → asset_info → asset_info → outcome MoneyMarketError Z
}.
(** [fetch_data] where it is not overridden *)
Definition mm_default_fetch_data {D} (sender ans_host : Addr) (data : D) : outcome MoneyMarketError D := Ok data.

(** ** Resolution of names (ans_action.rs, query.rs) *)

Section ans.
Context `{!AnsHosts}.
(** The contract of a pair of assets, and the resolution of a description *)
Definition info_resolved (host : Addr) (a : AssetEntry) : outcome AnsHostError InfoU :=
  i ← query_asset host a; Ok (asset_info_uncheck i).
Definition amount_resolved (host : Addr) (a : AnsAsset) : outcome AnsHostError AssetUnchecked :=
  a ← resolved_asset host a; Ok (asset_unchecked a).
(** [MoneyMarketActionResolveWrapper] *)
Definition resolve_mm_action (m : MoneyMarketCommand) (host : Addr) (a : MoneyMarketAnsAction) :
    outcome AnsHostError MoneyMarketRawAction :=
  let d := mm_default m in
  match a with
  | AnsDeposit lending_asset =>
      contract_addr ← lending_address m d host (aa_name lending_asset);
      asset ← amount_resolved host lending_asset;
      Ok (mkRawAction (RawDeposit asset) contract_addr)
  | AnsWithdraw lent_asset =>
      contract_addr ← lending_address m d host (aa_name lent_asset);
      lent_asset ← amount_resolved host lent_asset;
      Ok (mkRawAction (RawWithdraw lent_asset) contract_addr)
  | AnsProvideCollateral borrowable_asset collateral_asset =>
      contract_addr ← collateral_address m d host borrowable_asset (aa_name collateral_asset);
      borrowable_asset ← info_resolved host borrowable_asset;
      collateral_asset ← amount_resolved host collateral_asset;
      Ok (mkRawAction (RawProvideCollateral borrowable_asset collateral_asset) contract_addr)
  | AnsWithdrawCollateral borrowable_asset collateral_asset =>
      contract_addr ← collateral_address m d host borrowable_asset (aa_name collateral_asset);
      borrowable_asset ← info_resolved host borrowable_asset;
      collateral_asset ← amount_resolved host collateral_asset;
      Ok (mkRawAction (RawWithdrawCollateral borrowable_asset collateral_asset) contract_addr)
  | AnsBorrow borrow_asset collateral_asset =>
      contract_addr ← borrow_address m d host (aa_name borrow_asset) collateral_asset;
      borrow_asset ← amount_resolved host borrow_asset;
      collateral_asset ← info_resolved host collateral_asset;
      Ok (mkRawAction (RawBorrow borrow_asset collateral_asset) contract_addr)
  | AnsRepay borrowed_asset collateral_asset =>
      contract_addr ← borrow_address m d host (aa_name borrowed_asset) collateral_asset;
      borrowed_asset ← amount_resolved host borrowed_asset;
      collateral_asset ← info_resolved host collateral_asset;
      Ok (mkRawAction (RawRepay borrowed_asset collateral_asset) contract_addr)
  end.

(** [MoneyMarketQueryResolveWrapper]: the platform by its whole name; [err]
    keeps the text of the error, which callers do not see. *)
Variable resolver : string → outcome MoneyMarketError MoneyMarketCommand.
Definition platform_for (money_market : string) : outcome AnsHostError MoneyMarketCommand :=
  map_err (λ _, AnsQueryFailed "resolve money market") (resolver money_market).
(** The contract and the two assets of a query of a user *)
Definition pair_resolved (address : ∀ m, mm_data m → Addr → AssetEntry → AssetEntry → outcome AnsHostError Addr)
    (host : Addr) (money_market : string) (borrowed_asset collateral_asset : AssetEntry) :
    outcome AnsHostError (InfoU * InfoU * string) :=
  platform ← platform_for money_market;
  contract_addr ← address platform (mm_default platform) host borrowed_asset collateral_asset;
  collateral_asset ← info_resolved host collateral_asset;
  borrowed_asset ← info_resolved host borrowed_asset;
  Ok (collateral_asset, borrowed_asset, contract_addr).
Definition resolve_mm_query (host : Addr) (q : MoneyMarketQueryMsg) : outcome AnsHostError MoneyMarketQueryMsg :=
  match q with
  | AnsUserDeposit user asset money_market =>
      platform ← platform_for money_market;
      contract_addr ← lending_address platform (mm_default platform) host asset;
      asset ← info_resolved host asset;
      Ok (RawUserDeposit user asset contract_addr money_market)
  | AnsUserCollateral user collateral_asset borrowed_asset money_market =>
      '(c, b, a) ← pair_resolved collateral_address host money_market borrowed_asset collateral_asset;
      Ok (RawUserCollateral user c b a money_market)
  | AnsUserBorrow user collateral_asset borrowed_asset money_market =>
      '(c, b, a) ← pair_resolved borrow_address host money_market borrowed_asset collateral_asset;
      Ok (RawUserBorrow user c b a money_market)
  | AnsCurrentLTV user collateral_asset borrowed_asset money_market =>
      '(c, b, a) ← pair_resolved current_ltv_address host money_market borrowed_asset collateral_asset;
      Ok (RawCurrentLTV user c b a money_market)
  | AnsMaxLTV user collateral_asset borrowed_asset money_market =>
      '(c, b, a) ← pair_resolved max_ltv_address host money_market borrowed_asset collateral_asset;
      Ok (RawMaxLTV user c b a money_market)
  | AnsPrice quote base money_market =>
      quote ← info_resolved host quote;
      base ← info_resolved host base;
      Ok (RawPrice quote base money_market)
  | _ => Ok q
  end.
End ans.
End standard.
