(* ===== verification/MoneyMarket.v ===== *)
(** * The money market adapter

    modules/contracts/adapters/money-market (adapter.rs, handlers/*.rs,
    platform_resolver.rs, state.rs, contract.rs, api.rs): lending and borrowing
    of an account on a money market of its chain, with a fee on withdrawals. *)

From S2P Require Import Prelude Cosmos Strings Objects Names AccountIds Fees ModuleFactory Ownership AnsObjects Ans AnsClient Registry Clients Account Ibc IbcClient Sdk SdkApis Adapter App SdkModules DexStandard MoneyMarketStandard.
From Stdlib Require Import Ascii String.
#[local] Open Scope string_scope.
#[local] Open Scope list_scope.
#[local] Open Scope Z_scope.

Definition MM_VERSION : string := "0.26.1".
Definition GHOST : string := "ghost".
Definition MARS : string := "mars".
Definition DEPOSIT : Z := 8142.
Definition WITHDRAW : Z := 8143.
Definition PROVIDE_COLLATERAL : Z := 8144.
Definition WITHDRAW_COLLATERAL : Z := 8145.
Definition BORROW : Z := 8146.
Definition REPAY : Z := 8147.

Section market.
Context `{Semver, Api, Instantiate2, CwOwnable, CoinsOps, Sha256, CwAsset, !CwAssetMsgs, !CwAssetKinds, !CwAssetTexts}.
Context `{!DecimalOps, !Querier, !Registries, !Accounts, !AnsHosts, !ComparatorParse}.

(** The integrations with money markets (src/integrations), and the features the
    adapter is built with *)
Class MoneyMarkets := { market_of : string → MoneyMarketCommand; market_feature : string → bool }.
Context `{!MoneyMarkets}.

(** ** Platforms (platform_resolver.rs) *)

Definition identify_money_market (value : string) : outcome MoneyMarketError Identify :=
  if decide (value = GHOST) then Ok (mm_identify (market_of value)) else Err (UnknownMoneyMarket value).
Definition resolve_money_market (value : string) : outcome MoneyMarketError MoneyMarketCommand :=
  if decide (value ∈ [GHOST; MARS]) then
    if market_feature value then Ok (market_of value) else Err (ForeignMoneyMarket value)
  else Err (ForeignMoneyMarket value).
Definition mm_is_over_ibc (env : Env) (platform_name : string) : outcome MoneyMarketError (string * bool) :=
  let '(chain_name, local_platform_name) := decompose_platform_name platform_name in
  let elsewhere := match chain_name with Some c => negb (is_current_chain env c) | None => false end in
  if elsewhere then Ok (local_platform_name, true) else
  platform_id ← identify_money_market local_platform_name;
  guard_or (is_available_on platform_id env chain_name) (UnknownMoneyMarket platform_name) ≫= λ _,
  Ok (local_platform_name, false).

(** [MONEY_MARKET_FEES] *)
Abbreviation MmStorage := (option UsageFee).
Abbreviation MmState := (Adapter.State MmStorage).
Abbreviation MmM := (M MmState MoneyMarketError).
Abbreviation MmResponse := (Response ModuleMsg).
Definition mm_load_fees (fees : MmStorage) : outcome MoneyMarketError UsageFee :=
  ok_or fees (MmStd (StdNotFound "money_market_fees")).

(** ** Actions (adapter.rs) *)

Section actions.
Variables (base : Features) (fees : MmStorage) (sender : Addr).

(** What the six actions begin with: the contract, the asset, and the data the
    platform fetches *)
Definition prepared (asset : AssetUnchecked) (contract_addr : string) (m : MoneyMarketCommand) :
    outcome MoneyMarketError (Addr * Asset * mm_data m) :=
  contract_addr ← map_err MmStd (addr_validate_r contract_addr);
  asset ← ok_or (asset_check asset) MmAsset;
  host ← map_err MmSdk (f_ans_host base);
  data ← mm_fetch_data m sender host (mm_default m);
  Ok (contract_addr, asset, data).
Definition resolve_deposit (lending_asset : AssetUnchecked) (contract_addr : string) (m : MoneyMarketCommand) :
    outcome MoneyMarketError (list CosmosMsg) :=
  '(contract_addr, asset, data) ← prepared lending_asset contract_addr m;
  mm_deposit m data contract_addr asset.
Definition resolve_withdraw (lending_asset : AssetUnchecked) (contract_addr : string) (m : MoneyMarketCommand) :
    outcome MoneyMarketError (list CosmosMsg) :=
  '(contract_addr, asset, data) ← prepared lending_asset contract_addr m;
  withdraw_msgs ← mm_withdraw m data contract_addr asset;
  dex_fees ← mm_load_fees fees;
  '(fee_msg, _) ← map_err MmSdk (charge_usage_fee asset dex_fees);
  Ok (withdraw_msgs ++ option_list fee_msg).
Definition resolve_provide_collateral (borrowed_asset : asset_info_unchecked) (collateral_asset : AssetUnchecked)
    (contract_addr : string) (m : MoneyMarketCommand) : outcome MoneyMarketError (list CosmosMsg) :=
  '(contract_addr, asset, data) ← prepared collateral_asset contract_addr m;
  mm_provide_collateral m data contract_addr asset.
Definition resolve_withdraw_collateral (borrowed_asset : asset_info_unchecked) (collateral_asset : AssetUnchecked)
    (contract_addr : string) (m : MoneyMarketCommand) : outcome MoneyMarketError (list CosmosMsg) :=
  '(contract_addr, asset, data) ← prepared collateral_asset contract_addr m;
  mm_withdraw_collateral m data contract_addr asset.
Definition resolve_borrow (borrowed_asset : AssetUnchecked) (collateral_asset : asset_info_unchecked)
    (contract_addr : string) (m : MoneyMarketCommand) : outcome MoneyMarketError (list CosmosMsg) :=
  '(contract_addr, asset, data) ← prepared borrowed_asset contract_addr m;
  mm_borrow m data contract_addr asset.
Definition resolve_repay (borrowed_asset : AssetUnchecked) (collateral_asset : asset_info_unchecked)
    (contract_addr : string) (m : MoneyMarketCommand) : outcome MoneyMarketError (list CosmosMsg) :=
  '(contract_addr, asset, data) ← prepared borrowed_asset contract_addr m;
  mm_repay m data contract_addr asset.
(** The messages, and the reply id no caller uses *)
Definition resolve_money_market_action (action : MoneyMarketRawAction) (m : MoneyMarketCommand) :
    outcome MoneyMarketError (list CosmosMsg * Z) :=
  let addr := raw_contract_addr action in
  match raw_request action with
  | RawDeposit lending_asset => msgs ← resolve_deposit lending_asset addr m; Ok (msgs, DEPOSIT)
  | RawWithdraw lent_asset => msgs ← resolve_withdraw lent_asset addr m; Ok (msgs, WITHDRAW)
  | RawProvideCollateral borrowable_asset collateral_asset =>
      msgs ← resolve_provide_collateral borrowable_asset collateral_asset addr m; Ok (msgs, PROVIDE_COLLATERAL)
  | RawWithdrawCollateral borrowable_asset collateral_asset =>
      msgs ← resolve_withdraw_collateral borrowable_asset collateral_asset addr m; Ok (msgs, WITHDRAW_COLLATERAL)
  | RawBorrow borrow_asset collateral_asset =>
      msgs ← resolve_borrow borrow_asset collateral_asset addr m; Ok (msgs, BORROW)
  | RawRepay borrowed_asset collateral_asset =>
      msgs ← resolve_repay borrowed_asset collateral_asset addr m; Ok (msgs, REPAY)
  end.
End actions.

(** ** Requests (handlers/execute.rs, instantiate.rs) *)

Definition MoneyMarketAdapter : Type := AbstractContract (option Addr) MmState MoneyMarketError ModuleMsg
  MoneyMarketInit MoneyMarketExecuteMsg MoneyMarketQueryMsg unit unit.
(** The features of the adapter: it has no dependencies. *)
Definition mm_features (target_account : option Addr) (s : MmState) : Features :=
  mkFeatures MONEY_MARKET_ADAPTER_ID [] (Adapter.account target_account) (Adapter.abstract_registry s) (Adapter.ans_host s).

Definition mm_handle_local_request (base : Features) (fees : MmStorage) (money_market : string)
    (action : MoneyMarketRawAction) : outcome MoneyMarketError MmResponse :=
  money_market ← resolve_money_market money_market;
  target_account ← map_err MmSdk (f_account base);
  '(msgs, _) ← resolve_money_market_action base fees target_account action money_market;
  account_msg ← map_err MmSdk (executor_execute (f_account base) ((λ m, [m]) <$> msgs));
  Ok (mkResponse "" [send account_msg]).
(** An action of the name service, with what it resolves to *)
Definition mm_ans_query (base : Features) {A} (f : Addr → outcome AnsHostError A) : outcome MoneyMarketError A :=
  ans ← name_service (f_ans_host base);
  map_err MmSdk (map_err (SdkApiAnsQuery "AbstractNameServiceClient") (f ans)).
(** [RawAction], [AnsAction]: over IBC they are not implemented *)
Definition raw_action (base : Features) (fees : MmStorage) (env : Env) (money_market_name : string)
    (action : MoneyMarketRawAction) : outcome MoneyMarketError MmResponse :=
  '(local_name, over_ibc) ← mm_is_over_ibc env money_market_name;
  if over_ibc : bool then Panic else mm_handle_local_request base fees local_name action.
Definition ans_action (base : Features) (fees : MmStorage) (env : Env) (money_market_name : string)
    (action : MoneyMarketAnsAction) : outcome MoneyMarketError MmResponse :=
  '(local_name, over_ibc) ← mm_is_over_ibc env money_market_name;
  m ← resolve_money_market local_name;
  raw ← mm_ans_query base (λ host, resolve_mm_action m host action);
  if over_ibc : bool then Panic else mm_handle_local_request base fees local_name raw.
(** The optional parts of an update of the fee *)
Definition mm_update_share (swap_fee : option Z) (fee : UsageFee) : outcome MoneyMarketError UsageFee :=
  match swap_fee with
  | Some swap_fee => map_err MmAbstract (set_share fee swap_fee)
  | None => Ok fee
  end.
Definition mm_update_recipient (base : Features) (recipient_account : option Z) (fee : UsageFee) :
    outcome MoneyMarketError UsageFee :=
  match recipient_account with
  | Some account_id =>
      id ← map_err MmAbstract (account_id_new account_id Local);
      recipient ← map_err MmSdk (ar_account base id);
      Ok (set_recipient fee recipient)
  | None => Ok fee
  end.
Definition mm_update_fee (target_account : option Addr) (money_market_fee recipient_account : option Z) : MmM MmResponse :=
  s ← gets id;
  let base := mm_features target_account s in
  abstract ← lift (map_err MmAbstract (namespace_new ABSTRACT_NAMESPACE));
  namespace ← lift (map_err MmSdk (mr_query_namespace base abstract));
  owner ← lift (match namespace with Claimed _ account => Ok account | Unclaimed => Panic end);
  target ← lift (unwrap target_account);
  ensure (bool_decide (owner = target)) MmUnauthorized ≫= λ _,
  fee ← lift (mm_load_fees (Adapter.custom s));
  fee ← lift (mm_update_share money_market_fee fee);
  fee ← lift (mm_update_recipient base recipient_account fee);
  modify (Adapter.set_custom (Some fee)) ≫= λ _,
  mret (mkResponse "" []).
Definition mm_execute_handler (env : Env) (info : MessageInfo) (target_account : option Addr)
    (msg : MoneyMarketExecuteMsg) : MmM MmResponse :=
  match msg with
  | MmAnsAction money_market action =>
      s ← gets id; lift (ans_action (mm_features target_account s) (Adapter.custom s) env money_market action)
  | MmRawAction money_market action =>
      s ← gets id; lift (raw_action (mm_features target_account s) (Adapter.custom s) env money_market action)
  | MmUpdateFee money_market_fee recipient_account => mm_update_fee target_account money_market_fee recipient_account
  end.
Definition mm_instantiate_handler (env : Env) (info : MessageInfo) (target_account : option Addr)
    (msg : MoneyMarketInit) : MmM MmResponse :=
  s ← gets id;
  let base := mm_features target_account s in
  id ← lift (map_err MmAbstract (account_id_new (mm_init_recipient_account msg) Local));
  recipient ← lift (map_err MmSdk (ar_account base id));
  money_market_fees ← lift (map_err MmAbstract (usage_fee_new (mm_init_fee msg) recipient));
  modify (Adapter.set_custom (Some money_market_fees)) ≫= λ _,
  mret (mkResponse "" []).

(** ** Queries (handlers/query.rs) *)

(** The JSON of the responses *)
Class MoneyMarketJson := { mm_to_json : MoneyMarketResponse → string }.
Context `{!MoneyMarketJson}.

(** [GenerateMessages]: an action of the name service by its whole name first *)
Definition mm_generate_messages (base : Features) (fees : MmStorage) (env : Env) (message : MoneyMarketExecuteMsg)
    (addr_as_sender : string) : outcome MoneyMarketError MoneyMarketResponse :=
  message ← match message with
    | MmAnsAction money_market action =>
        m ← resolve_money_market money_market;
        raw ← mm_ans_query base (λ host, resolve_mm_action m host action);
        Ok (MmRawAction money_market raw)
    | _ => Ok message
    end;
  match message with
  | MmRawAction money_market action =>
      '(local_name, over_ibc) ← mm_is_over_ibc env money_market;
      if over_ibc : bool then Err MmIbcMsgQuery else
      m ← resolve_money_market local_name;
      sender ← map_err MmStd (addr_validate_r addr_as_sender);
      '(messages, _) ← resolve_money_market_action base fees sender action m;
      Ok (GenerateMessagesResponse messages)
  | _ => Err MmInvalidGenerateMessage
  end.
(** What the queries of a user begin with *)
Definition check_info (i : asset_info_unchecked) : outcome MoneyMarketError asset_info := ok_or (asset_info_check i) MmAsset.
Definition user_query (m : MoneyMarketCommand) (ans_host : Addr) (user contract_addr : string)
    (collateral_asset borrowed_asset : asset_info_unchecked)
    (ask : mm_data m → Addr → Addr → asset_info → asset_info → outcome MoneyMarketError Z) : outcome MoneyMarketError Z :=
  user ← map_err MmStd (addr_validate_r user);
  contract_addr ← map_err MmStd (addr_validate_r contract_addr);
  collateral_asset ← check_info collateral_asset;
  borrowed_asset ← check_info borrowed_asset;
  data ← mm_fetch_data m user ans_host (mm_default m);
  ask data contract_addr user borrowed_asset collateral_asset.
Definition handle_local_query (base : Features) (env : Env) (money_market : string) (query : MoneyMarketQueryMsg) :
    outcome MoneyMarketError MoneyMarketResponse :=
  m ← resolve_money_market money_market;
  ans_host ← map_err MmSdk (f_ans_host base);
  match query with
  | RawUserDeposit user asset contract_addr _ =>
      user ← map_err MmStd (addr_validate_r user);
      contract_addr ← map_err MmStd (addr_validate_r contract_addr);
      asset ← check_info asset;
      data ← mm_fetch_data m user ans_host (mm_default m);
      amount ← mm_user_deposit m data contract_addr user asset;
      Ok (UserDepositResponse amount)
  | RawUserCollateral user collateral_asset borrowed_asset contract_addr _ =>
      amount ← user_query m ans_host user contract_addr collateral_asset borrowed_asset (mm_user_collateral m);
      Ok (UserCollateralResponse amount)
  | RawUserBorrow user collateral_asset borrowed_asset contract_addr _ =>
      amount ← user_query m ans_host user contract_addr collateral_asset borrowed_asset (mm_user_borrow m);
      Ok (UserBorrowResponse amount)
  | RawCurrentLTV user collateral_asset borrowed_asset contract_addr _ =>
      current_ltv ← user_query m ans_host user contract_addr collateral_asset borrowed_asset (mm_current_ltv m);
      Ok (UserCurrentLTVResponse current_ltv)
  | RawMaxLTV user collateral_asset borrowed_asset contract_addr _ =>
      max_ltv ← user_query m ans_host user contract_addr collateral_asset borrowed_asset (mm_max_ltv m);
      Ok (UserMaxLTVResponse max_ltv)
  | RawPrice quote base_asset _ =>
      quote ← check_info quote;
      base_asset ← check_info base_asset;
      data ← mm_fetch_data m (contract_address env) ans_host (mm_default m);
      price ← mm_price m data base_asset quote;
      Ok (PriceResponse price)
  | _ => Err (MmStd (StdMsg "Can't treat non-local ans query, unreachable"))
  end.
Definition mm_answer (base : Features) (fees : MmStorage) (env : Env) (msg : MoneyMarketQueryMsg) :
    outcome MoneyMarketError MoneyMarketResponse :=
  msg ← mm_ans_query base (λ host, resolve_mm_query resolve_money_market host msg);
  match msg with
  | MmGenerateMessages message addr_as_sender => mm_generate_messages base fees env message addr_as_sender
  | MmFees => fees ← mm_load_fees fees; Ok (MoneyMarketFeesResponse fees)
  | _ =>
      money_market ← map_err MmStd (query_money_market msg);
      '(local_name, over_ibc) ← mm_is_over_ibc env money_market;
      if over_ibc : bool then Panic else handle_local_query base env local_name msg
  end.
Definition mm_query_handler (env : Env) (target_account : option Addr) (msg : MoneyMarketQueryMsg) (s : MmState) :
    outcome MoneyMarketError string :=
  r ← mm_answer (mm_features target_account s) (Adapter.custom s) env msg; Ok (mm_to_json r).

(** ** The contract (contract.rs) *)

Definition MONEY_MARKET_ADAPTER : MoneyMarketAdapter :=
  mkContract (MONEY_MARKET_ADAPTER_ID, MM_VERSION, None) [] (Some mm_instantiate_handler) (Some mm_execute_handler)
    (Some mm_query_handler) None None ([], []) None None.
End market.

(** ** What a module asks of the adapter (api.rs) *)

Section api.
Context `{Semver, Api, Instantiate2, CwOwnable, CoinsOps, Sha256, CwAsset, !CwAssetMsgs, !CwAssetTexts}.
Context `{!Querier, !Registries, !Accounts}.
Context `{!ToJson (Adapter.ExecuteMsg MoneyMarketExecuteMsg), !ToJson MoneyMarketQueryMsg}.

(** [MoneyMarket] and [AnsMoneyMarket]: the module, the name of the market, the
    id of the adapter; [ans] and [raw] change between the two. *)
Record MoneyMarketApi := mkMoneyMarketApi { mma_base : Features; mma_name : string; mma_module_id : string }.
Definition money_market (base : Features) (name : string) : MoneyMarketApi :=
  mkMoneyMarketApi base name MONEY_MARKET_ADAPTER_ID.
Definition mm_with_module_id (m : MoneyMarketApi) (module_id : string) : MoneyMarketApi :=
  mkMoneyMarketApi (mma_base m) (mma_name m) module_id.

(** *** Actions on assets *)
Definition mma_raw_execute (m : MoneyMarketApi) (action : MoneyMarketRawAction) : outcome SdkError CosmosMsg :=
  adapters_execute (mma_base m) (mma_module_id m) (MmRawAction (mma_name m) action).
Definition mma_deposit (m : MoneyMarketApi) (contract_addr : Addr) (lending_asset : Asset) : outcome SdkError CosmosMsg :=
  mma_raw_execute m (mkRawAction (RawDeposit (asset_unchecked lending_asset)) contract_addr).
Definition mma_withdraw (m : MoneyMarketApi) (contract_addr : Addr) (lent_asset : Asset) : outcome SdkError CosmosMsg :=
  mma_raw_execute m (mkRawAction (RawWithdraw (asset_unchecked lent_asset)) contract_addr).
Definition mma_provide_collateral (m : MoneyMarketApi) (contract_addr : Addr) (collateral_asset : Asset)
    (borrowable_asset : asset_info) : outcome SdkError CosmosMsg :=
  mma_raw_execute m (mkRawAction
    (RawProvideCollateral (asset_info_uncheck borrowable_asset) (asset_unchecked collateral_asset)) contract_addr).
Definition mma_withdraw_collateral (m : MoneyMarketApi) (contract_addr : Addr) (collateral_asset : Asset)
    (borrowable_asset : asset_info) : outcome SdkError CosmosMsg :=
  mma_raw_execute m (mkRawAction
    (RawWithdrawCollateral (asset_info_uncheck borrowable_asset) (asset_unchecked collateral_asset)) contract_addr).
Definition mma_borrow (m : MoneyMarketApi) (contract_addr : Addr) (collateral_asset : asset_info)
    (borrow_asset : Asset) : outcome SdkError CosmosMsg :=
  mma_raw_execute m (mkRawAction
    (RawBorrow (asset_unchecked borrow_asset) (asset_info_uncheck collateral_asset)) contract_addr).
Definition mma_repay (m : MoneyMarketApi) (contract_addr : Addr) (collateral_asset : asset_info)
    (borrowed_asset : Asset) : outcome SdkError CosmosMsg :=
  mma_raw_execute m (mkRawAction
    (RawRepay (asset_unchecked borrowed_asset) (asset_info_uncheck collateral_asset)) contract_addr).

(** *** Actions on named assets *)
Definition mma_ans_execute (m : MoneyMarketApi) (action : MoneyMarketAnsAction) : outcome SdkError CosmosMsg :=
  adapters_execute (mma_base m) (mma_module_id m) (MmAnsAction (mma_name m) action).
Definition mma_ans_deposit (m : MoneyMarketApi) (lending_asset : AnsAsset) : outcome SdkError CosmosMsg :=
  mma_ans_execute m (AnsDeposit lending_asset).
Definition mma_ans_withdraw (m : MoneyMarketApi) (lent_asset : AnsAsset) : outcome SdkError CosmosMsg :=
  mma_ans_execute m (AnsWithdraw lent_asset).
Definition mma_ans_provide_collateral (m : MoneyMarketApi) (collateral_asset : AnsAsset)
    (borrowable_asset : AssetEntry) : outcome SdkError CosmosMsg :=
  mma_ans_execute m (AnsProvideCollateral borrowable_asset collateral_asset).
Definition mma_ans_withdraw_collateral (m : MoneyMarketApi) (collateral_asset : AnsAsset)
    (borrowable_asset : AssetEntry) : outcome SdkError CosmosMsg :=
  mma_ans_execute m (AnsWithdrawCollateral borrowable_asset collateral_asset).
Definition mma_ans_borrow (m : MoneyMarketApi) (collateral_asset : AssetEntry) (borrow_asset : AnsAsset) :
    outcome SdkError CosmosMsg :=
  mma_ans_execute m (AnsBorrow borrow_asset collateral_asset).
Definition mma_ans_repay (m : MoneyMarketApi) (collateral_asset : AssetEntry) (borrowed_asset : AnsAsset) :
    outcome SdkError CosmosMsg :=
  mma_ans_execute m (AnsRepay borrowed_asset collateral_asset).

(** *** Queries: to the adapter under its own id, whatever id was set.  The
    answers are read as numbers, [Uint128] or [Decimal]. *)
Definition mma_query {R} `{!FromJson R} (m : MoneyMarketApi) (query_msg : MoneyMarketQueryMsg) : outcome SdkError R :=
  adapters_query (mma_base m) MONEY_MARKET_ADAPTER_ID query_msg.
Context `{!FromJson Z}.
Definition mma_user_deposit (m : MoneyMarketApi) (user : string) (asset : asset_info) (contract_addr : string) :
    outcome SdkError Z :=
  mma_query m (RawUserDeposit user (asset_info_uncheck asset) contract_addr (mma_name m)).
Definition mma_user_collateral (m : MoneyMarketApi) (user : string) (collateral_asset borrowed_asset : asset_info)
    (contract_addr : string) : outcome SdkError Z :=
  mma_query m (RawUserCollateral user (asset_info_uncheck collateral_asset) (asset_info_uncheck borrowed_asset)
    contract_addr (mma_name m)).
Definition mma_user_borrow (m : MoneyMarketApi) (user : string) (collateral_asset borrowed_asset : asset_info)
    (contract_addr : string) : outcome SdkError Z :=
  mma_query m (RawUserBorrow user (asset_info_uncheck collateral_asset) (asset_info_uncheck borrowed_asset)
    contract_addr (mma_name m)).
Definition mma_current_ltv (m : MoneyMarketApi) (user : string) (collateral_asset borrowed_asset : asset_info)
    (contract_addr : string) : outcome SdkError Z :=
  mma_query m (RawCurrentLTV user (asset_info_uncheck collateral_asset) (asset_info_uncheck borrowed_asset)
    contract_addr (mma_name m)).
Definition mma_max_ltv (m : MoneyMarketApi) (user : string) (collateral_asset borrowed_asset : asset_info)
    (contract_addr : string) : outcome SdkError Z :=
  mma_query m (RawMaxLTV user (asset_info_uncheck collateral_asset) (asset_info_uncheck borrowed_asset)
    contract_addr (mma_name m)).
Definition mma_price (m : MoneyMarketApi) (quote base_asset : asset_info) : outcome SdkError Z :=
  mma_query m (RawPrice (asset_info_uncheck quote) (asset_info_uncheck base_asset) (mma_name m)).
Definition mma_ans_user_deposit (m : MoneyMarketApi) (user : string) (asset : AssetEntry) : outcome SdkError Z :=
  mma_query m (AnsUserDeposit user asset (mma_name m)).
Definition mma_ans_user_collateral (m : MoneyMarketApi) (user : string) (collateral_asset borrowed_asset : AssetEntry) :
    outcome SdkError Z :=
  mma_query m (AnsUserCollateral user collateral_asset borrowed_asset (mma_name m)).
Definition mma_ans_user_borrow (m : MoneyMarketApi) (user : string) (collateral_asset borrowed_asset : AssetEntry) :
    outcome SdkError Z :=
  mma_query m (AnsUserBorrow user collateral_asset borrowed_asset (mma_name m)).
Definition mma_ans_current_ltv (m : MoneyMarketApi) (user : string) (collateral_asset borrowed_asset : AssetEntry) :
    outcome SdkError Z :=
  mma_query m (AnsCurrentLTV user collateral_asset borrowed_asset (mma_name m)).
Definition mma_ans_max_ltv (m : MoneyMarketApi) (user : string) (collateral_asset borrowed_asset : AssetEntry) :
    outcome SdkError Z :=
  mma_query m (AnsMaxLTV user collateral_asset borrowed_asset (mma_name m)).
Definition mma_ans_price (m : MoneyMarketApi) (quote base_asset : AssetEntry) : outcome SdkError Z :=
  mma_query m (AnsPrice quote base_asset (mma_name m)).
End api.
