(* ===== verification/DexIntegrations.v ===== *)
(** * Integrations with exchanges

    integrations/kujira-adapter, wyndex-adapter, neutron-dex-adapter and
    osmosis-adapter (dex.rs, lib.rs): what the dex adapter sends to the exchanges
    of four chains.  The messages and queries of the exchanges, their JSON or
    protobuf form and their answers, are code outside the repository. *)

From S2P Require Import Prelude Cosmos Strings Objects Names AccountIds Fees ModuleFactory Ownership AnsObjects Ans AnsClient Registry Clients Account Ibc IbcClient Sdk SdkApis Adapter App SdkModules DexStandard Dex.
From Stdlib Require Import Ascii String.
#[local] Open Scope string_scope.
#[local] Open Scope list_scope.
#[local] Open Scope Z_scope.

(** The chains a platform is on; the constants of abstract-std/src/constants.rs,
    without the feature [local] *)
Definition JUNO_CHAINS : list string := ["juno"; "uni"].
Definition KUJIRA_CHAINS : list string := ["kaiyo"; "harpoon"].
Definition NEUTRON_CHAINS : list string := ["neutron"; "pion"].
Definition OSMOSIS_CHAINS : list string := ["osmosis"; "osmo-test"].
Definition platform (name : string) (chains : list string) : Identify :=
  mkIdentify name (λ chain, bool_decide (chain ∈ chains)).

Section integrations.
Context `{Semver, Api, CwOwnable, CwAsset, !CwAssetMsgs, !CwAssetKinds, !Accounts}.
Abbreviation Sim := (outcome DexError (Z * Z * Z * bool)).
Abbreviation Msgs := (outcome DexError (list CosmosMsg)).

(** [asset.try_into()] of a coin *)
Definition try_coin (a : Asset) : outcome DexError Coin := ok_or (asset_to_coin a) DexAsset.
Definition unsupported (i : asset_info) : DexError := UnsupportedAssetType (show_asset_info i).

(** Liquidity of one side: half of the asset that is there is swapped for the
    other one, and the answer of a simulation stands for what comes back. *)
Definition one_sided (simulate : Asset → asset_info → Sim) (swap : Asset → asset_info → Msgs)
    (offer_assets : list Asset) : outcome DexError (list CosmosMsg * list Asset) :=
  if existsb (λ a, bool_decide (as_amount a = 0)) offer_assets then
    '(index, non_zero) ← ok_or (list_find (λ a, as_amount a ≠ 0) offer_assets) TooFewAssets;
    ask_asset ← unwrap (as_info <$> offer_assets !! ((index + 1) mod 2)%nat);
    let offer_asset := mkAsset (as_info non_zero) (as_amount non_zero / 2) in
    '(simulated_received, _, _, _) ← simulate offer_asset ask_asset;
    swap_msg ← swap offer_asset ask_asset;
    Ok (swap_msg, [offer_asset; mkAsset ask_asset simulated_received])
  else Ok ([], offer_assets).

(** ** Fin, on Kujira (kujira-adapter/src/dex.rs) *)

Class KujiraApi := {
  fin_swap_json : Coin → option Z → option Z → string;
  bow_deposit_json : option Z → string;
  bow_withdraw_json : string;
  (** [fin::QueryMsg::Simulation] of a native asset, and its answer: returned,
      spread and commission *)
  fin_simulation_json : string → Z → string;
  fin_simulation_of : string → option (Z * Z * Z)
}.
Section fin.
Context `{!KujiraApi}.
Definition fin_pair (pool_id : PoolAddress) : outcome DexError Addr :=
  match pool_id with SeparateAddresses swap _ => Ok swap | PoolContract swap => Ok swap | PoolNumber _ => Panic end.
Definition bow_pair (pool_id : PoolAddress) : outcome DexError Addr :=
  match pool_id with SeparateAddresses _ liq => Ok liq | PoolContract liq => Ok liq | PoolNumber _ => Panic end.
Definition fin_swap (pool_id : PoolAddress) (offer_asset : Asset) (ask_asset : asset_info)
    (belief_price max_spread : option Z) : Msgs :=
  fin_pair_address ← fin_pair pool_id;
  match asset_kind (as_info offer_asset) with
  | IsNative _ =>
      c ← try_coin offer_asset;
      Ok [WasmExecute fin_pair_address (Raw (fin_swap_json c belief_price max_spread)) [c]]
  | _ => Panic
  end.
(** [cw_asset_to_kujira] in the query *)
Definition fin_simulate_swap (pool_id : PoolAddress) (offer_asset : Asset) (ask_asset : asset_info) : Sim :=
  fin_pair_address ← fin_pair pool_id;
  query ← match asset_kind (as_info offer_asset) with
    | IsNative denom => Ok (fin_simulation_json denom (as_amount offer_asset))
    | _ => Err (unsupported (as_info offer_asset))
    end;
  '(return_amount, spread_amount, commission_amount) ←
    map_err DexStd (answer ← query_r (smart_query_of fin_pair_address query); query_r (fin_simulation_of answer));
  if bool_decide (in_u 128 return_amount ∧ in_u 128 spread_amount ∧ in_u 128 commission_amount)
  then Ok (return_amount, spread_amount, commission_amount, false) else Panic.
Definition fin_provide_liquidity (pool_id : PoolAddress) (offer_assets : list Asset) (max_spread : option Z) : Msgs :=
  bow_pair_address ← bow_pair pool_id;
  if decide (2 < List.length offer_assets)%nat then Err (TooManyAssets 2) else
  '(msgs, offer_assets) ← one_sided (fin_simulate_swap pool_id)
    (λ offer ask, fin_swap pool_id offer ask None max_spread) offer_assets;
  Ok (msgs ++ [WasmExecute bow_pair_address (Raw (bow_deposit_json max_spread)) (coins_in_assets offer_assets)]).
Definition fin_withdraw_liquidity (pool_id : PoolAddress) (lp_token : Asset) : Msgs :=
  bow_pair_address ← bow_pair pool_id;
  c ← try_coin lp_token;
  Ok [WasmExecute bow_pair_address (Raw bow_withdraw_json) [c]].
Definition Fin : DexCommand :=
  mkDexCommand (platform FIN KUJIRA_CHAINS) unit tt default_fetch_data
    (λ _, fin_swap) default_swap_route (λ _, fin_provide_liquidity) (λ _, fin_withdraw_liquidity)
    (λ _, fin_simulate_swap).
End fin.

(** ** Wyndex, on Juno (wyndex-adapter/src/dex.rs) *)

(** An asset of wyndex: native or a token, with its amount *)
Inductive WyndexAsset : Type := WyndexNative (denom : string) (amount : Z) | WyndexToken (token : Addr) (amount : Z).
Class WyndexApi := {
  wyndex_swap_json : WyndexAsset → option Z → option Z → string;
  wyndex_hook_swap_json : option Z → option Z → string;
  wyndex_hook_withdraw_json : string;
  wyndex_provide_json : list WyndexAsset → option Z → string;
  wyndex_simulation_json : WyndexAsset → string;
  wyndex_simulation_of : string → option (Z * Z * Z)
}.
(** [AssetBase::send_msg]: a token is sent to a contract with a message *)
Class CwAssetSend := { asset_send_msg : Asset → Addr → string → option CosmosMsg }.
Section wyndex.
Context `{!WyndexApi, !CwAssetSend, !Cw20Json}.
Definition cw_asset_to_wyndex (a : Asset) : outcome DexError WyndexAsset :=
  match asset_kind (as_info a) with
  | IsNative denom => Ok (WyndexNative denom (as_amount a))
  | IsCw20 contract_addr => Ok (WyndexToken contract_addr (as_amount a))
  | IsOther => Err (unsupported (as_info a))
  end.
Definition wyndex_pair (pool_id : PoolAddress) : outcome DexError Addr := map_err DexAbstract (expect_contract pool_id).
Definition wyndex_swap (pool_id : PoolAddress) (offer_asset : Asset) (ask_asset : asset_info)
    (belief_price max_spread : option Z) : Msgs :=
  pair_address ← wyndex_pair pool_id;
  match asset_kind (as_info offer_asset) with
  | IsNative _ =>
      w ← cw_asset_to_wyndex offer_asset; c ← try_coin offer_asset;
      Ok [WasmExecute pair_address (Raw (wyndex_swap_json w belief_price max_spread)) [c]]
  | IsCw20 addr =>
      Ok [WasmExecute addr (Raw (cw20_send_json pair_address (as_amount offer_asset)
        (wyndex_hook_swap_json belief_price max_spread))) []]
  | IsOther => Err (unsupported (as_info offer_asset))
  end.
Definition wyndex_simulate_swap (pool_id : PoolAddress) (offer_asset : Asset) (ask_asset : asset_info) : Sim :=
  pair_address ← wyndex_pair pool_id;
  w ← cw_asset_to_wyndex offer_asset;
  '(return_amount, spread_amount, commission_amount) ←
    map_err DexStd (answer ← query_r (smart_query_of pair_address (wyndex_simulation_json w));
      query_r (wyndex_simulation_of answer));
  Ok (return_amount, spread_amount, commission_amount, false).
Definition wyndex_provide_liquidity (pool_id : PoolAddress) (offer_assets : list Asset) (max_spread : option Z) : Msgs :=
  pair_address ← wyndex_pair pool_id;
  if decide (2 < List.length offer_assets)%nat then Err (TooManyAssets 2) else
  '(msgs, offer_assets) ← one_sided (wyndex_simulate_swap pool_id)
    (λ offer ask, wyndex_swap pool_id offer ask None max_spread) offer_assets;
  wyndex_assets ← omapM cw_asset_to_wyndex offer_assets;
  Ok (msgs ++ cw_approve_msgs offer_assets pair_address ++
    [WasmExecute pair_address (Raw (wyndex_provide_json wyndex_assets max_spread)) (coins_in_assets offer_assets)]).
Definition wyndex_withdraw_liquidity (pool_id : PoolAddress) (lp_token : Asset) : Msgs :=
  pair_address ← wyndex_pair pool_id;
  m ← ok_or (asset_send_msg lp_token pair_address wyndex_hook_withdraw_json) DexAsset;
  Ok [m].
Definition WynDex : DexCommand :=
  mkDexCommand (platform WYNDEX JUNO_CHAINS) unit tt default_fetch_data
    (λ _, wyndex_swap) default_swap_route (λ _, wyndex_provide_liquidity) (λ _, wyndex_withdraw_liquidity)
    (λ _, wyndex_simulate_swap).
End wyndex.

(** ** Neutron (neutron-dex-adapter/src/dex.rs) *)

Class NeutronApi := {
  (** [MsgMultiHopSwap]: creator and receiver, hops, amount and exit limit price *)
  multi_hop_swap : Addr → list string → Z → option Z → CosmosMsg;
  (** [AssetInfo::inner] *)
  asset_inner : asset_info → string
}.
Section neutron.
Context `{!NeutronApi}.
(** The sender the adapter set; without one the calls trap. *)
Definition set_sender (sender registry ans_host : Addr) (data : option Addr) : outcome DexError (option Addr) :=
  Ok (Some sender).
Definition neutron_swap (addr_as_sender : option Addr) (pool_id : PoolAddress) (offer_asset : Asset)
    (ask_asset : asset_info) (belief_price max_spread : option Z) : Msgs :=
  creator ← unwrap addr_as_sender;
  Ok [multi_hop_swap creator [asset_inner (as_info offer_asset); asset_inner ask_asset] (as_amount offer_asset)
    belief_price].
Definition neutron_swap_route (addr_as_sender : option Addr) (swap_route : list SwapNode) (offer_asset : Asset)
    (belief_price max_spread : option Z) : Msgs :=
  creator ← unwrap addr_as_sender;
  Ok [multi_hop_swap creator ([asset_inner (as_info offer_asset)] ++ (asset_inner ∘ node_ask_asset <$> swap_route))
    (as_amount offer_asset) None].
Definition Neutron : DexCommand :=
  mkDexCommand (platform NEUTRON NEUTRON_CHAINS) (option Addr) None set_sender neutron_swap neutron_swap_route
    (λ _ _ _ _, Panic) (λ _ _ _, Panic) (λ _ _ _ _, Panic).
End neutron.

(** ** Osmosis (osmosis-adapter/src/dex.rs) *)

(** A pool: the weight and the token of its assets, and its shares *)
Record OsmoPool := mkOsmoPool { pool_assets : list (string * option Coin); total_shares : option Z }.
Class OsmosisApi := {
  (** [MsgSwapExactAmountIn]: sender, route, what goes in, the least that comes out *)
  swap_exact_amount_in : Addr → list (Z * string) → Coin → Z → CosmosMsg;
  join_pool : Addr → Z → Z → list Coin → CosmosMsg;
  exit_pool : Addr → Z → Z → CosmosMsg;
  estimate_swap : Z → Coin → list (Z * string) → option Z;
  osmo_pool : Z → option OsmoPool
}.
(** [Decimal256::from_ratio] and its product; [None] is a trap. *)
Class Decimal256Ops := { ratio256 : Z → Z → option Z; mul256 : Z → Z → option Z }.
Section osmosis.
Context `{!OsmosisApi, !UintRatio, !Decimal256Ops}.
Definition native_denom (i : asset_info) : outcome DexError string :=
  match asset_kind i with IsNative denom => Ok denom | _ => Err (unsupported i) end.
Definition osmosis_swap (addr_as_sender : option Addr) (pool_id : PoolAddress) (offer_asset : Asset)
    (ask_asset : asset_info) (belief_price max_spread : option Z) : Msgs :=
  pair ← map_err DexAbstract (expect_id pool_id);
  token_out_denom ← native_denom ask_asset;
  token_in ← try_coin offer_asset;
  sender ← unwrap addr_as_sender;
  Ok [swap_exact_amount_in sender [(pair, token_out_denom)] token_in 1].
Definition osmosis_swap_route (addr_as_sender : option Addr) (swap_route : list SwapNode) (offer_asset : Asset)
    (belief_price max_spread : option Z) : Msgs :=
  routes ← omapM (λ node, pair ← map_err DexAbstract (expect_id (pool_id node));
    token_out_denom ← native_denom (node_ask_asset node); Ok (pair, token_out_denom)) swap_route;
  token_in ← try_coin offer_asset;
  sender ← unwrap addr_as_sender;
  Ok [swap_exact_amount_in sender routes token_in 1].
Definition osmosis_simulate_swap (pool_id : PoolAddress) (offer_asset : Asset) (ask_asset : asset_info) : Sim :=
  pool ← map_err DexAbstract (expect_id pool_id);
  token_out_denom ← native_denom ask_asset;
  token_in ← try_coin offer_asset;
  token_out_amount ← unwrap (estimate_swap pool token_in [(pool, token_out_denom)]);
  Ok (token_out_amount, 0, 0, false).
Definition query_pool_data (pool_id : Z) : outcome DexError OsmoPool := unwrap (osmo_pool pool_id).
(** The least of what the two deposits are worth in shares *)
Definition compute_osmo_share_out_amount (pools deposits : Z * Z) (total_share : Z) : outcome DexError Z :=
  a ← unwrap (uint_multiply_ratio 128 deposits.1 total_share pools.1);
  b ← unwrap (uint_multiply_ratio 128 deposits.2 total_share pools.2);
  Ok (Z.min a b).
(** One of the two prices fell by more than the tolerance; the second is only
    computed when the first did not. *)
Definition dropped (deposits pools : Z * Z) (one_minus_slippage_tolerance : Z) : outcome DexError bool :=
  r ← unwrap (ratio256 deposits.1 deposits.2);
  m ← unwrap (mul256 r one_minus_slippage_tolerance);
  p ← unwrap (ratio256 pools.1 pools.2);
  Ok (bool_decide (p < m)).
Definition assert_slippage_tolerance (slippage_tolerance : option Z) (deposits pools : Z * Z) : outcome DexError unit :=
  match slippage_tolerance with
  | None => Ok tt
  | Some t =>
      if decide (DECIMAL_ONE < t) then Err (DexStd (StdMsg "slippage_tolerance cannot bigger than 1")) else
      let rest := DECIMAL_ONE - t in
      first ← dropped deposits pools rest;
      second ← (if first : bool then Ok true else dropped (deposits.2, deposits.1) (pools.2, pools.1) rest);
      if second : bool then Err (MaxSlippageAssertion (pretty t) OSMOSIS) else Ok tt
  end.
Definition osmosis_provide_liquidity (addr_as_sender : option Addr) (pool_id : PoolAddress)
    (offer_assets : list Asset) (max_spread : option Z) : Msgs :=
  if decide (2 < List.length offer_assets)%nat then Err (TooManyAssets 2) else
  '(msgs, offer_assets) ← one_sided (osmosis_simulate_swap pool_id)
    (λ offer ask, osmosis_swap addr_as_sender pool_id offer ask None max_spread) offer_assets;
  pool_id ← map_err DexAbstract (expect_id pool_id);
  coins ← omapM (λ a, unwrap (asset_to_coin a)) offer_assets;
  let token_in_maxs := merge_sort (λ a b, String.le (denom a) (denom b)) coins in
  pool ← query_pool_data pool_id;
  first ← unwrap (pool_assets pool !! 0%nat);
  second ← unwrap (pool_assets pool !! 1%nat);
  if decide (first.1 ≠ second.1) then Err (BalancerNotSupported OSMOSIS) else
  tokens ← omapM (λ a, unwrap a.2) (pool_assets pool);
  token0 ← unwrap (tokens !! 0%nat);
  token1 ← unwrap (tokens !! 1%nat);
  deposit0 ← unwrap (snd <$> list_find (λ c, denom c = denom token0) token_in_maxs);
  deposit1 ← unwrap (snd <$> list_find (λ c, denom c = denom token1) token_in_maxs);
  let deposits := (amount deposit0, amount deposit1) in
  let pools := (amount token0, amount token1) in
  _ ← assert_slippage_tolerance max_spread deposits pools;
  total_share ← unwrap (total_shares pool);
  share_out_amount ← compute_osmo_share_out_amount pools deposits total_share;
  sender ← unwrap addr_as_sender;
  Ok (msgs ++ [join_pool sender pool_id share_out_amount token_in_maxs]).
Definition osmosis_withdraw_liquidity (addr_as_sender : option Addr) (pool_id : PoolAddress) (lp_token : Asset) : Msgs :=
  pool_id ← map_err DexAbstract (expect_id pool_id);
  sender ← unwrap addr_as_sender;
  Ok [exit_pool sender pool_id (as_amount lp_token)].
Definition Osmosis : DexCommand :=
  mkDexCommand (platform OSMOSIS OSMOSIS_CHAINS) (option Addr) None set_sender osmosis_swap osmosis_swap_route
    osmosis_provide_liquidity osmosis_withdraw_liquidity (λ _, osmosis_simulate_swap).
End osmosis.
End integrations.
