(* ===== verification/SdkBank.v ===== *)
(** * Balances, tokens and replies

    The rest of abstract-sdk/src/apis/bank.rs and execution.rs: the balances of the
    account, tokens sent from it to a contract with a message, and calls of the
    account with a reply or in a response. *)

From S2P Require Import Prelude Cosmos Strings Objects Names AccountIds Fees ModuleFactory Ownership AnsObjects Ans AnsClient Registry Clients Account Ibc IbcClient Sdk SdkApis Adapter App SdkModules DexStandard Dex DexIntegrations.
From Stdlib Require Import Ascii String.
#[local] Open Scope string_scope.
#[local] Open Scope list_scope.
#[local] Open Scope Z_scope.

(** [AssetInfo::query_balance] of cw-asset *)
Class CwBalances `{CwAsset} := { query_balance : asset_info → Addr → option Z }.

(** [ReplyOn] *)
Inductive ReplyOn : Type := ReplyAlways | ReplyError | ReplySuccess | ReplyNever.

Section bank.
Context `{Semver, Api, Instantiate2, CwOwnable, CwAsset, !AnsHosts, !CwBalances, !CwAssetSend, !CwAssetMsgs}.
Variable base : Features.
(** A submessage with an id *)
Record SubMsgWithReply := mkSubMsgWithReply { sm_id : Z; sm_msg : ModuleMsg; sm_reply_on : ReplyOn }.

(** [Bank::balance], [balances] *)
Definition bank_balance (asset : AssetEntry) : outcome SdkError Asset :=
  ans_host ← f_ans_host base;
  resolved_info ← map_err (SdkApiAnsQuery "Bank") (query_asset ans_host asset);
  account ← f_account base;
  balance ← ok_or (query_balance resolved_info account) SdkAsset;
  Ok (mkAsset resolved_info balance).
Definition bank_balances (assets : list AssetEntry) : outcome SdkError (list Asset) := omapM bank_balance assets.
(** [Transferable] of assets and coins, [Bank::send] *)
Definition transferable_asset (a : Asset) : outcome SdkError Asset := Ok a.
Definition transferable_coin (c : Coin) : outcome SdkError Asset := Ok (asset_of_coin c).
Definition bank_send_asset {M} `{!ToJson M} (funds : outcome SdkError Asset) (recipient : Addr) (message : M) :
    outcome SdkError AccountAction :=
  transferable_funds ← funds;
  msgs ← ok_or (asset_send_msg transferable_funds recipient (to_json message)) SdkAsset;
  Ok [msgs].

(** [Executor::execute_with_reply], [execute_with_reply_and_data],
    [execute_with_response] *)
Definition execute_with_reply (actions : list AccountAction) (reply_on : ReplyOn) (id : Z) :
    outcome SdkError SubMsgWithReply :=
  msg ← executor_execute (f_account base) actions; Ok (mkSubMsgWithReply id msg reply_on).
Definition execute_with_reply_and_data (actions : CosmosMsg) (reply_on : ReplyOn) (id : Z) :
    outcome SdkError SubMsgWithReply :=
  msg ← execute_with_data (f_account base) actions; Ok (mkSubMsgWithReply id msg reply_on).
Definition execute_with_response (actions : list AccountAction) (action : string) :
    outcome SdkError (Response ModuleMsg) :=
  msg ← executor_execute (f_account base) actions; Ok (mkResponse action [send msg]).
(** [AccountAction::messages], [merge], [from_vec] *)
Definition action_messages (a : AccountAction) : list CosmosMsg := a.
Definition action_merge (a other : AccountAction) : AccountAction := a ++ other.
Definition action_from_vec (msgs : list CosmosMsg) : AccountAction := msgs.

(** ** Lemmas *)

(** The balances are those of the account, of the assets the names stand for, in
    their order; one that fails fails all. *)
Lemma bank_balances_Ok assets l : bank_balances assets = Ok l ↔
  Forall2 (λ n a, ∃ host account, f_ans_host base = Ok host ∧ f_account base = Ok account ∧
    query_asset host n = Ok (as_info a) ∧ query_balance (as_info a) account = Some (as_amount a)) assets l.
Proof.
  unfold bank_balances. rewrite omapM_Ok. split; intros Hall; (eapply Forall2_impl; [exact Hall|]); intros n a.
  - unfold bank_balance. intros Hrun. inv_ok. by eexists _, _.
  - intros (host & account & Hh & Ha & Hn & Hb). unfold bank_balance. rewrite Hh. cbn [mbind outcome_bind].
    rewrite Hn. cbn [map_err mbind outcome_bind]. rewrite Ha. cbn [mbind outcome_bind]. rewrite Hb. by destruct a.
Qed.
(** A reply, or a response, changes nothing of what the account is asked to run. *)
Lemma execute_with_reply_Ok actions reply_on id m : execute_with_reply actions reply_on id = Ok m ↔
  executor_execute (f_account base) actions = Ok (sm_msg m) ∧ sm_id m = id ∧ sm_reply_on m = reply_on.
Proof.
  unfold execute_with_reply. split; [intros Hrun; by inv_ok|]. intros (-> & <- & <-). by destruct m.
Qed.
End bank.
