(* ===== verification/MiniAstrovault.v ===== *)
(** * The messages of Astrovault

    integrations/astrovault-adapter/src/mini_astrovault.rs: what the staking and
    the dex adapters send to and read from the contracts of Astrovault.  Amounts
    are integers; their JSON is a parameter ([ToJson], [FromJson]). *)

From S2P Require Import Prelude Cosmos Strings Objects SdkModules.
From Stdlib Require Import Ascii String.
#[local] Open Scope string_scope.
#[local] Open Scope list_scope.
#[local] Open Scope Z_scope.

Inductive AstrovaultPoolType : Type := Standard | StablePool (is_xasset : bool) | Ratio.
Record PoolSettings := mkPoolSettings { xasset_mode_minter : option string }.
Record ConfigResponse := mkConfigResponse { factory : string; pool_settings : option PoolSettings }.

(** ** Assets *)

Inductive AstrovaultAssetInfo : Type := Token (contract_addr : string) | NativeToken (denom : string).
#[export] Instance AstrovaultAssetInfo_eq_dec : EqDecision AstrovaultAssetInfo.
Proof. solve_decision. Defined.
Definition show_astrovault_info (i : AstrovaultAssetInfo) : string :=
  match i with NativeToken denom => denom | Token contract_addr => contract_addr end.
Record AstrovaultAsset := mkAstrovaultAsset { av_info : AstrovaultAssetInfo; av_amount : Z }.
#[export] Instance AstrovaultAsset_eq_dec : EqDecision AstrovaultAsset.
Proof. solve_decision. Defined.
Definition show_astrovault_asset (a : AstrovaultAsset) : string := pretty (av_amount a) +:+ show_astrovault_info (av_info a).

(** ** Pools *)

Inductive AstrovaultCw20HookMsg : Type :=
  | HookWithdrawLiquidity (to : option string)
  | WithdrawalXassetMode (to : option string) (expected_return : option (list Z))
  | WithdrawalToLockupStable (withdrawal_lockup_assets_amount : list Z) (to : option string)
      (is_instant_withdrawal : option bool) (expected_return : option (list Z))
  | WithdrawalToLockupRatio (to : option string) (is_instant_withdrawal : option bool)
      (expected_return : option (list Z)).
(** [direct_staking] is an empty object where it is there. *)
Inductive AstrovaultDexExecuteMsg : Type :=
  | SwapStandard (offer_asset : option AstrovaultAsset) (belief_price max_spread expected_return : option Z)
      (to : option string)
  | SwapStable (swap_to_asset_index : Z) (to : option string) (expected_return : option Z)
  | SwapRatio (to : option string) (expected_return : option Z)
  | AvProvideLiquidity (assets : AstrovaultAsset * AstrovaultAsset) (slippage_tolerance : option Z)
      (receiver : option string) (direct_staking : option unit)
  | DepositStable (assets_amount : list Z) (receiver : option string) (direct_staking : option unit)
  | DepositRatio (assets_amount : Z * Z) (receiver : option string) (direct_staking : option unit)
      (expected_return : option Z).
Inductive AstrovaultDexQueryMsg : Type :=
  | AvConfig
  | AvPoolInfo
  | AvPool
  | AvSimulation (offer_asset : AstrovaultAsset)
  | SwapSimulationStable (amount swap_from_asset_index swap_to_asset_index : Z)
  | SwapSimulationRatio (amount swap_from_asset_index : Z).
Record PoolResponse := mkPoolResponse { av_assets : list AstrovaultAsset; av_total_share : Z }.
Record PoolInfo := mkPoolInfo { asset_infos : list AstrovaultAssetInfo }.
Record SimulationResponse := mkSimulation {
  av_return_amount : Z;
  av_spread_amount : Z;
  av_commission_amount : Z;
  av_buybackburn_amount : Z
}.
Record SwapCalcResponse := mkSwapCalc {
  from_amount : Z;
  to_amount_without_fee : Z;
  to_amount_minus_fee : Z;
  fee_amount : Z
}.
Record StablePoolQuerySwapSimulation := mkStableSimulation {
  from_assets_amount : list Z;
  swap_to_assets_amount : list Z;
  mint_to_assets_amount : list Z;
  assets_fee_amount : list Z
}.

(** ** Staking contracts *)

(** An amount of zero claims the rewards only. *)
Inductive AstrovaultStakingExecuteMsg : Type :=
  | Withdrawal (amount : option Z) (direct_pool_withdrawal to : option unit) (not_claim_rewards : option bool)
      (withdrawal_unlocked notify : option unit)
  | WithdrawalFromLockup (to direct_pool_withdrawal notify : option unit).
Inductive AstrovaultStakingQueryMsg : Type :=
  | StakingConfig
  | StakingBalance (address : string)
  | RewardSources (reward_source : option string).
Inductive AstrovaultStakingReceiveMsg : Type :=
  | AvDeposit (sender : option string) (not_claim_rewards notify : option bool).
Record RewardSource := mkRewardSource { reward_asset : AstrovaultAssetInfo }.
Record RewardSourceResponse := mkRewardSourceResponse { reward_info : RewardSource }.
Record PendingLockupWithdrawal := mkPendingWithdrawal { to_withdrawal_amount : Z; withdrawal_timestamp : Z }.
Record AssetStakingRewards := mkAssetRewards { rewards_asset : AstrovaultAssetInfo; rewards : Z }.
Record LpBalanceResponse := mkLpBalance {
  locked : Z;
  boosted_amount : Z;
  pending_lockup_withdrawals : list PendingLockupWithdrawal;
  lp_rewards : list AssetStakingRewards;
  lp_height : Z
}.
Record OwnerSettings := mkOwnerSettings { is_deposit_enabled : bool; is_withdrawal_enabled : bool }.
Record LpConfigResponse := mkLpConfig {
  lp_owner : string;
  lp_pool : option string;
  owner_settings : OwnerSettings;
  lockup_duration : option Z;
  inc_token : string
}.
