(* ===== verification/StakingStandard.v ===== *)
(** * The standard of staking adapters

    framework/packages/standards/staking (command.rs, error.rs, msg.rs): what a
    staking provider offers to the adapter, the actions and queries of an account,
    and what is resolved by the name service before them. *)

From S2P Require Import Prelude Cosmos Strings Objects Names AccountIds Fees ModuleFactory Ownership AnsObjects Ans AnsClient Registry Clients Account Ibc Sdk SdkApis Adapter DexStandard.
From Stdlib Require Import Ascii String.
#[local] Open Scope string_scope.
#[local] Open Scope list_scope.
#[local] Open Scope Z_scope.

(** [CwStakingError] (error.rs) *)
Inductive CwStakingError : Type :=
  | StkStd (e : StdError)
  | StkAdapterError (e : AdapterError)
  | StkSdk (e : SdkError)
  | StkAbstract (e : AbstractError)
  | StkAsset
  | StkAnsHost (e : AnsHostError)
  | IbcQueryNotSupported
  | UnknownStaking (name : string)
  | UnknownStakingOnThisPlatform (staking : string) (chain : option string)
  | ForeignStaking (name : string)
  | Cw1155Unsupported
  | StkTooFewAssets
  | StkTooManyAssets (max : Z)
  | StkArgumentMismatch (asset : string) (pool : list string)
  | StkBalancerNotSupported (dex : string)
  | StkDexMismatch (pair dex address : string)
  | StkNotImplemented (dex : string)
  | StkMaxSlippageAssertion (spread dex : string)
  | UnbondingPeriodNotSet (staking : string)
  | UnbondingPeriodNotSupported (period staking : string)
  | NotSupportedPoolType (pool_type dex : string).
#[export] Instance staking_contract_error : ContractError CwStakingError :=
  {| from_std := StkStd; from_sdk := StkSdk; from_abstract := StkAbstract |}.
#[export] Instance staking_adapter_error : AdapterContractError CwStakingError := StkAdapterError.

Definition CW_STAKING_ADAPTER_ID : string := "abstract:cw-staking".
(** The id of a callback, which nothing uses *)
Definition IBC_STAKING_PROVIDER_ID : string := "IBC_STAKING_ACTION".

(** [cw_utils::Duration] *)
Inductive Duration : Type := DurationHeight (blocks : Z) | DurationTime (seconds : Z).

Section standard.
Context `{Semver, Api, CwOwnable, CwAsset, !AnsHosts}.

(** ** Messages (msg.rs) *)

Inductive StakingAction : Type :=
  | Stake (assets : list AnsAsset) (unbonding_period : option Duration)
  | Unstake (assets : list AnsAsset) (unbonding_period : option Duration)
  | ClaimRewards (assets : list AssetEntry)
  | ClaimUnbonded (assets : list AssetEntry).
Record StakingExecuteMsg := mkStakingExecute { provider : string; action : StakingAction }.
Inductive StakingQueryMsg : Type :=
  | QueryInfo (provider : string) (staking_tokens : list AssetEntry)
  | QueryStaked (provider : string) (stakes : list AssetEntry) (staker_address : string)
      (unbonding_period : option Duration)
  | QueryUnbonding (provider : string) (staking_tokens : list AssetEntry) (staker_address : string)
  | QueryRewardTokens (provider : string) (staking_tokens : list AssetEntry).

Inductive StakingTarget : Type := TargetContract (a : Addr) | TargetId (id : Z).
Definition target_expect_contract (t : StakingTarget) : outcome AbstractError Addr :=
  match t with
  | TargetContract addr => Ok addr
  | _ => Err (Assert "Staking target is not a contract address.")
  end.
Definition target_expect_id (t : StakingTarget) : outcome AbstractError Z :=
  match t with TargetId id => Ok id | _ => Err (Assert "Staking target is not an pool ID.") end.

Record StakingInfo := mkStakingInfo {
  staking_target : StakingTarget;
  staking_token : asset_info;
  unbonding_periods : option (list Duration);
  max_claims : option Z
}.
Record Claim := mkClaim { claim_amount : Z; claimable_at : Expiration }.
(** The responses: of every token of the query, in its order *)
Inductive StakingResponse : Type :=
  | StakingInfoResponse (infos : list StakingInfo)
  | StakeResponse (amounts : list Z)
  | RewardTokensResponse (tokens : list (list asset_info))
  | UnbondingResponse (claims : list (list Claim)).

(** ** What a provider offers (command.rs)

    [Box<dyn CwStakingCommand>], with the data [fetch_data] leaves in it. *)
Record CwStakingCommand := mkStakingCommand {
  staking_identify : Identify;
  staking_data : Type;
  staking_default : staking_data;
  (** the sender, the name service, the registry, the names *)
  staking_fetch_data : option Addr → Addr → Addr → list AssetEntry → staking_data →
    outcome CwStakingError staking_data;
  staking_stake : staking_data → list AnsAsset → option Duration → outcome CwStakingError (list CosmosMsg);
  staking_unstake : staking_data → list AnsAsset → option Duration → outcome CwStakingError (list CosmosMsg);
  staking_claim_rewards : staking_data → outcome CwStakingError (list CosmosMsg);
  staking_claim : staking_data → outcome CwStakingError (list CosmosMsg);
  staking_query_info : staking_data → outcome CwStakingError (list StakingInfo);
  staking_query_staked : staking_data → Addr → list AssetEntry → option Duration → outcome CwStakingError (list Z);
  staking_query_unbonding : staking_data → Addr → outcome CwStakingError (list (list Claim));
  staking_query_rewards : staking_data → outcome CwStakingError (list (list asset_info))
}.

(** [staking_entry], [staking_contract_address]: of the name of a provider *)
Definition staking_entry (name : string) (staking_token : AssetEntry) : ContractEntry :=
  mkContractEntry name ("staking/" +:+ staking_token).
Definition staking_contract_address (name : string) (ans_host : Addr) (token : AssetEntry) :
    outcome CwStakingError Addr :=
  map_err StkAnsHost (query_contract ans_host (staking_entry name token)).
End standard.
