(* ===== verification/StakingIntegrations.v ===== *)
(** * Integrations with staking providers

    integrations/kujira-adapter, wyndex-adapter, osmosis-adapter,
    astroport-adapter and astrovault-adapter (staking.rs): what the staking
    adapter sends to and asks of five providers.  The messages, queries and
    answers of the providers, in JSON or protobuf, are code outside the
    repository, except those of Astrovault (MiniAstrovault). *)

From S2P Require Import Prelude Cosmos Strings Objects Names AccountIds Fees ModuleFactory Ownership AnsObjects Ans AnsClient Registry Clients Account Ibc IbcClient Sdk SdkApis Adapter SdkModules DexStandard Dex DexIntegrations StakingStandard MiniAstrovault.
From Stdlib Require Import Ascii String.
#[local] Open Scope string_scope.
#[local] Open Scope list_scope.
#[local] Open Scope Z_scope.

Definition BOW : string := "bow".
(** [archway], [terra] of abstract-std/src/constants.rs *)
Definition ARCHWAY_CHAINS : list string := ["archway"; "constantine"].
Definition TERRA_CHAINS : list string := ["phoenix"; "pisco"].

(** The order in which a hash map or set is walked *)
Class HashOrder := hash_order : ∀ {A : Type}, list A → list A.
Class HashOrderLaws `{HashOrder} : Prop := hash_order_permutes : ∀ (A : Type) (l : list A), hash_order l ≡ₚ l.

Section integrations.
Context `{Semver, Api, CwOwnable, CwAsset, !CwAssetMsgs, !CwAssetKinds, !Accounts, !AnsHosts}.
Abbreviation Msgs := (outcome CwStakingError (list CosmosMsg)).
Abbreviation Amounts := (outcome CwStakingError (list Z)).

(** A query of a contract, its answer read; a failure of [ask_for] is reported
    as a text. *)
Definition stk_ask {A} (addr : Addr) (query : string) (read : string → option A) : outcome CwStakingError A :=
  map_err StkStd (answer ← query_r (smart_query_of addr query); query_r (read answer)).
Definition ask_for {A} (what : string) (addr : Addr) (query : string) (read : string → option A) :
    outcome CwStakingError A :=
  map_err (λ _, StkStd (StdMsg what)) (answer ← query_r (smart_query_of addr query); query_r (read answer)).
Definition stk_query_asset (ans_host : Addr) (entry : AssetEntry) : outcome CwStakingError asset_info :=
  map_err StkAnsHost (query_asset ans_host entry).
Definition stk_lp_token (entry : AssetEntry) : outcome CwStakingError LpToken := map_err StkAnsHost (asset_lp_token entry).
Definition expect_cw20 (i : asset_info) : outcome CwStakingError Addr :=
  match asset_kind i with
  | IsCw20 token_addr => Ok token_addr
  | _ => Err (StkStd (StdMsg "expected CW20 as LP token for staking."))
  end.

(** ** Bow, on Kujira (kujira-adapter/src/staking.rs) *)

Record KujiraTokenContext := mkKujiraToken {
  bow_lp_token : LpToken;
  lp_token_denom : string;
  bow_staking_contract : Addr
}.
Class BowApi := {
  bow_stake_json : string;
  bow_unstake_json : Coin → string;
  bow_claim_json : string → string;
  bow_stake_query : string → Addr → string;
  bow_stake_of : string → option Z;
  bow_incentives_query : string → string;
  bow_incentives_of : string → option (list string)
}.
Section bow.
Context `{!BowApi}.
Definition bow_token (ans_host : Addr) (entry : AssetEntry) : outcome CwStakingError KujiraTokenContext :=
  staking_contract_address ← staking_contract_address BOW ans_host entry;
  info ← stk_query_asset ans_host entry;
  lp_token_denom ← match asset_kind info with
    | IsNative denom => Ok denom
    | _ => Err (StkStd (StdMsg "expected denom as LP token for staking."))
    end;
  lp_token ← stk_lp_token entry;
  Ok (mkKujiraToken lp_token lp_token_denom staking_contract_address).
Definition bow_fetch_data (sender : option Addr) (ans_host registry : Addr) (lp_tokens : list AssetEntry)
    (tokens : list KujiraTokenContext) : outcome CwStakingError (list KujiraTokenContext) :=
  omapM (bow_token ans_host) lp_tokens.
Definition bow_stake (tokens : list KujiraTokenContext) (stake_request : list AnsAsset) (unbonding_period : option Duration) : Msgs :=
  Ok (zip_with (λ stake t, WasmExecute (bow_staking_contract t) (Raw bow_stake_json)
    [mkCoin (lp_token_denom t) (aa_amount stake)]) stake_request tokens).
Definition bow_unstake (tokens : list KujiraTokenContext) (unstake_request : list AnsAsset) (unbonding_period : option Duration) : Msgs :=
  Ok (zip_with (λ unstake t, WasmExecute (bow_staking_contract t)
    (Raw (bow_unstake_json (mkCoin (lp_token_denom t) (aa_amount unstake)))) []) unstake_request tokens).
Definition bow_claim (tokens : list KujiraTokenContext) : Msgs := Ok [].
Definition bow_claim_rewards (tokens : list KujiraTokenContext) : Msgs :=
  Ok ((λ t, WasmExecute (bow_staking_contract t) (Raw (bow_claim_json (lp_token_denom t))) []) <$> tokens).
Definition bow_query_info (tokens : list KujiraTokenContext) : outcome CwStakingError (list StakingInfo) :=
  Ok ((λ t, mkStakingInfo (TargetContract (bow_staking_contract t)) (asset_native (lp_token_denom t)) None None) <$> tokens).
Definition bow_query_staked (tokens : list KujiraTokenContext) (staker : Addr) (stakes : list AssetEntry)
    (unbonding_period : option Duration) : Amounts :=
  omapM (λ t, ask_for "Failed to query staked balance" (bow_staking_contract t)
    (bow_stake_query (lp_token_denom t) staker) bow_stake_of) tokens.
Definition bow_query_unbonding (tokens : list KujiraTokenContext) (staker : Addr) :
    outcome CwStakingError (list (list Claim)) := Ok [].
Definition bow_query_rewards (tokens : list KujiraTokenContext) : outcome CwStakingError (list (list asset_info)) :=
  omapM (λ t, (incentives ← ask_for "Failed to query reward info" (bow_staking_contract t)
      (bow_incentives_query (lp_token_denom t)) bow_incentives_of;
    Ok (asset_native <$> incentives) : outcome CwStakingError (list asset_info))) tokens.
Definition Bow : CwStakingCommand :=
  mkStakingCommand (platform BOW KUJIRA_CHAINS) (list KujiraTokenContext) [] bow_fetch_data bow_stake bow_unstake
    bow_claim_rewards bow_claim bow_query_info bow_query_staked bow_query_unbonding bow_query_rewards.
End bow.

(** ** Wyndex, on Juno (wyndex-adapter/src/staking.rs) *)

Record WynDexTokenContext := mkWynDexToken {
  wyndex_lp_token : LpToken;
  wyndex_lp_token_address : Addr;
  wyndex_staking_contract : Addr
}.
Class WynDexStakingApi := {
  wyndex_delegate_json : Z → string;
  wyndex_unbond_json : Z → Z → string;
  wyndex_claim_json : string;
  wyndex_withdraw_rewards_json : string;
  wyndex_bonding_query : string;
  wyndex_bonding_of : string → option (list Z);
  (** the raw query of the stake of an address for an unbonding period, none if
      there is none, and its total *)
  wyndex_stake : Addr → Addr → Z → option (option Z);
  wyndex_claims_query : Addr → string;
  wyndex_claims_of : string → option (list (Z * Expiration));
  (** the assets that are distributed: a denomination or a token *)
  wyndex_distribution_query : string;
  wyndex_distribution_of : string → option (list (string + Addr))
}.
Section wyndex.
Context `{!WynDexStakingApi, !Cw20Json}.
Definition unwrap_unbond (unbonding_period : option Duration) : outcome CwStakingError Z :=
  match unbonding_period with
  | Some (DurationTime unbonding_period) => Ok unbonding_period
  | Some (DurationHeight _) => Err (UnbondingPeriodNotSupported "height" WYNDEX)
  | None => Err (UnbondingPeriodNotSet WYNDEX)
  end.
Definition wyndex_token (ans_host : Addr) (entry : AssetEntry) : outcome CwStakingError WynDexTokenContext :=
  staking_contract_address ← staking_contract_address WYNDEX ans_host entry;
  info ← stk_query_asset ans_host entry;
  lp_token_address ← expect_cw20 info;
  lp_token ← stk_lp_token entry;
  Ok (mkWynDexToken lp_token lp_token_address staking_contract_address).
Definition wyndex_fetch_data (sender : option Addr) (ans_host registry : Addr) (lp_tokens : list AssetEntry)
    (tokens : list WynDexTokenContext) : outcome CwStakingError (list WynDexTokenContext) :=
  omapM (wyndex_token ans_host) lp_tokens.
Definition wyndex_stake_msgs (tokens : list WynDexTokenContext) (stake_request : list AnsAsset) (unbonding_period : option Duration) : Msgs :=
  unbonding_period ← unwrap_unbond unbonding_period;
  Ok (zip_with (λ stake t, WasmExecute (wyndex_lp_token_address t) (Raw (cw20_send_json (wyndex_staking_contract t)
    (aa_amount stake) (wyndex_delegate_json unbonding_period))) []) stake_request tokens).
Definition wyndex_unstake (tokens : list WynDexTokenContext) (unstake_request : list AnsAsset) (unbonding_period : option Duration) : Msgs :=
  unbonding_period ← unwrap_unbond unbonding_period;
  Ok (zip_with (λ unstake t, WasmExecute (wyndex_staking_contract t)
    (Raw (wyndex_unbond_json (aa_amount unstake) unbonding_period)) []) unstake_request tokens).
Definition wyndex_claim (tokens : list WynDexTokenContext) : Msgs :=
  Ok ((λ t, WasmExecute (wyndex_staking_contract t) (Raw wyndex_claim_json) []) <$> tokens).
Definition wyndex_claim_rewards (tokens : list WynDexTokenContext) : Msgs :=
  Ok ((λ t, WasmExecute (wyndex_staking_contract t) (Raw wyndex_withdraw_rewards_json) []) <$> tokens).
Definition wyndex_query_info (tokens : list WynDexTokenContext) : outcome CwStakingError (list StakingInfo) :=
  omapM (λ t, (bonding ← stk_ask (wyndex_staking_contract t) wyndex_bonding_query wyndex_bonding_of;
    Ok (mkStakingInfo (TargetContract (wyndex_staking_contract t)) (asset_cw20 (wyndex_lp_token_address t))
      (Some (DurationTime <$> bonding)) None) : outcome CwStakingError StakingInfo)) tokens.
(** An unbonding period that is not set or not a time is reported as a text. *)
Definition wyndex_query_staked (tokens : list WynDexTokenContext) (staker : Addr) (stakes : list AssetEntry)
    (unbonding_period : option Duration) : Amounts :=
  unbonding_period ← map_err (λ _, StkStd (StdMsg "unbonding period")) (unwrap_unbond unbonding_period);
  omapM (λ t, (stake ← ok_or (wyndex_stake (wyndex_staking_contract t) staker unbonding_period)
      (StkStd (StdMsg "Raw query for wynddex stake balance failed."));
    Ok (default 0 stake) : outcome CwStakingError Z)) tokens.
Definition wyndex_query_unbonding (tokens : list WynDexTokenContext) (staker : Addr) :
    outcome CwStakingError (list (list Claim)) :=
  omapM (λ t, (claims ← stk_ask (wyndex_staking_contract t) (wyndex_claims_query staker) wyndex_claims_of;
    Ok ((λ c, mkClaim c.1 c.2) <$> claims) : outcome CwStakingError (list Claim))) tokens.
Definition wyndex_query_rewards (tokens : list WynDexTokenContext) : outcome CwStakingError (list (list asset_info)) :=
  omapM (λ t, (distributions ← stk_ask (wyndex_staking_contract t) wyndex_distribution_query wyndex_distribution_of;
    Ok ((λ a, match a with inl denom => asset_native denom | inr token => asset_cw20 token end) <$> distributions) : outcome CwStakingError (list asset_info))) tokens.
Definition WynDex : CwStakingCommand :=
  mkStakingCommand (platform WYNDEX JUNO_CHAINS) (list WynDexTokenContext) [] wyndex_fetch_data wyndex_stake_msgs
    wyndex_unstake wyndex_claim_rewards wyndex_claim wyndex_query_info wyndex_query_staked wyndex_query_unbonding
    wyndex_query_rewards.
End wyndex.

(** ** Osmosis (osmosis-adapter/src/staking.rs) *)

Record OsmosisTokenContext := mkOsmosisToken { osmo_pool_id : Z; osmo_lp_token : string }.
(** The data: the sender and the tokens *)
Record OsmosisData := mkOsmosisData { osmo_sender : option Addr; osmo_tokens : list OsmosisTokenContext }.
Class OsmosisLockup := {
  (** owner, seconds, coins; owner, id, coins; owner *)
  lock_tokens : Addr → option Z → list Coin → CosmosMsg;
  begin_unlocking : Addr → Z → list Coin → CosmosMsg;
  begin_unlocking_all : Addr → CosmosMsg;
  (** denominations and amounts, in decimal *)
  account_locked_coins : Addr → option (list (string * string));
  account_unlocking_coins : Addr → option (list (string * string));
  (** the gauges of a pool; the coins of a gauge, if there is one *)
  gauge_ids : Z → option (list Z);
  gauge_by_id : Z → option (option (list string));
  uint128_from_str : string → option Z
}.
(** [Vec::dedup] *)
Fixpoint dedup_from (prev : asset_info) (l : list asset_info) : list asset_info :=
  match l with
  | [] => []
  | x :: l => if decide (x = prev) then dedup_from prev l else x :: dedup_from x l
  end.
Definition dedup (l : list asset_info) : list asset_info :=
  match l with [] => [] | x :: l => x :: dedup_from x l end.
Section osmosis.
Context `{!OsmosisLockup}.
Definition to_osmo_duration (dur : option Duration) : outcome CwStakingError (option Z) :=
  match dur with
  | Some (DurationTime sec) => if decide (sec < 2 ^ 63) then Ok (Some sec) else Panic
  | Some (DurationHeight _) => Err (StkStd (StdMsg "Wrong duration, only time accepted"))
  | None => Ok None
  end.
(** The pool of the first reference of the two smallest names of the LP token *)
Definition osmosis_token (ans_host : Addr) (s_asset : AssetEntry) : outcome CwStakingError OsmosisTokenContext :=
  lp_token ← stk_lp_token s_asset;
  dex_pair ← map_err StkAnsHost (lp_token_pairing lp_token);
  pool_ref ← map_err StkAnsHost (query_asset_pairing ans_host dex_pair);
  found ← ok_or (head pool_ref) (StkStd (StdMsg "No pool found for asset pairing"));
  metadata ← map_err StkAnsHost (query_pool_metadata ans_host (unique_id found));
  if decide (pm_pool_type metadata = ConcentratedLiquidity) then
    Err (NotSupportedPoolType (show_pool_type (pm_pool_type metadata)) OSMOSIS)
  else
    pool_id ← map_err StkAbstract (expect_id (pool_address found));
    Ok (mkOsmosisToken pool_id ("gamm/pool/" +:+ pretty pool_id)).
Definition osmosis_fetch_data (sender : option Addr) (ans_host registry : Addr) (staking_assets : list AssetEntry)
    (data : OsmosisData) : outcome CwStakingError OsmosisData :=
  tokens ← omapM (osmosis_token ans_host) staking_assets; Ok (mkOsmosisData sender tokens).
Definition osmosis_coin (a : AnsAsset) (t : OsmosisTokenContext) : Coin := mkCoin (osmo_lp_token t) (aa_amount a).
Definition osmosis_stake (d : OsmosisData) (stake_request : list AnsAsset) (unbonding_period : option Duration) : Msgs :=
  let lock_coins := zip_with osmosis_coin stake_request (osmo_tokens d) in
  owner ← unwrap (osmo_sender d);
  duration ← to_osmo_duration unbonding_period;
  Ok [lock_tokens owner duration lock_coins].
(** The id of the pool is given for the id of the lock; without tokens there is
    no message, and no owner is looked for. *)
Definition osmosis_unstake (d : OsmosisData) (unstake_request : list AnsAsset) (unbonding_period : option Duration) : Msgs :=
  omapM (λ x, (owner ← unwrap (osmo_sender d);
      Ok (begin_unlocking owner (osmo_pool_id x.2) [osmosis_coin x.1 x.2]) : outcome CwStakingError CosmosMsg))
    (zip unstake_request (osmo_tokens d)).
Definition osmosis_claim (d : OsmosisData) : Msgs :=
  owner ← unwrap (osmo_sender d); Ok [begin_unlocking_all owner].
Definition osmosis_claim_rewards (d : OsmosisData) : Msgs := Ok [].
Definition osmosis_query_info (d : OsmosisData) : outcome CwStakingError (list StakingInfo) :=
  Ok ((λ t, mkStakingInfo (TargetId (osmo_pool_id t)) (asset_native (osmo_lp_token t)) (Some []) None) <$> osmo_tokens d).
(** The first amount of a denomination; one that does not parse traps. *)
Definition amount_in (coins : list (string * string)) (denom : string) : outcome CwStakingError (option Z) :=
  match list_find (λ c, c.1 = denom) coins with
  | Some (_, c) => n ← unwrap (uint128_from_str c.2); Ok (Some n)
  | None => Ok None
  end.
Definition osmosis_query_staked (d : OsmosisData) (staker : Addr) (stakes : list AssetEntry)
    (unbonding_period : option Duration) : Amounts :=
  locked_up ← map_err StkStd (query_r (account_locked_coins staker));
  omapM (λ t, (n ← amount_in locked_up (osmo_lp_token t); Ok (default 0 n) : outcome CwStakingError Z)) (osmo_tokens d).
Definition osmosis_query_unbonding (d : OsmosisData) (staker : Addr) : outcome CwStakingError (list (list Claim)) :=
  unlock_coins ← map_err StkStd (query_r (account_unlocking_coins staker));
  omapM (λ t, (n ← amount_in unlock_coins (osmo_lp_token t);
    Ok (option_list ((λ n, mkClaim n Never) <$> n)) : outcome CwStakingError (list Claim))) (osmo_tokens d).
Definition gauge_assets (id : Z) : outcome CwStakingError (list asset_info) :=
  answer ← map_err StkStd (query_r (gauge_by_id id));
  denoms ← unwrap answer;
  Ok (asset_native <$> (denoms : list string)).
Definition osmosis_query_rewards (d : OsmosisData) : outcome CwStakingError (list (list asset_info)) :=
  omapM (λ t, (ids ← map_err StkStd (query_r (gauge_ids (osmo_pool_id t)));
    assets ← omapM gauge_assets ids;
    Ok (dedup (List.concat assets)) : outcome CwStakingError (list asset_info))) (osmo_tokens d).
Definition Osmosis : CwStakingCommand :=
  mkStakingCommand (platform OSMOSIS OSMOSIS_CHAINS) OsmosisData (mkOsmosisData None []) osmosis_fetch_data
    osmosis_stake osmosis_unstake osmosis_claim_rewards osmosis_claim osmosis_query_info osmosis_query_staked
    osmosis_query_unbonding osmosis_query_rewards.
End osmosis.

(** ** Astroport, on Neutron and Terra (astroport-adapter/src/staking.rs) *)

Record AstroportTokenContext := mkAstroportToken {
  astroport_lp_token : LpToken;
  astroport_lp_token_address : Addr;
  incentives_contract_address : Addr
}.
Class AstroportApi := {
  astroport_deposit_json : string;
  astroport_withdraw_json : Addr → Z → string;
  astroport_claim_json : list Addr → string;
  astroport_deposit_query : Addr → Addr → string;
  astroport_deposit_of : string → option Z;
  (** the rewards of a token, internal or external: a token or a denomination *)
  astroport_rewards_query : Addr → string;
  astroport_rewards_of : string → option (list (string + Addr))
}.
Section astroport.
Context `{!AstroportApi, !Cw20Json, !HashOrder}.
Definition astroport_token (ans_host : Addr) (entry : AssetEntry) : outcome CwStakingError AstroportTokenContext :=
  incentives_contract_address ← staking_contract_address ASTROPORT ans_host entry;
  info ← stk_query_asset ans_host entry;
  lp_token_address ← expect_cw20 info;
  lp_token ← stk_lp_token entry;
  Ok (mkAstroportToken lp_token lp_token_address incentives_contract_address).
Definition astroport_fetch_data (sender : option Addr) (ans_host registry : Addr) (lp_tokens : list AssetEntry)
    (tokens : list AstroportTokenContext) : outcome CwStakingError (list AstroportTokenContext) :=
  omapM (astroport_token ans_host) lp_tokens.
Definition astroport_stake (tokens : list AstroportTokenContext) (stake_request : list AnsAsset) (unbonding_period : option Duration) : Msgs :=
  Ok (zip_with (λ stake t, WasmExecute (astroport_lp_token_address t)
    (Raw (cw20_send_json (incentives_contract_address t) (aa_amount stake) astroport_deposit_json)) [])
    stake_request tokens).
Definition astroport_unstake (tokens : list AstroportTokenContext) (unstake_request : list AnsAsset) (unbonding_period : option Duration) : Msgs :=
  Ok (zip_with (λ unstake t, WasmExecute (incentives_contract_address t)
    (Raw (astroport_withdraw_json (astroport_lp_token_address t) (aa_amount unstake))) []) unstake_request tokens).
Definition astroport_claim (tokens : list AstroportTokenContext) : Msgs := Ok [].
(** The tokens of every contract, one message for each *)
Definition claims_by_contract (tokens : list AstroportTokenContext) : gmap Addr (list Addr) :=
  foldl (λ claims t, <[incentives_contract_address t :=
    default [] (claims !! incentives_contract_address t) ++ [astroport_lp_token_address t]]> claims) ∅ tokens.
Definition astroport_claim_rewards (tokens : list AstroportTokenContext) : Msgs :=
  Ok ((λ c, WasmExecute c.1 (Raw (astroport_claim_json c.2)) []) <$> hash_order (map_to_list (claims_by_contract tokens))).
Definition astroport_query_info (tokens : list AstroportTokenContext) : outcome CwStakingError (list StakingInfo) :=
  Ok ((λ t, mkStakingInfo (TargetContract (incentives_contract_address t)) (asset_cw20 (astroport_lp_token_address t))
    None None) <$> tokens).
Definition astroport_query_staked (tokens : list AstroportTokenContext) (staker : Addr) (stakes : list AssetEntry)
    (unbonding_period : option Duration) : Amounts :=
  omapM (λ t, ask_for "Failed to query staked balance" (incentives_contract_address t)
    (astroport_deposit_query (astroport_lp_token_address t) staker) astroport_deposit_of) tokens.
Definition astroport_query_unbonding (tokens : list AstroportTokenContext) (staker : Addr) :
    outcome CwStakingError (list (list Claim)) := Ok [].
Definition astroport_query_rewards (tokens : list AstroportTokenContext) : outcome CwStakingError (list (list asset_info)) :=
  omapM (λ t, (reward_infos ← ask_for "Failed to query reward info" (incentives_contract_address t)
      (astroport_rewards_query (astroport_lp_token_address t)) astroport_rewards_of;
    Ok ((λ a, match a with inl denom => asset_native denom | inr token => asset_cw20 token end) <$> reward_infos) : outcome CwStakingError (list asset_info))) tokens.
Definition Astroport : CwStakingCommand :=
  mkStakingCommand (platform ASTROPORT (NEUTRON_CHAINS ++ TERRA_CHAINS)) (list AstroportTokenContext) []
    astroport_fetch_data astroport_stake astroport_unstake astroport_claim_rewards astroport_claim
    astroport_query_info astroport_query_staked astroport_query_unbonding astroport_query_rewards.
End astroport.

(** ** Astrovault, on Archway (astrovault-adapter/src/staking.rs) *)

Record AstrovaultTokenContext := mkAstrovaultToken {
  astrovault_lp_token_address : Addr;
  astrovault_staking_contract : Addr
}.
Record AstrovaultData := mkAstrovaultData {
  astrovault_sender : option Addr;
  registry_contract : option Addr;
  astrovault_tokens : list AstrovaultTokenContext
}.
Section astrovault.
Context `{!Cw20Json, !HashOrder}.
Context `{!ToJson AstrovaultStakingReceiveMsg, !ToJson AstrovaultStakingExecuteMsg, !ToJson AstrovaultStakingQueryMsg}.
Context `{!FromJson LpConfigResponse, !FromJson LpBalanceResponse, !FromJson (list RewardSourceResponse)}.
Definition astrovault_token (ans_host : Addr) (entry : AssetEntry) : outcome CwStakingError AstrovaultTokenContext :=
  staking_contract_address ← staking_contract_address ASTROVAULT ans_host entry;
  info ← stk_query_asset ans_host entry;
  lp_token_address ← expect_cw20 info;
  Ok (mkAstrovaultToken lp_token_address staking_contract_address).
Definition astrovault_fetch_data (sender : option Addr) (ans_host registry : Addr) (lp_tokens : list AssetEntry)
    (data : AstrovaultData) : outcome CwStakingError AstrovaultData :=
  tokens ← omapM (astrovault_token ans_host) lp_tokens; Ok (mkAstrovaultData sender (Some registry) tokens).
Definition astrovault_stake (d : AstrovaultData) (stake_request : list AnsAsset) (unbonding_period : option Duration) : Msgs :=
  let msg := to_json (AvDeposit None (Some true) None) in
  Ok (zip_with (λ stake t, WasmExecute (astrovault_lp_token_address t)
    (Raw (cw20_send_json (astrovault_staking_contract t) (aa_amount stake) msg)) []) stake_request (astrovault_tokens d)).
Definition astrovault_withdrawal (t : AstrovaultTokenContext) (amount : Z) : CosmosMsg :=
  WasmExecute (astrovault_staking_contract t)
    (Raw (to_json (Withdrawal (Some amount) None None (Some false) None None))) [].
Definition astrovault_unstake (d : AstrovaultData) (unstake_request : list AnsAsset) (unbonding_period : option Duration) : Msgs :=
  Ok (zip_with (λ unstake t, astrovault_withdrawal t (aa_amount unstake)) unstake_request (astrovault_tokens d)).
Definition astrovault_claim (d : AstrovaultData) : Msgs :=
  Ok ((λ t, WasmExecute (astrovault_staking_contract t) (Raw (to_json (WithdrawalFromLockup None None None))) [])
    <$> astrovault_tokens d).
Definition astrovault_claim_rewards (d : AstrovaultData) : Msgs :=
  Ok ((λ t, astrovault_withdrawal t 0) <$> astrovault_tokens d).
(** Of the staking contracts, each once, in no order *)
Definition staking_contracts (d : AstrovaultData) : gset Addr :=
  list_to_set (astrovault_staking_contract <$> astrovault_tokens d).
Definition astrovault_query_info (d : AstrovaultData) : outcome CwStakingError (list StakingInfo) :=
  omapM (λ staking_addr, (config ← ask_for "Failed to query staking info" staking_addr (to_json StakingConfig) from_json;
    Ok (mkStakingInfo (TargetContract staking_addr) (asset_cw20 (inc_token config)) None None) : outcome CwStakingError StakingInfo))
    (hash_order (elements (staking_contracts d))).
Definition astrovault_balance (t : AstrovaultTokenContext) (staker : Addr) : outcome CwStakingError LpBalanceResponse :=
  ask_for "Failed to query staked balance" (astrovault_staking_contract t) (to_json (StakingBalance staker)) from_json.
Definition astrovault_query_staked (d : AstrovaultData) (staker : Addr) (stakes : list AssetEntry)
    (unbonding_period : option Duration) : Amounts :=
  omapM (λ t, (stake_balance ← astrovault_balance t staker; Ok (locked stake_balance) : outcome CwStakingError Z)) (astrovault_tokens d).
(** [Timestamp::from_seconds] traps on an overflow. *)
Definition pending_claim (w : PendingLockupWithdrawal) : outcome CwStakingError Claim :=
  at_ ← mul_u 64 (withdrawal_timestamp w) NANOS;
  Ok (mkClaim (to_withdrawal_amount w) (AtTime at_)).
Definition astrovault_query_unbonding (d : AstrovaultData) (staker : Addr) : outcome CwStakingError (list (list Claim)) :=
  omapM (λ t, (stake_balance ← astrovault_balance t staker;
    omapM pending_claim (pending_lockup_withdrawals stake_balance) : outcome CwStakingError (list Claim))) (astrovault_tokens d).
Definition astrovault_reward_asset (r : RewardSourceResponse) : asset_info :=
  match reward_asset (reward_info r) with
  | Token contract_addr => asset_cw20 contract_addr
  | NativeToken denom => asset_native denom
  end.
Definition astrovault_query_rewards (d : AstrovaultData) : outcome CwStakingError (list (list asset_info)) :=
  omapM (λ t, (rewards_info ← ask_for "Failed to query reward info" (astrovault_staking_contract t)
      (to_json (RewardSources None)) from_json;
    Ok (astrovault_reward_asset <$> rewards_info) : outcome CwStakingError (list asset_info))) (astrovault_tokens d).
(** [AbstractRegistryAccess for Astrovault] *)
Definition astrovault_registry (d : AstrovaultData) : outcome SdkError Addr :=
  ok_or (registry_contract d) (SdkStd (StdMsg "registry address is not set")).
Definition Astrovault : CwStakingCommand :=
  mkStakingCommand (platform ASTROVAULT ARCHWAY_CHAINS) AstrovaultData (mkAstrovaultData None None [])
    astrovault_fetch_data astrovault_stake astrovault_unstake astrovault_claim_rewards astrovault_claim
    astrovault_query_info astrovault_query_staked astrovault_query_unbonding astrovault_query_rewards.
End astrovault.
End integrations.
