(* ===== verification/CwStaking.v ===== *)
(** * The staking adapter

    modules/contracts/adapters/cw-staking (adapter.rs, resolver.rs, handlers/*.rs,
    contract.rs): staking of an account on a provider of its chain, and the
    requests it sends to other chains. *)

From S2P Require Import Prelude Cosmos Strings Objects Names AccountIds Fees ModuleFactory Ownership AnsObjects Ans AnsClient Registry Clients Account Ibc IbcClient Sdk SdkApis Adapter App SdkModules DexStandard Dex StakingStandard StakingIntegrations.
From Stdlib Require Import Ascii String.
#[local] Open Scope string_scope.
#[local] Open Scope list_scope.
#[local] Open Scope Z_scope.

Definition STAKING_VERSION : string := "0.26.1".

Section staking.
Context `{Semver, Api, Instantiate2, CwOwnable, CoinsOps, Sha256, CwAsset, !CwAssetMsgs, !CwAssetKinds}.
Context `{!Querier, !Registries, !Accounts, !AnsHosts, !ComparatorParse}.

(** The integrations with providers (src/integrations), and the features the
    adapter is built with *)
Class StakingProviders := { provider_of : string → CwStakingCommand; provider_feature : string → bool }.
Context `{!StakingProviders}.

(** ** Providers (resolver.rs) *)

Definition identify_provider (value : string) : outcome CwStakingError Identify :=
  if decide (value ∈ [WYNDEX; BOW; OSMOSIS; ASTROVAULT]) then Ok (staking_identify (provider_of value))
  else Err (UnknownStaking value).
Definition staking_feature (name : string) : option string :=
  if decide (name = WYNDEX) then Some "wynd"
  else if decide (name ∈ [OSMOSIS; ASTROPORT; BOW; ASTROVAULT]) then Some name
  else None.
Definition resolve_local_provider (name : string) : outcome CwStakingError CwStakingCommand :=
  match staking_feature name with
  | Some feature => if provider_feature feature then Ok (provider_of name) else Err (ForeignStaking name)
  | None => Err (ForeignStaking name)
  end.
Definition staking_over_ibc (env : Env) (platform_name : string) : outcome CwStakingError (string * bool) :=
  let '(chain_name, local_platform_name) := decompose_platform_name platform_name in
  let elsewhere := match chain_name with Some c => negb (is_current_chain env c) | None => false end in
  if elsewhere then Ok (local_platform_name, true) else
  platform_id ← identify_provider local_platform_name;
  guard_or (is_available_on platform_id env chain_name)
    (UnknownStakingOnThisPlatform platform_name chain_name) ≫= λ _,
  Ok (local_platform_name, false).

Abbreviation StkState := (Adapter.State unit).
Abbreviation StkM := (M StkState CwStakingError).
Abbreviation StkResponse := (Response ModuleMsg).
Context `{!ToJson IbcClient.ExecuteMsg, !ToJson (Adapter.ExecuteMsg StakingExecuteMsg)}.

(** ** Actions (adapter.rs) *)

Definition staking_assets_from_action (action : StakingAction) : list AssetEntry :=
  match action with
  | Stake staking_tokens _ | Unstake staking_tokens _ => aa_name <$> staking_tokens
  | ClaimRewards staking_tokens => staking_tokens
  | ClaimUnbonded staking_token => staking_token
  end.
(** The data a provider fetches for the adapter: the name service first *)
Definition provider_data (base : Features) (sender : option Addr) (names : list AssetEntry)
    (provider : CwStakingCommand) : outcome CwStakingError (staking_data provider) :=
  ans ← map_err StkSdk (f_ans_host base);
  registry ← map_err StkSdk (f_registry base);
  staking_fetch_data provider sender ans registry names (staking_default provider).
Definition provider_msgs (provider : CwStakingCommand) (data : staking_data provider) (action : StakingAction) :
    outcome CwStakingError (list CosmosMsg) :=
  match action with
  | Stake assets unbonding_period => staking_stake provider data assets unbonding_period
  | Unstake assets unbonding_period => staking_unstake provider data assets unbonding_period
  | ClaimRewards _ => staking_claim_rewards provider data
  | ClaimUnbonded _ => staking_claim provider data
  end.
Definition resolve_staking_action (base : Features) (target_account : Addr) (action : StakingAction)
    (provider : CwStakingCommand) : outcome CwStakingError (SubMsg ModuleMsg) :=
  data ← provider_data base (Some target_account) (staking_assets_from_action action) provider;
  msgs ← provider_msgs provider data action;
  account_msg ← map_err StkSdk (executor_execute (f_account base) ((λ m, [m]) <$> msgs));
  Ok (send account_msg).

(** ** Requests (handlers/execute.rs) *)

Definition stk_handle_local_request (base : Features) (action : StakingAction) (provider_name : string) :
    outcome CwStakingError StkResponse :=
  provider ← resolve_local_provider provider_name;
  target_account ← map_err StkSdk (f_account base);
  sub ← resolve_staking_action base target_account action provider;
  Ok (mkResponse "" [sub]).
Definition stk_resolve_assets_to_transfer (ans_host : Addr) (action : StakingAction) :
    outcome CwStakingError (list Coin) :=
  match action with
  | Stake assets _ =>
      resolved ← map_err StkAnsHost (omapM (resolved_asset ans_host) assets);
      omapM (λ a, ok_or (asset_to_coin a) StkAsset) resolved
  | _ => Ok []
  end.
(** The callback it prepares is not used. *)
Definition stk_handle_ibc_request (base : Features) (provider_name : string) (action : StakingAction) :
    outcome CwStakingError StkResponse :=
  host_chain ← map_err StkAbstract (chain_from_string provider_name);
  ans ← name_service (f_ans_host base);
  coins ← stk_resolve_assets_to_transfer ans action;
  ics20_transfer_msg ← map_err StkSdk (ics20_transfer base host_chain coins None None);
  ibc_action_msg ← map_err StkSdk (execute_on_module base host_chain CW_STAKING_ADAPTER_ID
    (request_msg (mkStakingExecute provider_name action)));
  Ok (mkResponse "" [send ics20_transfer_msg; send ibc_action_msg]).

Definition CwStakingAdapter : Type := AbstractContract (option Addr) StkState CwStakingError ModuleMsg
  unit StakingExecuteMsg StakingQueryMsg unit unit.
(** The features of the adapter: it has no dependencies. *)
Definition stk_features (target_account : option Addr) (s : StkState) : Features :=
  mkFeatures CW_STAKING_ADAPTER_ID [] (Adapter.account target_account) (Adapter.abstract_registry s) (Adapter.ans_host s).
Definition stk_execute (base : Features) (env : Env) (msg : StakingExecuteMsg) : outcome CwStakingError StkResponse :=
  '(local_provider_name, over_ibc) ← staking_over_ibc env (provider msg);
  if over_ibc : bool then stk_handle_ibc_request base local_provider_name (action msg)
  else stk_handle_local_request base (action msg) local_provider_name.
Definition stk_execute_handler (env : Env) (info : MessageInfo) (target_account : option Addr)
    (msg : StakingExecuteMsg) : StkM StkResponse :=
  s ← gets id; lift (stk_execute (stk_features target_account s) env msg).

(** ** Queries (handlers/query.rs) *)

(** The text of an error, and the JSON of the responses *)
Class StakingJson := { staking_error_text : CwStakingError → string; staking_to_json : StakingResponse → string }.
Context `{!StakingJson}.
(** What the four queries begin with: the provider, and its data *)
Definition query_provider (base : Features) (ans_host registry : Addr) (env : Env) (provider : string)
    (staking_tokens : list AssetEntry) : outcome CwStakingError { p : CwStakingCommand & staking_data p } :=
  '(local_provider_name, over_ibc) ← staking_over_ibc env provider;
  if over_ibc : bool then Err IbcQueryNotSupported else
  p ← map_err (λ e, StkStd (StdMsg (staking_error_text e))) (resolve_local_provider local_provider_name);
  data ← staking_fetch_data p None ans_host registry staking_tokens (staking_default p);
  Ok (existT p data).
Definition stk_answer (base : Features) (env : Env) (msg : StakingQueryMsg) : outcome CwStakingError StakingResponse :=
  ans_host ← name_service (f_ans_host base);
  registry ← map_err StkSdk (f_registry base);
  match msg with
  | QueryInfo provider staking_tokens =>
      x ← query_provider base ans_host registry env provider staking_tokens;
      infos ← staking_query_info (projT1 x) (projT2 x);
      Ok (StakingInfoResponse infos)
  | QueryStaked provider stakes staker_address unbonding_period =>
      x ← query_provider base ans_host registry env provider stakes;
      staker ← map_err StkStd (addr_validate_r staker_address);
      amounts ← staking_query_staked (projT1 x) (projT2 x) staker stakes unbonding_period;
      Ok (StakeResponse amounts)
  | QueryUnbonding provider staking_tokens staker_address =>
      x ← query_provider base ans_host registry env provider staking_tokens;
      staker ← map_err StkStd (addr_validate_r staker_address);
      claims ← staking_query_unbonding (projT1 x) (projT2 x) staker;
      Ok (UnbondingResponse claims)
  | QueryRewardTokens provider staking_tokens =>
      x ← query_provider base ans_host registry env provider staking_tokens;
      tokens ← staking_query_rewards (projT1 x) (projT2 x);
      Ok (RewardTokensResponse tokens)
  end.
Definition stk_query_handler (env : Env) (target_account : option Addr) (msg : StakingQueryMsg) (s : StkState) :
    outcome CwStakingError string :=
  r ← stk_answer (stk_features target_account s) env msg; Ok (staking_to_json r).

(** ** The contract (contract.rs) *)

Definition CW_STAKING_ADAPTER : CwStakingAdapter :=
  mkContract (CW_STAKING_ADAPTER_ID, STAKING_VERSION, None) [] None (Some stk_execute_handler)
    (Some stk_query_handler) None None ([], []) None None.
End staking.
