(* ===== verification/DexAstro.v ===== *)
(** * Integrations with Astroport and Astrovault

    integrations/astroport-adapter/src/dex.rs and
    integrations/astrovault-adapter/src/dex.rs: what the dex adapter sends to and
    asks of the pools of the two exchanges.  The messages and answers of Astroport
    are code outside the repository; those of Astrovault are in MiniAstrovault. *)

From S2P Require Import Prelude Cosmos Strings Objects Names AccountIds Fees ModuleFactory Ownership AnsObjects Ans AnsClient Registry Clients Account Ibc IbcClient Sdk SdkApis Adapter App SdkModules DexStandard Dex DexIntegrations StakingIntegrations MiniAstrovault.
From Stdlib Require Import Ascii String.
#[local] Open Scope string_scope.
#[local] Open Scope list_scope.
#[local] Open Scope Z_scope.

(** [Vec::swap_remove]: the element at an index, its place taken by the last;
    it traps out of range. *)
Definition swap_remove {A} (i : nat) (l : list A) : option (A * list A) :=
  match l !! i, last l with
  | Some x, Some y => Some (x, if decide (S i = List.length l) then removelast l else <[i := y]> (removelast l))
  | _, _ => None
  end.
(** [iter().position] *)
Definition position {A} (P : A → Prop) `{!∀ x, Decision (P x)} (l : list A) : option nat := fst <$> list_find P l.

Section integrations.
Context `{Semver, Api, CwOwnable, CwAsset, !CwAssetMsgs, !CwAssetKinds, !Accounts, !CwAssetSend, !Cw20Json}.
Abbreviation Sim := (outcome DexError (Z * Z * Z * bool)).
Abbreviation Msgs := (outcome DexError (list CosmosMsg)).

Definition pair_contract (pool_id : PoolAddress) : outcome DexError Addr := map_err DexAbstract (expect_contract pool_id).
(** The first two of the assets, taken with [swap_remove] *)
Definition first_two {A} (assets : list A) : outcome DexError (A * A) :=
  '(x, rest) ← unwrap (swap_remove 0 assets);
  '(y, _) ← unwrap (swap_remove 0 rest);
  Ok (x, y).
Definition dex_ask {A} (addr : Addr) (query : string) (read : string → option A) : outcome DexError A :=
  map_err DexStd (answer ← query_r (smart_query_of addr query); query_r (read answer)).

(** ** Astroport (astroport-adapter/src/dex.rs) *)

(** [astroport::asset::AssetInfo]: a denomination or a token *)
Abbreviation AstroportAssetInfo := (string + Addr)%type.
Class AstroportDexApi := {
  astroport_swap_json : AstroportAssetInfo * Z → option Z → option Z → string;
  astroport_hook_swap_json : option Z → option Z → string;
  (** the operations of a route, of what is offered and asked, and the spread *)
  astroport_route_json : list (AstroportAssetInfo * AstroportAssetInfo) → option Z → string;
  astroport_hook_route_json : list (AstroportAssetInfo * AstroportAssetInfo) → option Z → string;
  astroport_provide_json : (AstroportAssetInfo * Z) * (AstroportAssetInfo * Z) → option Z → string;
  astroport_hook_withdraw_json : string;
  astroport_simulation_json : AstroportAssetInfo * Z → string;
  astroport_simulation_of : string → option (Z * Z * Z)
}.
Section astroport.
Context `{!AstroportDexApi}.
Definition cw_asset_info_to_astroport (asset_info : asset_info) : outcome DexError AstroportAssetInfo :=
  match asset_kind asset_info with
  | IsNative denom => Ok (inl denom)
  | IsCw20 contract_addr => Ok (inr contract_addr)
  | IsOther => Err (unsupported asset_info)
  end.
Definition cw_asset_to_astroport (asset : Asset) : outcome DexError (AstroportAssetInfo * Z) :=
  info ← cw_asset_info_to_astroport (as_info asset); Ok (info, as_amount asset).
(** A message to the contract with what is offered, or from the token of the
    offer to the contract *)
Definition offered_to (pair_address : Addr) (offer_asset : Asset) (native : outcome DexError string) (hook : string) : Msgs :=
  match asset_kind (as_info offer_asset) with
  | IsNative _ =>
      msg ← native; c ← try_coin offer_asset;
      Ok [WasmExecute pair_address (Raw msg) [c]]
  | IsCw20 addr => Ok [WasmExecute addr (Raw (cw20_send_json pair_address (as_amount offer_asset) hook)) []]
  | IsOther => Panic
  end.
Definition astroport_swap (pool_id : PoolAddress) (offer_asset : Asset) (ask_asset : asset_info)
    (belief_price max_spread : option Z) : Msgs :=
  pair_address ← pair_contract pool_id;
  offered_to pair_address offer_asset
    (offer_asset ← cw_asset_to_astroport offer_asset; Ok (astroport_swap_json offer_asset belief_price max_spread))
    (astroport_hook_swap_json belief_price max_spread).
(** The operations of a route: every step offers what the one before asked for *)
Fixpoint route_operations (offer_asset_info : asset_info) (swap_route : list SwapNode) :
    outcome DexError (list (AstroportAssetInfo * AstroportAssetInfo)) :=
  match swap_route with
  | [] => Ok []
  | node :: swap_route =>
      offer ← cw_asset_info_to_astroport offer_asset_info;
      ask ← cw_asset_info_to_astroport (node_ask_asset node);
      operations ← route_operations (node_ask_asset node) swap_route;
      Ok ((offer, ask) :: operations)
  end.
(** To the contract of the first pool, whatever the others are *)
Definition astroport_swap_route (swap_route : list SwapNode) (offer_asset : Asset) (belief_price max_spread : option Z) : Msgs :=
  first_node ← unwrap (head swap_route);
  pair_address ← pair_contract (pool_id first_node);
  operations ← route_operations (as_info offer_asset) swap_route;
  offered_to pair_address offer_asset (Ok (astroport_route_json operations max_spread))
    (astroport_hook_route_json operations max_spread).
Definition astroport_simulate_swap (pool_id : PoolAddress) (offer_asset : Asset) (ask_asset : asset_info) : Sim :=
  pair_address ← pair_contract pool_id;
  offer_asset ← cw_asset_to_astroport offer_asset;
  '(return_amount, spread_amount, commission_amount) ←
    dex_ask pair_address (astroport_simulation_json offer_asset) astroport_simulation_of;
  Ok (return_amount, spread_amount, commission_amount, false).
Definition astroport_provide_liquidity (pool_id : PoolAddress) (offer_assets : list Asset) (max_spread : option Z) : Msgs :=
  pair_address ← pair_contract pool_id;
  if decide (2 < List.length offer_assets)%nat then Err (TooManyAssets 2) else
  '(msgs, offer_assets) ← one_sided (astroport_simulate_swap pool_id)
    (λ offer ask, astroport_swap pool_id offer ask None max_spread) offer_assets;
  astroport_assets ← omapM cw_asset_to_astroport offer_assets;
  assets ← first_two astroport_assets;
  Ok (msgs ++ cw_approve_msgs offer_assets pair_address ++
    [WasmExecute pair_address (Raw (astroport_provide_json assets max_spread)) (coins_in_assets offer_assets)]).
Definition astroport_withdraw_liquidity (pool_id : PoolAddress) (lp_token : Asset) : Msgs :=
  pair_address ← pair_contract pool_id;
  withdraw_msg ← ok_or (asset_send_msg lp_token pair_address astroport_hook_withdraw_json) DexAsset;
  Ok [withdraw_msg].
Definition AstroportDex : DexCommand :=
  mkDexCommand (platform ASTROPORT (NEUTRON_CHAINS ++ TERRA_CHAINS)) unit tt default_fetch_data
    (λ _, astroport_swap) (λ _, astroport_swap_route) (λ _, astroport_provide_liquidity)
    (λ _, astroport_withdraw_liquidity) (λ _, astroport_simulate_swap).
End astroport.

(** ** Astrovault (astrovault-adapter/src/dex.rs) *)

Definition STANDARD_POOL_FACTORY : string := "archway1cq6tgc32az7zpq5w7t2d89taekkn9q95g2g79ka6j46ednw7xkkq7n55a2".
Definition STABLE_POOL_FACTORY : string := "archway19yzx44k7w7gsjjhumkd4sh9r0z6lscq583hgpu9s4yyl00z9lahq0ptra0".
Definition RATIO_POOL_FACTORY : string := "archway1zlc00gjw4ecan3tkk5g0lfd78gyfldh4hvkv2g8z5qnwlkz9vqmsdfvs7q".
Section astrovault.
Context `{!ToJson AstrovaultDexQueryMsg, !ToJson AstrovaultDexExecuteMsg, !ToJson AstrovaultCw20HookMsg}.
Context `{!FromJson ConfigResponse, !FromJson PoolInfo, !FromJson SimulationResponse}.
Context `{!FromJson StablePoolQuerySwapSimulation, !FromJson SwapCalcResponse}.
Definition av_query {A} `{!FromJson A} (addr : Addr) (query : AstrovaultDexQueryMsg) : outcome DexError A :=
  dex_ask addr (to_json query) from_json.

(** The pool by its factory; a stable pool without settings traps. *)
Definition fetch_pool_type (pool : Addr) : outcome DexError AstrovaultPoolType :=
  config ← av_query pool AvConfig;
  if decide (factory config = STANDARD_POOL_FACTORY) then Ok Standard
  else if decide (factory config = STABLE_POOL_FACTORY) then
    settings ← unwrap (pool_settings config);
    Ok (StablePool (bool_decide (is_Some (xasset_mode_minter settings))))
  else if decide (factory config = RATIO_POOL_FACTORY) then Ok Ratio
  else Err (DexStd (StdMsg "Couldn't query the astrovault pool type")).
Definition cw_asset_info_to_astrovault (info : asset_info) : outcome DexError AstrovaultAssetInfo :=
  match asset_kind info with
  | IsNative denom => Ok (NativeToken denom)
  | IsCw20 contract_addr => Ok (Token contract_addr)
  | IsOther => Err (unsupported info)
  end.
Definition cw_asset_to_astrovault (asset : Asset) : outcome DexError AstrovaultAsset :=
  info ← cw_asset_info_to_astrovault (as_info asset); Ok (mkAstrovaultAsset info (as_amount asset)).
(** The index of an asset in a pool *)
Definition asset_index (pool_info : PoolInfo) (asset : AstrovaultAssetInfo) : outcome DexError nat :=
  ok_or (position (λ a, a = asset) (asset_infos pool_info))
    (ArgumentMismatch (show_astrovault_info asset) (show_astrovault_info <$> asset_infos pool_info)).
(** The index cast to a [u32] or a [u8] *)
Definition index_as (w : Z) (index : nat) : Z := Z.of_nat index mod 2 ^ w.

(** [native_swap], [cw20_swap] *)
Definition stable_index (pair_address : Addr) (ask_asset : asset_info) : outcome DexError Z :=
  pool_info ← av_query pair_address AvPoolInfo;
  ask_asset ← cw_asset_info_to_astrovault ask_asset;
  index ← asset_index pool_info ask_asset;
  Ok (index_as 32 index).
Definition native_swap (pool_type : AstrovaultPoolType) (pair_address : Addr) (offer_asset : Asset)
    (ask_asset : asset_info) : Msgs :=
  msg ← match pool_type with
    | Standard => a ← cw_asset_to_astrovault offer_asset; Ok (SwapStandard (Some a) None None None None)
    | StablePool _ => index ← stable_index pair_address ask_asset; Ok (SwapStable index None None)
    | Ratio => Ok (SwapRatio None None)
    end;
  c ← try_coin offer_asset;
  Ok [WasmExecute pair_address (Raw (to_json msg)) [c]].
Definition cw20_swap (cw20_addr : Addr) (pool_type : AstrovaultPoolType) (pair_address : Addr) (offer_asset : Asset)
    (ask_asset : asset_info) : Msgs :=
  msg ← match pool_type with
    | Standard => Ok (SwapStandard None None None None None)
    | StablePool _ => index ← stable_index pair_address ask_asset; Ok (SwapStable index None None)
    | Ratio => Ok (SwapRatio None None)
    end;
  Ok [WasmExecute cw20_addr (Raw (cw20_send_json pair_address (as_amount offer_asset) (to_json msg))) []].
Definition astrovault_swap (pool_id : PoolAddress) (offer_asset : Asset) (ask_asset : asset_info)
    (belief_price max_spread : option Z) : Msgs :=
  pair_address ← pair_contract pool_id;
  pool_type ← fetch_pool_type pair_address;
  match asset_kind (as_info offer_asset) with
  | IsNative _ => native_swap pool_type pair_address offer_asset ask_asset
  | IsCw20 addr => cw20_swap addr pool_type pair_address offer_asset ask_asset
  | IsOther => Panic
  end.
(** In a stable pool what is taken for the fee is the last but one of the
    amounts that are swapped to, not one of the fees. *)
Definition astrovault_simulate_swap (pool_id : PoolAddress) (offer_asset : Asset) (ask_asset : asset_info) : Sim :=
  pair_address ← pair_contract pool_id;
  pool_type ← fetch_pool_type pair_address;
  match pool_type with
  | Standard =>
      a ← cw_asset_to_astrovault offer_asset;
      r ← av_query pair_address (AvSimulation a);
      Ok (av_return_amount r, av_spread_amount r, av_commission_amount r, false)
  | StablePool _ =>
      pool_info ← av_query pair_address AvPoolInfo;
      ask ← cw_asset_info_to_astrovault ask_asset;
      ask_index ← asset_index pool_info ask;
      offer ← cw_asset_info_to_astrovault (as_info offer_asset);
      offer_index ← asset_index pool_info offer;
      r ← av_query pair_address
        (SwapSimulationStable (as_amount offer_asset) (index_as 32 offer_index) (index_as 32 ask_index));
      let popped := reverse (swap_to_assets_amount r) in
      Ok (default 0 (popped !! 0%nat), 0, default 0 (popped !! 1%nat), false)
  | Ratio =>
      pool_info ← av_query pair_address AvPoolInfo;
      offer ← cw_asset_info_to_astrovault (as_info offer_asset);
      offer_index ← asset_index pool_info offer;
      r ← av_query pair_address (SwapSimulationRatio (as_amount offer_asset) (index_as 8 offer_index));
      Ok (to_amount_minus_fee r, 0, fee_amount r, false)
  end.
(** The assets in the order of the pool; one that is not given is zero, one that
    the pool does not have is refused. *)
Fixpoint normalize_from (assets : list AstrovaultAsset) (assets_order : list AstrovaultAssetInfo) :
    list AstrovaultAsset * list AstrovaultAsset :=
  match assets_order with
  | [] => ([], assets)
  | item :: assets_order =>
      match position (λ a, av_info a = item) assets ≫= λ i, swap_remove i assets with
      | Some (found, assets) => let '(resulting_assets, rest) := normalize_from assets assets_order in
                                (found :: resulting_assets, rest)
      | None => let '(resulting_assets, rest) := normalize_from assets assets_order in
                (mkAstrovaultAsset item 0 :: resulting_assets, rest)
      end
  end.
Definition astrovault_assets_normalize_order (assets : list AstrovaultAsset) (assets_order : list AstrovaultAssetInfo) :
    outcome DexError (list AstrovaultAsset) :=
  match normalize_from assets assets_order with
  | (resulting_assets, []) => Ok resulting_assets
  | (_, a :: _) => Err (ArgumentMismatch (show_astrovault_asset a) (show_astrovault_info <$> assets_order))
  end.
Definition non_zero (coins : list Coin) : list Coin := filter (λ c, amount c ≠ 0) coins.
(** The message of a deposit, and its coins: zero amounts are left out where a
    pool takes them one at a time. *)
Definition liquidity_call (pool_type : AstrovaultPoolType) (pair_address : Addr) (assets : list AstrovaultAsset)
    (coins : list Coin) (max_spread : option Z) : outcome DexError (AstrovaultDexExecuteMsg * list Coin) :=
  match pool_type with
  | Standard =>
      assets ← first_two assets;
      Ok (AvProvideLiquidity assets max_spread None None, coins)
  | StablePool _ =>
      pool_info ← av_query pair_address AvPoolInfo;
      assets ← astrovault_assets_normalize_order assets (asset_infos pool_info);
      Ok (DepositStable (av_amount <$> assets) None None, non_zero coins)
  | Ratio =>
      pool_info ← av_query pair_address AvPoolInfo;
      assets ← astrovault_assets_normalize_order assets (asset_infos pool_info);
      a ← unwrap (assets !! 0%nat);
      b ← unwrap (assets !! 1%nat);
      Ok (DepositRatio (av_amount a, av_amount b) None None None, non_zero coins)
  end.
Definition astrovault_provide_liquidity (pool_id : PoolAddress) (offer_assets : list Asset) (max_spread : option Z) : Msgs :=
  pair_address ← pair_contract pool_id;
  pool_type ← fetch_pool_type pair_address;
  if decide (2 < List.length offer_assets)%nat then Err (TooManyAssets 2) else
  '(msgs, offer_assets) ← match pool_type with
    | Standard => one_sided (astrovault_simulate_swap pool_id)
        (λ offer ask, astrovault_swap pool_id offer ask None max_spread) offer_assets
    | _ => Ok ([], offer_assets)
    end;
  astrovault_assets ← omapM cw_asset_to_astrovault offer_assets;
  '(msg, coins) ← liquidity_call pool_type pair_address astrovault_assets (coins_in_assets offer_assets) max_spread;
  Ok (msgs ++ cw_approve_msgs offer_assets pair_address ++ [WasmExecute pair_address (Raw (to_json msg)) coins]).
(** Equal amounts are withdrawn from a stable pool, the first asset gets the
    remainder. *)
Definition withdraw_hook (pool_type : AstrovaultPoolType) (amount : Z) : AstrovaultCw20HookMsg :=
  match pool_type with
  | Standard => HookWithdrawLiquidity None
  | StablePool true => WithdrawalXassetMode None None
  | StablePool false => WithdrawalToLockupStable [amount / 2 + amount mod 2; amount / 2] None (Some true) None
  | Ratio => WithdrawalToLockupRatio None (Some true) None
  end.
Definition astrovault_withdraw_liquidity (pool_id : PoolAddress) (lp_token : Asset) : Msgs :=
  pair_address ← pair_contract pool_id;
  pool_type ← fetch_pool_type pair_address;
  withdraw_msg ← ok_or (asset_send_msg lp_token pair_address (to_json (withdraw_hook pool_type (as_amount lp_token)))) DexAsset;
  Ok [withdraw_msg].
Definition AstrovaultDex : DexCommand :=
  mkDexCommand (platform ASTROVAULT ARCHWAY_CHAINS) (option Addr) None set_sender (λ _, astrovault_swap)
    default_swap_route (λ _, astrovault_provide_liquidity) (λ _, astrovault_withdraw_liquidity)
    (λ _, astrovault_simulate_swap).
End astrovault.
End integrations.
