(* ===== verification/IcaClient.v ===== *)
(** * The ICA client contract

    framework/contracts/native/ica-client (contract.rs, queries.rs,
    chain_types/evm.rs, error.rs), packages/abstract-ica (action.rs,
    chain_type.rs, msg.rs) and abstract-std/src/native/ibc/ica_client.rs: the notes
    that lead to other chains, kept by an owner, and the messages an account sends
    to act on its interchain account there.  The messages for the other chain and
    the callback are kept in their JSON form; the contract of a note is code
    outside the repository. *)

From S2P Require Import Prelude Cosmos Strings Objects Names AccountIds Fees ModuleFactory Ownership AnsObjects Ans AnsClient Registry Clients Account Ibc SdkModules DexIntegrations StakingIntegrations.
From Stdlib Require Import Ascii String.
#[local] Open Scope string_scope.
#[local] Open Scope list_scope.
#[local] Open Scope Z_scope.

Definition CONTRACT_VERSION : string := "0.26.1".

(** ** Chains (chain_type.rs) *)

Inductive ChainType : Type := Evm | Cosmos_.
#[export] Instance ChainType_eq_dec : EqDecision ChainType.
Proof. solve_decision. Defined.
Definition show_chain_type (t : ChainType) : string := match t with Evm => "EVM" | Cosmos_ => "Cosmos" end.
Definition EVM_CHAINS : list string := ["bartio"; "sepolia"; "ethereum"].
Definition COSMOS_CHAINS : list string := ARCHWAY_CHAINS ++ NEUTRON_CHAINS ++ KUJIRA_CHAINS ++ TERRA_CHAINS ++
  OSMOSIS_CHAINS ++ JUNO_CHAINS ++ ["union-testnet"; "xion-testnet"].
Definition chain_type (chain : TruncatedChainId) : option ChainType :=
  if decide (chain ∈ EVM_CHAINS) then Some Evm
  else if decide (chain ∈ COSMOS_CHAINS) then Some Cosmos_ else None.

(** [error.rs] *)
Inductive IcaClientError : Type :=
  | IcaStd (e : StdError)
  | IcaAbstract (e : AbstractError)
  | IcaOwnership (e : OwnershipError)
  | IcaRegistry (e : RegistryQueryError)
  | IcaAnsHost (e : AnsHostError)
  | NoChainType (chain : string)
  | NoRecipient
  | WrongChainType (chain ty : string)
  | ChainExists.

(** ** Actions (action.rs, evm.rs) *)

Inductive IcaExecute : Type := IcaEvm (msgs : list string) (callback : option string).
Inductive IcaAction : Type :=
  | ExecuteIca (e : IcaExecute)
  | Fund (funds : list Coin) (receiver memo : option string).
Definition UCS01_PROTOCOL : string := "ucs01".
Definition UCS01_FORWARDER_CONTRACT : string := "forwarder".
Inductive Ucs01ForwarderExecuteMsg : Type :=
  | Transfer (channel receiver memo : string) (timeout : option Z).

(** ** State *)

Section state.
Context `{Semver, CwOwnable}.
(** [ICA_INFRA], of an [IcaInfrastructure] that only has the note *)
Record State := mkState {
  contract_version : option ContractVersion;
  module_data : option ModuleData;
  cw_ownership : option ownable;
  ica_infra : gmap TruncatedChainId Addr
}.
Definition set_contract_version (v : option ContractVersion) (s : State) : State :=
  mkState v (module_data s) (cw_ownership s) (ica_infra s).
Definition set_module_data (v : option ModuleData) (s : State) : State :=
  mkState (contract_version s) v (cw_ownership s) (ica_infra s).
Definition set_cw_ownership (v : option ownable) (s : State) : State :=
  mkState (contract_version s) (module_data s) v (ica_infra s).
Definition set_ica_infra (v : gmap TruncatedChainId Addr) (s : State) : State :=
  mkState (contract_version s) (module_data s) (cw_ownership s) v.
Definition empty_state : State := mkState None None None ∅.
(** [msg.rs] *)
Inductive ExecuteMsg : Type :=
  | UpdateOwnership (a : cw_action)
  | RegisterInfrastructure (chain : TruncatedChainId) (note : string)
  | RemoveHost (host_chain : TruncatedChainId).
Inductive MigrateMsg : Type := MigrateInstantiate | Migrate.
End state.

Section client.
Context `{Semver, Api, Instantiate2, CwOwnable, CwAsset}.
Context `{!Querier, !AnsHosts, !Accounts}.
(** The JSON of the calls of a note, what it answers about the account of a
    local address on the other chain, and texts in hexadecimal *)
Class EvmNotes := {
  note_execute_json : list string → option string → Z → string;
  remote_address_json : Addr → string;
  remote_address_of : string → option (option string);
  from_hex : string → option string
}.
Context `{!EvmNotes, !ToJson Ucs01ForwarderExecuteMsg}.

Abbreviation IcaM := (M State IcaClientError).
Abbreviation IcaResponse := (Response CosmosMsg).

(** ** Entry points (contract.rs) *)

Definition assert_owner (info : MessageInfo) : IcaM unit :=
  o ← gets cw_ownership;
  o ← lift (ok_or o (IcaStd (StdNotFound "ownership")));
  lift (map_err IcaOwnership (cw_assert_owner o (sender info))).
Definition execute_register_infrastructure (info : MessageInfo) (host_chain : TruncatedChainId) (note : string) :
    IcaM IcaResponse :=
  lift (map_err IcaAbstract (chain_verify host_chain)) ≫= λ _,
  assert_owner info ≫= λ _,
  note ← lift (map_err IcaStd (addr_validate_r note));
  infra ← gets (λ s, ica_infra s !! host_chain);
  ensure (bool_decide (infra = None)) ChainExists ≫= λ _,
  modify (λ s, set_ica_infra (<[host_chain := note]> (ica_infra s)) s) ≫= λ _,
  mret (mkResponse "register_infrastructure" []).
Definition execute_remove_host (info : MessageInfo) (host_chain : TruncatedChainId) : IcaM IcaResponse :=
  lift (map_err IcaAbstract (chain_verify host_chain)) ≫= λ _,
  assert_owner info ≫= λ _,
  modify (λ s, set_ica_infra (delete host_chain (ica_infra s)) s) ≫= λ _,
  mret (mkResponse "remove_host" []).
Definition execute (env : Env) (info : MessageInfo) (msg : ExecuteMsg) : IcaM IcaResponse :=
  match msg with
  | UpdateOwnership a =>
      o ← gets cw_ownership;
      o ← lift (ok_or o (IcaOwnership CwOther));
      o' ← lift (map_err IcaOwnership (cw_update_ownership o (block env) (sender info) a));
      modify (set_cw_ownership (Some o')) ≫= λ _,
      mret (mkResponse "update_ownership" [])
  | RegisterInfrastructure chain note => execute_register_infrastructure info chain note
  | RemoveHost host_chain => execute_remove_host info host_chain
  end.
Definition instantiate (info : MessageInfo) : IcaM IcaResponse :=
  modify (set_contract_version (Some (mkContractVersion ICA_CLIENT CONTRACT_VERSION))) ≫= λ _,
  o ← lift (ok_or (cw_initialize_owner (sender info)) (IcaStd (StdMsg "invalid address")));
  modify (set_cw_ownership (Some o)) ≫= λ _,
  mret (mkResponse "instantiate" []).
(** [migrate], with [migrate_instantiate]: the sender is the admin of the contract. *)
Definition migrate (env : Env) (msg : MigrateMsg) : IcaM IcaResponse :=
  cv ← gets contract_version;
  match msg with
  | MigrateInstantiate =>
      ensure (bool_decide (cv = None)) (IcaStd (StdMsg "Second instantiation attempt")) ≫= λ _,
      contract_info ← lift (map_err IcaStd (query_r (wasm_contract_info (contract_address env))));
      admin ← lift (unwrap (ci_admin contract_info));
      instantiate (mkInfo admin [])
  | Migrate =>
      to_version ← lift (unwrap (parse_version CONTRACT_VERSION));
      lift (map_err IcaAbstract (assert_cw_contract_upgrade cv ICA_CLIENT to_version)) ≫= λ _,
      modify (set_contract_version (Some (mkContractVersion ICA_CLIENT CONTRACT_VERSION))) ≫= λ _,
      modify (λ s, set_module_data (Some (migrate_module_data (module_data s) ICA_CLIENT CONTRACT_VERSION None)) s) ≫= λ _,
      mret (mkResponse "migrate" [])
  end.

(** ** Queries (queries.rs, chain_types/evm.rs) *)

Definition config (env : Env) : outcome IcaClientError (Addr * Addr) :=
  code_id ← map_err IcaStd (abstract_code_id (contract_address env));
  ans_host ← map_err IcaAbstract (ans_host_new code_id);
  registry ← map_err IcaAbstract (registry_new code_id);
  Ok (ans_host, registry).
Definition evm_execute (note_addr : Addr) (msgs : list string) (callback : option string) : CosmosMsg :=
  WasmExecute note_addr (Raw (note_execute_json msgs callback PACKET_LIFETIME)) [].
(** The receiver that is given, or the account the note has for the client
    itself on the other chain *)
Definition recipient (env : Env) (note_addr : Addr) (receiver : option string) : outcome IcaClientError string :=
  match receiver with
  | Some r => Ok r
  | None =>
      remote_acc ← map_err IcaStd (answer ← query_r (smart_query_of note_addr (remote_address_json (contract_address env)));
        query_r (remote_address_of answer));
      match remote_acc with
      | Some remote => ok_or (from_hex remote) (IcaStd (StdMsg "from_hex"))
      | None => Err NoRecipient
      end
  end.
Definition send_funds (env : Env) (note_addr : Addr) (evm_chain : TruncatedChainId) (funds : list Coin)
    (receiver memo : option string) : outcome IcaClientError CosmosMsg :=
  code_id ← map_err IcaStd (abstract_code_id (contract_address env));
  receiver ← recipient env note_addr receiver;
  ans_host ← map_err IcaAbstract (ans_host_new code_id);
  ics20_channel_id ← map_err IcaAnsHost (query_channel ans_host (mkChannelEntry evm_chain UCS01_PROTOCOL));
  ucs_forwarder_addr ← map_err IcaAnsHost
    (query_contract ans_host (mkContractEntry UCS01_PROTOCOL UCS01_FORWARDER_CONTRACT));
  Ok (WasmExecute ucs_forwarder_addr
    (Raw (to_json (Transfer ics20_channel_id receiver (default "" memo) (Some 3600)))) funds).
(** Funding a chain that is not an EVM chain is not implemented. *)
Definition process_action (env : Env) (chain : TruncatedChainId) (ty : ChainType) (note : Addr) (a : IcaAction) :
    outcome IcaClientError (list CosmosMsg) :=
  match a with
  | ExecuteIca (IcaEvm msgs callback) =>
      guard_or (bool_decide (ty = Evm)) (WrongChainType chain (show_chain_type ty)) ≫= λ _,
      Ok [evm_execute note msgs callback]
  | Fund funds receiver memo =>
      match ty with
      | Evm => m ← send_funds env note chain funds receiver memo; Ok [m]
      | Cosmos_ => Panic
      end
  end.
Definition ica_action (s : State) (env : Env) (account_address : string) (chain : TruncatedChainId)
    (actions : list IcaAction) : outcome IcaClientError (list CosmosMsg) :=
  ty ← ok_or (chain_type chain) (NoChainType chain);
  note ← ok_or (ica_infra s !! chain) (NoChainType chain);
  msgs ← omapM (process_action env chain ty note) actions;
  Ok (List.concat msgs).
End client.
