(* ===== verification/MoneyMarketIntegrations.v ===== *)
(** * Integrations with money markets

    integrations/kujira-adapter/src/money_market.rs (Ghost) and
    mars-adapter/src/money_market.rs (Mars): what the money market adapter sends
    to and asks of the two markets.  The messages, queries and answers of the
    markets, in JSON, are code outside the repository. *)

From S2P Require Import Prelude Cosmos Strings Objects Names AccountIds Fees ModuleFactory Ownership AnsObjects Ans AnsClient Registry Clients Account Ibc Sdk SdkApis Adapter DexStandard DexIntegrations MoneyMarketStandard MoneyMarket.
From Stdlib Require Import Ascii String.
#[local] Open Scope string_scope.
#[local] Open Scope list_scope.
#[local] Open Scope Z_scope.

(** [mars-adapter/src/lib.rs], without the feature [local] *)
Definition MARS_CHAINS : list string := ["pion"; "neutron"; "osmosis"; "osmo"; "osmo-test"].

(** [Decimal] products and quotients, which trap when they do not fit or divide
    by zero, [Decimal::checked_div], and [to_uint_floor]. *)
Class DecimalDiv := {
  dec_mul : Z → Z → option Z;
  dec_div : Z → Z → option Z;
  dec_floor : Z → Z
}.
Class DecimalDivLaws `{DecimalDiv} : Prop := {
  dec_mul_spec a b : 0 ≤ a → 0 ≤ b →
    dec_mul a b = if decide (a * b / DECIMAL_ONE < 2 ^ 128) then Some (a * b / DECIMAL_ONE) else None;
  dec_div_spec a b : 0 ≤ a → 0 < b →
    dec_div a b = if decide (a * DECIMAL_ONE / b < 2 ^ 128) then Some (a * DECIMAL_ONE / b) else None;
  dec_div_zero a : dec_div a 0 = None;
  dec_floor_spec a : 0 ≤ a → dec_floor a = a / DECIMAL_ONE
}.

Section integrations.
Context `{Semver, Api, CwOwnable, CwAsset, !CwAssetMsgs, !CwAssetKinds, !Accounts, !AnsHosts, !DecimalOps, !DecimalDiv}.
Abbreviation MmMsgs := (outcome MoneyMarketError (list CosmosMsg)).

Definition mm_try_coin (a : Asset) : outcome MoneyMarketError Coin := ok_or (asset_to_coin a) MmAsset.
(** [unwrap_native]: other kinds of assets trap *)
Definition unwrap_native_denom (i : asset_info) : outcome MoneyMarketError string :=
  match asset_kind i with IsNative denom => Ok denom | IsCw20 _ => Err ExpectedNative | IsOther => Panic end.
(** A query of a contract, its answer read *)
Definition mm_ask {A} (addr : Addr) (query : string) (read : string → option A) : outcome StdError A :=
  answer ← query_r (smart_query_of addr query); query_r (read answer).

(** ** Ghost, on Kujira *)

Class GhostApi := {
  vault_deposit_json : string;
  vault_withdraw_json : string;
  market_deposit_json : string;
  market_withdraw_json : Z → string;
  market_borrow_json : Z → string;
  market_repay_json : string;
  (** the denomination of receipts; the redemption ratio *)
  vault_config_json : string;
  vault_config_of : string → option string;
  vault_status_json : string;
  vault_status_of : string → option Z;
  (** collateral and debt shares of a position; the maximal LTV *)
  market_position_json : Addr → string;
  market_position_of : string → option (Z * Z);
  market_config_json : string;
  market_config_of : string → option Z;
  (** the exchange rate of a denomination, normalized to six digits, and the
      quotient of two of them *)
  normalized_rate : string → option Z;
  normalized_div : Z → Z → option Z;
  (** the balance of an address in a denomination *)
  bank_balance : Addr → string → option Z
}.
Section ghost.
Context `{!GhostApi}.
Definition ghost_deposit (contract_addr : Addr) (asset : Asset) : MmMsgs :=
  c ← mm_try_coin asset; Ok [WasmExecute contract_addr (Raw vault_deposit_json) [c]].
Definition ghost_withdraw (contract_addr : Addr) (asset : Asset) : MmMsgs :=
  receipt_denom ← map_err MmStd (mm_ask contract_addr vault_config_json vault_config_of);
  deposit_redemption_ratio ← map_err MmStd (mm_ask contract_addr vault_status_json vault_status_of);
  amount ← unwrap (decimal_from_ratio (as_amount asset) 1);
  receipts ← unwrap (dec_div amount deposit_redemption_ratio);
  Ok [WasmExecute contract_addr (Raw vault_withdraw_json) [mkCoin receipt_denom (dec_floor receipts)]].
Definition ghost_provide_collateral (contract_addr : Addr) (asset : Asset) : MmMsgs :=
  c ← mm_try_coin asset; Ok [WasmExecute contract_addr (Raw market_deposit_json) [c]].
Definition ghost_withdraw_collateral (contract_addr : Addr) (asset : Asset) : MmMsgs :=
  Ok [WasmExecute contract_addr (Raw (market_withdraw_json (as_amount asset))) []].
Definition ghost_borrow (contract_addr : Addr) (asset : Asset) : MmMsgs :=
  Ok [WasmExecute contract_addr (Raw (market_borrow_json (as_amount asset))) []].
Definition ghost_repay (contract_addr : Addr) (asset : Asset) : MmMsgs :=
  c ← mm_try_coin asset; Ok [WasmExecute contract_addr (Raw market_repay_json) [c]].
(** [exchange_rate], [normalize] *)
Definition exchange_rate (denom : string) : outcome MoneyMarketError Z :=
  map_err MmStd (query_r (normalized_rate denom)).
Definition ghost_price (base quote : asset_info) : outcome MoneyMarketError Z :=
  base_denom ← unwrap_native_denom base;
  quote_denom ← unwrap_native_denom quote;
  base_price ← exchange_rate base_denom;
  quote_price ← exchange_rate quote_denom;
  unwrap (normalized_div base_price quote_price).
Definition ghost_user_deposit (vault_addr user : Addr) (asset : asset_info) : outcome MoneyMarketError Z :=
  receipt_denom ← map_err MmStd (mm_ask vault_addr vault_config_json vault_config_of);
  map_err MmStd (query_r (bank_balance user receipt_denom)).
(** A failed query of a position counts as none. *)
Definition ghost_position (market_addr user : Addr) : Z * Z :=
  default (0, 0) (ok (mm_ask market_addr (market_position_json user) market_position_of)).
Definition ghost_user_collateral (market_addr user : Addr) (borrowed_asset collateral_asset : asset_info) :
    outcome MoneyMarketError Z := Ok (ghost_position market_addr user).1.
Definition ghost_user_borrow (contract_addr user : Addr) (borrowed_asset collateral_asset : asset_info) :
    outcome MoneyMarketError Z := Ok (ghost_position contract_addr user).2.
(** The assets are passed on in the other order; nothing depends on it. *)
Definition ghost_current_ltv (market_addr user : Addr) (borrowed_asset collateral_asset : asset_info) :
    outcome MoneyMarketError Z :=
  collateral ← ghost_user_collateral market_addr user collateral_asset borrowed_asset;
  borrow ← ghost_user_borrow market_addr user collateral_asset borrowed_asset;
  collateral_price ← ghost_price collateral_asset borrowed_asset;
  collateral ← unwrap (decimal_from_ratio collateral 1);
  collateral_value ← unwrap (dec_mul collateral collateral_price);
  if decide (collateral_value = 0) then Ok 0 else
  borrow ← unwrap (decimal_from_ratio borrow 1);
  unwrap (dec_div borrow collateral_value).
Definition ghost_max_ltv (market_addr user : Addr) (borrowed_asset collateral_asset : asset_info) :
    outcome MoneyMarketError Z :=
  map_err MmStd (mm_ask market_addr market_config_json market_config_of).
(** [vault_address], [market_address] *)
Definition vault_address (host : Addr) (lending_asset : AssetEntry) : outcome AnsHostError Addr :=
  query_contract host (mkContractEntry GHOST ("vault/" +:+ lending_asset)).
Definition market_address (host : Addr) (lending_asset collateral_asset : AssetEntry) : outcome AnsHostError Addr :=
  query_contract host (mkContractEntry GHOST ("market/" +:+ lending_asset +:+ "/" +:+ collateral_asset)).
Definition Ghost : MoneyMarketCommand :=
  mkMoneyMarketCommand (platform GHOST KUJIRA_CHAINS) unit tt mm_default_fetch_data
    (λ _, vault_address) (λ _, market_address) (λ _, market_address) (λ _, market_address) (λ _, market_address)
    (λ _, ghost_deposit) (λ _, ghost_withdraw) (λ _, ghost_provide_collateral) (λ _, ghost_withdraw_collateral)
    (λ _, ghost_borrow) (λ _, ghost_repay) (λ _, ghost_price) (λ _, ghost_user_deposit) (λ _, ghost_user_collateral)
    (λ _, ghost_user_borrow) (λ _, ghost_current_ltv) (λ _, ghost_max_ltv).
End ghost.

(** ** Mars, on Neutron and Osmosis *)

Class MarsApi := {
  mars_deposit_json : string;
  mars_withdraw_json : string → Z → string;
  mars_borrow_json : string → Z → string;
  mars_repay_json : string;
  mars_price_json : string → string;
  mars_price_of : string → option Z;
  mars_collateral_json : Addr → string → string;
  mars_debt_json : Addr → string → string;
  mars_amount_of : string → option Z;
  (** collateralized debt, enabled collateral, and collateral weighted by the
      maximal LTV *)
  mars_position_json : Addr → string;
  mars_position_of : string → option (Z * Z * Z)
}.
Section mars.
Context `{!MarsApi}.
(** The data: the oracle contract *)
Definition mars_fetch_data (sender host : Addr) (oracle : option Addr) : outcome MoneyMarketError (option Addr) :=
  a ← map_err MmAnsHost (query_contract host (mkContractEntry MARS "oracle")); Ok (Some a).
Definition mars_deposit (contract_addr : Addr) (asset : Asset) : MmMsgs :=
  c ← mm_try_coin asset; Ok [WasmExecute contract_addr (Raw mars_deposit_json) [c]].
Definition mars_withdraw (contract_addr : Addr) (lending_asset : Asset) : MmMsgs :=
  denom ← unwrap_native_denom (as_info lending_asset);
  Ok [WasmExecute contract_addr (Raw (mars_withdraw_json denom (as_amount lending_asset))) []].
Definition mars_provide_collateral (contract_addr : Addr) (asset : Asset) : MmMsgs :=
  c ← mm_try_coin asset; Ok [WasmExecute contract_addr (Raw mars_deposit_json) [c]].
Definition mars_withdraw_collateral (contract_addr : Addr) (asset : Asset) : MmMsgs :=
  denom ← unwrap_native_denom (as_info asset);
  Ok [WasmExecute contract_addr (Raw (mars_withdraw_json denom (as_amount asset))) []].
Definition mars_borrow (contract_addr : Addr) (asset : Asset) : MmMsgs :=
  denom ← unwrap_native_denom (as_info asset);
  Ok [WasmExecute contract_addr (Raw (mars_borrow_json denom (as_amount asset))) []].
Definition mars_repay (contract_addr : Addr) (asset : Asset) : MmMsgs :=
  c ← mm_try_coin asset; Ok [WasmExecute contract_addr (Raw mars_repay_json) [c]].
Definition mars_price (oracle : option Addr) (base quote : asset_info) : outcome MoneyMarketError Z :=
  oracle_contract ← unwrap oracle;
  base ← unwrap_native_denom base;
  base_price ← map_err MmStd (mm_ask oracle_contract (mars_price_json base) mars_price_of);
  quote ← unwrap_native_denom quote;
  quote_price ← map_err MmStd (mm_ask oracle_contract (mars_price_json quote) mars_price_of);
  ok_or (dec_div base_price quote_price) MmFromRatio.
Definition mars_user_deposit (contract_addr user : Addr) (asset : asset_info) : outcome MoneyMarketError Z :=
  denom ← unwrap_native_denom asset;
  map_err MmStd (mm_ask contract_addr (mars_collateral_json user denom) mars_amount_of).
Definition mars_user_collateral (contract_addr user : Addr) (borrowed_asset collateral_asset : asset_info) :
    outcome MoneyMarketError Z :=
  denom ← unwrap_native_denom collateral_asset;
  map_err MmStd (mm_ask contract_addr (mars_collateral_json user denom) mars_amount_of).
Definition mars_user_borrow (contract_addr user : Addr) (borrowed_asset collateral_asset : asset_info) :
    outcome MoneyMarketError Z :=
  denom ← unwrap_native_denom borrowed_asset;
  map_err MmStd (mm_ask contract_addr (mars_debt_json user denom) mars_amount_of).
Definition mars_current_ltv (contract_addr user : Addr) (borrowed_asset collateral_asset : asset_info) :
    outcome MoneyMarketError Z :=
  '(debt, enabled, _) ← map_err MmStd (mm_ask contract_addr (mars_position_json user) mars_position_of);
  if decide (enabled = 0) then Ok 0 else unwrap (decimal_from_ratio debt enabled).
Definition mars_max_ltv (contract_addr user : Addr) (borrowed_asset collateral_asset : asset_info) :
    outcome MoneyMarketError Z :=
  '(_, enabled, weighted) ← map_err MmStd (mm_ask contract_addr (mars_position_json user) mars_position_of);
  if decide (enabled = 0) then Ok 0 else unwrap (decimal_from_ratio weighted enabled).
Definition red_bank (host : Addr) : outcome AnsHostError Addr := query_contract host (mkContractEntry MARS "red-bank").
Definition Mars : MoneyMarketCommand :=
  mkMoneyMarketCommand (platform MARS MARS_CHAINS) (option Addr) None mars_fetch_data
    (λ _ host _, red_bank host) (λ _ host _ _, red_bank host) (λ _ host _ _, red_bank host)
    (λ _ host _ _, red_bank host) (λ _ host _ _, red_bank host)
    (λ _, mars_deposit) (λ _, mars_withdraw) (λ _, mars_provide_collateral) (λ _, mars_withdraw_collateral)
    (λ _, mars_borrow) (λ _, mars_repay) mars_price (λ _, mars_user_deposit) (λ _, mars_user_collateral)
    (λ _, mars_user_borrow) (λ _, mars_current_ltv) (λ _, mars_max_ltv).
End mars.
End integrations.
