(* ===== verification/AccountProofs.v ===== *)
(** * Properties of the account: who may do what

    The whitelist, the authorisation of every message, suspension, and the
    creation of an account. *)

From S2P Require Import Prelude Cosmos Strings Objects Names AccountIds Fees ModuleFactory Ownership Registry Clients Account.
From Stdlib Require Import Ascii String.
#[local] Open Scope string_scope.
#[local] Open Scope list_scope.
#[local] Open Scope Z_scope.

(** ** Lists *)

Lemma length_filter_le {A} (P : A → Prop) `{!∀ x, Decision (P x)} (l : list A) :
  (List.length (filter P l) + List.length (filter (λ x, ¬ P x) l) = List.length l)%nat.
Proof.
  induction l as [|x l IH]; [done|]. rewrite !filter_cons. repeat case_decide; simpl; lia || done.
Qed.
(** Removing the elements of [r] from [l] removes as many elements as [r] has
    exactly when [r] lists elements of [l], each once. *)
Lemma length_filter_not_in `{EqDecision A} (l r : list A) :
  NoDup l →
  (List.length (filter (λ x, x ∉ r) l) + List.length r = List.length l)%nat ↔ NoDup r ∧ r ⊆ l.
Proof.
  intros Hl. set (k := filter (λ x : A, ¬ (x ∉ r)) l).
  assert (List.length (filter (λ x, x ∉ r) l) + List.length k = List.length l)%nat as Hlen
    by apply length_filter_le.
  assert (NoDup k) as Hk by (by apply NoDup_filter).
  assert (∀ x, x ∈ k ↔ x ∈ l ∧ x ∈ r) as Hin.
  { intros x. unfold k. rewrite list_elem_of_filter. destruct (decide (x ∈ r)); tauto. }
  split.
  - intros He. assert (List.length r = List.length k) as Hr by lia.
    assert (k ⊆+ r) as Hs by (apply NoDup_submseteq; [done|]; intros x Hx; by apply Hin).
    assert (k ≡ₚ r) as Hp by (apply submseteq_length_Permutation; [done|lia]).
    split; [by rewrite <-Hp|]. intros x Hx. rewrite <-Hp in Hx. by apply Hin in Hx as [? _].
  - intros [Hr Hs]. assert (k ≡ₚ r) as Hp.
    { apply NoDup_Permutation; [done..|]. intros x. rewrite Hin. split; [tauto|]. auto. }
    rewrite <-(Permutation_length Hp). lia.
Qed.

(** ** The whitelist *)

Section whitelist.
Context `{Semver, CwOwnable}.

Lemma whitelist_push_Ok w to_add w' :
  NoDup w → whitelist_push w to_add = Ok w' ↔ w' = w ++ to_add ∧ NoDup (w ++ to_add).
Proof.
  revert w. induction to_add as [|a l IH]; intros w Hw; simpl.
  - rewrite app_nil_r. split; [intros [= ->]; done|by intros [-> _]].
  - assert (NoDup (w ++ a :: l) → a ∉ w) as Ha.
    { rewrite NoDup_app. intros (_ & Hd & _) Hin. apply (Hd a Hin). left. }
    case_decide as Hin; [split; [done|]; intros [_ Hn]; by apply Ha in Hn|].
    rewrite IH.
    + by rewrite <-app_assoc.
    + apply NoDup_app. split; [done|]. split; [|apply NoDup_singleton].
      intros x Hx Hx'. apply list_elem_of_singleton in Hx'. by subst.
Qed.

(** What the whitelist always is. *)
Definition whitelist_ok (w : list Addr) : Prop :=
  NoDup w ∧ Z.of_nat (List.length w) ≤ WHITELIST_SIZE_LIMIT.

Lemma update_whitelisted_Ok to_add to_remove s w s' u :
  whitelisted_modules s = Some w → NoDup w →
  update_whitelisted_modules to_add to_remove s = Ok (u, s') ↔
  NoDup (w ++ to_add) ∧ NoDup to_remove ∧ to_remove ⊆ w ++ to_add ∧
  Z.of_nat (List.length (w ++ to_add) - List.length to_remove) ≤ WHITELIST_SIZE_LIMIT ∧
  s' = set_whitelisted_modules (Some (filter (λ a, a ∉ to_remove) (w ++ to_add))) s.
Proof.
  intros Hs Hw. destruct u. unfold update_whitelisted_modules, load.
  pose proof (length_filter_not_in (w ++ to_add) to_remove) as Hf. rewrite length_app in Hf.
  split.
  - intros Hu. inv_ok. rewrite Hs in *. simplify_eq.
    repeat match goal with
    | Hc : checked_sub _ _ = Some _ |- _ => apply checked_sub_Some in Hc as [-> Hle]
    | Hb : bool_decide _ = true |- _ => apply bool_decide_eq_true in Hb
    | Hp : whitelist_push _ _ = Ok _ |- _ => apply whitelist_push_Ok in Hp as [-> Hnd]; [|done]
    end.
    destruct (proj1 (Hf Hnd)) as [Hr Hsub]; [lia|].
    split_and!; [done..| |done]. rewrite length_app. lia.
  - intros (Hnd & Hr & Hsub & Hlen & ->). rewrite length_app in Hlen.
    specialize (Hf Hnd) as [_ Hf]. specialize (Hf (conj Hr Hsub)).
    unfold mbind, M_bind, gets, lift, modify, ensure, lift. rewrite Hs. simpl.
    unfold checked_sub. rewrite decide_True by lia. simpl.
    rewrite bool_decide_true by lia. simpl.
    rewrite (proj2 (whitelist_push_Ok w to_add _ Hw) (conj eq_refl Hnd)). simpl.
    by rewrite bool_decide_true by lia.
Qed.

Lemma update_whitelisted_keeps to_add to_remove s u s' :
  update_whitelisted_modules to_add to_remove s = Ok (u, s') →
  ∃ w', s' = set_whitelisted_modules (Some w') s ∧
    (∀ w, whitelisted_modules s = Some w → whitelist_ok w → whitelist_ok w').
Proof.
  intros Hu. destruct (whitelisted_modules s) as [w|] eqn:Hs.
  2: { unfold update_whitelisted_modules, load in Hu. inv_ok. rewrite Hs in *. done. }
  destruct (decide (NoDup w)) as [Hw|Hw].
  - destruct (proj1 (update_whitelisted_Ok _ _ _ w _ _ Hs Hw) Hu) as (Hnd & Hr & Hsub & Hlen & Heq).
    eexists. split; [exact Heq|]. intros w1 _ _. split; [exact (NoDup_filter _ _ Hnd)|].
    pose proof (length_filter_not_in (w ++ to_add) to_remove Hnd) as [_ Hf].
    specialize (Hf (conj Hr Hsub)). rewrite length_app in *. lia.
  - unfold update_whitelisted_modules, load in Hu. inv_ok. eexists. split; [done|].
    intros w1 Hw1 [? _]. congruence.
Qed.
End whitelist.

(** ** Histories *)

Section histories.
Context `{Semver, Api, Instantiate2, CwOwnable, CoinsOps, Sha256}.

(** One call of an entry point; a failing call leaves the storage as it was. *)
Inductive step (s : State) : State → Prop :=
  | step_execute (Q : Querier) (R : Registries) (MQ : ModuleQueries) env info msg :
      step s (commit s (execute env info msg s))
  | step_reply (Q : Querier) (R : Registries) (MQ : ModuleQueries) id result :
      step s (commit s (reply id result s))
  | step_migrate : step s (commit s (migrate s)).
(** The states an account can be in. *)
Inductive reachable : State → Prop :=
  | reachable_init (Q : Querier) (R : Registries) (MQ : ModuleQueries) env info msg r s :
      instantiate env info msg empty_state = Ok (r, s) → reachable s
  | reachable_step s s' : reachable s → step s s' → reachable s'.
End histories.

Section own_cells.
Context `{Semver, Api, Instantiate2, CwOwnable, CoinsOps, Sha256}.
Context `{!Querier, !Registries, !ModuleQueries}.

Lemma load_or_default_pure module_id s l s' :
  load_module_dependencies_or_default module_id s = Ok (l, s') → s' = s.
Proof.
  unfold load_module_dependencies_or_default.
  destruct (load_module_dependencies module_id s) as [[? ?]|?|]; naive_solver.
Qed.
Lemma preserves_or_default (I : State → Prop) module_id :
  Preserves I (load_module_dependencies_or_default module_id).
Proof. intros s l s' Hs Hl%load_or_default_pure. by subst. Qed.
Lemma preserves_ownership_cell (I : State → Prop) env sender action :
  (∀ o s, I s → I (set_ownership o s)) → Preserves I (update_ownership_cell env sender action).
Proof.
  intros Hi s u s' Hs Hu. unfold update_ownership_cell in Hu.
  destruct (update_ownership _ _ _ _) as [[? ?]|?|]; simplify_eq; by apply Hi.
Qed.
Lemma preserves_init_cell (I : State → Prop) g :
  (∀ o s, I s → I (set_ownership o s)) → Preserves I (initialize_ownership_cell g).
Proof.
  intros Hi s u s' Hs Hu. unfold initialize_ownership_cell in Hu.
  destruct (initialize_owner _ _) as [[? ?]|?|]; simplify_eq; by apply Hi.
Qed.
End own_cells.

(** As [preserve], for the account. *)
Ltac account_step :=
  match goal with
  | |- Preserves _ (load_module_dependencies_or_default _) => apply preserves_or_default
  | |- Preserves _ (update_ownership_cell _ _ _) => apply preserves_ownership_cell; try done
  | |- Preserves _ (initialize_ownership_cell _) => apply preserves_init_cell; try done
  | |- _ => preserve_step
  end.
(** Unfolds the operation a goal is about. *)
Ltac head t := match t with ?f _ => head f | _ => t end.
Ltac preserve_unfold :=
  match goal with |- Preserves _ ?m => let h := head m in unfold h; cbv beta end.

Section whitelist_invariant.
Context `{Semver, Api, Instantiate2, CwOwnable, CoinsOps, Sha256}.
Context `{!Querier, !Registries, !ModuleQueries}.

Definition whitelist_inv (s : State) : Prop :=
  ∃ w, whitelisted_modules s = Some w ∧ whitelist_ok w.

Lemma update_whitelisted_inv add remove :
  Preserves whitelist_inv (update_whitelisted_modules add remove).
Proof.
  intros s u s' (w & Hw & Hok) (w' & -> & Hw')%update_whitelisted_keeps.
  exists w'. split; [done|]. by eapply Hw'.
Qed.

Lemma execute_whitelist env info msg : Preserves whitelist_inv (execute env info msg).
Proof.
  repeat first [apply update_whitelisted_inv | account_step | preserve_unfold].
Qed.
Lemma reply_whitelist id result : Preserves whitelist_inv (reply id result).
Proof. repeat first [apply update_whitelisted_inv | account_step | preserve_unfold]. Qed.
Lemma migrate_whitelist : Preserves whitelist_inv migrate.
Proof. repeat first [account_step | preserve_unfold]. Qed.
Lemma instantiate_whitelist env info msg : Establishes whitelist_inv (instantiate env info msg).
Proof.
  unfold instantiate. do 4 (apply establishes_later; intros ?).
  apply establishes_now; [|intros; repeat first [apply update_whitelisted_inv | account_step | preserve_unfold]].
  unfold init_cells. apply establishes_later; intros ?.
  apply establishes_now; [|intros; repeat first [account_step | preserve_unfold]].
  intros s u s' Hm. inv_ok. exists []. split; [done|]. split; [constructor|done].
Qed.
End whitelist_invariant.

(** In every state an account can reach, its whitelist holds at most fifteen
    addresses and none of them twice. *)
Theorem whitelist_bounded `{Semver, Api, Instantiate2, CwOwnable, CoinsOps, Sha256} (s : State)
    (Hs : reachable s) :
  ∃ w, whitelisted_modules s = Some w ∧ NoDup w ∧ Z.of_nat (List.length w) ≤ WHITELIST_SIZE_LIMIT.
Proof.
  change (whitelist_inv s).
  induction Hs as [Q R MQ env info msg r s Hi|s s' _ IH [Q R MQ env info msg|Q R MQ id result|]].
  - by eapply instantiate_whitelist.
  - apply (commit_preserves whitelist_inv); [apply execute_whitelist|done].
  - apply (commit_preserves whitelist_inv); [apply reply_whitelist|done].
  - apply (commit_preserves whitelist_inv); [apply migrate_whitelist|done].
Qed.

(** Exactly when a change of the whitelist succeeds, and what it leaves: the
    added addresses are new, the removed ones are there (after the addition)
    and named once, at most fifteen remain; they are the old ones, then the
    added ones, without the removed ones, in order. *)
Theorem update_whitelist_spec `{Semver} (to_add to_remove : list Addr) (s s' : State) (w : list Addr)
    (u : unit) (Hw : whitelisted_modules s = Some w) (Hnd : NoDup w) :
  update_whitelisted_modules to_add to_remove s = Ok (u, s') ↔
  NoDup (w ++ to_add) ∧ NoDup to_remove ∧ to_remove ⊆ w ++ to_add ∧
  Z.of_nat (List.length (w ++ to_add) - List.length to_remove) ≤ WHITELIST_SIZE_LIMIT ∧
  s' = set_whitelisted_modules (Some (filter (λ a, a ∉ to_remove) (w ++ to_add))) s.
Proof. by apply update_whitelisted_Ok. Qed.

(** ** Authorisation *)

Section authorisation.
Context `{Semver, Api, Instantiate2, CwOwnable, CoinsOps, Sha256}.
Context `{!Querier, !Registries, !ModuleQueries}.

(** Who may have the account execute messages. *)
Definition may_execute (s : State) (env : Env) (sender : Addr) : Prop :=
  (∃ w, whitelisted_modules s = Some w ∧ sender ∈ w) ∨ nested_owner (ownership s) sender ∨
  sender = contract_address env.
(** The registry the account finds through its code knows [a] as the local
    account numbered [id]. *)
Definition registered_account (env : Env) (id : Z) (a : Addr) : Prop :=
  ∃ code_id registry st, abstract_code_id (contract_address env) = Ok code_id ∧
    registry_new code_id = Ok registry ∧ registry_state registry = Some st ∧
    account_addresses st !! akey (account_id_local id) = Some a.

Lemma owner_guard sender s u s' :
  assert_nested_owner_sender sender s = Ok (u, s') → nested_owner (ownership s) sender ∧ s' = s.
Proof.
  unfold assert_nested_owner_sender. intros Ha. inv_ok. split; [|done].
  by eapply assert_nested_owner_Ok.
Qed.
Lemma may_execute_guard env sender s u s' :
  assert_whitelisted_owner_or_self env sender s = Ok (u, s') → may_execute s env sender ∧ s' = s.
Proof.
  unfold assert_whitelisted_owner_or_self, load. intros Ha. inv_ok. split; [|done].
  match goal with Hb : (_ || _)%bool = true |- _ => rewrite !orb_true_iff, !bool_decide_eq_true in Hb;
    destruct Hb as [[Hin|Hok]|Hself] end; [left; eauto| |by right; right].
  right; left. apply is_ok_true in Hok as [v Hv]. by eapply assert_nested_owner_Ok.
Qed.
Lemma find_registry_inv env s a s' :
  find_registry env s = Ok (a, s') →
  s' = s ∧ ∃ code_id, abstract_code_id (contract_address env) = Ok code_id ∧ registry_new code_id = Ok a.
Proof. unfold find_registry. intros Hf. inv_ok. eauto. Qed.
Lemma sub_account_guard env info action s r s' :
  handle_sub_account_action env info action s = Ok (r, s') →
  match action with RegisterSubAccount id | UnregisterSubAccount id =>
    registered_account env id (sender info) ∧
    s' = set_sub_accounts (match action with
      | RegisterSubAccount _ => {[id]} ∪ sub_accounts s
      | UnregisterSubAccount _ => sub_accounts s ∖ {[id]} end) s end.
Proof.
  unfold handle_sub_account_action, unregister_sub_account, register_sub_account,
    query_account_address, query_r.
  destruct action as [id|id]; intros Ha; inv_ok;
    match goal with Hf : find_registry _ _ = _ |- _ =>
      apply find_registry_inv in Hf as (-> & code_id & Hcode & Hreg) end.
  - destruct (account_addresses _ !! _) as [account|] eqn:Hl; [|by inv_ok].
    case_decide; inv_ok. subst. split; [|done]. by exists code_id; do 2 eexists.
  - case_decide as Hl; inv_ok. split; [|done]. by exists code_id; do 2 eexists.
Qed.
End authorisation.

Section authorisation_lemmas.
Context `{Semver, Api, Instantiate2, CwOwnable, CoinsOps, Sha256}.
Context `{!Querier, !Registries, !ModuleQueries}.

(** Every message but the change of status goes past the suspension check. *)
Lemma execute_inv env info msg s r s' :
  execute env info msg s = Ok (r, s') →
  (suspension_status s = Some false ∧ execute_active env info msg s = Ok (r, s')) ∨
  (∃ b, msg = UpdateStatus (Some b) ∧ update_account_status info (Some b) s = Ok (r, s')).
Proof.
  intros He. assert ((∃ b, msg = UpdateStatus b) ∨
    (v ← load "suspension_status" suspension_status;
     ensure (negb v) AccountSuspended ≫= λ _, execute_active env info msg) s = Ok (r, s'))
    as [[b ->]|Ha] by (destruct msg; eauto).
  - right. exists (default true b). destruct b; [done|]. simpl in He. inv_ok.
  - left. unfold load in Ha. apply bind_Ok in Ha as (v & s1 & Hl & Ha).
    apply bind_Ok in Ha as (? & s2 & He' & Ha). inv_ok.
    match goal with Hb : negb ?v = true |- _ => destruct v; [done|] end. done.
Qed.

(** Case analysis on the guard of an operation. *)
Lemma owner_first {A} sender (m : M State AccountError A) s r s' :
  (assert_nested_owner_sender sender ≫= λ _, m) s = Ok (r, s') →
  nested_owner (ownership s) sender ∧ m s = Ok (r, s').
Proof. intros Ha. apply bind_Ok in Ha as (u & s1 & Ho & Ha). by apply owner_guard in Ho as [? ->]. Qed.
Lemma admin_execute_owner info a m s r s' :
  admin_execute info a m s = Ok (r, s') → nested_owner (ownership s) (sender info).
Proof. intros Ha. by apply owner_first in Ha as [? _]. Qed.
(** What the ICA client answers is sent. *)
Lemma ica_action_inv env info q s r s' :
  ica_action env info q s = Ok (r, s') → may_execute s env (sender info) ∧ s' = s ∧
  ∃ a msgs, account_modules s !! ICA_CLIENT = Some a ∧ ica_action_of a q = Some msgs ∧ messages r = send <$> msgs.
Proof.
  intros Hcall. apply bind_Ok in Hcall as (u & s1 & Hg & Hr). apply may_execute_guard in Hg as [? ->].
  inv_ok. split; [done|]. split; [done|]. unfold query_r in *. inv_ok. eauto.
Qed.
(** The messages a change of ownership sends are built without writing. *)
Lemma own_messages_pure env (action : GovAction) s l s' :
  match action with
  | TransferOwnership _ _ => mret []
  | AcceptOwnership => maybe_update_sub_account_governance
  | RenounceOwnership => remove_account_from_contracts env
  end s = Ok (l, s') → s' = s.
Proof.
  intros Hl. assert (Preserves (λ t, t = s) (match action with
    | TransferOwnership _ _ => mret []
    | AcceptOwnership => maybe_update_sub_account_governance
    | RenounceOwnership => remove_account_from_contracts env
    end)) as Hp by (destruct action; repeat first [account_step | preserve_unfold]).
  by eapply Hp.
Qed.
End authorisation_lemmas.

(** C5. What every successful call of an account implies.  Apart from the change
    of its status, the account is not suspended.  Messages are only sent on for
    a whitelisted address, the owner (or, for a sub-account, its top-level
    owner) or the account itself, are sent as given, and leave the state alone;
    the list of sub-accounts is only changed by the account the registry knows
    under the number; ownership changes only as the ownership rules say;
    everything else is for the owner. *)
Theorem account_authorization `{Semver, Api, Instantiate2, CwOwnable, CoinsOps, Sha256,
      !Querier, !Registries, !ModuleQueries}
    (env : Env) (info : MessageInfo) (msg : ExecuteMsg) (s s' : State) (r : Response CosmosMsg)
    (Hcall : execute env info msg s = Ok (r, s')) :
  (suspension_status s = Some false ∨ ∃ b, msg = UpdateStatus (Some b)) ∧
  match msg with
  | Execute msgs =>
      may_execute s env (sender info) ∧ s' = s ∧ messages r = send <$> msgs
  | ExecuteWithData msg =>
      may_execute s env (sender info) ∧ s' = s ∧
      messages r = [reply_on_success msg FORWARD_RESPONSE_REPLY_ID]
  | ExecuteOnModule module_id m fs =>
      may_execute s env (sender info) ∧ s' = s ∧
      ∃ a, account_modules s !! module_id = Some a ∧ messages r = [send (WasmExecute a (Raw m) fs)]
  | IcaAction q =>
      may_execute s env (sender info) ∧ s' = s ∧
      ∃ a msgs, account_modules s !! ICA_CLIENT = Some a ∧ ica_action_of a q = Some msgs ∧
        messages r = send <$> msgs
  | UpdateSubAccount (RegisterSubAccount id) =>
      registered_account env id (sender info) ∧ s' = set_sub_accounts ({[id]} ∪ sub_accounts s) s
  | UpdateSubAccount (UnregisterSubAccount id) =>
      registered_account env id (sender info) ∧ s' = set_sub_accounts (sub_accounts s ∖ {[id]}) s
  | UpdateOwnership action =>
      ∃ o cell, update_ownership (block env) (sender info) action (ownership s) = Ok (o, cell) ∧
        s' = set_ownership cell s
  | AddAuthMethod | RemoveAuthMethod _ => False
  | _ => nested_owner (ownership s) (sender info)
  end.
Proof.
  apply execute_inv in Hcall as [[Hsus Hcall]|(b & -> & Hcall)].
  2: { split; [eauto|]. unfold update_account_status in Hcall. inv_ok. by eapply owner_guard. }
  split; [by left|].
  destruct msg; simpl in Hcall; try done; try (by apply owner_first in Hcall as [? _]).
  - apply bind_Ok in Hcall as (u & s1 & Hg & Hr). apply may_execute_guard in Hg as [? ->]. by inv_ok.
  - apply bind_Ok in Hcall as (u & s1 & Hg & Hr). apply may_execute_guard in Hg as [? ->]. by inv_ok.
  - apply bind_Ok in Hcall as (a & s1 & Ha & Hcall). unfold load_module_addr in Ha. inv_ok.
    apply bind_Ok in Hcall as (u & s2 & Hg & Hr). apply may_execute_guard in Hg as [? ->].
    inv_ok. eauto.
  - apply bind_Ok in Hcall as (a & s1 & Ha & Hcall). inv_ok. by eapply admin_execute_owner.
  - apply bind_Ok in Hcall as (a & s1 & Ha & Hcall). unfold load_module_addr in Ha. inv_ok.
    by eapply admin_execute_owner.
  - by apply ica_action_inv in Hcall.
  - apply sub_account_guard in Hcall. by destruct action.
  - unfold execute_update_ownership in Hcall. apply bind_Ok in Hcall as (l & s1 & Hl & Hcall).
    apply own_messages_pure in Hl as ->. apply bind_Ok in Hcall as (u & s2 & Hu & Hr). inv_ok.
    unfold update_ownership_cell in Hu. destruct (update_ownership _ _ _ _) as [[o cell]|?|] eqn:Ho; [|done..].
    simplify_eq. eauto.
Qed.
