(* ===== verification/AccountAdmin.v ===== *)
(** * Administrator calls of an account

    While an account executes a message as administrator it names the called
    contract in CALLING_TO_AS_ADMIN, which contracts the account owns read to
    decide whether they obey it.  Here: who can set it, to what, and that it
    never outlives the transaction, whatever the called contracts call back. *)

From S2P Require Import Prelude Cosmos Strings Objects Names AccountIds Fees ModuleFactory Ownership Registry Clients Account AccountProofs.
From Stdlib Require Import Ascii String.
#[local] Open Scope string_scope.
#[local] Open Scope list_scope.
#[local] Open Scope Z_scope.

(** ** Transactions

    A call of the account runs an entry point, then the messages it answers, in
    order: each message runs any number of complete calls of the account (its
    own, and those of the contracts it reaches), and a message with a reply is
    followed by that reply and the messages the reply answers.  A call that
    fails leaves no trace, and neither does a message whose failure another
    contract catches. *)
Section transactions.
Context `{Semver, Api, Instantiate2, CwOwnable, CoinsOps, Sha256}.

Inductive call : State → State → Prop :=
  | call_execute (Q : Querier) (R : Registries) (MQ : ModuleQueries) env info msg s r s1 s2 :
      execute env info msg s = Ok (r, s1) → dispatch (messages r) s1 s2 → call s s2
  | call_migrate s r s1 s2 : migrate s = Ok (r, s1) → dispatch (messages r) s1 s2 → call s s2
with dispatch : list (SubMsg CosmosMsg) → State → State → Prop :=
  | dispatch_nil s : dispatch [] s s
  | dispatch_send m l s s1 s2 : calls s s1 → dispatch l s1 s2 → dispatch (send m :: l) s s2
  | dispatch_reply (Q : Querier) (R : Registries) (MQ : ModuleQueries) m id result l s s1 r s2 s3 s4 :
      calls s s1 → reply id result s1 = Ok (r, s2) → dispatch (messages r.1) s2 s3 →
      dispatch l s3 s4 → dispatch (reply_on_success m id :: l) s s4
with calls : State → State → Prop :=
  | calls_nil s : calls s s
  | calls_cons s s1 s2 : call s s1 → calls s1 s2 → calls s s2.

(** The states an account is in between transactions. *)
Inductive at_rest : State → Prop :=
  | at_rest_created (Q : Querier) (R : Registries) (MQ : ModuleQueries) env info msg r s s' :
      instantiate env info msg empty_state = Ok (r, s) → dispatch (messages r) s s' → at_rest s'
  | at_rest_call s s' : at_rest s → call s s' → at_rest s'.
End transactions.

Scheme call_mut := Induction for call Sort Prop
  with dispatch_mut := Induction for dispatch Sort Prop
  with calls_mut := Induction for calls Sort Prop.
Combined Scheme transaction_ind from call_mut, dispatch_mut, calls_mut.

(** ** What one entry point does to the two transient cells *)

Section cells.
Context `{Semver, Api, Instantiate2, CwOwnable, CoinsOps, Sha256}.

(** The administrator call and the migrations under way. *)
Definition cells_kept (s t : State) : Prop :=
  calling_to_as_admin t = calling_to_as_admin s ∧ migrate_context t = migrate_context s.
(** They are as before, or over. *)
Definition cells_settle (s t : State) : Prop :=
  (calling_to_as_admin t = calling_to_as_admin s ∨ calling_to_as_admin t = None) ∧
  (migrate_context t = migrate_context s ∨ migrate_context t = Some []).

Lemma settle_trans s1 s2 s3 : cells_settle s1 s2 → cells_settle s2 s3 → cells_settle s1 s3.
Proof.
  intros [Ha Hb] [Hc Hd]. split; [destruct Hc as [-> | ->]|destruct Hd as [-> | ->]]; auto.
Qed.
Lemma kept_settle s t : cells_kept s t → cells_settle s t.
Proof. unfold cells_kept, cells_settle. tauto. Qed.

Context `{!Querier, !Registries, !ModuleQueries}.

(** The messages that administer other contracts. *)
Definition administers (msg : ExecuteMsg) : bool :=
  match msg with AdminExecute _ _ | AdminExecuteOnModule _ _ | Upgrade _ => true | _ => false end.

Lemma execute_keeps s env info msg :
  administers msg = false → Preserves (cells_kept s) (execute env info msg).
Proof.
  intros Hm. destruct msg; try done; simpl; repeat first [account_step | preserve_unfold].
Qed.

Lemma reply_on_last_spec id l :
  l ≠ [] → ∃ k m, l = k ++ [m] ∧ reply_on_last id l = (send <$> k) ++ [reply_on_success m id].
Proof.
  induction l as [|m [|m' l] IH]; intros Hl; [done|by exists [], m|].
  destruct IH as (k & x & Hk & Hr); [done|]. exists (m :: k), x. split; [by rewrite Hk|].
  assert (reply_on_last id (m :: m' :: l) = send m :: reply_on_last id (m' :: l)) as -> by done.
  by rewrite Hr.
Qed.

Lemma admin_execute_spec info a m s r s' :
  admin_execute info a m s = Ok (r, s') →
  nested_owner (ownership s) (sender info) ∧ calling_to_as_admin s = None ∧
  s' = set_calling_to_as_admin (Some a) s ∧
  messages r = [reply_on_success (WasmExecute a (Raw m) (funds info)) ADMIN_ACTION_REPLY_ID].
Proof.
  intros Ha. apply owner_first in Ha as [Ho Ha]. inv_ok.
  match goal with Hb : bool_decide _ = true |- _ => apply bool_decide_eq_true in Hb end. done.
Qed.

(** An upgrade of a module sends at least one message. *)
Lemma set_migrate_msgs_some env i m s l s' :
  set_migrate_msgs_and_context env i m s = Ok (l, s') → l ≠ [].
Proof.
  unfold set_migrate_msgs_and_context. intros Hm.
  apply bind_Ok in Hm as (registry & s1 & _ & Hm). apply bind_Ok in Hm as (old & s2 & _ & Hm).
  apply bind_Ok in Hm as (cv & s3 & _ & Hm). apply bind_Ok in Hm as (req & s4 & _ & Hm).
  cbv zeta in Hm. destruct (mod_reference _).
  - inv_ok.
  - inv_ok.
  - unfold handle_adapter_migration, replace_adapter in Hm.
    apply bind_Ok in Hm as (d & s5 & _ & Hm). apply bind_Ok in Hm as (? & s6 & _ & Hm).
    apply bind_Ok in Hm as (? & s7 & _ & Hm). apply bind_Ok in Hm as (? & s8 & _ & Hm).
    apply bind_Ok in Hm as (? & s9 & _ & Hm). by inv_ok.
  - unfold handle_app_migration in Hm. apply bind_Ok in Hm as (d & s5 & _ & Hm).
    apply bind_Ok in Hm as (? & s6 & _ & Hm). by inv_ok.
  - by inv_ok.
  - inv_ok.
Qed.
Lemma upgrade_one_some env u x s u' s' :
  upgrade_one env u x s = Ok (u', s') → upgrade_msgs u' ≠ [] ∨ account_migrate_info u' ≠ None.
Proof.
  unfold upgrade_one. destruct x as [i m]. intros Hu. apply bind_Ok in Hu as (? & s1 & _ & Hu).
  cbv zeta in Hu. case_decide; [right; by inv_ok|].
  apply bind_Ok in Hu as (l & s2 & Hl & Hu). apply set_migrate_msgs_some in Hl. inv_ok.
  left. simpl. by intros [_ ?]%app_eq_nil.
Qed.
Lemma upgrade_all_some env l u s u' s' :
  l ≠ [] → mfold l u (upgrade_one env) s = Ok (u', s') →
  upgrade_msgs u' ≠ [] ∨ account_migrate_info u' ≠ None.
Proof.
  revert u s. induction l as [|x [|y l] IH]; intros u s Hl Hm; [done| |].
  - simpl in Hm. apply bind_Ok in Hm as (u1 & s1 & Hx & Hm). inv_ok. by eapply upgrade_one_some.
  - cbn [mfold] in Hm. apply bind_Ok in Hm as (u1 & s1 & _ & Hm). by eapply (IH u1 s1).
Qed.

Lemma upgrade_spec env info l s r s' :
  upgrade_modules env info l s = Ok (r, s') →
  nested_owner (ownership s) (sender info) ∧
  ∃ k m, messages r = (send <$> k)
    ++ [reply_on_success m ASSERT_MODULE_DEPENDENCIES_REQUIREMENTS_REPLY_ID].
Proof.
  intros Hu. apply owner_first in Hu as [Ho Hu]. split; [done|].
  apply bind_Ok in Hu as (? & s1 & Hn & Hu). apply ensure_Ok in Hn as [Hn ->].
  apply negb_true_iff, bool_decide_eq_false in Hn.
  apply bind_Ok in Hu as (? & s2 & _ & Hu). apply bind_Ok in Hu as (u & s3 & Hm & Hu).
  apply upgrade_all_some in Hm; [|done].
  apply bind_Ok in Hu as (msgs & s4 & Hmsgs & Hu). inv_ok.
  assert (msgs ≠ []) as Hne.
  { destruct (account_migrate_info u) as [[i m]|].
    - apply bind_Ok in Hmsgs as (? & ? & _ & Hmsgs). inv_ok. by intros [_ ?]%app_eq_nil.
    - inv_ok. by destruct Hm. }
  destruct (reply_on_last_spec ASSERT_MODULE_DEPENDENCIES_REQUIREMENTS_REPLY_ID msgs Hne)
    as (k & m & _ & Hr). by exists k, m.
Qed.
Lemma upgrade_wild_card env info l :
  Establishes (λ s, calling_to_as_admin s = Some CALLING_TO_AS_ADMIN_WILD_CARD)
    (upgrade_modules env info l).
Proof.
  unfold upgrade_modules. do 2 (apply establishes_later; intros ?).
  apply establishes_now; [intros t u t' Ht; by inv_ok|].
  intros; repeat first [account_step | preserve_unfold].
Qed.
Lemma register_keeps s : Preserves (cells_kept s) register_dependencies.
Proof. repeat first [account_step | preserve_unfold]. Qed.
Lemma migrated_keeps s x : Preserves (cells_kept s) (assert_migrated_module x).
Proof. repeat first [account_step | preserve_unfold]. Qed.

(** No reply answers messages, and the two replies of administrator calls end
    them. *)
Lemma reply_spec id result s r s' :
  reply id result s = Ok (r, s') →
  messages r.1 = [] ∧ cells_settle s s' ∧
  (id = ADMIN_ACTION_REPLY_ID → calling_to_as_admin s' = None) ∧
  (id = ASSERT_MODULE_DEPENDENCIES_REQUIREMENTS_REPLY_ID →
   calling_to_as_admin s' = None ∧ migrate_context s' = Some []).
Proof.
  unfold reply. intros Hr.
  case_decide as Hf.
  { assert (id ≠ ADMIN_ACTION_REPLY_ID) as N1 by by rewrite Hf.
    assert (id ≠ ASSERT_MODULE_DEPENDENCIES_REQUIREMENTS_REPLY_ID) as N2 by by rewrite Hf.
    inv_ok. split_and!; [done|by apply kept_settle|intros Hj; by destruct N1..|intros Hj; by destruct N2]. }
  case_decide as Ha.
  { assert (id ≠ ASSERT_MODULE_DEPENDENCIES_REQUIREMENTS_REPLY_ID) as N2 by by rewrite Ha.
    unfold admin_action_reply in Hr. inv_ok.
    split_and!; [done|split; [by right|by left]|done|intros Hj; by destruct N2]. }
  case_decide as Hd.
  { assert (id ≠ ASSERT_MODULE_DEPENDENCIES_REQUIREMENTS_REPLY_ID) as N2 by by rewrite Hd.
    apply bind_Ok in Hr as (r1 & s1 & Hreg & Hr). inv_ok.
    split_and!; [|apply kept_settle|done|intros Hj; by destruct N2].
    - unfold register_dependencies in Hreg. by inv_ok.
    - by eapply register_keeps. }
  case_decide as Hm; [|inv_ok].
  apply bind_Ok in Hr as (r1 & s1 & Has & Hr). inv_ok.
  unfold assert_modules_dependency_requirements in Has. inv_ok.
  split_and!; [done|split; by right|done|done].
Qed.
End cells.

(** ** Whole transactions *)

Section whole.
Context `{Semver, Api, Instantiate2, CwOwnable, CoinsOps, Sha256}.

(** Both transient cells are over. *)
Definition no_admin_call (s : State) : Prop := calling_to_as_admin s = None.
Definition nothing_migrating (s : State) : Prop := migrate_context s = Some [].

(** The last reply of a list of messages decides. *)
Lemma dispatch_app_inv l1 l2 s s' :
  dispatch (l1 ++ l2) s s' → ∃ s1, dispatch l1 s s1 ∧ dispatch l2 s1 s'.
Proof.
  revert s. induction l1 as [|x l1 IH]; intros s Hd; [exists s; split; [constructor|done]|].
  simpl in Hd. inversion Hd as [| |Q R MQ m id result l sa sb r sc sd se Hc Hr Hm Hl]; subst.
  - match goal with Hl : dispatch (l1 ++ l2) _ _ |- _ => apply IH in Hl as (s3 & ? & ?) end.
    exists s3. split; [by econstructor|done].
  - apply IH in Hl as (s3 & ? & ?). exists s3. split; [by eapply (dispatch_reply Q R MQ)|done].
Qed.

Lemma dispatch_reply_last m id s s' :
  dispatch [reply_on_success m id] s s' →
  ∃ s1 (Q : Querier) (R : Registries) (MQ : ModuleQueries) result r, calls s s1 ∧
    reply id result s1 = Ok (r, s').
Proof.
  intros Hd. inversion Hd as [| |Q R MQ ? ? result l sa sb r sc sd se Hc Hr Hm Hl]; subst.
  pose proof (reply_spec _ _ _ _ _ Hr) as [Hnil _]. rewrite Hnil in Hm.
  inversion Hm; subst. inversion Hl; subst. exists sb, Q, R, MQ, result, r. done.
Qed.

(** One entry point, before the messages it answers: nothing changed, or the
    messages end with the reply that clears what it set. *)
Lemma execute_cells `{!Querier, !Registries, !ModuleQueries} env info msg s r s1 :
  execute env info msg s = Ok (r, s1) →
  cells_kept s s1 ∨
  (calling_to_as_admin s = None ∧ migrate_context s1 = migrate_context s ∧
   ∃ m, messages r = [reply_on_success m ADMIN_ACTION_REPLY_ID]) ∨
  (∃ k m, messages r = (send <$> k)
     ++ [reply_on_success m ASSERT_MODULE_DEPENDENCIES_REQUIREMENTS_REPLY_ID]).
Proof.
  intros He. destruct (administers msg) eqn:Hm.
  2: { left. by eapply (execute_keeps s env info msg Hm). }
  right. apply execute_inv in He as [[_ He]|(b & -> & _)]; [|done].
  destruct msg; try done; simpl in He.
  - left. apply bind_Ok in He as (a & s2 & Ha & He). inv_ok.
    apply admin_execute_spec in He as (_ & Hn & -> & Hr). eauto.
  - left. apply bind_Ok in He as (a & s2 & Ha & He). unfold load_module_addr in Ha. inv_ok.
    apply admin_execute_spec in He as (_ & Hn & -> & Hr). eauto.
  - right. by apply upgrade_spec in He as [_ ?].
Qed.

Lemma list_snoc_inv {A} (a b : A) l k : l ++ [a] = k ++ [b] → l = k ∧ a = b.
Proof. intros Hl. by apply app_inj_2 in Hl as [-> [= ->]]. Qed.

Definition last_reply (id : Z) (l : list (SubMsg CosmosMsg)) : Prop :=
  ∃ k m, l = k ++ [reply_on_success m id].
(** What a list of messages leaves of the two cells. *)
Definition dispatch_cells (l : list (SubMsg CosmosMsg)) (s s' : State) : Prop :=
  cells_settle s s' ∧
  (last_reply ADMIN_ACTION_REPLY_ID l → calling_to_as_admin s' = None) ∧
  (last_reply ASSERT_MODULE_DEPENDENCIES_REQUIREMENTS_REPLY_ID l →
   calling_to_as_admin s' = None ∧ migrate_context s' = Some []).

Lemma last_reply_cons id x l : last_reply id (x :: l) → l ≠ [] → last_reply id l.
Proof. intros ([|y k] & m & [= -> ->]) Hl; [done|]. by exists k, m. Qed.
Lemma dispatch_cells_cons x l s1 s s' :
  cells_settle s s1 → l ≠ [] → dispatch_cells l s1 s' → dispatch_cells (x :: l) s s'.
Proof.
  intros Hs Hl (Hc & Ha & Hm). split_and!; [by eapply settle_trans|..];
    intros Hr%last_reply_cons; auto.
Qed.

(** Calls that come back during a call leave the two cells as they were, or
    over. *)
Lemma transactions_settle :
  (∀ s s', call s s' → cells_settle s s') ∧
  (∀ l s s', dispatch l s s' → dispatch_cells l s s') ∧
  (∀ s s', calls s s' → cells_settle s s').
Proof.
  apply transaction_ind.
  - intros Q R MQ env info msg s r s1 s2 He _ (Hc & Ha & Hm).
    apply execute_cells in He as [Hk|[(Hn & Hk & m & Hr)|(k & m & Hr)]].
    + eapply settle_trans; [by apply kept_settle|done].
    + split; [left; rewrite Hn; apply Ha; by exists [], m|]. rewrite <-Hk. apply Hc.
    + destruct Hm as [H1' H2']; [by exists (send <$> k), m|]. split; by right.
  - intros s r s1 s2 He _ [Hc _]. unfold migrate, load in He. inv_ok. case_decide; inv_ok.
    eapply settle_trans; [|done]. by apply kept_settle.
  - intros s. split_and!; [by apply kept_settle|intros ([|] & m & [=])..].
  - intros m l s s1 s2 _ Hs _ Hd. destruct (decide (l = [])) as [->|Hl].
    + destruct Hd as [Hd _]. split_and!; [by eapply settle_trans|..];
        intros ([|? [|]] & ? & [=]).
    + by eapply dispatch_cells_cons.
  - intros Q R MQ m id result l s s1 r s2 s3 s4 _ Hs Hr Hd3 [Hm _] Hd4 Hd.
    apply reply_spec in Hr as (Hnil & Hs2 & Hadm & Has).
    assert (cells_settle s s3) as Hs3 by eauto using settle_trans.
    destruct l as [|y l]; [|by eapply dispatch_cells_cons].
    rewrite Hnil in Hd3. inversion Hd3; subst. inversion Hd4; subst.
    split_and!; [done|..]; intros ([|? [|]] & m' & [=]); auto.
  - intros s. by apply kept_settle.
  - intros s s1 s2 _ Hs _ Hs2. by eapply settle_trans.
Qed.
Lemma instantiate_cells `{!Querier, !Registries, !ModuleQueries} env info msg r s :
  instantiate env info msg empty_state = Ok (r, s) →
  calling_to_as_admin s = None ∧ migrate_context s = Some [].
Proof.
  intros Hi. split.
  - assert (Preserves (λ s, calling_to_as_admin s = None) (instantiate env info msg)) as Hp
      by repeat first [account_step | preserve_unfold].
    by eapply Hp; [|exact Hi].
  - assert (Establishes (λ s, migrate_context s = Some []) (instantiate env info msg)) as Hp;
      [|by eapply Hp].
    unfold instantiate. do 4 (apply establishes_later; intros ?).
    apply establishes_now; [|intros; repeat first [account_step | preserve_unfold]].
    unfold init_cells. do 6 (apply establishes_later; intros ?).
    apply establishes_now; [|intros; repeat first [account_step | preserve_unfold]].
    intros t u t' Hm. by inv_ok.
Qed.
End whole.

(** C3. Administrator calls never outlive a transaction.  Between transactions an
    account names no contract it administers and has no migration under way,
    whatever messages it sent, to contracts that call back as they like; and
    the calls that come back while a call runs leave the two cells as they
    found them, or cleared. *)
Theorem admin_calls_transient `{Semver, Api, Instantiate2, CwOwnable, CoinsOps, Sha256}
    (s mid mid' : State) (Hrest : at_rest s) (Hnested : calls mid mid') :
  (calling_to_as_admin s = None ∧ migrate_context s = Some []) ∧
  (calling_to_as_admin mid' = calling_to_as_admin mid ∨ calling_to_as_admin mid' = None) ∧
  (migrate_context mid' = migrate_context mid ∨ migrate_context mid' = Some []).
Proof.
  pose proof transactions_settle as (Hcall & Hdisp & Hcalls). split; [|by apply Hcalls].
  clear mid mid' Hnested. assert (∀ s s', cells_settle s s' →
    calling_to_as_admin s = None ∧ migrate_context s = Some [] →
    calling_to_as_admin s' = None ∧ migrate_context s' = Some []) as Hclear.
  { unfold cells_settle. intros t t' [Ha Hb] [Hn Hm]. split; [destruct Ha|destruct Hb]; congruence. }
  induction Hrest as [Q R MQ env info msg r s s' Hi Hd|s s' _ IH Hc].
  - eapply Hclear; [exact (proj1 (Hdisp _ _ _ Hd))|by eapply instantiate_cells].
  - eapply Hclear; [by apply Hcall|done].
Qed.

(** Who makes an account act as administrator, and towards whom.  If a call
    changes the cell, its sender owns the account (directly or as the top-level
    owner); either no administrator call was under way and the only message is
    the one to exactly the contract now named, with the clearing reply, or the
    call is an upgrade, every contract may see the account as administrator,
    and its last message carries the clearing reply. *)
Theorem admin_call_granted `{Semver, Api, Instantiate2, CwOwnable, CoinsOps, Sha256,
      !Querier, !Registries, !ModuleQueries}
    (env : Env) (info : MessageInfo) (msg : ExecuteMsg) (s s' : State) (r : Response CosmosMsg)
    (Hcall : execute env info msg s = Ok (r, s'))
    (Hset : calling_to_as_admin s' ≠ calling_to_as_admin s) :
  nested_owner (ownership s) (sender info) ∧
  ((calling_to_as_admin s = None ∧ ∃ a m, calling_to_as_admin s' = Some a ∧
      messages r = [reply_on_success (WasmExecute a (Raw m) (funds info)) ADMIN_ACTION_REPLY_ID] ∧
      ((∃ t, msg = AdminExecute t m ∧ addr_validate t = Some a) ∨
       (∃ id, msg = AdminExecuteOnModule id m ∧ account_modules s !! id = Some a))) ∨
   (∃ l k m, msg = Upgrade l ∧ calling_to_as_admin s' = Some CALLING_TO_AS_ADMIN_WILD_CARD ∧
      messages r = (send <$> k)
        ++ [reply_on_success m ASSERT_MODULE_DEPENDENCIES_REQUIREMENTS_REPLY_ID])).
Proof.
  destruct (administers msg) eqn:Hm.
  2: { destruct Hset. by apply (execute_keeps s env info msg Hm s r s' (conj eq_refl eq_refl)). }
  apply execute_inv in Hcall as [[_ He]|(b & -> & _)]; [|done].
  destruct msg; try done; simpl in He.
  - apply bind_Ok in He as (a & s2 & Ha & He). unfold addr_validate_r in Ha. inv_ok.
    apply admin_execute_spec in He as (Ho & Hn & -> & Hr). split; [done|]. left. split; [done|].
    do 2 eexists. split; [done|]. split; [done|]. left. eauto.
  - apply bind_Ok in He as (a & s2 & Ha & He). unfold load_module_addr in Ha. inv_ok.
    apply admin_execute_spec in He as (Ho & Hn & -> & Hr). split; [done|]. left. split; [done|].
    do 2 eexists. split; [done|]. split; [done|]. right. eauto.
  - pose proof (upgrade_spec _ _ _ _ _ _ He) as (Ho & k & m & Hr). split; [done|]. right.
    exists modules, k, m. split; [done|]. split; [|done].
    by eapply upgrade_wild_card.
Qed.
