(* ===== verification/AccountModules.v ===== *)
(** * The modules installed on an account

    The graph of dependencies between modules: what installing, upgrading and
    uninstalling do to it, and that no module can be removed while another
    one needs it. *)

From S2P Require Import Prelude Cosmos Strings Objects Names AccountIds Fees ModuleFactory Ownership Registry Clients Account AccountProofs.
From Stdlib Require Import Ascii String.
#[local] Open Scope string_scope.
#[local] Open Scope list_scope.
#[local] Open Scope Z_scope.

Section graph.
Context `{Semver, CwOwnable}.

(** The modules that depend on a module. *)
Definition dependents_of (s : State) (x : string) : gset string := default ∅ (dependents s !! x).
(** [s'] is [s] with another graph. *)
Definition only_graph (s s' : State) : Prop := s' = set_dependents (dependents s') s.

Lemma only_graph_refl s : only_graph s s.
Proof. by destruct s. Qed.
Lemma only_graph_trans s1 s2 s3 : only_graph s1 s2 → only_graph s2 s3 → only_graph s1 s3.
Proof. unfold only_graph. intros H1 H2. rewrite H2, H1. by destruct s1. Qed.

(** One edge more or less. *)
Lemma update_dependents_spec f dep s u s' :
  update_dependents f dep s = Ok (u, s') →
  only_graph s s' ∧
  ∀ x, dependents_of s' x = if decide (x = dep) then f (dependents_of s x) else dependents_of s x.
Proof.
  unfold update_dependents. intros Hu. inv_ok. split; [by destruct s|]. intros x.
  unfold dependents_of. simpl. case_decide as Hx.
  - subst. by rewrite lookup_insert_eq.
  - by rewrite lookup_insert_ne by done.
Qed.
Lemma remove_dependent_spec m dep s u s' :
  remove_dependent_of m dep s = Ok (u, s') →
  only_graph s s' ∧
  ∀ x, dependents_of s' x = if decide (x = dep_id dep) then dependents_of s x ∖ {[m]} else dependents_of s x.
Proof.
  unfold remove_dependent_of. intros Hu. inv_ok. split; [by destruct s|]. intros x.
  unfold dependents_of. simpl. case_decide as Hx.
  - subst. rewrite lookup_insert_eq. by match goal with Hd : dependents s !! _ = _ |- _ => rewrite Hd end.
  - by rewrite lookup_insert_ne by done.
Qed.

(** What a loop over dependencies does to the graph. *)
Lemma add_edges_spec m (l : list Dependency) s u s' :
  mfor l (λ dep, update_dependents (λ d, {[m]} ∪ d) (dep_id dep)) s = Ok (u, s') →
  only_graph s s' ∧
  ∀ x y, y ∈ dependents_of s' x ↔ y ∈ dependents_of s x ∨ (y = m ∧ x ∈ dep_id <$> l).
Proof.
  revert s. induction l as [|dep l IH]; intros s Hl.
  { simpl in Hl. inv_ok. split; [apply only_graph_refl|]. set_solver. }
  apply mfor_Ok_cons in Hl as (s1 & Hd & Hl). apply update_dependents_spec in Hd as [Hg Hd].
  apply IH in Hl as [Hg' Hl]. split; [by eapply only_graph_trans|].
  intros x y. rewrite Hl, Hd, fmap_cons, elem_of_cons. case_decide; set_solver.
Qed.
Lemma remove_edges_spec m (f : Dependency → M State AccountError unit) (l : list Dependency) s u s' :
  (∀ dep s u s', f dep s = Ok (u, s') → only_graph s s' ∧ ∀ x, dependents_of s' x =
     if decide (x = dep_id dep) then dependents_of s x ∖ {[m]} else dependents_of s x) →
  mfor l f s = Ok (u, s') →
  only_graph s s' ∧
  ∀ x y, y ∈ dependents_of s' x ↔ y ∈ dependents_of s x ∧ ¬ (y = m ∧ x ∈ dep_id <$> l).
Proof.
  intros Hf. revert s. induction l as [|dep l IH]; intros s Hl.
  { simpl in Hl. inv_ok. split; [apply only_graph_refl|]. set_solver. }
  apply mfor_Ok_cons in Hl as (s1 & Hd & Hl). apply Hf in Hd as [Hg Hd].
  apply IH in Hl as [Hg' Hl]. split; [by eapply only_graph_trans|].
  intros x y. rewrite Hl, Hd, fmap_cons, elem_of_cons. case_decide; set_solver.
Qed.
End graph.

Section requirements.
Context `{Semver, Api, Instantiate2, CwOwnable, CoinsOps, Sha256}.
Context `{!Querier, !Registries, !ModuleQueries}.

(** A dependency is installed, in a version that meets its requirements. *)
Definition satisfied (s : State) (dep : Dependency) : Prop :=
  ∃ a cv v, account_modules s !! dep_id dep = Some a ∧ cw2_contract a = Some cv ∧
    parse_version (cv_version cv) = Some v ∧
    Forall (λ comp, comparator_matches comp v = true) (version_req dep).
(** The dependencies the contract of an installed module declares. *)
Definition declares (s : State) (m : string) (l : list Dependency) : Prop :=
  ∃ a data, account_modules s !! m = Some a ∧ module_data_of a = Some data ∧ md_dependencies data = l.

Lemma assert_requirements_Ok l m s u s' :
  assert_dependency_requirements l m s = Ok (u, s') → s' = s ∧ Forall (satisfied s) l.
Proof.
  unfold assert_dependency_requirements. revert s. induction l as [|dep l IH]; intros s Hl.
  { simpl in Hl. by inv_ok. }
  apply mfor_Ok_cons in Hl as (s1 & Hd & Hl).
  assert (s1 = s ∧ satisfied s dep) as [-> Hs].
  { unfold assert_dependency_requirement, query_r in Hd. inv_ok. split; [done|].
    match goal with Hc : assert_comparators _ _ _ _ = Ok _ |- _ => rename Hc into Hcomp end.
    do 3 eexists. do 3 (split; [eassumption|]).
    unfold assert_comparators in Hcomp. apply ofor_Ok in Hcomp.
    eapply Forall_impl; [exact Hcomp|]. intros c Hc. by apply guard_or_Ok in Hc. }
  apply IH in Hl as [-> Hl]. split; [done|]. by constructor.
Qed.
Lemma load_dependencies_Ok m s l s' :
  load_module_dependencies m s = Ok (l, s') → s' = s ∧ declares s m l.
Proof.
  unfold load_module_dependencies, load_module_data, load_module_addr, query_module_data, query_r.
  intros Hl. inv_ok. split; [done|]. by do 2 eexists.
Qed.
Lemma declares_graph s s' m l : only_graph s s' → declares s' m l ↔ declares s m l.
Proof. unfold only_graph, declares. intros ->. done. Qed.
Lemma satisfied_graph s s' dep : only_graph s s' → satisfied s' dep ↔ satisfied s dep.
Proof. unfold only_graph, satisfied. intros ->. done. Qed.

(** ** Upgrading *)

(** The graph is right for a module: it is a dependent of exactly what its
    contract declares, besides what it already was of anything it did not
    declare before. *)
Definition graph_updated (s s' : State) (m : string) (old : list Dependency) : Prop :=
  ∃ new, declares s' m new ∧ Forall (satisfied s') new ∧
    ∀ x, m ∈ dependents_of s' x ↔
      x ∈ dep_id <$> new ∨ (m ∈ dependents_of s x ∧ x ∉ dep_id <$> old).
(** What is known of a module under migration: it is a dependent of what it
    declared, each dependency declared once. *)
Definition was_dependent (s : State) (m : string) (old : list Dependency) : Prop :=
  NoDup (dep_id <$> old) ∧ ∀ x, x ∈ dep_id <$> old → m ∈ dependents_of s x.

Lemma same_id (l : list Dependency) d d' :
  NoDup (dep_id <$> l) → d ∈ l → d' ∈ l → dep_id d = dep_id d' → d = d'.
Proof.
  induction l as [|e l IH]; simpl; intros Hnd Hd Hd' Heq; [by apply elem_of_nil in Hd|].
  apply NoDup_cons in Hnd as [He Hnd].
  apply elem_of_cons in Hd as [->|Hd]; apply elem_of_cons in Hd' as [->|Hd']; auto.
  - destruct He. rewrite Heq. by apply list_elem_of_fmap_2.
  - destruct He. rewrite <-Heq. by apply list_elem_of_fmap_2.
Qed.

Lemma edges_updated s m (old new : list Dependency) x :
  was_dependent s m old →
  (m ∈ dependents_of s x ∧ ¬ (m = m ∧ x ∈ dep_id <$> filter (λ d, d ∉ new) old)) ∨
  (m = m ∧ x ∈ dep_id <$> filter (λ d, d ∉ old) new) ↔
  x ∈ dep_id <$> new ∨ (m ∈ dependents_of s x ∧ x ∉ dep_id <$> old).
Proof.
  intros [Hnd Hwas].
  assert (∀ l k : list Dependency, x ∈ dep_id <$> filter (λ d, d ∉ k) l ↔
    (∃ d, x = dep_id d ∧ (d ∉ k) ∧ d ∈ l)) as Hf.
  { intros l k. rewrite list_elem_of_fmap. by setoid_rewrite list_elem_of_filter. }
  rewrite !Hf, !list_elem_of_fmap. split.
  - intros [[Hm Hk]|[_ (d & -> & _ & Hd)]]; [|left; eauto].
    destruct (decide (x ∈ dep_id <$> old)) as [Hx|Hx].
    + apply list_elem_of_fmap in Hx as (d & -> & Hd). left. exists d. split; [done|].
      destruct (decide (d ∈ new)); [done|]. destruct Hk. eauto.
    + right. split; [done|]. by rewrite <-list_elem_of_fmap.
  - intros [(d & -> & Hd)|[Hm Hx]]; [|left; naive_solver].
    destruct (decide (d ∈ old)) as [Ho|Ho]; [|right; eauto]. left.
    split; [apply Hwas; by apply list_elem_of_fmap_2|]. intros [_ (d' & Heq & Hn & Ho')].
    by rewrite (same_id old d' d) in Hn.
Qed.

Lemma migrated_module_spec m old s u s' :
  was_dependent s m old →
  assert_migrated_module (m, old) s = Ok (u, s') →
  only_graph s s' ∧ graph_updated s s' m old ∧
  ∀ x y, y ≠ m → y ∈ dependents_of s' x ↔ y ∈ dependents_of s x.
Proof.
  intros [Hnd Hwas] Ha. unfold assert_migrated_module in Ha.
  apply bind_Ok in Ha as (u1 & s1 & Hrem & Ha). apply bind_Ok in Ha as (new & s2 & Hadd & Ha).
  unfold maybe_remove_old_deps in Hrem. apply bind_Ok in Hrem as (new1 & s3 & Hl & Hrem).
  apply load_dependencies_Ok in Hl as [-> Hdec]. cbv zeta in Hrem.
  apply (remove_edges_spec m) in Hrem as [Hg1 Hrem]; [|apply remove_dependent_spec].
  unfold maybe_add_new_deps in Hadd. apply bind_Ok in Hadd as (new2 & s4 & Hl & Hadd).
  apply load_dependencies_Ok in Hl as [-> Hdec2]. cbv zeta in Hadd.
  apply bind_Ok in Hadd as (u2 & s5 & Hadd & Hr). inv_ok.
  apply add_edges_spec in Hadd as [Hg2 Hadd]. apply assert_requirements_Ok in Ha as [-> Hsat].
  assert (new2 = new1) as ->.
  { rewrite (declares_graph _ _ _ _ Hg1) in Hdec2. unfold declares in *. naive_solver congruence. }
  assert (only_graph s s5) as Hg by by eapply only_graph_trans.
  split; [done|]. split.
  - exists new1. split; [by rewrite (declares_graph _ _ _ _ Hg)|]. split; [done|].
    intros x. rewrite Hadd, Hrem. by apply edges_updated.
  - intros x y Hy. rewrite Hadd, Hrem. naive_solver.
Qed.

Lemma migrated_all_spec l s u s' :
  NoDup l.*1 → (∀ m old, (m, old) ∈ l → was_dependent s m old) →
  mfor l assert_migrated_module s = Ok (u, s') →
  only_graph s s' ∧ (∀ m old, (m, old) ∈ l → graph_updated s s' m old) ∧
  ∀ x y, y ∉ l.*1 → y ∈ dependents_of s' x ↔ y ∈ dependents_of s x.
Proof.
  revert s. induction l as [|[m old] l IH]; intros s Hnd Hwas Hl.
  { simpl in Hl. inv_ok. split; [apply only_graph_refl|]. split; [by intros ? ? ?%elem_of_nil|done]. }
  apply NoDup_cons in Hnd as [Hm Hnd]. apply mfor_Ok_cons in Hl as (s1 & H1' & Hl).
  apply migrated_module_spec in H1' as (Hg1 & Hup & Hother); [|apply Hwas; left].
  assert (∀ m' old', (m', old') ∈ l → m' ≠ m) as Hne.
  { intros m' old' Hin ->. apply Hm. by apply (list_elem_of_fmap_2 fst) in Hin. }
  apply IH in Hl as (Hg2 & Hall & Hkeep); [|done|].
  2: { intros m' old' Hin. destruct (Hwas m' old') as [Hn Hw]; [by right|]. split; [done|].
       intros x Hx. rewrite Hother by eauto. auto. }
  split; [by eapply only_graph_trans|]. split.
  - intros m' old' [[= -> ->]|Hin]%elem_of_cons.
    + destruct Hup as (new & Hd & Hs & Hx). exists new. rewrite (declares_graph _ _ _ _ Hg2).
      split; [done|]. split; [eapply Forall_impl; [exact Hs|]; intros d ?; by rewrite (satisfied_graph _ _ _ Hg2)|].
      intros x. rewrite Hkeep by done. apply Hx.
    + destruct (Hall m' old' Hin) as (new & Hd & Hs & Hx). exists new.
      split; [done|]. split; [done|]. intros x. rewrite Hx, Hother by eauto. done.
  - simpl. intros x y [Hy Hy']%not_elem_of_cons. rewrite Hkeep by done. by apply Hother.
Qed.

(** ** Installing *)

Lemma assert_install_Ok id s l s' :
  assert_install_requirements id s = Ok (l, s') →
  s' = s ∧ declares s id l ∧ Forall (satisfied s) l.
Proof.
  unfold assert_install_requirements. intros Hi. apply bind_Ok in Hi as (l1 & s1 & Hl & Hi).
  apply load_dependencies_Ok in Hl as [-> Hd]. apply bind_Ok in Hi as (u & s2 & Ha & Hi).
  apply assert_requirements_Ok in Ha as [-> Hs]. by inv_ok.
Qed.

(** What [register_dependencies] guarantees of an app or an adapter. *)
Definition registered_module (s : State) (module : Module_) : Prop :=
  match mod_reference module with
  | RefApp _ | RefAdapter _ =>
      ∃ l, declares s (module_id (mod_info module)) l ∧ Forall (satisfied s) l ∧
        ∀ x, x ∈ dep_id <$> l → module_id (mod_info module) ∈ dependents_of s x
  | _ => True
  end.

Lemma registered_later s s' m :
  only_graph s s' → (∀ x y, y ∈ dependents_of s x → y ∈ dependents_of s' x) →
  registered_module s m → registered_module s' m.
Proof.
  unfold registered_module. intros Hg Hmono. destruct (mod_reference m); try done;
    intros (l & Hd & Hs & Hx); exists l; rewrite (declares_graph _ _ _ _ Hg);
    (split; [done|]; split; [|eauto]); (eapply Forall_impl; [exact Hs|]); intros d ?;
    by rewrite (satisfied_graph _ _ _ Hg).
Qed.

(** The dependencies an installed module is recorded for: none for a service
    or a native contract, those it declares, if any, for a standalone. *)
Lemma register_module_inv m a s u s' :
  register_module (m, a) s = Ok (u, s') →
  assert_module_data_validity m a = Ok tt ∧
  ∃ l, set_as_dependent (module_id (mod_info m)) l s = Ok (tt, s') ∧
    match mod_reference m with
    | RefApp _ | RefAdapter _ => declares s (module_id (mod_info m)) l ∧ Forall (satisfied s) l
    | _ => True
    end.
Proof.
  intros Hr. unfold register_module in Hr. apply bind_Ok in Hr as ([] & s1 & Hv & Hr). inv_ok.
  split; [done|]. destruct u. cbv zeta in Hr.
  destruct (mod_reference m); try (inv_ok; by exists []);
    apply bind_Ok in Hr as (l & s1 & Hl & Hr).
  - apply assert_install_Ok in Hl as (-> & ? & ?). by exists l.
  - apply assert_install_Ok in Hl as (-> & ? & ?). by exists l.
  - unfold assert_install_requirements_standalone in Hl.
    apply bind_Ok in Hl as (l1 & s2 & Hd & Hl). apply load_or_default_pure in Hd as ->.
    apply bind_Ok in Hl as (? & s2 & Ha & Hl). apply assert_requirements_Ok in Ha as [-> _].
    inv_ok. eauto.
Qed.
Lemma register_module_spec m a s u s' :
  register_module (m, a) s = Ok (u, s') →
  only_graph s s' ∧ assert_module_data_validity m a = Ok tt ∧ registered_module s' m ∧
  (∀ x y, y ∈ dependents_of s x → y ∈ dependents_of s' x) ∧
  (∀ x y, y ∈ dependents_of s' x → y ∈ dependents_of s x ∨ y = module_id (mod_info m)).
Proof.
  intros (Hv & l & Hs & Hm)%register_module_inv. apply add_edges_spec in Hs as [Hg Hs].
  split; [done|]. split; [done|]. split; [|split; intros x y; rewrite Hs; naive_solver].
  unfold registered_module. destruct (mod_reference m); try done; destruct Hm as [Hd Hsat];
    exists l; rewrite (declares_graph _ _ _ _ Hg); (split; [done|]; split;
    [eapply Forall_impl; [exact Hsat|]; intros d ?; by rewrite (satisfied_graph _ _ _ Hg)
    |intros x Hx; rewrite Hs; by right]).
Qed.
Lemma register_all_spec (l : list (Module_ * option Addr)) s u s' :
  mfor l register_module s = Ok (u, s') →
  only_graph s s' ∧
  (∀ m a, (m, a) ∈ l → assert_module_data_validity m a = Ok tt ∧ registered_module s' m) ∧
  (∀ x y, y ∈ dependents_of s x → y ∈ dependents_of s' x) ∧
  (∀ x y, y ∈ dependents_of s' x →
     y ∈ dependents_of s x ∨ y ∈ (λ x, module_id (mod_info x.1)) <$> l).
Proof.
  revert s. induction l as [|[m a] l IH]; intros s Hl.
  { simpl in Hl. inv_ok. split; [apply only_graph_refl|]. split; [by intros ? ? ?%elem_of_nil|]. auto. }
  apply mfor_Ok_cons in Hl as (s1 & Hm & Hl).
  apply register_module_spec in Hm as (Hg1 & Hv & Hr & Hup & Honly).
  apply IH in Hl as (Hg2 & Hall & Hup2 & Honly2).
  split; [by eapply only_graph_trans|]. split.
  - intros m' a' [[= -> ->]|Hin]%elem_of_cons; [|by eapply Hall].
    split; [done|]. by eapply registered_later.
  - split; [auto|]. intros x y [Hy|Hy]%Honly2; [apply Honly in Hy as [Hy| ->]; [by left|]|];
      right; rewrite fmap_cons, elem_of_cons; auto.
Qed.
End requirements.

(** When the installation of modules completes, each module's contract is
    what the registry says it is, and every app and adapter is installed with
    dependencies that are all installed in versions it accepts and that all
    list it as a dependent; nothing but the dependents of these modules
    changed. *)
Theorem install_registers `{Semver, Api, Instantiate2, CwOwnable, CoinsOps, Sha256,
      !Querier, !Registries, !ModuleQueries}
    (result : outcome string (option string)) (ctx : list (Module_ * option Addr)) (s s' : State)
    (r : Response CosmosMsg * option string)
    (Hctx : install_modules_context s = Some ctx)
    (Hreply : reply REGISTER_MODULES_DEPENDENCIES_REPLY_ID result s = Ok (r, s')) :
  s' = set_dependents (dependents s') s ∧
  (∀ m a, (m, a) ∈ ctx → assert_module_data_validity m a = Ok tt ∧ registered_module s' m) ∧
  (∀ x y, y ∈ dependents_of s x → y ∈ dependents_of s' x) ∧
  (∀ x y, y ∈ dependents_of s' x →
     y ∈ dependents_of s x ∨ y ∈ (λ x, module_id (mod_info x.1)) <$> ctx).
Proof.
  unfold reply, register_dependencies, load in Hreply. simpl in Hreply. inv_ok.
  rewrite Hctx in *. simplify_eq. by eapply register_all_spec.
Qed.

(** When an upgrade completes, each migrated module is a dependent of exactly
    what its new contract declares (besides what it was a dependent of without
    having declared it), every declared dependency is installed in a version it
    accepts, and the other modules' dependencies are as before. *)
Theorem upgrade_updates_graph `{Semver, Api, Instantiate2, CwOwnable, CoinsOps, Sha256,
      !Querier, !Registries, !ModuleQueries}
    (result : outcome string (option string)) (ctx : list (string * list Dependency)) (s s' : State)
    (r : Response CosmosMsg * option string)
    (Hctx : migrate_context s = Some ctx) (Hnd : NoDup ctx.*1)
    (Hwas : ∀ m old, (m, old) ∈ ctx → was_dependent s m old)
    (Hreply : reply ASSERT_MODULE_DEPENDENCIES_REQUIREMENTS_REPLY_ID result s = Ok (r, s')) :
  account_modules s' = account_modules s ∧
  (∀ m old, (m, old) ∈ ctx → graph_updated s s' m old) ∧
  ∀ x y, y ∉ ctx.*1 → y ∈ dependents_of s' x ↔ y ∈ dependents_of s x.
Proof.
  unfold reply, assert_modules_dependency_requirements, load in Hreply. simpl in Hreply. inv_ok.
  rewrite Hctx in *. simplify_eq.
  match goal with Hm : mfor _ _ _ = Ok _ |- _ => apply migrated_all_spec in Hm as (Hg & Hup & Hkeep); [|done..] end.
  split; [by rewrite Hg|]. split; [exact Hup|exact Hkeep].
Qed.

(** ** Uninstalling *)

Section uninstalling.
Context `{Semver, Api, Instantiate2, CwOwnable, CoinsOps, Sha256}.
Context `{!Querier, !Registries, !ModuleQueries}.

(** Every dependency of an installed module is installed and lists the module
    as a dependent. *)
Definition dependencies_closed (s : State) : Prop :=
  ∀ m l x, declares s m l → x ∈ dep_id <$> l →
    is_Some (account_modules s !! x) ∧ m ∈ dependents_of s x.

(** The first step of [uninstall_module]. *)
Lemma drop_dependents_spec id s u s1 :
  match dependents s !! id with
  | Some d =>
      ensure (bool_decide (d = (∅ : gset string))) (ModuleHasDependents (elements d)) ≫= λ _,
      modify (λ s, set_dependents (delete id (dependents s)) s)
  | None => mret tt
  end s = Ok (u, s1) →
  only_graph s s1 ∧ dependents_of s id = ∅ ∧ ∀ x, dependents_of s1 x = dependents_of s x.
Proof.
  unfold dependents_of. destruct (dependents s !! id) as [d|] eqn:Hid; intros Hd; inv_ok.
  - match goal with Hb : bool_decide _ = true |- _ => apply bool_decide_eq_true in Hb as -> end.
    split; [by destruct s|]. split; [done|]. intros y. destruct (decide (y = id)) as [->|Hx].
    + by rewrite lookup_delete_eq, Hid.
    + by rewrite lookup_delete_ne by done.
  - split; [apply only_graph_refl|]. done.
Qed.
(** The change of the whitelist leaves the modules alone. *)
Definition modules_kept (s t : State) : Prop :=
  account_modules t = account_modules s ∧ dependents t = dependents s.
Lemma update_whitelisted_modules_kept s add remove :
  Preserves (modules_kept s) (update_whitelisted_modules add remove).
Proof. intros t u t' Ht (w & -> & _)%update_whitelisted_keeps. exact Ht. Qed.

Lemma uninstall_spec env info id s r s' :
  uninstall_module env info id s = Ok (r, s') →
  dependents_of s id = ∅ ∧ ∃ l, declares s id l ∧
    account_modules s' = delete id (account_modules s) ∧
    ∀ x y, y ∈ dependents_of s' x ↔ y ∈ dependents_of s x ∧ ¬ (y = id ∧ x ∈ dep_id <$> l).
Proof.
  intros Hu. apply owner_first in Hu as [_ Hu].
  apply bind_Ok in Hu as (d & s0 & Hd & Hu). apply gets_Ok in Hd as [-> ->].
  apply bind_Ok in Hu as (u & s1 & Hdrop & Hu).
  apply drop_dependents_spec in Hdrop as (Hg & Hnone & Hsame). split; [done|].
  apply bind_Ok in Hu as (data & s2 & Hdata & Hu).
  assert (s2 = s1 ∧ declares s1 id (md_dependencies data)) as [-> Hdec].
  { apply load_dependencies_Ok. unfold load_module_dependencies. apply bind_Ok.
    exists data, s2. split; [done|]. by apply ret_Ok. }
  exists (md_dependencies data). split; [by rewrite <-(declares_graph _ _ _ _ Hg)|].
  apply bind_Ok in Hu as (? & s3 & Hrem & Hu).
  unfold remove_as_dependent in Hrem.
  apply (remove_edges_spec id) in Hrem as [Hg' Hrem];
    [|intros dep t v t' Ht; exact (update_dependents_spec _ _ _ _ _ Ht)].
  assert (account_modules s3 = account_modules s) as Hmods by (rewrite Hg', Hg; done).
  assert (∀ t, modules_kept s3 t → account_modules s' = delete id (account_modules t) →
    dependents s' = dependents t →
    account_modules s' = delete id (account_modules s) ∧
    ∀ x y, y ∈ dependents_of s' x ↔ y ∈ dependents_of s x ∧ ¬ (y = id ∧ x ∈ dep_id <$> md_dependencies data))
    as Hend.
  { intros t [Hm Hdep] Hs' Hd'. split; [congruence|]. intros x' y.
    rewrite <-(Hsame x'), <-Hrem. unfold dependents_of. by rewrite Hd', Hdep. }
  apply bind_Ok in Hu as (registry & s5 & Hr & Hu). apply find_registry_inv in Hr as [-> _].
  apply bind_Ok in Hu as (i & s5 & Hi & Hu). apply lift_Ok in Hi as [_ ->].
  apply bind_Ok in Hu as (m & s5 & Hm & Hu). apply lift_Ok in Hm as [_ ->].
  apply bind_Ok in Hu as (? & s4 & Hw & Hu). inv_ok. apply (Hend s4); [|done..].
  case_match; [|by inv_ok]. apply bind_Ok in Hw as (a & s5 & Ha & Hw).
  unfold load_module_addr in Ha. inv_ok. refine (update_whitelisted_modules_kept s3 _ _ _ _ _ _ Hw). by split.
Qed.
End uninstalling.

(** C6. A module is only uninstalled when no module depends on it, and the
    modules that stay keep what they need: if every dependency of an installed
    module was installed and listed it as a dependent, it is so afterwards.
    The module itself is gone from the account and from its dependencies. *)
Theorem uninstall_keeps_dependencies `{Semver, Api, Instantiate2, CwOwnable, CoinsOps, Sha256,
      !Querier, !Registries, !ModuleQueries}
    (env : Env) (info : MessageInfo) (id : string) (s s' : State) (r : Response CosmosMsg)
    (Hclosed : dependencies_closed s)
    (Hcall : execute env info (UninstallModule id) s = Ok (r, s')) :
  dependents_of s id = ∅ ∧ account_modules s' = delete id (account_modules s) ∧
  (∀ l x, declares s id l → x ∈ dep_id <$> l → id ∉ dependents_of s' x) ∧
  dependencies_closed s'.
Proof.
  apply execute_inv in Hcall as [[_ Hcall]|(b & [=] & _)].
  apply uninstall_spec in Hcall as (Hnone & l & Hl & Hmods & Hdep).
  split; [done|]. split; [done|].
  assert (∀ l', declares s id l' → l' = l) as Hl'.
  { unfold declares in *. naive_solver congruence. }
  split.
  - intros l' x Hd Hx. rewrite (Hl' _ Hd) in Hx. rewrite Hdep. naive_solver.
  - intros m k x (a & data & Ha & Hdata & Hk) Hx.
    rewrite Hmods in Ha. apply lookup_delete_Some in Ha as [Hm Ha].
    destruct (Hclosed m k x) as [Hi Hd]; [by do 2 eexists|done|].
    assert (x ≠ id) as Hne by (intros ->; set_solver).
    split; [by rewrite Hmods, lookup_delete_ne|]. rewrite Hdep. naive_solver.
Qed.
