(* ===== verification/AccountInstall.v ===== *)
(** * Creating an account and installing modules

    What a new account pays and who may create it, and that the account and
    the module factory agree on the addresses of the contracts an installation
    creates. *)

From S2P Require Import Prelude Cosmos Strings Objects Names AccountIds Fees ModuleFactory Ownership Registry RegistryProofs RegistryAccess Clients Account AccountProofs.
From Stdlib Require Import Ascii String.
#[local] Open Scope string_scope.
#[local] Open Scope list_scope.
#[local] Open Scope Z_scope.

(** ** What a new account pays *)

Section payment.
Context `{Semver, Api, Instantiate2, CwOwnable, CoinsOps, !CoinsLaws, Sha256}.
Context `{!Querier, !Registries, !ModuleQueries}.

Lemma coins_add_each_amount cs l cs' d :
  coins_add_each cs l = Ok cs' → amount_of d cs' = amount_of d cs + total d l.
Proof.
  revert cs. induction l as [|c l IH]; intros cs Hc; simpl in Hc; inv_ok; simpl; [lia|].
  erewrite IH by eassumption. erewrite amount_of_add by eassumption.
  repeat case_decide; congruence || lia.
Qed.
Lemma coins_sub_all_amount cs l cs' d :
  coins_sub_all cs l = Ok cs' → amount_of d cs' = amount_of d cs - total d l.
Proof.
  revert cs. induction l as [|c l IH]; intros cs Hc; simpl in Hc; inv_ok; simpl; [lia|].
  erewrite IH by eassumption. erewrite amount_of_sub by eassumption.
  repeat case_decide; congruence || lia.
Qed.

Lemma install_internal_msgs modules fs code_id s l s' :
  install_modules_internal modules fs code_id s = Ok (l, s') →
  ∃ module_factory body, l = [reply_on_success (WasmExecute module_factory body fs)
    REGISTER_MODULES_DEPENDENCIES_REPLY_ID].
Proof. unfold install_modules_internal. intros Hi. inv_ok. by do 2 eexists. Qed.

(** What the modules installed at creation add to the fee is what the message
    to the factory carries. *)
Lemma install_on_creation_amount env mf code_id modules fee s fee' l s' d :
  install_on_creation env mf code_id modules fee s = Ok ((fee', l), s') →
  amount_of d fee' = amount_of d fee + sent d (msg_of <$> l).
Proof.
  unfold install_on_creation. case_decide; intros Hi; inv_ok; [unfold sent; simpl; lia|].
  match goal with Hm : install_modules_internal _ _ _ _ = _ |- _ =>
    apply install_internal_msgs in Hm as (a & b & ->) end.
  match goal with Hc : coins_add_each _ _ = _ |- _ => rewrite (coins_add_each_amount _ _ _ d Hc) end.
  unfold sent. simpl. rewrite app_nil_r. lia.
Qed.

Lemma instantiate_pays env info msg s r s' d :
  instantiate env info msg s = Ok (r, s') →
  sent d (msg_of <$> messages r) ≤ total d (funds info).
Proof.
  intros Hi. unfold instantiate in Hi.
  apply bind_Ok in Hi as (? & s1 & _ & Hi). apply bind_Ok in Hi as (registry & s2 & _ & Hi).
  apply bind_Ok in Hi as (mf & s3 & _ & Hi). apply bind_Ok in Hi as (id & s4 & _ & Hi).
  apply bind_Ok in Hi as (own & s5 & _ & Hi). apply bind_Ok in Hi as (fs & s6 & _ & Hi).
  apply bind_Ok in Hi as (fee & s7 & Hfee & Hi). cbv zeta in Hi.
  apply bind_Ok in Hi as ([fee' l] & s8 & Hl & Hi). inv_ok.
  apply (install_on_creation_amount _ _ _ _ _ _ _ _ _ d) in Hl.
  match goal with Hf : coins_try_from fs = Some _ |- _ => apply (amount_of_try_from _ _ d) in Hf end.
  match goal with Hf : coins_try_from (funds info) = Some _ |- _ =>
    apply (amount_of_try_from _ _ d) in Hf end.
  match goal with Hf : coins_sub_all _ _ = Ok ?c |- _ =>
    apply (coins_sub_all_amount _ _ _ d) in Hf; pose proof (amount_of_nonneg d c) end.
  rewrite amount_of_into_vec in *.
  assert (sent d (msg_of <$> match owner own with
    | SubAccount account => [send (to_owning_account account (RegisterSubAccount (acc_seq id)))]
    | _ => []
    end) = 0) as Hreg by (destruct (owner own); done).
  rewrite fmap_app, sent_cons, sent_app, Hreg. simpl. lia.
Qed.
End payment.

(** ** Who creates an account *)

Section creation.
Context `{Semver, Api, Instantiate2, CwOwnable, CoinsOps, Sha256}.
Context `{!Querier, !Registries, !ModuleQueries}.

(** Who may create an account with this governance: an account for its own
    sub-accounts, the holder of an NFT, anybody for the other kinds; nobody
    creates an account that owns itself. *)
Definition may_create (g : GovernanceDetails Addr) (sender : Addr) : Prop :=
  match g with
  | SubAccount account => sender = account
  | NFT collection_addr token_id =>
      ∃ o, nft_owner_of collection_addr token_id = Some o ∧ addr_validate o = Some sender
  | AbstractAccount _ => False
  | Monarchy _ | External _ _ | Renounced => True
  end.

Lemma verify_creator_Ok env info g u : verify_creator env info g = Ok u → may_create g (sender info).
Proof.
  destruct g; simpl; try done; intros Hv.
  - apply guard_or_Ok, bool_decide_eq_true in Hv. done.
  - unfold verify_nft_ownership, query_r, addr_validate_r in Hv. inv_ok.
    match goal with Hb : bool_decide _ = true |- _ => apply bool_decide_eq_true in Hb; subst end. eauto.
  - inv_ok.
Qed.

(** The cells of a new account. *)
Definition new_account (msg : AccountInstantiateMsg) (id : AccountId) (own : GovernanceDetails Addr)
    (s : State) : Prop :=
  account_id s = Some id ∧ suspension_status s = Some false ∧
  ownership s = Some (mkOwnership own None None) ∧ sub_accounts s = ∅ ∧
  handle_account_info_query s = mkAccountInfo (init_name msg) (init_description msg) (init_link msg).

Lemma initialize_cell_spec g s own s' :
  initialize_ownership_cell g s = Ok (own, s') →
  verify_gov g = Ok (owner own) ∧ own = mkOwnership (owner own) None None ∧
  s' = set_ownership (Some own) s.
Proof.
  unfold initialize_ownership_cell. intros Hi.
  destruct (initialize_owner g (ownership s)) as [[o cell]|?|] eqn:Ho; simplify_eq.
  unfold initialize_owner, save_ownership in Ho. by inv_ok.
Qed.

Lemma init_cells_spec env info msg id own s' t :
  sub_accounts t = ∅ → account_info t = None →
  init_cells env info msg id t = Ok (own, s') →
  verify_gov (default (AbstractAccount (contract_address env)) (init_owner msg)) = Ok (owner own) ∧
  may_create (owner own) (sender info) ∧ new_account msg id (owner own) s'.
Proof.
  intros Hsub Hinfo Hi. unfold init_cells in Hi. inv_ok.
  match goal with Hm : match init_name msg with _ => _ end ?a = Ok (_, ?b) |- _ =>
    assert (b = a) as -> by (destruct (init_name msg); by inv_ok); clear Hm end.
  match goal with Hm : initialize_ownership_cell _ _ = _ |- _ =>
    apply initialize_cell_spec in Hm as (Hg & Hown & ->) end.
  match goal with Hv : verify_creator _ _ _ = _ |- _ => apply verify_creator_Ok in Hv end.
  match goal with Ha : verify_gov _ = Ok ?g, Hb : verify_gov _ = Ok (owner ?o) |- _ =>
    assert (g = owner o) as -> by congruence end.
  split; [done|]. split; [done|]. unfold new_account, handle_account_info_query, default_info.
  match goal with Hm : (if has_info ?i then _ else _) _ = Ok _ |- _ =>
    destruct (has_info i) eqn:Hhas; inv_ok end; simpl.
  - split_and!; congruence || done.
  - unfold has_info in Hhas. simpl in Hhas. rewrite !orb_false_iff, !bool_decide_eq_false in Hhas.
    destruct Hhas as [[Hn Hd] Hl]. rewrite Hinfo. simpl.
    split_and!; try congruence || done.
    destruct (init_name msg), (init_description msg), (init_link msg); naive_solver.
Qed.

Lemma instantiate_new_account env info msg r s' :
  instantiate env info msg empty_state = Ok (r, s') →
  ∃ id own,
    verify_gov (default (AbstractAccount (contract_address env)) (init_owner msg)) = Ok own ∧
    may_create own (sender info) ∧ new_account msg id own s' ∧
    match init_account_id msg with
    | Some id' => id = id'
    | None => ∃ registry seq, registry_new (init_code_id msg) = Ok registry ∧
        query_local_account_sequence registry = Ok seq ∧ id = account_id_local seq
    end.
Proof.
  intros Hi. unfold instantiate in Hi.
  apply bind_Ok in Hi as (? & s1 & Hs1 & Hi). apply modify_Ok in Hs1 as ->.
  apply bind_Ok in Hi as (registry & s2 & Hreg & Hi). apply lift_Ok in Hreg as [Hreg%map_err_Ok ->].
  apply bind_Ok in Hi as (mf & s3 & Hmf & Hi). apply lift_Ok in Hmf as [_ ->].
  apply bind_Ok in Hi as (id & s4 & Hid & Hi).
  assert (s4 = set_contract_version (Some (mkContractVersion ACCOUNT CONTRACT_VERSION)) empty_state ∧
    match init_account_id msg with
    | Some id' => id = id'
    | None => ∃ registry seq, registry_new (init_code_id msg) = Ok registry ∧
        query_local_account_sequence registry = Ok seq ∧ id = account_id_local seq
    end) as [-> Hid'] by (destruct (init_account_id msg); inv_ok; [done|]; split; [done|eauto]).
  apply bind_Ok in Hi as (own & s5 & Hc & Hi).
  apply init_cells_spec in Hc as (Hv & Hmay & Hnew); [|done..].
  exists id, (owner own). split; [done|]. split; [done|]. split; [|done].
  refine ((_ : Preserves (new_account msg id (owner own)) _) s5 _ _ Hnew Hi).
  repeat first [account_step | preserve_unfold].
Qed.
End creation.


(** ** The account and the module factory agree *)

Section agreement.
Context `{Semver, Api, Instantiate2, CwOwnable, CoinsOps, Sha256, Json}.
Context `{!Querier, !Registries, !ModuleQueries}.

Lemma first_release_in l x : first_release l = Ok (Some x) → x ∈ l.
Proof.
  induction l as [|[v r] l IH]; simpl; intros Hf; [done|]. inv_ok.
  destruct (ver_release _); simplify_eq; [left|right; auto].
Qed.

(** Asking the registry again for the modules it answered gives the same
    answer. *)
Lemma query_one_again s m r :
  query_one_module s m = Ok r → query_one_module s (mod_info (resp_module r)) = Ok r.
Proof.
  unfold query_one_module at 1. destruct m as [ns name [|v]]; cbn -[query_one_module]; intros Hq.
  - destruct (first_release _) as [[[v r']|]|?|] eqn:Hf; try done. cbn -[query_one_module] in Hq.
    injection Hq as <-. cbn -[query_one_module]. unfold query_one_module, version_from_key.
    case_decide as Hv; cbn; [by rewrite Hf; cbn; unfold version_from_key; rewrite decide_True|].
    assert ((v, r') ∈ versions_of (registered s) ns name) as Hin.
    { apply elem_of_reverse. by apply first_release_in. }
    apply versions_of_spec in Hin.
    assert (registered s !! mkey (mkModuleInfo ns name (Version v)) = Some r') as -> by exact Hin. done.
  - destruct (registered s !! _) as [r'|] eqn:Hr; [|done]. cbn -[query_one_module] in Hq.
    injection Hq as <-. unfold query_one_module. cbn. by rewrite Hr.
Qed.
Lemma query_modules_again registry infos resps :
  query_modules_configs registry infos = Ok resps →
  query_modules_configs registry ((λ r, mod_info (resp_module r)) <$> resps) = Ok resps.
Proof.
  unfold query_modules_configs, smart_query, handle_modules_query. intros Hq.
  apply obind_Ok in Hq as (s & Hs & Hq). rewrite Hs. cbn.
  destruct (omapM _ infos) as [l|?|] eqn:Ho; [|done..]. injection Hq as ->.
  enough (omapM (query_one_module s) ((λ r, mod_info (resp_module r)) <$> resps) = Ok resps) as -> by done.
  apply omapM_Ok. apply omapM_Ok in Ho. induction Ho as [|m r ms rs Hm _ IH]; [constructor|].
  constructor; [by eapply query_one_again|done].
Qed.

(** Where a module of an installation is, and the new contract it needs. *)
Definition placed (canon : canonical_addr) (salt : string) (r : ModuleResponse) (a : Addr) : Prop :=
  match mod_reference (resp_module r) with
  | RefAdapter b | RefNative b | RefService b => a = b
  | RefApp code_id | RefStandalone code_id => predict_module_address canon salt code_id = Ok a
  | RefAccount _ => False
  end.
Definition new_contract (canon : canonical_addr) (salt : string) (r : ModuleResponse) : option Addr :=
  match mod_reference (resp_module r) with
  | RefApp code_id | RefStandalone code_id => ok (predict_module_address canon salt code_id)
  | _ => None
  end.
(** The address at which a message of [creator] instantiates a contract. *)
Definition instantiated_at (creator : Addr) (m : CosmosMsg) : option Addr :=
  match m with
  | WasmInstantiate2 _ code_id _ _ _ salt =>
      canon ← addr_canonicalize creator; ok (predict_module_address canon salt code_id)
  | _ => None
  end.

Lemma placed_functional canon salt l k k' :
  Forall2 (placed canon salt) l k → Forall2 (placed canon salt) l k' → k = k'.
Proof.
  intros Hk. revert k'. induction Hk as [|r a l k Ha _ IH]; intros k' Hk'; inversion Hk'; subst; [done|].
  f_equal; [|by apply IH]. unfold placed in *. destruct (mod_reference _); congruence || done.
Qed.

(** One round of the account's loop. *)
Lemma install_module_spec canon salt acc r init s acc' s' :
  install_module canon salt acc (r, init) s = Ok (acc', s') →
  s' = s ∧ ∃ a o i, placed canon salt r a ∧ o = new_contract canon salt r ∧
    add_to_account acc' = add_to_account acc ++ [(module_id (mod_info (resp_module r)), a)] ∧
    install_context acc' = install_context acc ++ [(resp_module r, o)] ∧
    factory_modules acc' = factory_modules acc ++ [mkFactoryInstall (mod_info (resp_module r)) i].
Proof.
  unfold install_module, placed, new_contract. intros Hi.
  apply bind_Ok in Hi as (? & s1 & Hs & Hi). apply gets_Ok in Hs as [-> ->].
  apply bind_Ok in Hi as (? & s1 & Hs & Hi). apply ensure_Ok in Hs as [_ ->]. cbv zeta in Hi. cbn in Hi.
  destruct (mod_reference (resp_module r)); inv_ok;
    (split; [done|]; do 3 eexists; split; [done || eassumption|]; split_and!; try done).
  all: by match goal with Hp : predict_module_address _ _ _ = Ok _ |- _ => rewrite Hp end.
Qed.
(** What the account's loop collects of the responses. *)
Definition collected (canon : canonical_addr) (salt : string) (resps : list ModuleResponse)
    (acc acc' : Installing) : Prop :=
  ∃ addrs, Forall2 (placed canon salt) resps addrs ∧
    add_to_account acc' = add_to_account acc
      ++ zip ((λ r, module_id (mod_info (resp_module r))) <$> resps) addrs ∧
    install_context acc' = install_context acc
      ++ ((λ r, (resp_module r, new_contract canon salt r)) <$> resps) ∧
    fmic_module <$> factory_modules acc' = (fmic_module <$> factory_modules acc)
      ++ ((λ r, mod_info (resp_module r)) <$> resps).
Lemma install_loop_spec canon salt resps inits acc s acc' s' :
  List.length inits = List.length resps →
  mfold (zip resps inits) acc (install_module canon salt) s = Ok (acc', s') →
  s' = s ∧ collected canon salt resps acc acc'.
Proof.
  revert inits acc. induction resps as [|r resps IH]; intros [|i inits] acc Hlen Hm; try done.
  - simpl in Hm. inv_ok. split; [done|]. exists []. simpl. by rewrite !app_nil_r.
  - injection Hlen as Hlen. cbn [zip zip_with mfold] in Hm. apply bind_Ok in Hm as (acc1 & s1 & Hi & Hm).
    apply install_module_spec in Hi as (-> & a & o & j & Ha & -> & Hadd & Hctx & Hfm).
    apply IH in Hm as [-> (addrs & Hall & Hadd' & Hctx' & Hfm')]; [|done].
    split; [done|]. exists (a :: addrs). split; [by constructor|].
    rewrite Hadd', Hadd, Hctx', Hctx, Hfm', Hfm, fmap_app, <-!app_assoc. done.
Qed.

(** The factory instantiates at the address the account predicts. *)
Lemma instantiate_module_at canon h code_id body salt account fs i creator a m :
  addr_canonicalize creator = Some canon →
  instantiate_module canon h code_id body salt account fs i = Ok (a, m) →
  predict_module_address canon salt code_id = Ok a ∧ instantiated_at creator m = Some a.
Proof.
  intros Hcan Hi. unfold instantiate_module, instantiate2_contract in Hi. inv_ok. simplify_eq.
  assert (predict_module_address canon salt code_id = Ok a) as Hp.
  { unfold predict_module_address.
    repeat match goal with Hq : query_r _ = Ok _ |- _ => rewrite Hq; clear Hq; cbn
      | Hq : instantiate2_address _ _ _ = Some _ |- _ => rewrite Hq; clear Hq; cbn
      | Hq : addr_humanize _ = Some _ |- _ => rewrite Hq; clear Hq; cbn end. done. }
  split; [done|]. simpl. rewrite Hcan. simpl. by rewrite Hp.
Qed.
(** The same for the factory's loop: its instantiations, in order. *)
Lemma create_all_placed registry canon h account salt msgs resps c c' creator :
  addr_canonicalize creator = Some canon →
  List.length msgs = List.length resps →
  create_all registry canon h account salt c (zip msgs resps) = Ok c' →
  ∃ insts, module_instantiate_messages c' = module_instantiate_messages c ++ insts ∧
    instantiated_at creator <$> insts = Some <$> omap (new_contract canon salt) resps.
Proof.
  intros Hcan. revert msgs c. induction resps as [|r resps IH]; intros [|m msgs] c Hlen Hc; try done.
  - simpl in Hc. inv_ok. exists []. by rewrite app_nil_r.
  - injection Hlen as Hlen. cbn [zip zip_with create_all] in Hc. apply obind_Ok in Hc as (c1 & Hm & Hc).
    apply IH in Hc as (insts & Hi & Hat); [|done].
    apply create_module_spec in Hm as (fees & sum & _ & _ & _ & a & _ & Href & _).
    assert ((∃ msg, module_instantiate_messages c1 = module_instantiate_messages c ++ [msg] ∧
        instantiated_at creator msg = new_contract canon salt r ∧ is_Some (new_contract canon salt r)) ∨
      module_instantiate_messages c1 = module_instantiate_messages c ∧ new_contract canon salt r = None)
      as [(msg & Hmsg & Hnew & [b Hb])|[Hmsg Hnew]].
    { unfold new_contract. destruct (mod_reference (resp_module r)) as [| | |code|code|];
        [done|right; by destruct Href..|left|left|right; by destruct Href].
      all: destruct Href as (msg & body & Hmsg & Hinst); exists msg; split; [done|].
      all: by destruct (instantiate_module_at _ _ _ _ _ _ _ _ _ _ _ Hcan Hinst) as [-> ->]. }
    + exists (msg :: insts). rewrite Hi, Hmsg, <-app_assoc. split; [done|].
      cbn [fmap list_fmap omap list_omap]. rewrite Hnew, Hb. cbn. f_equal. exact Hat.
    + exists insts. rewrite Hi, Hmsg. split; [done|]. cbn [omap list_omap]. by rewrite Hnew.
Qed.
Lemma create_all_fees registry canon h account salt c l c' :
  create_all registry canon h account salt c l = Ok c' →
  ∃ fees, fee_msgs c' = fee_msgs c ++ fees ∧ Forall (λ m, ∃ a f, m = MsgBankSend a f) fees.
Proof.
  revert c. induction l as [|[m r] l IH]; intros c Hc.
  - simpl in Hc. inv_ok. exists []. by rewrite app_nil_r.
  - apply obind_Ok in Hc as (c1 & Hm & Hc). apply IH in Hc as (fees & Hf & Hall).
    apply create_module_spec in Hm as (fees' & sum & Hfee & _ & Hmsg & _).
    exists (fees' ++ fees). rewrite Hf, Hmsg, <-app_assoc. split; [done|].
    apply Forall_app. split; [|done]. unfold collect_fee in Hfee.
    destruct (monetization _); inv_ok; [constructor|]. constructor; [by do 2 eexists|constructor].
Qed.

Lemma omap_of_fmap {A B} (f : A → option B) (l : list A) (k : list B) : f <$> l = Some <$> k → omap f l = k.
Proof.
  revert k. induction l as [|x l IH]; intros [|y k] Hl; simplify_eq/=; [done|].
  match goal with Hx : f x = Some _ |- _ => rewrite Hx end. f_equal. by apply IH.
Qed.
Lemma omap_fees creator l :
  Forall (λ m, ∃ a f, m = MsgBankSend a f) l → omap (instantiated_at creator) l = [].
Proof. induction 1 as [|m l (a & f & ->) _ IH]; [done|]. exact IH. Qed.

Lemma msgs_of_send {A} (l : list A) : msg_of <$> (send <$> l) = l.
Proof. induction l as [|x l IH]; [done|]. rewrite !fmap_cons, IH. done. Qed.
Lemma omap_snd canon salt (resps : list ModuleResponse) :
  omap snd ((λ r, (resp_module r, new_contract canon salt r)) <$> resps)
  = omap (new_contract canon salt) resps.
Proof. induction resps as [|r resps IH]; [done|]. 
  change (match new_contract canon salt r with
    | Some a => a :: omap snd ((λ r, (resp_module r, new_contract canon salt r)) <$> resps)
    | None => omap snd ((λ r, (resp_module r, new_contract canon salt r)) <$> resps)
    end = omap (new_contract canon salt) (r :: resps)).
  rewrite IH. done.
Qed.
Lemma placed_addresses canon salt resps addrs :
  Forall2 (placed canon salt) resps addrs →
  Forall2 (λ (x : Module_ * option Addr) (y : string * Addr), y.1 = module_id (mod_info x.1) ∧
      match x.2 with Some a => y.2 = a | None => unwrap_addr (mod_reference x.1) = Ok y.2 end)
    ((λ r, (resp_module r, new_contract canon salt r)) <$> resps)
    (zip ((λ r, module_id (mod_info (resp_module r))) <$> resps) addrs).
Proof.
  induction 1 as [|r a resps addrs Ha _ IH]; [constructor|]. simpl. constructor; [|exact IH].
  split; [done|]. simpl. unfold placed, new_contract in *.
  destruct (mod_reference (resp_module r)); try done; simpl; try (by subst); by rewrite Ha.
Qed.

(** Adding addresses to the account. *)
Definition add_modules (l : list (string * Addr)) (m : gmap string Addr) : gmap string Addr :=
  foldl (λ m x, <[x.1 := x.2]> m) m l.
Lemma update_addresses_spec l s u s' :
  update_module_addresses l [] s = Ok (u, s') →
  s' = set_account_modules (add_modules l (account_modules s)) s.
Proof.
  unfold update_module_addresses. intros Hu. apply bind_Ok in Hu as (? & s1 & Hl & Hu). inv_ok.
  revert s Hl. induction l as [|[id a] l IH]; intros s Hl.
  - simpl in Hl. inv_ok. by destruct s.
  - apply mfor_Ok_cons in Hl as (s2 & Ha & Hl). inv_ok. by apply IH in Hl.
Qed.

(** What an installation leaves on the account. *)
Lemma install_internal_spec modules fs code_id s l s' :
  install_modules_internal modules fs code_id s = Ok (l, s') →
  ∃ id registry mf canon resps fms addrs, account_id s = Some id ∧
    registry_new code_id = Ok registry ∧ addr_canonicalize mf = Some canon ∧
    query_modules_configs registry (mic_module <$> modules) = Ok resps ∧
    l = [reply_on_success (WasmExecute mf (ToModuleFactory fms (generate_instantiate_salt id)) fs)
           REGISTER_MODULES_DEPENDENCIES_REPLY_ID] ∧
    fmic_module <$> fms = (λ r, mod_info (resp_module r)) <$> resps ∧
    Forall2 (placed canon (generate_instantiate_salt id)) resps addrs ∧
    install_modules_context s' =
      Some ((λ r, (resp_module r, new_contract canon (generate_instantiate_salt id) r)) <$> resps) ∧
    account_modules s' =
      add_modules (zip ((λ r, module_id (mod_info (resp_module r))) <$> resps) addrs) (account_modules s).
Proof.
  unfold install_modules_internal, load. intros Hi.
  apply bind_Ok in Hi as (id & s1 & Hid & Hi). inv_ok.
  match goal with Hm : mfold _ _ _ _ = Ok _, Hq : query_modules_configs _ _ = Ok _ |- _ =>
    pose proof (query_modules_configs_length _ _ _ Hq) as Hlen;
    apply install_loop_spec in Hm as (-> & addrs & Hall & Hadd & Hctx & Hfm);
      [|rewrite !length_fmap in *; congruence] end.
  match goal with Hw : update_whitelisted_modules _ _ _ = Ok _ |- _ =>
    apply update_whitelisted_keeps in Hw as (w & -> & _) end.
  match goal with Hu : update_module_addresses _ _ _ = Ok _ |- _ =>
    apply update_addresses_spec in Hu as -> end.
  do 7 eexists. split; [eassumption|]. split; [eassumption|]. split; [eassumption|].
  split; [eassumption|]. split; [done|]. split; [exact Hfm|]. split; [exact Hall|].
  simpl in *. rewrite Hctx, Hadd. done.
Qed.
End agreement.

(** The account and the module factory agree.  When an account installs
    modules and the factory runs the message it sends, against the same chain,
    the contracts the factory instantiates are, in order, at exactly the
    addresses the account has recorded for the new apps and standalones; the
    other modules are recorded at the address the registry gives. *)
Theorem install_addresses_agree `{Semver, Api, Instantiate2, CwOwnable, CoinsOps, Sha256, Json,
      !Querier, !Registries, !ModuleQueries}
    (env envf : Env) (info : MessageInfo) (modules : list ModuleInstallConfig)
    (fms : list FactoryModuleInstallConfig) (salt : string)
    (s s' : State) (sf sf' : ModuleFactory.State) (r rf : Response CosmosMsg)
    (Hcall : execute env info (InstallModules modules) s = Ok (r, s'))
    (Hmsg : messages r = [reply_on_success
       (WasmExecute (contract_address envf) (ToModuleFactory fms salt) (funds info))
       REGISTER_MODULES_DEPENDENCIES_REPLY_ID])
    (Hsame : ∀ c c', abstract_code_id (contract_address env) = Ok c →
       abstract_code_id (contract_address envf) = Ok c' → registry_new c' = registry_new c)
    (Hfactory : ModuleFactory.execute envf (mkInfo (contract_address env) (funds info))
       (ModuleFactory.InstallModules fms salt) sf = Ok (rf, sf')) :
  ∃ ctx adds, install_modules_context s' = Some ctx ∧
    omap (instantiated_at (contract_address envf)) (msg_of <$> messages rf) = omap snd ctx ∧
    account_modules s' = add_modules adds (account_modules s) ∧
    Forall2 (λ x y, y.1 = module_id (mod_info x.1) ∧
      match x.2 with Some a => y.2 = a | None => unwrap_addr (mod_reference x.1) = Ok y.2 end) ctx adds.
Proof.
  apply execute_inv in Hcall as [[_ Hcall]|(b & [=] & _)]. apply owner_first in Hcall as [_ Hcall].
  apply bind_Ok in Hcall as (code_id & s1 & Hcode & Hcall). apply lift_Ok in Hcode as [Hcode%map_err_Ok ->].
  apply bind_Ok in Hcall as (l & s2 & Hi & Hcall). inv_ok.
  apply install_internal_spec in Hi
    as (id & registry & mf & canon & resps & fms' & addrs & _ & Hreg & Hcan & Hq & -> & Hfm & Hall & Hctx & Hmods).
  simpl in Hmsg. injection Hmsg as -> -> <-.
  set (salt := generate_instantiate_salt id) in *.
  exists ((λ r, (resp_module r, new_contract canon salt r)) <$> resps), (zip ((λ r, module_id (mod_info (resp_module r))) <$> resps) addrs).
  split; [exact Hctx|].
  apply execute_create_modules_inv in Hfactory as (cf & registry' & account & resps' & canon' & c & Hcf
    & Hreg' & _ & Hq' & Hcan' & Hc & _ & -> & _).
  rewrite (Hsame _ _ Hcode Hcf), Hreg in Hreg'. injection Hreg' as <-.
  rewrite Hfm, (query_modules_again _ _ _ Hq) in Hq'. injection Hq' as <-.
  rewrite Hcan in Hcan'. injection Hcan' as <-.
  assert (List.length (fmic_init_msg <$> fms) = List.length resps) as Hlen.
  { apply (f_equal List.length) in Hfm. rewrite !length_fmap in *. done. }
  pose proof (create_all_fees _ _ _ _ _ _ _ _ Hc) as (fees & Hf & Hfees).
  apply (create_all_placed _ _ _ _ _ _ _ _ _ _ Hcan Hlen) in Hc as (insts & Hi & Hat).
  split_and!; [|exact Hmods|by apply placed_addresses].
  cbn [messages]. rewrite msgs_of_send, Hf, Hi. cbn [nothing_collected fee_msgs module_instantiate_messages app].
  rewrite omap_app, omap_fees, (omap_of_fmap _ _ _ Hat) by done. simpl.
  rewrite omap_snd. done.
Qed.
