(* ===== verification/IbcHostProofs.v ===== *)
(** * Correctness of the IBC host

    The chains and their proxies are in one-to-one correspondence; a proxy acts
    only on the accounts created for accounts of its own chain; an action for an
    account that does not exist yet is carried out after its creation; the host
    owns the accounts it creates; and module-to-module calls name the account
    the way account ids travel. *)

From S2P Require Import Prelude Cosmos Strings Objects Names AccountIds Fees ModuleFactory Ownership AnsObjects Ans AnsClient Registry Clients Account AccountInstall Ibc IbcHost.
From Stdlib Require Import Ascii String.
#[local] Open Scope string_scope.
#[local] Open Scope list_scope.
#[local] Open Scope Z_scope.

Section proofs.
Context `{Semver, Api, Instantiate2, CwOwnable, CoinsOps, Sha256, CwAsset}.
Context `{!AnsHosts, !Accounts, !IbcJson, !CwUtils}.

Inductive reachable : State → Prop :=
  | reachable_init info r s : instantiate info empty_state = Ok (r, s) → reachable s
  | reachable_call (Q : Querier) (R : Registries) env info msg r s s' : reachable s →
      execute env info msg s = Ok (r, s') → reachable s'
  | reachable_reply (Q : Querier) (R : Registries) env id x r s s' : reachable s →
      reply env id x s = Ok (r, s') → reachable s'
  | reachable_migrate r s s' : reachable s → migrate s = Ok (r, s') → reachable s'.

(** ** Chains and proxies *)

Definition proxies_inverse (s : State) : Prop :=
  (∀ c p, id <$> chain_proxies s !! c = Some p ↔ reverse_chain_proxies s !! p = Some c) ∧
  map_Forall (λ c _, chain_verify c = Ok tt) (chain_proxies s).

Lemma register_chain_proxy_inverse info c p : Preserves proxies_inverse (register_chain_proxy info c p).
Proof.
  intros s r s' [Hinv Hv] Hrun. unfold register_chain_proxy, assert_owner in Hrun. inv_ok.
  repeat match goal with u : () |- _ => destruct u end.
  match goal with Hn : negb _ = true |- _ =>
    rewrite negb_true_iff, bool_decide_eq_false in Hn; apply Decidable.not_or in Hn as [Hn1 Hn2] end.
  apply dec_stable in Hn1, Hn2. split; simpl; [by apply (inverse_add id)|by apply map_Forall_insert_2].
Qed.
Lemma remove_chain_proxy_inverse info c : Preserves proxies_inverse (remove_chain_proxy info c).
Proof.
  intros s r s' [Hinv Hv] Hrun. unfold remove_chain_proxy, assert_owner in Hrun. inv_ok.
  case_match eqn:Hi; inv_ok; (split; simpl; [|by apply map_Forall_delete]).
  - by apply (inverse_delete id).
  - by rewrite delete_id.
Qed.
(** The other calls keep the proxies, the owner and the versions. *)
Definition same_proxies (s s' : State) : Prop :=
  ∃ t, s' = set_temp_action_after_creation t s.
Lemma handle_host_action_keeps (Q : Querier) (R : Registries) env c a id action (I : State → Prop) :
  (∀ s t, I s → I (set_temp_action_after_creation t s)) →
  Preserves I (handle_host_action env c a id action).
Proof.
  intros HI. unfold handle_host_action. preserve; intros s u s' Hs Hrun; inv_ok; by apply HI.
Qed.
Lemma execute_proxies (Q : Querier) (R : Registries) env info msg :
  Preserves proxies_inverse (execute env info msg).
Proof.
  destruct msg; simpl; unfold execute_update_ownership, source_chain; preserve;
    [apply register_chain_proxy_inverse|apply remove_chain_proxy_inverse
    |by apply handle_host_action_keeps].
Qed.

(** In every reachable state a chain has a proxy exactly when the proxy is
    registered for the chain, so that the sender of a message identifies one
    chain, and every registered chain is a valid name. *)
Theorem proxies_bijection (s : State) (Hs : reachable s) :
  (∀ c p, chain_proxies s !! c = Some p ↔ reverse_chain_proxies s !! p = Some c) ∧
  (∀ c, is_Some (chain_proxies s !! c) → chain_verify c = Ok tt).
Proof.
  assert (proxies_inverse s) as [Hinv Hv].
  { induction Hs as [info r s Hrun|Q R env info msg r s s' _ IH Hrun|Q R env id x r s s' _ IH Hrun
      |r s s' _ IH Hrun].
    - unfold instantiate in Hrun. inv_ok. split; [|apply map_Forall_empty].
      intros c n. simpl. by rewrite !lookup_empty.
    - by eapply execute_proxies.
    - refine ((_ : Preserves proxies_inverse (reply env id x)) s r s' IH Hrun).
      unfold reply, reply_execute_action. preserve. by apply handle_host_action_keeps.
    - refine ((_ : Preserves proxies_inverse migrate) s r s' IH Hrun). unfold migrate. preserve. }
  split; [|intros c [p Hp]; by apply (Hv c p)].
  intros c p. rewrite <-Hinv. destruct (chain_proxies s !! c); simpl; naive_solver.
Qed.

(** ** What a proxy can do *)

Section calls.
Context {Q : Querier} {R : Registries}.

(** The account of another chain's account, as the registry knows it. *)
Definition account_from (env : Env) (chain : TruncatedChainId) (id : AccountId) (a : Addr) : Prop :=
  get_account env (push_account_chain id chain) = Ok a.

(** The host instantiates the account of [id] from [chain]. *)
Definition creates (env : Env) (id : AccountId) (chain : TruncatedChainId) (m : HostMsg) : Prop :=
  ∃ a code_id n d l ns mods f, let account_id := push_account_chain id chain in
    m = HostCosmos (WasmInstantiate2 (Some a) code_id (show_account_id account_id)
      (ToNewAccount (create_account_msg env code_id account_id n d l ns mods)) f
      (account_id_to_json account_id)) ∧ verify_remote (acc_trace account_id) = Ok tt.
Lemma receive_register_Ok env id chain n d l ns mods b f r :
  receive_register env (push_account_chain id chain) n d l ns mods b f = Ok r →
  ∃ m, creates env id chain m ∧
    messages r = [if b then reply_on_success m INIT_BEFORE_ACTION_REPLY_ID else send m].
Proof.
  unfold receive_register. intros Hr. inv_ok. eexists. split; [|reflexivity].
  repeat match goal with u : () |- _ => destruct u end. repeat eexists. done.
Qed.

(** The response to an action on an account that exists. *)
Definition acts (env : Env) (chain : TruncatedChainId) (account : Addr) (action : HostAction)
    (r : Response HostMsg) : Prop :=
  match action with
  | Dispatch account_msgs => r = receive_dispatch account account_msgs
  | Helpers SendAllBack => receive_send_all_back env account chain = Ok r
  | Internal _ => False
  end.
Lemma handle_host_action_Ok env chain address id action s r s' :
  handle_host_action env chain address id action s = Ok (r, s') →
  (∃ m, creates env id chain m ∧ (∃ a, action = Internal a) ∧ messages r = [send m] ∧ s' = s) ∨
  (∃ account, account_from env chain id account ∧ acts env chain account action r ∧ s' = s) ∨
  (∃ m e, creates env id chain m ∧ (∀ a, action ≠ Internal a) ∧
     get_account env (push_account_chain id chain) = Err e ∧
     messages r = [reply_on_success m INIT_BEFORE_ACTION_REPLY_ID] ∧
     s' = set_temp_action_after_creation (Some (mkActionCache address id action chain)) s).
Proof.
  unfold handle_host_action, account_from. intros Hrun. destruct action as [msgs|[n d l ns mods]|[]].
  - destruct (get_account _ _) as [account|e|] eqn:Ha; inv_ok; [right; left; by eauto|].
    right; right. match goal with Hr : receive_register _ _ _ _ _ _ _ _ _ = Ok _ |- _ =>
      apply receive_register_Ok in Hr as (m & Hm & Hr) end. by eauto 10.
  - left. inv_ok. match goal with Hr : receive_register _ _ _ _ _ _ _ _ _ = Ok _ |- _ =>
      apply receive_register_Ok in Hr as (m & Hm & Hr) end. by eauto 10.
  - destruct (get_account _ _) as [account|e|] eqn:Ha; inv_ok; [right; left; by eauto|].
    right; right. match goal with Hr : receive_register _ _ _ _ _ _ _ _ _ = Ok _ |- _ =>
      apply receive_register_Ok in Hr as (m & Hm & Hr) end. by eauto 10.
Qed.
Lemma acts_messages env chain account action r x : acts env chain account action r →
  x ∈ messages r → ∃ m, msg_of x = AccountCall account m ∧
    (∀ msgs, action = Dispatch msgs → m ∈ msgs).
Proof.
  destruct action as [msgs|a|[]]; simpl; [|done|].
  - intros -> Hx. apply list_elem_of_fmap in Hx as (m & -> & Hm). exists m.
    split; [done|]. by intros ? [= ->].
  - unfold receive_send_all_back, send_all_back. intros Hr Hx. inv_ok.
    apply list_elem_of_singleton in Hx as ->. eexists. split; [done|]. by intros.
Qed.
End calls.

(** C9. A chain reaches only its own accounts.  Whatever a call of the host
    sends: a call of an account comes from the proxy of a registered chain,
    carries a message of its action, and goes to the account the registry has
    for the named account of that very chain; the creation of an account is for
    an account of that chain, or paid by anybody for the chain it names; a call
    of a module names the chain of the proxy as its source; and only the owner
    changes the proxies. *)
Theorem host_actions_isolated (Q : Querier) (R : Registries) (env : Env) (info : MessageInfo)
    (msg : HostExecuteMsg) (s : State) (r : Response HostMsg) (s' : State)
    (Hrun : execute env info msg s = Ok (r, s')) :
  (∀ x, x ∈ messages r →
     (∃ chain id address action account m, msg = HostExecute id address action ∧
        reverse_chain_proxies s !! sender info = Some chain ∧ account_from env chain id account ∧
        msg_of x = AccountCall account m ∧ (∀ msgs, action = Dispatch msgs → m ∈ msgs)) ∨
     (∃ chain id address action, msg = HostExecute id address action ∧
        reverse_chain_proxies s !! sender info = Some chain ∧ creates env id chain (msg_of x)) ∨
     (∃ chain id, msg = Fund id chain ∧
        (creates env id chain (msg_of x) ∨
         ∃ account, account_from env chain id account ∧
           msg_of x = HostCosmos (MsgBankSend account (funds info)))) ∨
     (∃ chain source target m module, msg = ModuleExecute source target m ∧
        reverse_chain_proxies s !! sender info = Some chain ∧
        msg_of x = ModuleIbc module chain (im_module_info source) m)) ∧
  (chain_proxies s' ≠ chain_proxies s ∨ reverse_chain_proxies s' ≠ reverse_chain_proxies s →
     ∃ o, cw_ownership s = Some o ∧ cw_assert_owner o (sender info) = Ok tt).
Proof.
  destruct msg as [a|chain proxy|chain|id address action|source target m|id chain]; simpl in Hrun.
  - unfold execute_update_ownership in Hrun. inv_ok. split; [by intros y ?%not_elem_of_nil|].
    intros [Hn|Hn]; by destruct Hn.
  - unfold register_chain_proxy, assert_owner in Hrun. inv_ok. repeat match goal with u : () |- _ => destruct u end.
    split; [by intros y ?%not_elem_of_nil|]. eauto.
  - unfold remove_chain_proxy, assert_owner in Hrun. inv_ok. repeat match goal with u : () |- _ => destruct u end.
    split; [by intros y ?%not_elem_of_nil|]. eauto.
  - unfold source_chain in Hrun. inv_ok.
    match goal with Hh : handle_host_action _ _ _ _ _ _ = Ok _ |- _ => apply handle_host_action_Ok in Hh as
      [(m & Hm & _ & Hr & ->)|[(account & Ha & Hact & ->)|(m & e & Hm & _ & _ & Hr & ->)]] end;
      (split; [|by intros [Hn|Hn]; destruct Hn]); intros y Hy.
    + rewrite Hr in Hy. apply list_elem_of_singleton in Hy as ->. right; left. by eauto 10.
    + destruct (acts_messages _ _ _ _ _ _ Hact Hy) as (m & Hm & Hin). left. by eauto 15.
    + rewrite Hr in Hy. apply list_elem_of_singleton in Hy as ->. right; left. by eauto 10.
  - unfold source_chain, handle_module_execute in Hrun. inv_ok.
    split; [|by intros [Hn|Hn]; destruct Hn]. intros y Hy.
    apply list_elem_of_singleton in Hy as ->. right; right; right. by eauto 15.
  - unfold execute_fund in Hrun. inv_ok. split; [|by intros [Hn|Hn]; destruct Hn]. intros y Hy.
    right; right; left. exists chain, id. split; [done|].
    destruct (get_account _ _) as [account|e|] eqn:Ha; inv_ok.
    + right. exists account. split; [done|]. by apply list_elem_of_singleton in Hy as ->.
    + left. match goal with Hr : receive_register _ _ _ _ _ _ _ _ _ = Ok _ |- _ =>
        apply receive_register_Ok in Hr as (m & Hm & Hmsgs) end.
      rewrite Hmsgs in Hy. by apply list_elem_of_singleton in Hy as ->.
Qed.

(** ** Accounts created on the way *)

(** C12. An action for an account that exists is carried out at once and leaves
    the host's state alone.  For an account that does not exist, the host asks
    for its creation and keeps the action; the reply after the creation carries
    the action out on the new account, exactly as if it had existed, and leaves
    the host's state as it was before the whole transaction. *)
Theorem created_then_acted (Q : Querier) (R : Registries) (env : Env) (info : MessageInfo)
    (id : AccountId) (address : string) (action : HostAction) (s : State) (r : Response HostMsg)
    (s' : State) (Hext : ∀ a, action ≠ Internal a) (Hidle : temp_action_after_creation s = None)
    (Hrun : execute env info (HostExecute id address action) s = Ok (r, s')) :
  ∃ chain, reverse_chain_proxies s !! sender info = Some chain ∧
    ((∃ account, account_from env chain id account ∧ acts env chain account action r ∧ s' = s) ∨
     (∃ m, creates env id chain m ∧ messages r = [reply_on_success m INIT_BEFORE_ACTION_REPLY_ID] ∧
        ∀ (Q' : Querier) (R' : Registries) env' x account, account_from env' chain id account →
          ∀ r' s'', reply env' INIT_BEFORE_ACTION_REPLY_ID x s' = Ok (r', s'') ↔
            acts env' chain account action r'.1 ∧ r'.2 = None ∧ s'' = s)).
Proof.
  simpl in Hrun. unfold source_chain in Hrun. inv_ok. eexists. split; [done|].
  match goal with Hh : handle_host_action _ _ _ _ _ _ = Ok _ |- _ => apply handle_host_action_Ok in Hh as
    [(m & _ & (a & Ha) & _)|[(account & Ha & Hact & ->)|(m & e & Hm & _ & _ & Hr & ->)]] end;
    [by destruct (Hext a)|by left; eauto|right].
  exists m. split; [done|]. split; [done|]. intros Q' R' env' data account Ha r' s''.
  assert (∀ t, set_temp_action_after_creation None (set_temp_action_after_creation t s) = s) as Hback.
  { intros t. destruct s. simpl in Hidle. by subst. }
  unfold reply, reply_execute_action. rewrite decide_True by done.
  unfold mbind, M_bind, gets, lift, modify. simpl. rewrite Hback.
  unfold handle_host_action, account_from in *. destruct action as [msgs|a|[]]; [|by destruct (Hext a)|];
    rewrite Ha; simpl; unfold mret, M_ret, lift.
  - split; [intros [= <- <-]; done|]. destruct r' as [r1 d]. simpl. intros (-> & -> & ->). done.
  - destruct (receive_send_all_back env' account _) as [r2|e2|]; simpl.
    + split; [intros [= <- <-]; done|]. destruct r' as [r1 d]. simpl. by intros ([= ->] & -> & ->).
    + split; [done|]. by intros (? & _).
    + split; [done|]. by intros (? & _).
Qed.

(** An account the host creates belongs to the host: once the message of
    the host has instantiated the account contract, the account has the id of
    the account of the other chain, extended by that chain, is not suspended and
    is owned by the host, with no transfer pending; the account registers itself
    with whoever instantiated it as its creator; and the salt of its address
    belongs to that id alone. *)
Theorem host_owns_accounts `{!ApiLaws, !IbcJsonLaws, !ModuleQueries} (Q : Querier) (R : Registries)
    (env env' : Env) (info' : MessageInfo) (id : AccountId) (chain : TruncatedChainId)
    (admin : option Addr) (code : Z) (label salt : string) (m : AccountInstantiateMsg) (f : list Coin)
    (r : Response CosmosMsg) (st : Account.State)
    (Hm : creates env id chain (HostCosmos (WasmInstantiate2 admin code label (ToNewAccount m) f salt)))
    (Hinst : Account.instantiate env' info' m Account.empty_state = Ok (r, st)) :
  account_id st = Some (push_account_chain id chain) ∧
  ownership st = Some (mkOwnership (External (contract_address env) "abstract-ibc") None None) ∧
  suspension_status st = Some false ∧
  (∃ registry fee, head (messages r) = Some (send (WasmExecute registry
     (ToRegistry (Registry.AddAccount (init_namespace m) (sender info'))) fee))) ∧
  (∀ id2 chain2 admin2 code2 label2 m2 f2,
     creates env id2 chain2 (HostCosmos (WasmInstantiate2 admin2 code2 label2 m2 f2 salt)) →
     push_account_chain id2 chain2 = push_account_chain id chain).
Proof.
  destruct Hm as (a & c & n & d & l & ns & mods & f' & [= -> -> -> -> -> ->] & _).
  destruct (instantiate_new_account _ _ _ _ _ Hinst) as (id' & own & Hgov & _ & Hnew & ->).
  destruct Hnew as (Hid & Hsusp & Hown & _ & _).
  assert (own = External (contract_address env) "abstract-ibc") as ->.
  { change (verify_gov (External (contract_address env) "abstract-ibc") = Ok own) in Hgov.
    unfold verify_gov, addr_validate_r in Hgov.
    destruct (addr_validate (contract_address env)) as [b|] eqn:Hb; [|done].
    apply addr_validate_id in Hb as ->. vm_compute in Hgov. by injection Hgov as <-. }
  split_and!; [done..| |].
  - unfold Account.instantiate in Hinst.
    do 7 (apply bind_Ok in Hinst as (? & ? & _ & Hinst)). cbv zeta in Hinst.
    apply bind_Ok in Hinst as ([? ?] & ? & _ & Hinst).
    do 2 (apply bind_Ok in Hinst as (? & ? & _ & Hinst)).
    apply ret_Ok in Hinst as [-> _]. simpl. eauto.
  - intros id2 chain2 admin2 code2 label2 m2 f2 (? & ? & ? & ? & ? & ? & ? & ? & Heq & _).
    injection Heq as _ _ _ _ _ Hs. symmetry. by apply account_id_json_inj.
Qed.

(** The account a module-to-module call acts for: the host maps the account
    id of the calling module the way account ids travel between chains, so that
    for a trace that does not go back on itself the answer from the other chain
    maps back to the original account; an empty remote trace makes it trap. *)
Theorem module_account_id_travels (E : Type) (env env' : Env) (chain : TruncatedChainId) (id : AccountId)
    (Hchain : from_chain_id (chain_id (block env')) = chain) :
  let host_chain := from_chain_id (chain_id (block env)) in
  (acc_trace id ≠ Remote [] →
     client_to_host_module_account_id (E:=E) env chain id = Ok (into_remote_account_id id chain host_chain)) ∧
  (well_routed chain id → ∃ id', client_to_host_module_account_id (E:=E) env chain id = Ok id' ∧
     client_to_host_module_account_id (E:=E) env' host_chain id' = Ok id) ∧
  client_to_host_module_account_id (E:=E) env chain (mkAccountId (Remote []) (acc_seq id)) = Panic.
Proof.
  intros host_chain.
  assert (∀ e c i, acc_trace i ≠ Remote [] → client_to_host_module_account_id (E:=E) e c i =
    Ok (into_remote_account_id i c (from_chain_id (chain_id (block e))))) as Hmap.
  { intros e c [[|l] seq] Hne; unfold client_to_host_module_account_id, into_remote_account_id,
      push_account_chain; simpl in *; [done|].
    destruct l as [|x l _] using rev_ind; [done|]. rewrite last_snoc. simpl.
    destruct (decide (from_chain_id (chain_id (block e)) = x)) as [Hx|Hx],
      (decide (Some x ≠ Some (from_chain_id (chain_id (block e))))) as [Hd|Hd];
      [congruence|done|done|by destruct Hd; congruence]. }
  split; [apply Hmap|]. split; [|done]. intros Hr.
  destruct (into_remote_inverse id chain host_chain Hr) as (Hr' & _ & Hback).
  exists (into_remote_account_id id chain host_chain). split; [by apply Hmap, Hr|].
  rewrite Hmap by apply Hr'. by rewrite Hchain, Hback.
Qed.
End proofs.
