(* ===== verification/AdapterProofs.v ===== *)
(** * Correctness of the base of adapters

    Who reaches the handlers of an adapter; that the lists of authorised
    addresses stay small and without duplicates; what an update does to them;
    and that an upgrade of an adapter moves the addresses an account authorised
    to the new adapter. *)

From S2P Require Import Prelude Cosmos Strings Objects Names AccountIds Fees ModuleFactory Ownership AnsObjects Ans AnsClient Registry Clients Account AccountProofs AccountModules Ibc IbcClient IbcHost Sdk Adapter.
From Stdlib Require Import Ascii String.
#[local] Open Scope string_scope.
#[local] Open Scope list_scope.
#[local] Open Scope Z_scope.

(** ** Updates of the list *)

Section updates.
Context `{Semver, Api, !Querier, !Accounts}.

(** What the strings of an update stand for. *)
Definition resolves (sender : Addr) (l : list string) (addrs : list Addr) : Prop :=
  Forall2 (λ x a, get_addr_from_module_id_or_addr sender x = Ok a) l addrs.
(** The list after an update: the additions at its end, the removals gone. *)
Definition updated (current add remove : list Addr) : list Addr :=
  filter (λ a, a ∉ remove) (current ++ add).
(** The additions are new and the removals are there, each once. *)
Definition acceptable (current add remove : list Addr) : Prop :=
  NoDup add ∧ (∀ a, a ∈ add → a ∉ current) ∧ NoDup remove ∧ (∀ a, a ∈ remove → a ∈ (current ++ add)).

Lemma authorize_Ok sender current x l : authorize sender current x = Ok l ↔
  ∃ a, get_addr_from_module_id_or_addr sender x = Ok a ∧ l = current ++ [a] ∧ a ∉ current.
Proof.
  unfold authorize. rewrite obind_Ok. split.
  - intros (a & Ha & Hl). case_decide; inv_ok. eauto.
  - intros (a & Ha & -> & Hn). exists a. by rewrite decide_False.
Qed.
Lemma deauthorize_Ok sender current x l : deauthorize sender current x = Ok l ↔
  ∃ a, get_addr_from_module_id_or_addr sender x = Ok a ∧ a ∈ current ∧ l = filter (λ b, b ≠ a) current.
Proof.
  unfold deauthorize. rewrite obind_Ok. split.
  - intros (a & Ha & Hl). case_decide; inv_ok. eauto.
  - intros (a & Ha & Hn & ->). exists a. by rewrite decide_True.
Qed.

Lemma authorize_all_Ok sender to_add current l :
  ofold to_add current (authorize sender) = Ok l ↔
  ∃ add, resolves sender to_add add ∧ NoDup add ∧ (∀ a, a ∈ add → a ∉ current) ∧ l = current ++ add.
Proof.
  revert current. induction to_add as [|x to_add IH]; intros current; simpl.
  - split; [intros [= <-]|intros (add & Hr & _ & _ & ->)].
    + exists []. split_and!; [by constructor|by constructor|by intros a ?%not_elem_of_nil|by rewrite app_nil_r].
    + inversion Hr. by rewrite app_nil_r.
  - rewrite obind_Ok. split.
    + intros (? & (a & Ha & -> & Hn)%authorize_Ok & (add & Hr & Hnd & Hnew & ->)%IH).
      exists (a :: add). split_and!.
      * by constructor.
      * constructor; [|done]. intros Hin. apply (Hnew a Hin), elem_of_app. right. by left.
      * intros b [->|Hb]%elem_of_cons; [done|]. intros Hc. apply (Hnew b Hb), elem_of_app. by left.
      * by rewrite <-app_assoc.
    + intros (add & Hr & Hnd & Hnew & ->). inversion Hr as [|? a ? add' Ha Hr']; subst.
      apply NoDup_cons in Hnd as [Hna Hnd]. exists (current ++ [a]). split.
      { apply authorize_Ok. exists a. split_and!; [done..|]. apply Hnew. by left. }
      apply IH. exists add'. split_and!; [done..| |by rewrite <-app_assoc].
      intros c Hc [Hcur| ->%list_elem_of_singleton]%elem_of_app; [|done].
      apply (Hnew c); [by right|done].
Qed.
Lemma filter_all {A} (P : A → Prop) `{∀ x, Decision (P x)} (l : list A) : (∀ x, P x) → filter P l = l.
Proof.
  intros HP. induction l as [|x l IH]; [done|]. by rewrite filter_cons_True, IH by apply HP.
Qed.
Lemma filter_twice {A} (P Q R : A → Prop) `{∀ x, Decision (P x), ∀ x, Decision (Q x), ∀ x, Decision (R x)} (l : list A) :
  (∀ x, R x ↔ P x ∧ Q x) → filter P (filter Q l) = filter R l.
Proof. intros HR. rewrite list_filter_filter. apply list_filter_iff. intros x. by rewrite HR. Qed.
Lemma deauthorize_all_Ok sender to_remove current l :
  ofold to_remove current (deauthorize sender) = Ok l ↔
  ∃ rem, resolves sender to_remove rem ∧ NoDup rem ∧ (∀ a, a ∈ rem → a ∈ current) ∧
    l = filter (λ a, a ∉ rem) current.
Proof.
  revert current. induction to_remove as [|x to_remove IH]; intros current; simpl.
  - split; [intros [= <-]|intros (rem & Hr & _ & _ & ->)].
    + exists []. split_and!; [by constructor|by constructor|by intros a ?%not_elem_of_nil|].
      by rewrite filter_all by apply not_elem_of_nil.
    + inversion Hr. by rewrite filter_all by apply not_elem_of_nil.
  - rewrite obind_Ok. split.
    + intros (? & (a & Ha & Hn & ->)%deauthorize_Ok & (rem & Hr & Hnd & Hsub & ->)%IH).
      exists (a :: rem). split_and!.
      * by constructor.
      * constructor; [|done]. intros Hin. apply Hsub, list_elem_of_filter in Hin as [? _]. done.
      * intros b [->|Hb]%elem_of_cons; [done|]. by apply Hsub, list_elem_of_filter in Hb as [_ ?].
      * apply filter_twice. intros b. rewrite not_elem_of_cons. tauto.
    + intros (rem & Hr & Hnd & Hsub & ->). inversion Hr as [|? a ? rem' Ha Hr']; subst.
      apply NoDup_cons in Hnd as [Hna Hnd]. exists (filter (λ b, b ≠ a) current). split.
      { apply deauthorize_Ok. exists a. split_and!; [done| |done]. apply Hsub. by left. }
      apply IH. exists rem'. split_and!; [done..| |].
      * intros c Hc. apply list_elem_of_filter. split; [by intros ->|]. apply Hsub. by right.
      * symmetry. apply filter_twice. intros c. rewrite not_elem_of_cons. tauto.
Qed.
End updates.

Section proofs.
Context `{Semver, Api, Instantiate2, CwOwnable, !Querier, !Registries, !Accounts, !ComparatorParse}.
Context {C Error Msg InitMsg ExecMsg QueryMsg SudoMsg : Type}.
Context `{!ContractError Error, !AdapterContractError Error}.
Abbreviation AdapterContract :=
  (AbstractContract (option Addr) (State C) Error Msg InitMsg ExecMsg QueryMsg () SudoMsg).
Implicit Types (module : AdapterContract) (s : State C).

(** ** Who may call *)

(** The sender is the owner at the top of the ownership of the account. *)
Definition top_level_owner (account a : Addr) : Prop := query_top_level_owner_addr account = Ok a.
Lemma is_top_level_owner_spec account a :
  is_top_level_owner_or_false account a = true ↔ top_level_owner account a.
Proof.
  unfold is_top_level_owner_or_false, is_top_level_owner, top_level_owner.
  destruct (query_top_level_owner_addr account) as [o|e|]; simpl; [|by split..].
  rewrite bool_decide_eq_true. split; [by intros ->|by intros [= ->]].
Qed.

(** Request and configuration act on an account the registry vouches for. *)
Definition may_request s (registry : Addr) (named : option string) (a account : Addr) : Prop :=
  registered_account registry account ∧
  match named with
  | None => a = account
  | Some n => addr_validate n = Some account ∧
      (a = account ∨ a ∈ authorized s account ∨ top_level_owner account a)
  end.
Definition may_configure (env : Env) (registry : Addr) (named : option string) (a account : Addr) : Prop :=
  registered_account registry account ∧
  (a = account ∧ assert_account_calling_to_as_admin_is_self env account = true ∨
   ∃ n, named = Some n ∧ addr_validate n = Some account ∧ top_level_owner account a).

Lemma addr_validate_r_Ok x (a : Addr) : addr_validate_r x = Ok a ↔ addr_validate x = Some a.
Proof. unfold addr_validate_r. destruct (addr_validate x); split; naive_solver. Qed.
Lemma request_account_Ok module s i registry named account :
  request_account module s i registry named = Ok account ↔
  may_request s registry named (sender i) account.
Proof.
  unfold request_account, may_request. destruct named as [n|].
  - split.
    + intros Hrun. inv_ok.
      match goal with Hr : assert_is_account _ _ = Ok _, Hv : addr_validate_r _ = Ok _ |- _ =>
        apply assert_is_account_Ok in Hr as [-> Hreg]; apply addr_validate_r_Ok in Hv as Hn end.
      case_decide as Hs; [inv_ok; by eauto|].
      match goal with Hr : (if ?b then _ else _) = Ok _ |- _ => destruct b eqn:Hor; inv_ok end.
      rewrite orb_true_iff, bool_decide_eq_true, is_top_level_owner_spec in Hor. by eauto.
    + intros (Hreg & Hn & Hmay). unfold addr_validate_r. rewrite Hn. simpl.
      assert (assert_is_account registry account = Ok account) as -> by by apply assert_is_account_Ok.
      simpl. case_decide as Hs; [done|].
      match goal with |- (if ?b then _ else _) = _ => assert (b = true) as -> end; [|done].
      rewrite orb_true_iff, bool_decide_eq_true, is_top_level_owner_spec. by destruct Hmay.
  - rewrite map_err_Ok, assert_is_account_Ok. naive_solver.
Qed.
Lemma base_account_Ok module env i registry named account :
  base_account module env i registry named = Ok account →
  may_configure env registry named (sender i) account.
Proof.
  unfold base_account, may_configure, assert_is_account_admin. intros Hrun.
  destruct (assert_is_account registry (sender i)) as [a|e|] eqn:Ha; simpl in Hrun.
  1: destruct (assert_account_calling_to_as_admin_is_self env (sender i)) eqn:Hadm; simpl in Hrun;
       [apply assert_is_account_Ok in Ha as [-> Hreg]; inv_ok; by eauto|].
  1, 2: clear Ha; destruct named as [n|]; [|done]; inv_ok; case_match eqn:Htop; inv_ok;
    match goal with Hr : assert_is_account _ _ = Ok _ |- _ =>
      apply assert_is_account_Ok in Hr as [-> ?] end;
    match goal with Hv : addr_validate_r _ = Ok _ |- _ => apply addr_validate_r_Ok in Hv end;
    apply is_top_level_owner_spec in Htop; by eauto 10.
  done.
Qed.
Lemma base_account_admin module env i registry named :
  registered_account registry (sender i) →
  assert_account_calling_to_as_admin_is_self env (sender i) = true →
  base_account module env i registry named = Ok (sender i).
Proof.
  intros Hreg Hadm. unfold base_account, assert_is_account_admin.
  assert (assert_is_account registry (sender i) = Ok (sender i)) as -> by by apply assert_is_account_Ok.
  simpl. by rewrite Hadm.
Qed.

(** The requests that reach the handler, exactly. *)
Definition request_runs module env i (rq : AdapterRequestMsg ExecMsg) s (x : Response Msg * State C) : Prop :=
  ∃ registry account h, abstract_registry s = Ok registry ∧
    may_request s registry (rq_account_address rq) (sender i) account ∧
    maybe_execute_handler module = Some h ∧ h env i (Some account) (rq_request rq) s = Ok x.
Lemma handle_app_msg_Ok module env i rq s x :
  handle_app_msg module env i rq s = Ok x → request_runs module env i rq s x.
Proof.
  destruct x as [r s']. unfold handle_app_msg, execute_handler, request_runs. intros Hrun. inv_ok.
  match goal with Hr : request_account _ _ _ _ _ = Ok _ |- _ => apply request_account_Ok in Hr end.
  by eauto 10.
Qed.

(** An adapter that takes no part in interchain calls runs its own handler, for
    an account that lets the sender, or updates lists of authorised addresses. *)
Lemma local_adapter_execute_Ok module h env i (msg : ExecuteMsg ExecMsg) s r s' :
  (∀ d, d ∈ dependencies module → sd_id d ≠ IBC_CLIENT) → maybe_module_ibc_handler module = None →
  maybe_execute_handler module = Some h →
  execute module env i msg s = Ok (r, s') →
  (∃ m l, msg = Base_ m ∧ messages r = [] ∧ s' = set_authorized_addresses l s) ∨
  ∃ rq registry account, msg = Module_msg rq ∧ abstract_registry s = Ok registry ∧
    may_request s registry (rq_account_address rq) (sender i) account ∧
    h env i (Some account) (rq_request rq) s = Ok (r, s').
Proof.
  intros Hdeps Hibc Hh Hrun. destruct msg as [m|rq|m|m]; simpl in Hrun.
  - left. unfold base_execute in Hrun. inv_ok. destruct (be_msg m) as [to_add to_remove].
    unfold update_authorized_addresses in *. inv_ok. by eexists _, _.
  - right. apply handle_app_msg_Ok in Hrun as (registry & account & h' & Hreg & Hmay & Hh' & Hrun).
    assert (h' = h) as -> by congruence. by eauto 10.
  - inv_ok. match goal with Hr : ibc_callback _ _ _ _ _ _ _ = Ok _ |- _ =>
      apply ibc_callback_Ok in Hr as (_ & (d & Hd & Hid) & _) end. by destruct (Hdeps d).
  - inv_ok. match goal with Hr : module_ibc _ _ _ _ _ _ _ = Ok _ |- _ =>
      apply module_ibc_Ok in Hr as (_ & h' & Hh' & _) end. congruence.
Qed.
(** A request the account lets through is the call of the handler. *)
Lemma request_granted module h env i (rq : AdapterRequestMsg ExecMsg) s registry account :
  maybe_execute_handler module = Some h → abstract_registry s = Ok registry →
  may_request s registry (rq_account_address rq) (sender i) account →
  execute module env i (Module_msg rq) s = h env i (Some account) (rq_request rq) s.
Proof.
  intros Hh Hreg Hmay. simpl. unfold handle_app_msg, execute_handler, mbind, M_bind, gets, lift, id. rewrite Hreg. simpl.
  apply (request_account_Ok module) in Hmay. rewrite Hmay. simpl. by rewrite Hh.
Qed.


(** An update that succeeds, exactly. *)
Lemma base_execute_Ok module env i named to_add to_remove registry account s r s' :
  abstract_registry s = Ok registry → base_account module env i registry named = Ok account →
  execute module env i (Base_ (mkBaseExecute named (UpdateAuthorizedAddresses to_add to_remove))) s =
    Ok (r, s') ↔
  ∃ add remove, resolves (sender i) to_add add ∧ resolves (sender i) to_remove remove ∧
    acceptable (authorized s account) add remove ∧
    Z.of_nat (List.length (updated (authorized s account) add remove)) ≤ MAXIMUM_AUTHORIZED_ADDRESSES ∧
    r = mkResponse "update_authorized_addresses" [] ∧
    s' = set_authorized_addresses
      (<[account := updated (authorized s account) add remove]> (authorized_addresses s)) s.
Proof.
  intros Hreg Hacc. simpl. unfold acceptable, updated. rewrite within_Ok. unfold base_execute. simpl. split.
  - intros Hrun. inv_ok. rewrite Hreg in *. inv_ok. rewrite Hacc in *. inv_ok.
    unfold update_authorized_addresses in *. inv_ok.
    match goal with Ha : ofold to_add _ _ = Ok _ |- _ => apply authorize_all_Ok in Ha as (add & ? & ? & ? & ->) end.
    match goal with Ha : ofold to_remove _ _ = Ok _ |- _ =>
      apply deauthorize_all_Ok in Ha as (rem & ? & ? & ? & ->) end.
    match goal with Hb : bool_decide _ = true |- _ => apply bool_decide_eq_true in Hb end.
    exists add, rem. by split_and!.
  - intros (add & rem & Hadd & Hrem & (Hnd & Hnew & Hndr & Hsub) & Hlen & -> & ->).
    unfold mbind, M_bind, gets, lift, id. rewrite Hreg. simpl. rewrite Hacc. simpl.
    unfold update_authorized_addresses, mbind, M_bind, gets, lift, ensure. simpl.
    assert (ofold to_add (authorized s account) (authorize (sender i)) = Ok (authorized s account ++ add))
      as -> by (apply authorize_all_Ok; eauto 10).
    assert (ofold to_remove (authorized s account ++ add) (deauthorize (sender i)) =
      Ok (filter (λ a, a ∉ rem) (authorized s account ++ add))) as ->
      by (apply deauthorize_all_Ok; eauto 10).
    by rewrite bool_decide_eq_true_2.
Qed.

(** ** The lists stay small *)

(** The developer's handlers leave the base's lists alone. *)
Definition keeps_lists {E A} (m : M (State C) E A) : Prop :=
  ∀ s a s', m s = Ok (a, s') → authorized_addresses s' = authorized_addresses s.
Record keeps_base module : Prop := mkKeepsBase {
  kb_instantiate h env i x : maybe_instantiate_handler module = Some h → keeps_lists (h env i None x);
  kb_execute h env i self x : maybe_execute_handler module = Some h → keeps_lists (h env i self x);
  kb_sudo h env x : maybe_sudo_handler module = Some h → keeps_lists (h env None x);
  kb_reply h env id x : maybe_reply_handler module id = Some h → keeps_lists (h env None x);
  kb_callback h env c x : maybe_ibc_callback_handler module = Some h → keeps_lists (h env None c x);
  kb_module_ibc h env c x : maybe_module_ibc_handler module = Some h → keeps_lists (h env None c x)
}.
Definition lists_bounded s : Prop :=
  map_Forall (λ _ l, NoDup l ∧ Z.of_nat (List.length l) ≤ MAXIMUM_AUTHORIZED_ADDRESSES)
    (authorized_addresses s).
Lemma keeps_lists_bounded {E A} (m : M (State C) E A) : keeps_lists m → Preserves lists_bounded m.
Proof. intros Hm s a s' Hs Hrun. unfold lists_bounded. by rewrite (Hm s a s' Hrun). Qed.
Lemma authorized_NoDup s account : lists_bounded s → NoDup (authorized s account).
Proof.
  intros Hs. unfold authorized. destruct (authorized_addresses s !! account) as [l|] eqn:Hl; simpl.
  - apply (Hs account l Hl).
  - constructor.
Qed.
Lemma update_bounded target i to_add to_remove :
  Preserves lists_bounded (update_authorized_addresses (C:=C) (Msg:=Msg) target i to_add to_remove).
Proof.
  intros s r s' Hs Hrun. unfold update_authorized_addresses in Hrun. inv_ok.
  match goal with Ha : ofold to_add _ _ = Ok _ |- _ => apply authorize_all_Ok in Ha as (add & _ & ? & Hnew & ->) end.
  match goal with Ha : ofold to_remove _ _ = Ok _ |- _ =>
    apply deauthorize_all_Ok in Ha as (rem & _ & _ & _ & ->) end.
  match goal with Hb : bool_decide _ = true |- _ => apply bool_decide_eq_true in Hb end.
  apply map_Forall_insert_2; [|done]. split; [|done].
  apply NoDup_filter, NoDup_app. split_and!; [by apply authorized_NoDup| |done].
  intros y Hy Hin. by apply (Hnew y).
Qed.
Lemma execute_bounded module env i msg : keeps_base module →
  Preserves lists_bounded (execute module env i msg).
Proof.
  intros Hk s r s' Hs Hrun. destruct msg as [m|rq|m|m].
  - simpl in Hrun. unfold base_execute in Hrun. inv_ok. destruct (be_msg m) as [to_add to_remove].
    by eapply update_bounded.
  - apply handle_app_msg_Ok in Hrun as (registry & account & h & _ & _ & Hh & Hrun).
    by eapply (keeps_lists_bounded _ (kb_execute _ Hk _ _ _ _ _ Hh)).
  - simpl in Hrun. inv_ok. match goal with Hr : ibc_callback _ _ _ _ _ _ _ = Ok _ |- _ =>
      apply ibc_callback_Ok in Hr as (_ & _ & h & Hh & Hr) end.
    by eapply (keeps_lists_bounded _ (kb_callback _ Hk _ _ _ _ Hh)).
  - simpl in Hrun. inv_ok. match goal with Hr : module_ibc _ _ _ _ _ _ _ = Ok _ |- _ =>
      apply module_ibc_Ok in Hr as (_ & h & Hh & Hr) end.
    by eapply (keeps_lists_bounded _ (kb_module_ibc _ Hk _ _ _ _ Hh)).
Qed.
End proofs.

Section reachable.
Context `{Semver, Api, Instantiate2, CwOwnable, !ComparatorParse}.
Context {C Error Msg InitMsg ExecMsg QueryMsg SudoMsg : Type}.
Context `{!ContractError Error, !AdapterContractError Error}.
Variable module : AbstractContract (option Addr) (State C) Error Msg InitMsg ExecMsg QueryMsg () SudoMsg.

Inductive reachable : State C → Prop :=
  | reachable_init (Q : Querier) env i registry x c r s :
      instantiate module env i registry x (mkState None None None ∅ c) = Ok (r, s) → reachable s
  | reachable_call (Q : Querier) (R : Registries) (A : Accounts) env i msg s r s' : reachable s →
      execute module env i msg s = Ok (r, s') → reachable s'
  | reachable_reply env id x s r s' : reachable s →
      Sdk.reply module None env id x s = Ok (r, s') → reachable s'
  | reachable_sudo env x s r s' : reachable s →
      Sdk.sudo module None env x s = Ok (r, s') → reachable s'.

(** In every reachable state of an adapter whose own code leaves the lists
    alone, the addresses an account authorised are at most fifteen and without
    duplicates. *)
Theorem adapter_lists_bounded (Hk : keeps_base module) (s : State C) (Hs : reachable s)
    (account : Addr) (l : list Addr) (Hl : authorized_addresses s !! account = Some l) :
  NoDup l ∧ (List.length l ≤ 15)%nat.
Proof.
  assert (lists_bounded s) as Hb.
  { clear account l Hl. induction Hs as [Q env i registry x c r s Hrun|Q R A env i msg s r s' _ IH Hrun
      |env id x s r s' _ IH Hrun|env x s r s' _ IH Hrun].
    - unfold instantiate in Hrun. inv_ok. destruct (maybe_instantiate_handler module) as [h|] eqn:Hh; inv_ok.
      + eapply (keeps_lists_bounded _ (kb_instantiate _ Hk _ _ _ _ Hh)); [|done]. apply map_Forall_empty.
      + apply map_Forall_empty.
    - by eapply execute_bounded.
    - unfold Sdk.reply, reply_handler in Hrun. inv_ok.
      by eapply (keeps_lists_bounded _ (kb_reply _ Hk _ _ _ _ ltac:(eassumption))).
    - unfold Sdk.sudo in Hrun. destruct (maybe_sudo_handler module) as [h|] eqn:Hh; inv_ok.
      by eapply (keeps_lists_bounded _ (kb_sudo _ Hk _ _ _ Hh)). }
  destruct (Hb account l Hl) as [Hnd Hlen]. split; [done|]. unfold MAXIMUM_AUTHORIZED_ADDRESSES in Hlen. lia.
Qed.
End reachable.

(** ** An upgrade moves the authorised addresses *)

Section upgrade.
Context `{Semver, Api, Instantiate2, CwOwnable, CoinsOps, Sha256, !Querier, !Registries, !ModuleQueries}.
Context `{!ApiLaws, !Accounts, !ComparatorParse}.
Context {C Error Msg InitMsg ExecMsg QueryMsg SudoMsg : Type}.
Context `{!ContractError Error, !AdapterContractError Error}.
Abbreviation AdapterContract :=
  (AbstractContract (option Addr) (State C) Error Msg InitMsg ExecMsg QueryMsg () SudoMsg).

(** The call of an adapter that a message of an account makes. *)
Definition received (contract : Addr) (m : CosmosMsg) : option (ExecuteMsg ExecMsg) :=
  match m with
  | WasmExecute a (ToAdapterAuthorized to_add to_remove) _ =>
      if decide (a = contract) then
        Some (Base_ (mkBaseExecute None (UpdateAuthorizedAddresses to_add to_remove)))
      else None
  | _ => None
  end.

(** An adapter that the account calls as an administrator. *)
Record called_as_admin (account : Addr) (env : Env) (s : State C) (registry : Addr) : Prop := {
  ca_registry : abstract_registry s = Ok registry;
  ca_registered : registered_account registry account;
  ca_mark : assert_account_calling_to_as_admin_is_self env account = true
}.
(** The authorised addresses are addresses, and not module ids of the account. *)
Definition plain_addresses (account : Addr) (l : list Addr) : Prop :=
  Forall (λ a, get_addr_from_module_id_or_addr account a = Ok a) l.
Lemma resolves_plain account l : plain_addresses account l → resolves account l l.
Proof. unfold plain_addresses, resolves. intros Hl. by apply Forall_Forall2_diag. Qed.
Lemma filter_not_in_all {A} `{EqDecision A} (l k : list A) :
  (∀ x, x ∈ l → x ∈ k) → filter (λ x, x ∉ k) l = [].
Proof.
  induction l as [|x l IH]; intros Hl; [done|]. rewrite filter_cons_False; [|intros Hn; apply Hn, Hl; by left].
  apply IH. intros y Hy. apply Hl. by right.
Qed.

Lemma admin_update (module : AdapterContract) env_a account funds s registry add remove :
  called_as_admin account env_a s registry → resolves account add add → resolves account remove remove →
  acceptable (authorized s account) add remove →
  Z.of_nat (List.length (updated (authorized s account) add remove)) ≤ MAXIMUM_AUTHORIZED_ADDRESSES →
  execute module env_a (mkInfo account funds)
    (Base_ (mkBaseExecute None (UpdateAuthorizedAddresses add remove))) s =
  Ok (mkResponse "update_authorized_addresses" [], set_authorized_addresses
    (<[account := updated (authorized s account) add remove]> (authorized_addresses s)) s).
Proof.
  intros [Hreg Hacc Hmark] Hadd Hrem Hok Hlen.
  apply (base_execute_Ok module env_a (mkInfo account funds) None add remove registry account s); [done| |].
  - by apply base_account_admin.
  - by exists add, remove.
Qed.
Lemma authorized_insert (s : State C) account l other :
  authorized (set_authorized_addresses (<[account := l]> (authorized_addresses s)) s) other =
  if decide (other = account) then l else authorized s other.
Proof.
  unfold authorized. simpl. case_decide as Ho; [by subst; rewrite lookup_insert_eq|].
  by rewrite lookup_insert_ne by done.
Qed.
Lemma replace_adapter_msgs env a_new a_old (so : State C) st msgs st' :
  replace_adapter env a_new a_old st = Ok (msgs, st') →
  authorized_addresses_of a_old (contract_address env) =
    ok (query_authorized_addresses (C:=C) so (contract_address env)) →
  msgs = [configure_adapter a_old [] (authorized so (contract_address env));
    configure_adapter a_new (authorized so (contract_address env)) []].
Proof.
  unfold replace_adapter. intros Hreplace Hanswer. inv_ok. rewrite Hanswer in *.
  unfold query_r, query_authorized_addresses, addr_validate_r in *.
  destruct (addr_validate (contract_address env)) as [a|] eqn:Ha; simpl in *; inv_ok.
  by apply addr_validate_id in Ha as ->.
Qed.

(** C15. When an account replaces an adapter, it asks the old one to forget the
    addresses it had authorised and the new one to authorise them.  Both
    adapters carry this out, provided the new one did not know any of the
    addresses and has room for them: afterwards the old one has none left for
    the account, the new one has all of them besides its own, and the lists of
    every other account are as before. *)
Theorem upgrade_moves_authorized (old new : AdapterContract) (env env_old env_new : Env)
    (so sn : State C) (registry : Addr) (st st' : Account.State) (msgs : list CosmosMsg) (funds : list Coin)
    (Hreplace : replace_adapter env (contract_address env_new) (contract_address env_old) st = Ok (msgs, st'))
    (Hanswer : authorized_addresses_of (contract_address env_old) (contract_address env) =
       ok (query_authorized_addresses so (contract_address env)))
    (Hold_call : called_as_admin (contract_address env) env_old so registry)
    (Hnew_call : called_as_admin (contract_address env) env_new sn registry)
    (Hplain : plain_addresses (contract_address env) (authorized so (contract_address env)))
    (Hnd : NoDup (authorized so (contract_address env)))
    (Hfresh : ∀ a, a ∈ authorized so (contract_address env) → a ∉ authorized sn (contract_address env))
    (Hroom : Z.of_nat (List.length (authorized sn (contract_address env) ++
       authorized so (contract_address env))) ≤ MAXIMUM_AUTHORIZED_ADDRESSES) :
  let account := contract_address env in
  ∃ mo mn co cn ro rn so' sn', msgs = [mo; mn] ∧
    received (contract_address env_old) mo = Some co ∧ received (contract_address env_new) mn = Some cn ∧
    execute old env_old (mkInfo account funds) co so = Ok (ro, so') ∧
    execute new env_new (mkInfo account funds) cn sn = Ok (rn, sn') ∧
    authorized so' account = [] ∧ authorized sn' account = authorized sn account ++ authorized so account ∧
    (∀ other, other ≠ account → authorized so' other = authorized so other ∧
       authorized sn' other = authorized sn other).
Proof.
  intros account. set (l := authorized so account) in *.
  rewrite (replace_adapter_msgs _ _ _ _ _ _ _ Hreplace Hanswer).
  pose proof (resolves_plain _ _ Hplain) as Hres.
  assert (resolves account [] []) as Hnil by constructor.
  assert (updated l [] l = []) as Hforget.
  { unfold updated. rewrite app_nil_r. by apply filter_not_in_all. }
  assert (updated (authorized sn account) l [] = authorized sn account ++ l) as Hlearn.
  { by apply filter_all; apply not_elem_of_nil. }
  pose proof (admin_update old env_old account funds so registry [] l Hold_call Hnil Hres) as Ho.
  pose proof (admin_update new env_new account funds sn registry l [] Hnew_call Hres Hnil) as Hn.
  fold l in Ho. rewrite Hforget in Ho. rewrite Hlearn in Hn.
  eexists _, _, _, _, _, _, _, _. split; [done|]. unfold received, configure_adapter.
  rewrite !decide_True by done. split; [done|]. split; [done|].
  split; [apply Ho|split; [apply Hn|]].
  - split_and!; [constructor|by intros a ?%not_elem_of_nil|done|]. intros a Ha. by rewrite app_nil_r.
  - unfold MAXIMUM_AUTHORIZED_ADDRESSES. simpl. lia.
  - split_and!; [done..|constructor|by intros a ?%not_elem_of_nil].
  - done.
  - rewrite !authorized_insert, !decide_True by done. split_and!; [done..|].
    intros other Hne. by rewrite !authorized_insert, !decide_False.
Qed.
End upgrade.
