(* ===== verification/AppProofs.v ===== *)
(** * Correctness of the bases of apps and standalones

    The modules the factory creates belong to the account that asked for them;
    an app stays with its account, which administers it; and only the native
    interchain contracts reach the interchain handlers of an app. *)

From S2P Require Import Prelude Cosmos Strings Objects Names AccountIds Fees ModuleFactory Ownership AnsObjects Ans AnsClient Registry Clients Account Ibc IbcClient IbcHost Sdk App.
From Stdlib Require Import Ascii String.
#[local] Open Scope string_scope.
#[local] Open Scope list_scope.
#[local] Open Scope Z_scope.

(** ** The messages of the module factory *)

Section factory.
Context `{Semver, Api, Instantiate2, CwOwnable, CoinsOps, Json, !Querier, !Registries}.

Definition body_of (m : CosmosMsg) : option Body :=
  match m with WasmInstantiate2 _ _ _ b _ _ => Some b | _ => None end.
(** A created app is told the account; a created standalone is announced. *)
Definition body_for (account : Addr) (standalone : bool) (m : CosmosMsg) : Prop :=
  match body_of m with
  | Some (ToNewApp a _) => a = account
  | Some (Raw _) => standalone = true
  | _ => True
  end.
Definition collected_for (account : Addr) (c : Collected) : Prop :=
  Forall (body_for account (at_least_one_standalone c)) (fee_msgs c ++ module_instantiate_messages c).

Lemma body_for_mono account b b' m :
  (b = true → b' = true) → body_for account b m → body_for account b' m.
Proof. unfold body_for. destruct (body_of m) as [[]|]; auto. Qed.
Lemma collect_fee_for registry i m sum fees sum' account b :
  collect_fee registry i m sum = Ok (fees, sum') → Forall (body_for account b) fees.
Proof. unfold collect_fee. intros Hc. destruct m; inv_ok; by repeat constructor. Qed.
Lemma instantiate_module_body canon h code_id body salt account fs i a m :
  instantiate_module canon h code_id body salt account fs i = Ok (a, m) → body_of m = Some body.
Proof. unfold instantiate_module, instantiate2_contract. intros Hi. inv_ok. by simplify_eq. Qed.
Lemma create_module_for registry canon h account salt c x c' :
  collected_for account c → create_module registry canon h account salt c x = Ok c' →
  collected_for account c'.
Proof.
  destruct x as [msg resp]. unfold collected_for. rewrite Forall_app. intros [Hf Hi] Hc.
  unfold create_module in Hc. inv_ok.
  match goal with x : (_ * coins)%type |- _ => destruct x as [fees sum] end. inv_ok.
  match goal with Hfee : collect_fee _ _ _ _ = Ok _ |- _ =>
    pose proof (λ b, collect_fee_for _ _ _ _ _ _ account b Hfee) as Hfees end.
  assert (∀ b l, (at_least_one_standalone c = true → b = true) →
    Forall (body_for account (at_least_one_standalone c)) l → Forall (body_for account b) l) as Hmono.
  { intros b l Hb Hl. eapply Forall_impl; [exact Hl|]. intros m. by apply body_for_mono. }
  assert (∀ b, (at_least_one_standalone c = true → b = true) → ∀ new, Forall (body_for account b) new →
    Forall (body_for account b) ((fee_msgs c ++ fees) ++ (module_instantiate_messages c ++ new))) as Hall.
  { intros b Hb new Hnew. rewrite !Forall_app. by eauto 10. }
  destruct (mod_reference (resp_module resp)); inv_ok; try (case_decide; inv_ok);
    repeat match goal with x : (_ * _)%type |- _ => destruct x end; inv_ok;
    try (specialize (Hall (at_least_one_standalone c) (λ H, H) [] (Forall_nil_2 _));
      by rewrite app_nil_r in Hall);
    (apply Hall; [done|]);
    match goal with Hm : instantiate_module _ _ _ _ _ _ _ _ = Ok _ |- _ =>
      apply instantiate_module_body in Hm; repeat constructor; unfold body_for; by rewrite Hm end.
Qed.
Lemma create_all_for registry canon h account salt l c c' :
  collected_for account c → create_all registry canon h account salt c l = Ok c' →
  collected_for account c'.
Proof.
  revert c. induction l as [|x l IH]; intros c Hc Hrun; simpl in Hrun; [by inv_ok|].
  apply obind_Ok in Hrun as (c1 & ? & Hrun). eapply IH; [|exact Hrun]. by eapply create_module_for.
Qed.
End factory.

(** ** The account of a module *)

Section apps.
Context `{Semver, Api, Instantiate2, CwOwnable, !ComparatorParse}.
Context {C Error Msg InitMsg ExecMsg QueryMsg MigrateMsg SudoMsg : Type}.
Context `{!ContractError Error}.
Abbreviation AppContract :=
  (AbstractContract () (State C) Error Msg InitMsg ExecMsg QueryMsg MigrateMsg SudoMsg).

(** The developer's handlers leave the account and the administrator alone. *)
Definition keeps_owner {E A} (m : M (State C) E A) : Prop :=
  ∀ s a s', m s = Ok (a, s') → base_state s' = base_state s ∧ admin s' = admin s.
Record keeps_app_base (module : AppContract) : Prop := mkKeepsAppBase {
  ka_instantiate h env i x : maybe_instantiate_handler module = Some h → keeps_owner (h env i tt x);
  ka_execute h env i x : maybe_execute_handler module = Some h → keeps_owner (h env i tt x);
  ka_migrate h env x : maybe_migrate_handler module = Some h → keeps_owner (h env tt x);
  ka_sudo h env x : maybe_sudo_handler module = Some h → keeps_owner (h env tt x);
  ka_reply h env id x : maybe_reply_handler module id = Some h → keeps_owner (h env tt x);
  ka_callback h env c x : maybe_ibc_callback_handler module = Some h → keeps_owner (h env tt c x);
  ka_module_ibc h env c x : maybe_module_ibc_handler module = Some h → keeps_owner (h env tt c x)
}.
Definition owned_by (a : Addr) (s : State C) : Prop := base_state s = Some a ∧ admin s = Some (Some a).
Lemma keeps_owner_preserves {E A} (m : M (State C) E A) a : keeps_owner m → Preserves (owned_by a) m.
Proof. intros Hm s x s' [Hb Ha] Hrun. unfold owned_by. destruct (Hm s x s' Hrun) as [-> ->]. by split. Qed.

Section lifecycle.
Variable module : AppContract.
(** The states of an app created for an account. *)
Inductive app_reachable (a : Addr) : State C → Prop :=
  | app_init (Q : Querier) env i x c r s :
      instantiate module env i a x (mkState None None None None c) = Ok (r, s) → app_reachable a s
  | app_call (Q : Querier) (R : Registries) env i msg s r s' : app_reachable a s →
      execute module env i msg s = Ok (r, s') → app_reachable a s'
  | app_migrate env x s r s' : app_reachable a s → migrate module env x s = Ok (r, s') → app_reachable a s'
  | app_reply env id x s r s' : app_reachable a s →
      Sdk.reply module tt env id x s = Ok (r, s') → app_reachable a s'
  | app_sudo env x s r s' : app_reachable a s →
      Sdk.sudo module tt env x s = Ok (r, s') → app_reachable a s'.

Hypothesis Hk : keeps_app_base module.
Lemma instantiate_owned env i a x s r s' :
  instantiate module env i a x s = Ok (r, s') → owned_by a s'.
Proof.
  unfold instantiate, save_module_data, save_contract_version. intros Hrun. inv_ok.
  destruct (maybe_instantiate_handler module) as [h|] eqn:Hh; inv_ok; [|done].
  eapply (keeps_owner_preserves _ _ (ka_instantiate _ Hk _ _ _ _ Hh)); [|eassumption]. by split.
Qed.
Lemma execute_owned `{!Querier, !Registries} env i msg a : Preserves (owned_by a) (execute module env i msg).
Proof.
  intros s r s' Hs Hrun. destruct msg as [[]|m|m|m]; simpl in Hrun; unfold execute_handler in Hrun; inv_ok.
  - by eapply (keeps_owner_preserves _ _ (ka_execute _ Hk _ _ _ _ ltac:(eassumption))).
  - match goal with Hr : ibc_callback _ _ _ _ _ _ _ = Ok _ |- _ =>
      apply ibc_callback_Ok in Hr as (_ & _ & h & Hh & Hr) end.
    by eapply (keeps_owner_preserves _ _ (ka_callback _ Hk _ _ _ _ Hh)).
  - match goal with Hr : module_ibc _ _ _ _ _ _ _ = Ok _ |- _ =>
      apply module_ibc_Ok in Hr as (_ & h & Hh & Hr) end.
    by eapply (keeps_owner_preserves _ _ (ka_module_ibc _ Hk _ _ _ _ Hh)).
Qed.
Lemma app_reachable_owned a s : app_reachable a s → owned_by a s.
Proof.
  induction 1 as [Q env i x c r s Hrun|Q R env i msg s r s' _ IH Hrun|env x s r s' _ IH Hrun
    |env id x s r s' _ IH Hrun|env x s r s' _ IH Hrun].
  - by eapply instantiate_owned.
  - by eapply execute_owned.
  - unfold migrate, save_module_data, save_contract_version in Hrun. inv_ok.
    destruct (maybe_migrate_handler module) as [h|] eqn:Hh; inv_ok; [|done].
    eapply (keeps_owner_preserves _ _ (ka_migrate _ Hk _ _ _ Hh)); [|eassumption]. by destruct IH.
  - unfold Sdk.reply, reply_handler in Hrun. inv_ok.
    by eapply (keeps_owner_preserves _ _ (ka_reply _ Hk _ _ _ _ ltac:(eassumption))).
  - unfold Sdk.sudo in Hrun. destruct (maybe_sudo_handler module) as [h|] eqn:Hh; inv_ok.
    by eapply (keeps_owner_preserves _ _ (ka_sudo _ Hk _ _ _ Hh)).
Qed.
End lifecycle.
End apps.

Lemma is_admin_custom_cases `{Semver, Api, Instantiate2, !Querier} env caller a :
  is_admin_custom env caller a = true ↔
  (caller = a ∧ assert_account_calling_to_as_admin_is_self env a = true) ∨
  query_top_level_owner_addr a = Ok caller.
Proof.
  assert (match ok (query_top_level_owner_addr a) with
    | Some top => bool_decide (top = caller) | None => false end = true ↔
    query_top_level_owner_addr a = Ok caller) as Htop.
  { destruct (query_top_level_owner_addr a) as [o|e|]; cbn; [|by split..].
    rewrite bool_decide_eq_true. split; [by intros ->|by intros [= ->]]. }
  unfold is_admin_custom.
  match goal with |- (if ?b then _ else _) = _ ↔ _ => destruct b eqn:Hb end;
    rewrite ?andb_true_iff, ?andb_false_iff, ?bool_decide_eq_true, ?bool_decide_eq_false in Hb.
  - destruct Hb as [-> Hm]. split; [by left|done].
  - rewrite Htop. split; [by right|]. intros [[-> Hm]|Ht]; [|done]. destruct Hb as [Hb|Hb]; congruence.
Qed.

(** A check of the administrator of an app changes nothing. *)
Lemma assert_app_admin_Ok `{Semver, Api, Instantiate2, !Querier} {C} env caller (s : State C) x s' :
  assert_app_admin env caller s = Ok (x, s') ↔
  s' = s ∧ ∃ a, admin s = Some (Some a) ∧ is_admin_custom env caller a = true.
Proof.
  unfold assert_app_admin, Ownership.assert_admin, is_admin, admin_get. destruct x. split.
  - intros Hrun. inv_ok. unfold id in *.
    match goal with Hm : match ?o with _ => _ end = true |- _ => destruct o as [a|]; [|done] end.
    split; [|by eauto]. unfold set_admin. by destruct s.
  - intros (-> & a & Ha & Hadm). apply zoom_Ok. exists (admin s).
    split; [|by unfold set_admin; destruct s]. unfold mbind, M_bind, gets, lift, ensure, guard_or, id.
    rewrite Ha. simpl. by rewrite Hadm.
Qed.

(** An app that takes no part in interchain calls only runs its own handler. *)
Lemma local_app_execute_Ok `{Semver, Api, Instantiate2, CwOwnable, !Querier, !Registries, !ComparatorParse}
    {C Error Msg InitMsg ExecMsg QueryMsg MigrateMsg SudoMsg : Type} `{!ContractError Error}
    (module : AbstractContract () (State C) Error Msg InitMsg ExecMsg QueryMsg MigrateMsg SudoMsg) h env i msg s x :
  (∀ d, d ∈ dependencies module → sd_id d ≠ IBC_CLIENT) → maybe_module_ibc_handler module = None →
  maybe_execute_handler module = Some h →
  App.execute module env i msg s = Ok x → ∃ m, msg = Module_msg m ∧ h env i tt m s = Ok x.
Proof.
  intros Hdeps Hibc Hh Hrun. destruct msg as [[]|m|m|m], x; simpl in Hrun.
  - unfold execute_handler in Hrun. rewrite Hh in Hrun. inv_ok. by eauto.
  - inv_ok. match goal with Hr : ibc_callback _ _ _ _ _ _ _ = Ok _ |- _ =>
      apply ibc_callback_Ok in Hr as (_ & (d & Hd & Hid) & _) end. by destruct (Hdeps d).
  - inv_ok. match goal with Hr : module_ibc _ _ _ _ _ _ _ = Ok _ |- _ =>
      apply module_ibc_Ok in Hr as (_ & h' & Hh' & _) end. congruence.
Qed.

Section theorems.
Context `{Semver, Api, Instantiate2, CwOwnable, !ComparatorParse}.
Context {C Error Msg InitMsg ExecMsg QueryMsg MigrateMsg SudoMsg : Type}.
Context `{!ContractError Error}.
Variable module : AbstractContract () (State C) Error Msg InitMsg ExecMsg QueryMsg MigrateMsg SudoMsg.

(** C14. An app stays with its account.  In every reachable state of an app whose
    own code leaves the base alone, the account it was created for is its
    account and its administrator: administrator checks pass exactly for the
    account in an administrator call to the app and for the top-level owner of
    the account; and its interchain handlers are only reached by the IBC client,
    when it depends on it, and by the IBC host, which are the native contracts of
    the registry of that account. *)
Theorem app_keeps_account (Hk : keeps_app_base module) (a : Addr) (s : State C)
    (Hs : app_reachable module a s) (Q : Querier) (R : Registries) (env : Env) :
  base_state s = Some a ∧ admin s = Some (Some a) ∧
  (∀ caller s', assert_app_admin env caller s = Ok (tt, s') ↔ s' = s ∧
     ((caller = a ∧ assert_account_calling_to_as_admin_is_self env a = true) ∨
      query_top_level_owner_addr a = Ok caller)) ∧
  (∀ i m r s', execute module env i (IbcCallbackMsg m) s = Ok (r, s') →
     native_addr (Error:=Error) (abstract_registry s) IBC_CLIENT IbcClient.CONTRACT_VERSION = Ok (sender i) ∧
     (∃ d, d ∈ dependencies module ∧ sd_id d = IBC_CLIENT)) ∧
  (∀ i m r s', execute module env i (ModuleIbcCall m) s = Ok (r, s') →
     native_addr (Error:=Error) (abstract_registry s) IBC_HOST IbcHost.CONTRACT_VERSION = Ok (sender i)).
Proof.
  destruct (app_reachable_owned module Hk a s Hs) as [Hb Ha]. split_and!; [done..| | |].
  - intros caller s'. rewrite assert_app_admin_Ok, Ha, <-is_admin_custom_cases. naive_solver.
  - intros i m r s' Hrun. simpl in Hrun. inv_ok.
    match goal with Hr : ibc_callback _ _ _ _ _ _ _ = Ok _ |- _ => by apply ibc_callback_Ok in Hr as (? & ? & _) end.
  - intros i m r s' Hrun. simpl in Hrun. inv_ok.
    match goal with Hr : module_ibc _ _ _ _ _ _ _ = Ok _ |- _ => by apply module_ibc_Ok in Hr as (? & _) end.
Qed.

(** What the module factory creates belongs to the account that asked for
    it.  After a call that creates modules, the account named by the message to
    every created app is the sender, which the registry vouches for, so that the
    app is instantiated as the sender's; and if a standalone is among the created
    modules, a standalone instantiated by the factory in the same transaction
    becomes the sender's as well. *)
Theorem created_modules_belong (Hk : keeps_app_base module) `{!CoinsOps, !Json} (Q : Querier)
    (R : Registries) (fenv : Env) (i : MessageInfo) (mods : list FactoryModuleInstallConfig) (salt : string)
    (sf sf' : ModuleFactory.State) (r : Response CosmosMsg)
    (Hcall : ModuleFactory.execute fenv i (ModuleFactory.InstallModules mods salt) sf = Ok (r, sf')) :
  (∀ m a b, send m ∈ messages r → body_of m = Some (ToNewApp a b) → a = sender i ∧
     ∀ env i' x c r' s, instantiate module env i' a x (mkState None None None None c) = Ok (r', s) →
       base_state s = Some (sender i) ∧ admin s = Some (Some (sender i))) ∧
  (∀ m b, send m ∈ messages r → body_of m = Some (Raw b) →
     ∀ (F : Factories) (st : StandaloneContract) (i' : MessageInfo) migratable (s s' : State (bool * C)),
       factory_state (sender i') = Some sf' →
       standalone_instantiate st i' migratable s = Ok (tt, s') →
       base_state s' = Some (sender i) ∧ admin s' = Some (Some (sender i)) ∧ (custom s').1 = migratable).
Proof.
  simpl in Hcall.
  apply execute_create_modules_inv in Hcall
    as (code_id & registry & account & resps & canon & c & _ & _ & Hacc & _ & _ & Hall & _ & -> & Hbase).
  assert (account = sender i) as ->.
  { unfold assert_account in Hacc. inv_ok. by case_decide; inv_ok. }
  assert (collected_for (sender i) c) as Hc by (eapply create_all_for; [|exact Hall]; by apply Forall_nil).
  assert (∀ m, send m ∈ messages (mkResponse "create_modules" (send <$> (fee_msgs c ++
    module_instantiate_messages c))) → body_for (sender i) (at_least_one_standalone c) m) as Hfor.
  { intros m Hm. simpl in Hm. apply list_elem_of_fmap in Hm as (m' & [= <-] & Hm).
    unfold collected_for in Hc. rewrite Forall_forall in Hc. by apply Hc. }
  split.
  - intros m a b Hm Hb. specialize (Hfor m Hm). unfold body_for in Hfor. rewrite Hb in Hfor. subst.
    split; [done|]. intros env i' x c' r' s Hrun. by apply (instantiate_owned module Hk) in Hrun.
  - intros m b Hm Hb F st i' migratable s s' Hf Hrun. specialize (Hfor m Hm). unfold body_for in Hfor.
    rewrite Hb in Hfor. rewrite Hfor in Hbase. unfold standalone_instantiate, st_save_module_data,
      st_save_contract_version in Hrun. rewrite Hf in Hrun. simpl in Hrun. rewrite Hbase in Hrun. by inv_ok.
Qed.
End theorems.
