(* ===== verification/SubscriptionProofs.v ===== *)
(** * Correctness of the subscription app

    The number of active subscribers is right; what a payment buys; that nobody
    loses a subscription before it ends; and how much the account can be made to
    emit. *)

From S2P Require Import Prelude Cosmos Strings Objects Names AccountIds Fees ModuleFactory Ownership AnsObjects Ans AnsClient Registry Clients Account Ibc Sdk SdkApis App AppProofs Subscription.
From Stdlib Require Import Ascii String.
#[local] Open Scope string_scope.
#[local] Open Scope list_scope.
#[local] Open Scope Z_scope.

Section effects.
Context `{CwAssetMsgs, Semver, Api, Instantiate2, !Querier, DecimalLaws, DecimalArithLaws, !SubscriptionJson, !ComparatorParse, !Registries}.
Implicit Types (s : State SubStorage) (c : SubStorage) (a : Addr).

Abbreviation subs s := (subscribers (custom s)).
Abbreviation gone s := (expired_subscribers (custom s)).

(** What no handler but the configuration changes. *)
Definition same_settings s s' : Prop :=
  base_state s' = base_state s ∧ admin s' = admin s ∧ sub_config (custom s') = sub_config (custom s).
(** Only the average income changed. *)
Definition only_income s s' : Prop :=
  ∃ t, s' = set_custom (set_income_twa t (custom s)) s.

Lemma execute_Ok env i m s x : execute env i m s = Ok x ↔
  match m with
  | CustomBase m => False
  | CustomModule m => execute_handler env i tt m s = Ok x
  | Receive m => receive_cw20 env i m s = Ok x
  end.
Proof. by destruct m as [[]| |]. Qed.

Lemma on_twa_Ok {A} (m : M (option TimeWeightedAverageData) AbstractError A) s x s' :
  on_twa m s = Ok (x, s') → only_income s s'.
Proof. unfold on_twa. intros Hm. inv_ok. by eexists. Qed.
Lemma twa_load_Ok s d s' : on_twa twa_load s = Ok (d, s') → income_twa (custom s) = Some d ∧ s' = s.
Proof.
  unfold on_twa, twa_load. intros Hm. inv_ok. split; [done|]. unfold id. by destruct s as [? ? ? ? []].
Qed.
Lemma accumulate_income_Ok env n cost s x s' :
  accumulate_income env n cost s = Ok (x, s') → only_income s s'.
Proof. unfold accumulate_income. intros Hm. inv_ok. by eapply on_twa_Ok. Qed.
Lemma load_config_Ok s x s' : load_config s = Ok (x, s') → sub_config (custom s) = Some x ∧ s' = s.
Proof. unfold load_config. intros Hm. by inv_ok. Qed.
Lemma load_sub_state_Ok s x s' : load_sub_state s = Ok (x, s') → sub_state (custom s) = Some x ∧ s' = s.
Proof. unfold load_sub_state. intros Hm. by inv_ok. Qed.
Lemma load_subscriber_Ok a s x s' : load_subscriber a s = Ok (x, s') → subs s !! a = Some x ∧ s' = s.
Proof. unfold load_subscriber. intros Hm. by inv_ok. Qed.
Lemma validate_addr_Ok x a : validate_addr x = Ok a → addr_validate x = Some a.
Proof. unfold validate_addr, addr_validate_r. destruct (addr_validate x); simpl; [by intros [= ->]|done]. Qed.
End effects.

(** Inverts the loads of items and the update of the income. *)
Ltac inv_sub_step :=
  match goal with
  | Hl : load_config _ = Ok _ |- _ => apply load_config_Ok in Hl as [? ->]
  | Hl : load_sub_state _ = Ok _ |- _ => apply load_sub_state_Ok in Hl as [? ->]
  | Hl : load_subscriber _ _ = Ok _ |- _ => apply load_subscriber_Ok in Hl as [? ->]
  | Hl : on_twa twa_load _ = Ok _ |- _ => apply twa_load_Ok in Hl as [? ->]
  | Hl : accumulate_income _ _ _ _ = Ok _ |- _ => apply accumulate_income_Ok in Hl as [? ->]
  | Hl : on_twa _ _ = Ok _ |- _ => apply on_twa_Ok in Hl as [? ->]
  | Hl : validate_addr _ = Ok _ |- _ => apply validate_addr_Ok in Hl
  | Hl : update_custom _ _ = Ok _ |- _ => unfold update_custom in Hl
  | Hl : save_subscriber _ _ _ = Ok _ |- _ => unfold save_subscriber, update_custom in Hl
  | Hl : app_account _ = Ok _ |- _ => unfold app_account in Hl
  | Hl : bool_decide _ = true |- _ => apply bool_decide_eq_true in Hl
  end.
Ltac inv_sub := repeat (inv_ok_step || inv_sub_step; simpl in * ).

(** ** Payments *)

Section payments.
Context `{CwAssetMsgs, Semver, Api, Instantiate2, !Querier, DecimalLaws, DecimalArithLaws, !SubscriptionJson, !ComparatorParse, !Registries}.
Implicit Types (s : State SubStorage) (c : SubStorage) (a : Addr).
Abbreviation subs s := (subscribers (custom s)).
Abbreviation gone s := (expired_subscribers (custom s)).

(** The seconds an amount pays for at a cost, as the code computes them: in a
    [u64], which keeps the low bits of larger numbers. *)
Definition seconds_bought (amount cost : Z) : Z := (amount * DECIMAL_ONE / cost) mod 2 ^ 64.
(** The subscription after a payment. *)
Definition renewed (now : Z) (current : option Subscriber) (bought : Z) : Subscriber :=
  match current with
  | Some sub => mkSubscriber (expiration_timestamp sub + bought * NANOS) (last_emission_claim_timestamp sub)
  | None => mkSubscriber (now + bought * NANOS) now
  end.
(** What a payment of an asset for a subscriber did. *)
Record paid (env : Env) (asset : Asset) a s s' (r : Response ModuleMsg) : Prop := {
  paid_settings : same_settings s s';
  paid_config : ∃ config, sub_config (custom s) = Some config ∧ payment_asset config = as_info asset ∧
    ∃ cost, subscription_cost_per_second config = cost ∧ (0 ≤ cost → 0 ≤ as_amount asset →
      cost ≠ 0 ∧
      subs s' = <[a := renewed (time (block env)) (subs s !! a) (seconds_bought (as_amount asset) cost)]> (subs s) ∧
      (subs s !! a = None → ∃ d, income_twa (custom s) = Some d ∧
        (0 ≤ averaging_period d → averaging_period d * cost ≤ as_amount asset * DECIMAL_ONE)));
  paid_renewed : ∃ n, 0 ≤ n ∧ subs s' = <[a := renewed (time (block env)) (subs s !! a) n]> (subs s);
  paid_counter : sub_state (custom s') = match subs s !! a with
    | Some _ => sub_state (custom s) | None => Z.succ <$> sub_state (custom s) end;
  paid_gone : gone s' = match subs s !! a with Some _ => gone s | None => delete a (gone s) end;
  paid_message : ∃ account msg, base_state s = Some account ∧
    asset_transfer_msg (as_info asset) (as_amount asset) account = Some msg ∧
    messages r = [send (FromModule msg)]
}.
Lemma extend_Ok (sub sub' : Subscriber) n : 0 ≤ n → extend (E:=SubscriptionError) sub n = Ok sub' →
  sub' = renewed 0 (Some sub) n.
Proof. unfold extend. intros Hn He. inv_ok. by match goal with Hp : plus_seconds _ _ = Ok _ |- _ =>
  apply plus_seconds_Ok in Hp as [-> _]; [|done] end. Qed.
Lemma subscriber_new_Ok b (sub' : Subscriber) n : 0 ≤ n → subscriber_new (E:=SubscriptionError) b n = Ok sub' →
  sub' = renewed (time b) None n.
Proof. unfold subscriber_new. intros Hn He. inv_ok. by match goal with Hp : plus_seconds _ _ = Ok _ |- _ =>
  apply plus_seconds_Ok in Hp as [-> _]; [|done] end. Qed.
Lemma div_floor_Some amount cost n : 0 ≤ amount → 0 ≤ cost → checked_div_floor amount cost = Some n →
  cost ≠ 0 ∧ n = amount * DECIMAL_ONE / cost.
Proof. intros Ha Hc. rewrite div_floor_spec by done. case_decide; naive_solver. Qed.
Lemma mul_ceil_Some n cost r : 0 ≤ n → 0 ≤ cost → checked_mul_ceil n cost = Some r → n * cost ≤ r * DECIMAL_ONE.
Proof.
  intros Hn Hc. rewrite mul_ceil_spec by done. simpl. case_decide; [|done]. intros [= <-].
  unfold DECIMAL_ONE in *. div_lia.
Qed.
Lemma try_pay_Ok env asset a s r s' : try_pay env asset a s = Ok (r, s') → paid env asset a s s' r.
Proof.
  unfold try_pay. intros Hrun. inv_sub.
  match goal with Hd : checked_div_floor _ _ = Some ?n, Hm : checked_mul_ceil _ _ = Some _ |- _ =>
    rename Hd into Hdiv, Hm into Hceil; pose proof (Z.mod_pos_bound n (2 ^ 64) ltac:(lia)) as Hpos end.
  destruct (subs s !! a) as [sub|] eqn:Hsub.
  - unfold extend_subscription in *. inv_sub.
    match goal with He : extend _ _ = Ok _ |- _ => apply extend_Ok in He as ->; [|by apply Hpos] end.
    split; try (rewrite Hsub; simpl); try done; eauto 10.
    + eexists. split_and!; [done..|]. eexists. split; [done|]. intros Hcost Hamount.
      destruct (div_floor_Some _ _ _ Hamount Hcost Hdiv) as [Hne ->].
      split_and!; [done..|]. by intros [=].
    + eexists. split; [|done]. by apply Hpos.
  - unfold activate_subscription in *. inv_sub.
    match goal with He : subscriber_new _ _ = Ok _ |- _ => apply subscriber_new_Ok in He as ->; [|by apply Hpos] end.
    match goal with Ha : add_u _ _ _ = Ok _ |- _ => apply add_u_Ok in Ha as [-> _] end.
    split; try (rewrite Hsub; simpl); try done; eauto 10.
    + eexists. split_and!; [done..|]. eexists. split; [done|]. intros Hcost Hamount.
      destruct (div_floor_Some _ _ _ Hamount Hcost Hdiv) as [Hne ->].
      split_and!; [done..|]. intros _. eexists. split; [done|]. intros Hperiod.
      pose proof (mul_ceil_Some _ _ _ Hperiod Hcost Hceil). unfold DECIMAL_ONE in *. nia.
    + eexists. split; [|done]. by apply Hpos.
    + by match goal with Hst : sub_state _ = Some _ |- _ => rewrite Hst end.
Qed.
End payments.

(** ** Emissions and expired subscribers *)

Section claims.
Context `{CwAssetMsgs, Semver, Api, Instantiate2, !Querier, DecimalLaws, DecimalArithLaws, !SubscriptionJson, !ComparatorParse, !Registries}.
Implicit Types (s : State SubStorage) (c : SubStorage) (a : Addr) (e : EmissionType asset_info).
Abbreviation subs s := (subscribers (custom s)).
Abbreviation gone s := (expired_subscribers (custom s)).

(** A claim of emissions: either there was nothing, and the subscriber is as
    before, or the messages transfer what is due since the last claim, and the
    claim is recorded. *)
Definition claimed (env : Env) (sub : Subscriber) a e (n : Z) (act : option AccountAction) (sub' : Subscriber) : Prop :=
  match act with
  | None => sub' = sub
  | Some msgs => last_emission_claim_timestamp sub < time (block env) ∧
      sub' = set_last_claim (time (block env)) sub ∧
      ∃ asset, emission_due (seconds (time (block env)) - seconds (last_emission_claim_timestamp sub)) n e = Ok asset ∧
        transfer [asset] a = Ok msgs
  end.
Lemma seconds_since t last : seconds (t - seconds last * NANOS) = seconds t - seconds last.
Proof. unfold seconds, NANOS. div_lia. Qed.
Lemma claim_emissions_Ok env sub a e n act sub' :
  claim_emissions_msg env sub a e n = Ok (act, sub') → claimed env sub a e n act sub'.
Proof.
  unfold claim_emissions_msg, claimed. intros Hc. case_decide; inv_ok.
  match goal with Hs : sub_u _ _ = Ok _ |- _ => apply sub_u_Ok in Hs as [-> _] end.
  case_decide; inv_ok; [done|]. rewrite seconds_since in *.
  split; [lia|]. split; [done|]. eauto.
Qed.
Lemma last_claim_Ok env sub a e n act sub' :
  last_claim (claim_emissions_msg env sub a e n) sub = Ok (act, sub') → claimed env sub a e n act sub'.
Proof.
  unfold last_claim. intros Hc.
  destruct (claim_emissions_msg env sub a e n) as [[act' sub'']|err|] eqn:He.
  - inv_ok. by apply claim_emissions_Ok.
  - destruct err; inv_ok; done.
  - done.
Qed.
Lemma claimed_expiration env sub a e n act sub' :
  claimed env sub a e n act sub' → expiration_timestamp sub' = expiration_timestamp sub.
Proof. unfold claimed. destruct act; [by intros (_ & -> & _)|by intros ->]. Qed.

(** One subscriber in the loop of [unsubscribe]. *)
Definition moved (a : Addr) (sub : Subscriber) s : State SubStorage :=
  set_custom (set_expired_subscribers (<[a := sub]> (gone s)) (set_subscribers (delete a (subs s)) (custom s))) s.
Lemma unsubscribe_one_Ok env e u a s u' s' : unsubscribe_one env e u a s = Ok (u', s') →
  ∃ sub, subs s !! a = Some sub ∧
  ((time (block env) < expiration_timestamp sub ∧ u' = u ∧ s' = s) ∨
   (expiration_timestamp sub ≤ time (block env) ∧ ∃ act sub', claimed env sub a e (un_active_subs u) act sub' ∧
     1 ≤ un_active_subs u ∧ s' = moved a sub' s ∧
     u' = mkUnsubscribed (un_active_subs u - 1) (canceled_subs u ++ [a]) (claim_actions u ++ option_list act))).
Proof.
  unfold unsubscribe_one, is_expired. intros Hrun. inv_sub. eexists. split; [done|].
  case_bool_decide as Hexp; [right|left]; inv_sub; [|split; [lia|done]].
  match goal with x : (option AccountAction * Subscriber)%type |- _ => destruct x as [act sub'] end. inv_sub.
  match goal with Hl : last_claim _ _ = Ok _ |- _ => apply last_claim_Ok in Hl end.
  match goal with Hs : sub_u _ _ = Ok _ |- _ => apply sub_u_Ok in Hs as [-> Hle] end.
  split; [done|]. exists act, sub'. by split_and!.
Qed.

(** What the whole call did: the loop, from the counter and the configuration
    the storage had, and the messages of the account and to the hook. *)
Lemma unsubscribe_Ok env l s r s' : unsubscribe env l s = Ok (r, s') →
  ∃ n config s1 u s2 addrs, sub_state (custom s) = Some n ∧ sub_config (custom s) = Some config ∧
    only_income s s1 ∧ mfold addrs (mkUnsubscribed n [] [])
      (unsubscribe_one env (subscription_per_second_emissions config)) s1 = Ok (u, s2) ∧
    s' = set_custom (set_sub_state (Some (un_active_subs u)) (custom s2)) s2 ∧ canceled_subs u ≠ [] ∧
    messages r = match account s2 with
      | Ok account => [send (OnAccount account (Account.Execute (mjoin (claim_actions u))) [])] | _ => [] end ++
      match unsubscribe_hook_addr config with Some hook => [send (hook_msg hook (canceled_subs u))] | None => [] end.
Proof.
  unfold unsubscribe. intros Hrun. inv_sub. eexists _, _, _, _, _, _. split_and!; try done; [by eexists|].
  unfold account, executor_execute, execute_with_funds, execute_on_account. simpl.
  match goal with |- context [ok_or ?b _] => by destruct b end.
Qed.
Lemma claim_subscriber_Ok env x s r s' : claim_subscriber_emissions env x s = Ok (r, s') →
  ∃ n config a sub act sub', sub_state (custom s) = Some n ∧ sub_config (custom s) = Some config ∧
    subs s !! a = Some sub ∧ claimed env sub a (subscription_per_second_emissions config) n act sub' ∧
    s' = set_custom (set_subscribers (<[a := sub']> (subs s)) (custom s)) s ∧
    match act with
    | Some msgs => ∃ account, base_state s = Some account ∧
        messages r = [send (OnAccount account (Account.Execute (mjoin [msgs])) [])]
    | None => messages r = []
    end.
Proof.
  unfold claim_subscriber_emissions. intros Hrun. inv_sub.
  match goal with x : (option AccountAction * Subscriber)%type |- _ => destruct x as [act sub'] end. inv_sub.
  match goal with Hl : claim_emissions_msg _ _ _ _ _ = Ok _ |- _ => apply claim_emissions_Ok in Hl end.
  eexists _, _, _, _, act, sub'. split_and!; try done; destruct act as [msgs|]; inv_sub; try done.
  unfold executor_execute, execute_with_funds, execute_on_account, account in *. inv_sub. by eexists.
Qed.
Lemma update_config_Ok env i asset cost em hook s r s' :
  update_subscription_config env i asset cost em hook s = Ok (r, s') →
  messages r = [] ∧ ∃ config, s' = set_custom (set_sub_config (Some config) (custom s)) s.
Proof.
  unfold update_subscription_config. intros Hrun. inv_sub.
  match goal with Ha : assert_app_admin _ _ _ = Ok _ |- _ => apply assert_app_admin_Ok in Ha as [-> _] end.
  by eauto.
Qed.
End claims.

(** ** The invariants of a call *)

Section calls.
Context `{CwAssetMsgs, Semver, Api, Instantiate2, !Querier, DecimalLaws, DecimalArithLaws, !SubscriptionJson, !ComparatorParse, !Registries}.
Implicit Types (s : State SubStorage) (c : SubStorage) (a : Addr) (e : EmissionType asset_info).
Abbreviation subs s := (subscribers (custom s)).
Abbreviation gone s := (expired_subscribers (custom s)).

(** Nobody is both a subscriber and an expired one. *)
Definition disjoint_lists c : Prop := ∀ a, is_Some (subscribers c !! a) → expired_subscribers c !! a = None.
Definition counted c : Prop :=
  sub_state c = Some (Z.of_nat (size (subscribers c))) ∧ disjoint_lists c.

Lemma paid_counted env asset a s s' r : paid env asset a s s' r → counted (custom s) → counted (custom s').
Proof.
  intros [_ _ (n & _ & Hsubs) Hn Hgone _] [Hc Hd]. rewrite Hc in Hn. split.
  - rewrite Hn, Hsubs. destruct (subs s !! a) as [sub|] eqn:Ha.
    + by rewrite map_size_insert_Some.
    + rewrite map_size_insert_None by done. simpl. f_equal. lia.
  - intros b Hb. rewrite Hgone. rewrite Hsubs in Hb.
    destruct (decide (b = a)) as [->|Hne].
    + destruct (subs s !! a) as [sub|] eqn:Ha; [by apply Hd; rewrite Ha|apply lookup_delete_eq].
    + rewrite lookup_insert_ne in Hb by done. specialize (Hd b Hb).
      destruct (subs s !! a); [done|]. by rewrite lookup_delete_ne.
Qed.
Lemma moved_disjoint a sub s : disjoint_lists (custom s) → disjoint_lists (custom (moved a sub s)).
Proof.
  intros Hd b. simpl. destruct (decide (b = a)) as [->|Hne].
  - rewrite lookup_delete_eq. by intros [].
  - rewrite lookup_delete_ne, lookup_insert_ne by done. apply Hd.
Qed.
Lemma moved_size a sub sub' s : subs s !! a = Some sub →
  Z.of_nat (size (subs (moved a sub' s))) = Z.of_nat (size (subs s)) - 1.
Proof.
  intros Ha. simpl. rewrite map_size_delete_Some by eauto.
  assert (size (subs s) ≠ 0%nat); [|lia]. intros Hz%map_size_empty_iff. by rewrite Hz in Ha.
Qed.
Lemma unsubscribe_counted env l : Preserves (counted ∘ custom) (unsubscribe env l).
Proof.
  intros s r s' [Hc Hd] Hrun. cbn in *.
  apply unsubscribe_Ok in Hrun as (n & config & s1 & u & s2 & addrs & Hn & _ & [t ->] & Hloop & -> & _).
  assert (un_active_subs u = Z.of_nat (size (subs s2)) ∧ disjoint_lists (custom s2)) as [Hu Hd2].
  { refine (mfold_ind (λ u s, un_active_subs u = Z.of_nat (size (subs s)) ∧ disjoint_lists (custom s))
      _ _ _ _ _ _ _ _ Hloop); [|split; [simpl; congruence|done]].
    intros a v s3 v' s3' _ [Hv Hd3] Hone.
    apply unsubscribe_one_Ok in Hone as (sub & Ha & [(_ & -> & ->)|(_ & act & sub' & _ & _ & -> & ->)]); [done|].
    split; [|by apply moved_disjoint]. rewrite (moved_size a sub sub' s3 Ha). simpl. lia. }
  split; [|done]. simpl. by rewrite Hu.
Qed.
Lemma execute_counted env i m : Preserves (counted ∘ custom) (execute env i m).
Proof.
  intros s r s' Hs Hrun. apply execute_Ok in Hrun.
  assert (∀ asset a, try_pay env asset a s = Ok (r, s') → counted (custom s')) as Hpay.
  { intros asset a Hp. by eapply paid_counted; [eapply try_pay_Ok|]. }
  destruct m as [[]|[who|l|x|asset cost em hook|]|m]; simpl in Hrun.
  - unfold execute_pay in Hrun. inv_sub. case_match; inv_sub; by eauto.
  - by eapply unsubscribe_counted.
  - apply claim_subscriber_Ok in Hrun as (n & config & a & sub & act & sub' & _ & _ & Ha & _ & -> & _).
    destruct Hs as [Hc Hd]. split; simpl; [by rewrite map_size_insert_Some by eauto|].
    intros b Hb. simpl in *. apply Hd. destruct (decide (b = a)) as [->|Hne]; [by eexists|].
    by rewrite lookup_insert_ne in Hb.
  - by apply update_config_Ok in Hrun as (_ & config & ->).
  - inv_sub. done.
  - unfold receive_cw20 in Hrun. inv_sub. by eauto.
Qed.

(** A subscription that has not ended by the time of the call. *)
Definition subscribed_until a (t : Z) s : Prop :=
  ∃ sub, subs s !! a = Some sub ∧ t ≤ expiration_timestamp sub.
Lemma paid_keeps env asset a b t s s' r :
  paid env asset a s s' r → subscribed_until b t s → subscribed_until b t s'.
Proof.
  intros [_ _ (n & Hn & Hsubs) _ _ _] (sub & Hb & Ht). unfold subscribed_until. rewrite Hsubs.
  destruct (decide (b = a)) as [->|Hne].
  - rewrite lookup_insert_eq, Hb. eexists. split; [done|]. simpl. unfold NANOS. lia.
  - rewrite lookup_insert_ne by done. eauto.
Qed.
Lemma execute_keeps_subscribed env i m b t :
  time (block env) < t → Preserves (subscribed_until b t) (execute env i m).
Proof.
  intros Hnow s r s' Hs Hrun. apply execute_Ok in Hrun.
  assert (∀ asset a, try_pay env asset a s = Ok (r, s') → subscribed_until b t s') as Hpay.
  { intros asset a Hp. by eapply paid_keeps; [eapply try_pay_Ok|]. }
  destruct m as [[]|[who|l|x|asset cost em hook|]|m]; simpl in Hrun.
  - unfold execute_pay in Hrun. inv_sub. case_match; inv_sub; by eauto.
  - apply unsubscribe_Ok in Hrun as (n & config & s1 & u & s2 & addrs & _ & _ & [i' ->] & Hloop & -> & _).
    change (subscribed_until b t s2).
    refine (mfold_ind (λ _ s, subscribed_until b t s) _ _ _ _ _ _ _ _ Hloop); [|exact Hs].
    intros a v s3 v' s3' _ (sub & Hb & Ht) Hone.
    apply unsubscribe_one_Ok in Hone as (sub1 & Ha & [(_ & -> & ->)|(Hexp & act & sub' & _ & _ & -> & ->)]).
    + by exists sub.
    + exists sub. split; [|done]. simpl. rewrite lookup_delete_ne; [done|]. intros ->. simplify_eq. lia.
  - apply claim_subscriber_Ok in Hrun as (n & config & a & sub & act & sub' & _ & _ & Ha & Hc & -> & _).
    destruct Hs as (sub1 & Hb & Ht). unfold subscribed_until. simpl. destruct (decide (b = a)) as [->|Hne].
    + rewrite lookup_insert_eq. eexists. split; [done|]. simplify_eq. by rewrite (claimed_expiration _ _ _ _ _ _ _ Hc).
    + rewrite lookup_insert_ne by done. eauto.
  - by apply update_config_Ok in Hrun as (_ & config & ->).
  - inv_sub. done.
  - unfold receive_cw20 in Hrun. inv_sub. by eauto.
Qed.
End calls.

(** ** What an account emits *)

Section emissions.
Context `{CwAssetMsgs, !CwAssetMsgsLaws, Semver, Api, Instantiate2, !Querier, DecimalLaws, DecimalArithLaws, !SubscriptionJson, !ComparatorParse, !Registries}.
Implicit Types (s : State SubStorage) (c : SubStorage) (a : Addr) (e : EmissionType asset_info).
Abbreviation subs s := (subscribers (custom s)).

(** The amount a list of messages sends to an address in native coins. *)
Definition sent_to a (m : CosmosMsg) : Z :=
  match m with MsgBankSend to l => if decide (to = a) then foldr Z.add 0 (amount <$> l) else 0 | _ => 0 end.
Definition all_sent_to a (l : list CosmosMsg) : Z := foldr Z.add 0 (sent_to a <$> l).
(** What the account is told to send to an address. *)
Definition emitted_to a (m : SubMsg ModuleMsg) : Z :=
  match msg_of m with OnAccount _ (Account.Execute l) _ => all_sent_to a l | _ => 0 end.
Definition all_emitted a (l : list (SubMsg ModuleMsg)) : Z := foldr Z.add 0 (emitted_to a <$> l).

(** Emissions in a native token, at most [R] a second for a subscriber. *)
Definition emits_at_most (R : Z) e : Prop :=
  match e with
  | NoEmission => True
  | SecondShared d t | SecondPerUser d t => 0 ≤ d ≤ R ∧ ∃ denom, t = asset_native denom
  end.

Lemma foldr_add_app l k : foldr Z.add 0 (l ++ k) = foldr Z.add 0 l + foldr Z.add 0 k.
Proof. induction l as [|x l IH]; simpl; [done|]. rewrite IH. lia. Qed.
Lemma all_sent_app a l k : all_sent_to a (l ++ k) = all_sent_to a l + all_sent_to a k.
Proof. unfold all_sent_to. by rewrite fmap_app, foldr_add_app. Qed.
Lemma all_emitted_app a l k : all_emitted a (l ++ k) = all_emitted a l + all_emitted a k.
Proof. unfold all_emitted. by rewrite fmap_app, foldr_add_app. Qed.

(** Due for some seconds: the amount, at most what the rate allows. *)
Lemma emission_due_bound d n e asset R : 0 ≤ d → 0 ≤ n → emits_at_most R e →
  emission_due d n e = Ok asset →
  (∃ denom, as_info asset = asset_native denom) ∧ 0 ≤ as_amount asset ∧ as_amount asset * DECIMAL_ONE ≤ R * d.
Proof.
  intros Hd Hn He Hdue. destruct e as [|x t|x t]; simpl in *; inv_ok; destruct He as [[Hx HxR] Ht].
  1: case_decide; inv_ok.
  all: match goal with Hm : uint_mul_floor _ _ _ = Some _ |- _ =>
    rewrite mul_floor_spec in Hm by lia; case_decide; [injection Hm as <-|done] end; simpl; (split; [done|]).
  all: assert (0 ≤ d * x / DECIMAL_ONE) by (apply Z.div_pos; [nia|unfold DECIMAL_ONE; lia]).
  - assert (d * x / DECIMAL_ONE / n ≤ d * x / DECIMAL_ONE) by (apply Z.div_le_upper_bound; nia).
    simpl. split; [apply Z.div_pos; lia|].
    assert (d * x / DECIMAL_ONE * DECIMAL_ONE ≤ d * x) by (rewrite Z.mul_comm; apply Z.mul_div_le; unfold DECIMAL_ONE; lia).
    unfold DECIMAL_ONE in *. nia.
  - simpl. split; [done|].
    assert (d * x / DECIMAL_ONE * DECIMAL_ONE ≤ d * x) by (rewrite Z.mul_comm; apply Z.mul_div_le; unfold DECIMAL_ONE; lia).
    unfold DECIMAL_ONE in *. nia.
Qed.
Lemma transfer_native denom n b a msgs : transfer [mkAsset (asset_native denom) n] b = Ok msgs →
  all_sent_to a msgs = if decide (b = a) then n else 0.
Proof.
  unfold transfer, transfer_msg. simpl. rewrite native_transfer. simpl. intros [= <-].
  unfold all_sent_to. simpl. case_decide; lia.
Qed.

(** Until when a subscriber has been paid: claims advance it, and what they pay
    is covered by the seconds in between. *)
Definition claimed_up_to a (L : Z) s : Prop :=
  ∀ sub, subs s !! a = Some sub → L ≤ last_emission_claim_timestamp sub.
Definition advances a R t (L : Z) (paid : Z) s : Prop :=
  ∃ L', L ≤ L' ≤ t ∧ claimed_up_to a L' s ∧ paid * DECIMAL_ONE ≤ R * (seconds L' - seconds L).
Lemma advances_refl a R t L s : L ≤ t → claimed_up_to a L s → advances a R t L 0 s.
Proof. intros Ht Hs. exists L. split_and!; [done..|]. by rewrite Z.sub_diag, Z.mul_0_r. Qed.

(** A claim pays its subscriber for the time since the last one, and nobody
    else. *)
Lemma claimed_pays env sub b a e n act sub' R L :
  0 ≤ R → 0 ≤ n → emits_at_most R e → claimed env sub b e n act sub' → L ≤ time (block env) →
  (b = a → L ≤ last_emission_claim_timestamp sub) →
  ∃ L', L ≤ L' ≤ time (block env) ∧ (b ≠ a → L' = L) ∧ (b = a → L' ≤ last_emission_claim_timestamp sub') ∧
    0 ≤ all_sent_to a (mjoin (option_list act)) ∧
    all_sent_to a (mjoin (option_list act)) * DECIMAL_ONE ≤ R * (seconds L' - seconds L).
Proof.
  intros HR Hn He Hc Ht HL. unfold claimed in Hc. destruct act as [msgs|]; simpl; unfold mjoin; simpl.
  - destruct Hc as (Hlast & -> & asset & Hdue & Hmsgs). rewrite app_nil_r.
    pose proof (seconds_mono (last_emission_claim_timestamp sub) (time (block env)) ltac:(lia)).
    apply (emission_due_bound _ _ _ _ R) in Hdue as ([denom Hinfo] & Hpos & Hb); [|lia|done|done].
    destruct asset as [info n']. simpl in *. subst info. rewrite (transfer_native _ _ _ a _ Hmsgs).
    destruct (decide (b = a)) as [Hba|Hba].
    + exists (time (block env)). simpl. split_and!; [lia..|done|done|done|].
      pose proof (seconds_mono L _ (HL Hba)).
      etransitivity; [exact Hb|]. apply Z.mul_le_mono_nonneg_l; lia.
    + exists L. split_and!; [lia..|done|done|lia|lia].
  - subst sub'. exists L. unfold all_sent_to. simpl. split_and!; [lia..|done|done|lia|lia].
Qed.
Lemma paid_advances env asset b a s s' r R L : paid env asset b s s' r →
  L ≤ time (block env) → claimed_up_to a L s → advances a R (time (block env)) L (all_emitted a (messages r)) s'.
Proof.
  intros [_ _ (n & _ & Hsubs) _ _ (acc & msg & _ & _ & ->)] Ht Hs.
  apply advances_refl; [done|]. intros sub. rewrite Hsubs. destruct (decide (a = b)) as [->|Hne].
  - rewrite lookup_insert_eq. intros [= <-]. destruct (subs s !! b) as [sub|] eqn:Hb; simpl; [by apply Hs|done].
  - rewrite lookup_insert_ne by done. apply Hs.
Qed.
Lemma unsubscribe_one_advances env e a b u s u' s' R L :
  0 ≤ R → emits_at_most R e →
  advances a R (time (block env)) L (all_sent_to a (mjoin (claim_actions u))) s ∧
    0 ≤ un_active_subs u ∧ 0 ≤ all_sent_to a (mjoin (claim_actions u)) →
  unsubscribe_one env e u b s = Ok (u', s') →
  advances a R (time (block env)) L (all_sent_to a (mjoin (claim_actions u'))) s' ∧
    0 ≤ un_active_subs u' ∧ 0 ≤ all_sent_to a (mjoin (claim_actions u')).
Proof.
  intros HR He ((L1 & HL1 & Hup & Hpaid) & Hn & Hpos) Hone.
  apply unsubscribe_one_Ok in Hone as (sub & Hb & [(_ & -> & ->)|(_ & act & sub' & Hc & Hn1 & -> & ->)]).
  { split; [by exists L1|done]. }
  destruct (claimed_pays env sub b a e _ act sub' R L1 HR Hn He Hc ltac:(lia))
    as (L2 & HL2 & Hother & _ & Hpos2 & Hpaid2); [by intros <-; apply Hup|].
  cbn [claim_actions un_active_subs]. unfold AccountAction in *. rewrite join_app, all_sent_app.
  split_and!; [|lia..]. exists L2. split_and!; [lia..| |nia].
  intros sub2. simpl. destruct (decide (b = a)) as [->|Hne]; [by rewrite lookup_delete_eq|].
  rewrite lookup_delete_ne by done. rewrite (Hother Hne). apply Hup.
Qed.
Lemma unsubscribe_advances env l a s r s' R L :
  0 ≤ R → counted (custom s) → (∀ config, sub_config (custom s) = Some config →
    emits_at_most R (subscription_per_second_emissions config)) →
  L ≤ time (block env) → claimed_up_to a L s → unsubscribe env l s = Ok (r, s') →
  ∃ p, all_emitted a (messages r) ≤ p ∧ advances a R (time (block env)) L p s'.
Proof.
  intros HR Hcnt Hrate Ht Hs Hrun.
  apply unsubscribe_Ok in Hrun as (n & config & s1 & u & s2 & addrs & Hn & Hcfg & [i ->] & Hloop & -> & _ & Hr).
  assert (advances a R (time (block env)) L (all_sent_to a (mjoin (claim_actions u))) s2 ∧
    0 ≤ un_active_subs u ∧ 0 ≤ all_sent_to a (mjoin (claim_actions u))) as (Hadv & _ & Hpos).
  { refine (mfold_ind (λ u s, advances a R (time (block env)) L (all_sent_to a (mjoin (claim_actions u))) s ∧
      0 ≤ un_active_subs u ∧ 0 ≤ all_sent_to a (mjoin (claim_actions u))) _ _ _ _ _ _ _ _ Hloop).
    - intros b v s3 v' s3' _ Hv Hone. by eapply unsubscribe_one_advances; [| |exact Hv|exact Hone]; eauto.
    - split_and!; [by apply advances_refl| |done].
      destruct Hcnt as [Hc _]. rewrite Hc in Hn. simplify_eq. simpl. lia. }
  exists (all_sent_to a (mjoin (claim_actions u))). split; [|done].
  rewrite Hr, all_emitted_app. destruct (account s2); destruct (unsubscribe_hook_addr config);
    unfold all_emitted, emitted_to; simpl; lia.
Qed.
End emissions.

(** ** The theorems *)

Section theorems.
Context `{CwAssetMsgs, !CwAssetMsgsLaws, Semver, Api, Instantiate2, DecimalLaws, DecimalArithLaws, !SubscriptionJson, !ComparatorParse}.
Implicit Types (s : State SubStorage) (a : Addr).
Abbreviation subs s := (subscribers (custom s)).
Abbreviation gone s := (expired_subscribers (custom s)).

(** The states of a subscription app. *)
Inductive sub_reachable : State SubStorage → Prop :=
  | sub_init (Q : Querier) env i a x r s :
      App.instantiate SUBSCRIPTION_MODULE env i a x (mkState None None None None no_subscriptions) = Ok (r, s) →
      sub_reachable s
  | sub_call (Q : Querier) (R : Registries) env i m s r s' : sub_reachable s →
      execute env i m s = Ok (r, s') → sub_reachable s'.
(** Calls that succeed, with the state before each and its answer. *)
Record Event := mkEvent { ev_env : Env; ev_before : State SubStorage; ev_response : Response ModuleMsg }.
Inductive run : State SubStorage → list Event → State SubStorage → Prop :=
  | run_nil s : run s [] s
  | run_cons (Q : Querier) (R : Registries) env i m s r s' l s'' :
      execute env i m s = Ok (r, s') → run s' l s'' → run s (mkEvent env s r :: l) s''.
Definition ev_time (e : Event) : Z := time (block (ev_env e)).

Lemma sub_reachable_counted s : sub_reachable s → counted (custom s).
Proof.
  induction 1 as [Q env i a x r s Hrun|Q R env i m s r s' _ IH Hrun]; [|by eapply execute_counted].
  unfold App.instantiate, save_module_data, save_contract_version in Hrun. inv_ok.
  unfold instantiate_handler in *. inv_sub. split; [done|]. by intros a'.
Qed.

(** C21. The number of active subscribers is the number of subscribers, and
    nobody is both a subscriber and an expired one, in every reachable state; so
    the counter that shared emissions divide by and that leavers decrease is
    never zero while somebody is subscribed. *)
Theorem subscribers_counted s (Hs : sub_reachable s) :
  sub_state (custom s) = Some (Z.of_nat (size (subs s))) ∧
  (∀ a sub, subs s !! a = Some sub → gone s !! a = None ∧
     ∃ n, sub_state (custom s) = Some n ∧ 0 < n).
Proof.
  destruct (sub_reachable_counted s Hs) as [Hc Hd]. split; [done|]. intros a sub Ha.
  split; [apply Hd; by eexists|]. eexists. split; [done|].
  assert (size (subs s) ≠ 0%nat); [|lia]. intros Hz%map_size_empty_iff. by rewrite Hz in Ha.
Qed.

(** C22. Paid time is honoured: whatever calls succeed before a subscription
    ends, by whomever and in whatever order, its subscriber is still subscribed
    after them, and no earlier end was set. *)
Theorem paid_time_honoured s s' l a sub (Hrun : run s l s') (Ha : subs s !! a = Some sub)
    (Hl : Forall (λ e, ev_time e < expiration_timestamp sub) l) :
  ∃ sub', subs s' !! a = Some sub' ∧ expiration_timestamp sub ≤ expiration_timestamp sub'.
Proof.
  assert (subscribed_until a (expiration_timestamp sub) s) as Hs by by exists sub.
  clear Ha. induction Hrun as [|Q R env i m s r s' l s'' Hrun _ IH]; [done|].
  inversion Hl as [|?? Ht Hl']; subst. apply IH; [done|]. by eapply execute_keeps_subscribed.
Qed.

(** The payment a message makes: the last coin of the funds, or the tokens of
    the cw20 contract that sends the receipt, and for whom. *)
Definition pays (i : MessageInfo) (m : CustomExecuteMsg) (asset : Asset) a : Prop :=
  match m with
  | CustomModule (Pay who) => ∃ coin, last (funds i) = Some coin ∧ asset = asset_of_coin coin ∧
      match who with Some human => addr_validate human = Some a | None => a = sender i end
  | Receive m => asset = mkAsset (asset_cw20 (sender i)) (cw20_amount m) ∧
      ∃ who, deposit_hook_from_json (cw20_msg m) = Some who ∧ addr_validate (default (cw20_sender m) who) = Some a
  | _ => False
  end.
Lemma payment_paid `{!Querier, !Registries} env i m s r s' :
  match m with CustomModule (Pay _) | Receive _ => True | _ => False end →
  execute env i m s = Ok (r, s') → ∃ asset a, pays i m asset a ∧ paid env asset a s s' r.
Proof.
  intros Hm Hrun. apply execute_Ok in Hrun. destruct m as [|[who| | | |]|m]; try done; simpl in *.
  - unfold execute_pay in Hrun. inv_sub. destruct (last (funds i)) as [coin|]; inv_sub. eexists _, _.
    split; [|by eapply try_pay_Ok]. eexists. split_and!; [done..|]. destruct who; by inv_sub.
  - unfold receive_cw20 in Hrun. inv_sub. eexists _, _. split; [|by eapply try_pay_Ok]. by eauto.
Qed.

(** What a payment buys.  A payment that succeeds is in the asset of the
    configuration and goes to the account as it is; it buys the amount divided
    by the cost per second, rounded down (in 64 bits): a subscriber's end moves
    by that many seconds, anybody else becomes a subscriber for them from now,
    and is no longer an expired one, if the payment covers an averaging period;
    the other subscribers, the account and the configuration are as before. *)
Theorem payment_buys `{!Querier, !Registries} (env : Env) (i : MessageInfo) (m : CustomExecuteMsg) s s'
    (r : Response ModuleMsg) (config : SubscriptionConfig)
    (Hm : match m with CustomModule (Pay _) | Receive _ => True | _ => False end)
    (Hconfig : sub_config (custom s) = Some config) (Hcost : 0 ≤ subscription_cost_per_second config)
    (Hrun : execute env i m s = Ok (r, s')) :
  let cost := subscription_cost_per_second config in
  ∃ asset a, pays i m asset a ∧ payment_asset config = as_info asset ∧
    (∃ account msg, base_state s = Some account ∧
       asset_transfer_msg (as_info asset) (as_amount asset) account = Some msg ∧
       messages r = [send (FromModule msg)]) ∧
    same_settings s s' ∧
    (0 ≤ as_amount asset →
       subs s' = <[a := renewed (time (block env)) (subs s !! a) (seconds_bought (as_amount asset) cost)]> (subs s) ∧
       gone s' = match subs s !! a with Some _ => gone s | None => delete a (gone s) end ∧
       (subs s !! a = None → ∃ d, income_twa (custom s) = Some d ∧
          (0 ≤ averaging_period d → averaging_period d * cost ≤ as_amount asset * DECIMAL_ONE))).
Proof.
  intros cost. destruct (payment_paid env i m s r s' Hm Hrun)
    as (asset & a & Hp & [Hset (c & Hc & Ha & cost' & Hcost' & Hbuy) _ _ Hgone (acc & msg & Hb & Hmsg & Hr)]).
  exists asset, a. simplify_eq. split_and!; [done..|by eauto|done|]. intros Hamount.
  destruct (Hbuy Hcost Hamount) as (_ & Hsubs & Hnew). by split_and!.
Qed.

(** The calls come one after the other from a time on. *)
Fixpoint in_order (t : Z) (l : list Event) : Prop :=
  match l with [] => True | e :: l => t ≤ ev_time e ∧ in_order (ev_time e) l end.
Definition last_time (t : Z) (l : list Event) : Z := default t (ev_time <$> last l).
Definition total_emitted a (l : list Event) : Z :=
  foldr Z.add 0 ((λ e, all_emitted a (messages (ev_response e))) <$> l).
(** The configuration a call finds emits at most a rate. *)
Definition rate_at_most (R : Z) (e : Event) : Prop :=
  ∀ config, sub_config (custom (ev_before e)) = Some config →
    emits_at_most R (subscription_per_second_emissions config).

Lemma execute_advances `{!Querier, !Registries} env i m a s r s' R L :
  0 ≤ R → counted (custom s) → rate_at_most R (mkEvent env s r) →
  L ≤ time (block env) → claimed_up_to a L s → execute env i m s = Ok (r, s') →
  ∃ p, all_emitted a (messages r) ≤ p ∧ advances a R (time (block env)) L p s'.
Proof.
  intros HR Hcnt Hrate Ht Hs Hrun. pose proof Hrun as Hx. apply execute_Ok in Hrun.
  assert (∀ asset b, try_pay env asset b s = Ok (r, s') →
    ∃ p, all_emitted a (messages r) ≤ p ∧ advances a R (time (block env)) L p s') as Hpay.
  { intros asset b Hp. eexists. split; [|by eapply paid_advances; [eapply try_pay_Ok|..]]. done. }
  destruct m as [[]|[who|l|x|asset cost em hook|]|m]; simpl in Hrun.
  - unfold execute_pay in Hrun. inv_sub. case_match; inv_sub; by eauto.
  - by eapply unsubscribe_advances.
  - apply claim_subscriber_Ok in Hrun as (n & config & b & sub & act & sub' & Hn & Hcfg & Hb & Hc & -> & Hr).
    assert (0 ≤ n) by (destruct Hcnt as [Hcn _]; rewrite Hcn in Hn; simplify_eq; lia).
    destruct (claimed_pays env sub b a _ n act sub' R L HR ltac:(done) (Hrate _ Hcfg) Hc Ht)
      as (L' & HL' & Hother & Hself & Hpos & Hpaid); [by intros <-; apply Hs|].
    exists (all_sent_to a (mjoin (option_list act))). split.
    { destruct act as [msgs|]; [destruct Hr as (acc & _ & Hr)|]; rewrite Hr; unfold all_emitted, emitted_to; simpl; [lia|done]. }
    exists L'. split_and!; [lia..| |done]. intros sub1. simpl. destruct (decide (b = a)) as [->|Hne].
    + rewrite lookup_insert_eq. intros [= <-]. by apply Hself.
    + rewrite lookup_insert_ne by done. rewrite (Hother Hne). apply Hs.
  - apply update_config_Ok in Hrun as (-> & config & ->). exists 0. split; [done|]. by apply advances_refl.
  - inv_sub. exists 0. split; [done|]. by apply advances_refl.
  - unfold receive_cw20 in Hrun. inv_sub. by eauto.
Qed.

End theorems.
