(* ===== verification/ChallengeProofs.v ===== *)
(** * Correctness of the challenge app

    Which proposals belong to which challenge; that the account is charged once
    for every proposal that passes; and how a penalty is shared out. *)

From S2P Require Import Prelude Cosmos Strings Voting Objects Names AccountIds Fees ModuleFactory Ownership AnsObjects Ans AnsClient Registry Clients Account Ibc Sdk SdkApis App AppProofs Challenge.
From Stdlib Require Import Ascii String.
#[local] Open Scope string_scope.
#[local] Open Scope list_scope.
#[local] Open Scope Z_scope.

(** ** What the calls of the voting object do to the proposals *)

Section voting.
Context `{DecimalOps}.
Implicit Types (v : SimpleVoting) (p : ProposalInfo).

(** The proposals that passed. *)
Definition passed v : gset Z := dom (filter (λ x, status x.2 = Finished Passed) (proposals_info v)).
Lemma elem_of_passed v id : id ∈ passed v ↔ ∃ p, proposals_info v !! id = Some p ∧ status p = Finished Passed.
Proof.
  unfold passed. rewrite elem_of_dom. unfold is_Some. setoid_rewrite map_lookup_filter_Some. naive_solver.
Qed.
(** One proposal, that had not passed, is written. *)
Lemma passed_write v v' id p :
  proposals_info v' = <[id := p]> (proposals_info v) → id ∉ passed v →
  passed v' = if decide (status p = Finished Passed) then {[id]} ∪ passed v else passed v.
Proof.
  intros Hw Hid. apply set_eq. intros i. rewrite elem_of_passed, Hw.
  rewrite (elem_of_passed v) in Hid.
  destruct (decide (i = id)) as [->|Hne].
  - rewrite lookup_insert_eq. case_decide; [set_solver|]. rewrite elem_of_passed. naive_solver.
  - setoid_rewrite lookup_insert_ne; [|done]. rewrite <-elem_of_passed. case_decide; set_solver.
Qed.

(** A proposal that is stored and had not passed is written, with its new
    status. *)
Definition rewritten v v' id (st : ProposalStatus) : Prop :=
  (id ∉ passed v) ∧ is_Some (proposals_info v !! id) ∧
  ∃ p, proposals_info v' = <[id := p]> (proposals_info v) ∧ status p = st.
Lemma refreshed_not_passed b id v p v' : load_proposal b id v = Ok (p, v') →
  (∀ o, status p ≠ Finished o) → v' = v ∧ is_Some (proposals_info v !! id) ∧ id ∉ passed v.
Proof.
  rewrite load_proposal_Ok. intros (-> & p0 & Hp & Hr) Hst. split; [done|]. split; [by eexists|].
  rewrite elem_of_passed. intros (p1 & Hp1 & Hst1). simplify_eq. unfold refresh in Hr. rewrite Hst1 in Hr.
  injection Hr as ->. by eapply Hst.
Qed.
Lemma active_not_finished p x : assert_active_proposal p = Ok x → status p = Active.
Proof. unfold assert_active_proposal, assert_is_active. by destruct (status p). Qed.

Lemma cast_vote_effect b id a vt v p v' : cast_vote b id a vt v = Ok (p, v') → rewritten v v' id Active.
Proof.
  unfold cast_vote. intros Hrun. inv_ok.
  match goal with Ha : assert_active_proposal _ = Ok _ |- _ => apply active_not_finished in Ha end.
  match goal with Hl : load_proposal _ _ _ = Ok _ |- _ =>
    apply refreshed_not_passed in Hl as (-> & Hs & Hp); [|congruence] end.
  split_and!; [done..|]. eexists. split; [done|].
  match goal with Hu : vote_update _ _ _ = Ok _ |- _ =>
    unfold vote_update in Hu; repeat case_match; inv_ok; done end.
Qed.
Lemma cancel_effect b id v p v' : cancel_proposal b id v = Ok (p, v') → rewritten v v' id (Finished Canceled).
Proof.
  unfold cancel_proposal. intros Hrun. inv_ok.
  match goal with Ha : assert_active_proposal _ = Ok _ |- _ => apply active_not_finished in Ha end.
  match goal with Hl : load_proposal _ _ _ = Ok _ |- _ =>
    apply refreshed_not_passed in Hl as (-> & Hs & Hp); [|congruence] end.
  split_and!; [done..|]. by eexists.
Qed.
Lemma count_effect b id v p o v' : count_votes b id v = Ok ((p, o), v') → rewritten v v' id (Finished o).
Proof.
  unfold count_votes. intros Hrun. inv_ok.
  match goal with Ha : bool_decide _ = true |- _ => apply bool_decide_eq_true in Ha end.
  match goal with Hl : load_proposal _ _ _ = Ok _ |- _ =>
    apply refreshed_not_passed in Hl as (-> & Hs & Hp); [|congruence] end.
  split_and!; [done..|]. by eexists.
Qed.
Lemma veto_effect b id v p v' : veto_proposal b id v = Ok (p, v') → rewritten v v' id (Finished Vetoed).
Proof.
  unfold veto_proposal. intros Hrun. inv_ok. case_ok; inv_ok.
  match goal with Hl : load_proposal _ _ _ = Ok _ |- _ =>
    apply refreshed_not_passed in Hl as (-> & Hs & Hp); [|congruence] end.
  split_and!; [done..|]. by eexists.
Qed.
Lemma new_proposal_effect e vs v id v' : voting_inv v → new_proposal e vs v = Ok (id, v') →
  proposals_info v !! id = None ∧ ∃ p, proposals_info v' = <[id := p]> (proposals_info v) ∧ status p = Active.
Proof.
  intros Hinv Hc. unfold new_proposal, Voting.load_config in Hc. inv_ok.
  match goal with Hb : bool_decide _ = true |- _ => apply bool_decide_eq_true in Hb end.
  match goal with Ha : add_u _ _ _ = Ok _ |- _ => apply add_u_Ok in Ha as [-> ?] end.
  destruct (inv_next v Hinv) as (n & Hn & Hpos & Hle). simplify_eq.
  match goal with Hm : mfor _ _ _ = Ok _ |- _ => apply register_voters in Hm as (_ & -> & _) end; [|done|].
  - split; [|by eexists]. apply eq_None_not_Some. intros Hs%Hle. lia.
  - intros a _. apply eq_None_not_Some. intros Hs%(inv_votes v Hinv)%Hle. lia.
Qed.
(** Whatever is rewritten, the same proposals are stored, and the invariant of
    the voting object says what they are. *)
Lemma rewritten_dom v v' id st : rewritten v v' id st → dom (proposals_info v') = dom (proposals_info v).
Proof. intros (_ & Hs & p & -> & _). apply dom_insert_lookup_L, Hs. Qed.
Lemma rewritten_passed v v' id st : rewritten v v' id st →
  (id ∉ passed v) ∧ passed v' = if decide (st = Finished Passed) then {[id]} ∪ passed v else passed v.
Proof. intros (Hn & _ & p & Hw & <-). split; [done|]. by apply passed_write. Qed.
End voting.

(** ** The invariant of the storage *)

(** Challenges and lists of friends are kept for the ids that were given out;
    every proposal of the voting object belongs to one challenge; and no
    challenge has a strike. *)
Record challenges_ok (c : ChallengeStorage) : Prop := {
  co_voting : voting_inv (simple_voting c);
  co_ids : ∃ n, next_id c = Some n ∧ 0 ≤ n ∧
    (∀ i, is_Some (challenges c !! i) ↔ 1 ≤ i ≤ n) ∧ (∀ i, is_Some (challenge_friends c !! i) ↔ 1 ≤ i ≤ n);
  co_owned p : is_Some (proposals_info (simple_voting c) !! p) ↔ ∃ i, (i, p) ∈ challenge_proposals c;
  co_owner i j p : (i, p) ∈ challenge_proposals c → (j, p) ∈ challenge_proposals c → i = j;
  co_challenge i p : (i, p) ∈ challenge_proposals c → is_Some (challenges c !! i);
  co_strikes i ch : challenges c !! i = Some ch → num_strikes (admin_strikes ch) = 0
}.

Section storage.
Context `{DecimalOps}.
Implicit Types (c : ChallengeStorage).

Lemma is_Some_insert_same {V} (m : gmap Z V) i j x :
  is_Some (m !! i) → (is_Some (<[i := x]> m !! j) ↔ is_Some (m !! j)).
Proof.
  intros Hi. destruct (decide (j = i)) as [->|Hne]; [rewrite lookup_insert_eq; by split; [|eexists]|].
  by rewrite lookup_insert_ne.
Qed.
(** The writes that keep the invariant. *)
Lemma ok_voting c v : challenges_ok c → voting_inv v →
  dom (proposals_info v) = dom (proposals_info (simple_voting c)) → challenges_ok (set_simple_voting v c).
Proof.
  intros [Hv Hids Hown Hone Hch Hst] Hv' Hdom. split; try done. intros p. simpl.
  rewrite <-Hown, <-!elem_of_dom, Hdom. done.
Qed.
Lemma ok_challenge c i ch : challenges_ok c → is_Some (challenges c !! i) → num_strikes (admin_strikes ch) = 0 →
  challenges_ok (set_challenges (<[i := ch]> (challenges c)) c).
Proof.
  intros [Hv (n & Hn & Hpos & Hc & Hf) Hown Hone Hch Hst] Hi Hch'. split; simpl; try done.
  - exists n. split_and!; try done. intros j. by rewrite is_Some_insert_same.
  - intros j p Hj. rewrite is_Some_insert_same; [by eapply Hch|done].
  - intros j ch2. destruct (decide (j = i)) as [->|Hne].
    + rewrite lookup_insert_eq. by intros [= <-].
    + rewrite lookup_insert_ne by done. apply Hst.
Qed.
Lemma ok_friends c i l : challenges_ok c → is_Some (challenge_friends c !! i) →
  challenges_ok (set_challenge_friends (<[i := l]> (challenge_friends c)) c).
Proof.
  intros [Hv (n & Hn & Hpos & Hc & Hf) Hown Hone Hch Hst] Hi. split; simpl; try done.
  exists n. split_and!; try done. intros j. by rewrite is_Some_insert_same.
Qed.
Lemma ok_create c n ch l : challenges_ok c → next_id c = Some n → num_strikes (admin_strikes ch) = 0 →
  challenges_ok (set_challenges (<[n + 1 := ch]> (challenges c))
    (set_challenge_friends (<[n + 1 := l]> (challenge_friends c)) (set_next_id (Some (n + 1)) c))).
Proof.
  intros [Hv (m & Hm & Hpos & Hc & Hf) Hown Hone Hch Hst] Hn Hs. assert (m = n) as -> by congruence.
  assert (∀ V (x : V) (mp : gmap Z V), (∀ i, is_Some (mp !! i) ↔ 1 ≤ i ≤ n) →
    ∀ i, is_Some (<[n + 1 := x]> mp !! i) ↔ 1 ≤ i ≤ n + 1) as Hins.
  { intros V x mp Hmp i. destruct (decide (i = n + 1)) as [->|Hne].
    - rewrite lookup_insert_eq. split; [lia|by eexists].
    - rewrite lookup_insert_ne, Hmp by done. lia. }
  split; simpl; try done.
  - exists (n + 1). split_and!; [done|lia|by apply Hins..].
  - intros i p Hi. apply Hins; [done|]. apply Hch, Hc in Hi. lia.
  - intros j ch2. destruct (decide (j = n + 1)) as [->|Hne].
    + rewrite lookup_insert_eq. by intros [= <-].
    + rewrite lookup_insert_ne by done. apply Hst.
Qed.
Lemma ok_proposal c v i p info : challenges_ok c → is_Some (challenges c !! i) → voting_inv v →
  proposals_info (simple_voting c) !! p = None →
  proposals_info v = <[p := info]> (proposals_info (simple_voting c)) →
  challenges_ok (set_challenge_proposals ({[(i, p)]} ∪ challenge_proposals c) (set_simple_voting v c)).
Proof.
  intros [Hv Hids Hown Hone Hch Hst] Hi Hv' Hnew Hw.
  assert (∀ j, (j, p) ∉ challenge_proposals c) as Hfresh.
  { intros j Hj. assert (is_Some (proposals_info (simple_voting c) !! p)) as [? Hs] by (apply Hown; by eexists).
    congruence. }
  split; simpl; try done.
  - intros q. rewrite Hw. destruct (decide (q = p)) as [->|Hne].
    + rewrite lookup_insert_eq. split; [intros _; exists i; set_solver|by eexists].
    + rewrite lookup_insert_ne by done. rewrite Hown. set_solver.
  - intros j k q. rewrite !elem_of_union, !elem_of_singleton.
    intros [[= -> ->]|Hj] [[= ->]|Hk]; [done|by destruct (Hfresh k)|by subst; destruct (Hfresh j)|by eapply Hone].
  - intros j q. rewrite elem_of_union, elem_of_singleton. intros [[= -> ->]|Hj]; [done|by eapply Hch].
Qed.
Lemma initially_ok cfg v : Voting.instantiate cfg empty_voting = Ok (tt, v) →
  challenges_ok (set_simple_voting v (set_next_id (Some 0) no_challenges)).
Proof.
  intros Hi. pose proof (instantiate_inv _ _ Hi) as Hinv.
  assert (proposals_info v = ∅) as Hnone by (unfold Voting.instantiate in Hi; inv_ok; done).
  split; simpl; try done.
  - exists 0. split_and!; [done..| |]; intros i; rewrite lookup_empty; (split; [by intros []|lia]).
  - intros p. rewrite Hnone, lookup_empty. split; [by intros []|]. intros (i & Hi'). set_solver.
Qed.
(** The last proposal is one of the challenge. *)
Lemma greatest_Some l p : greatest l = Some p → p ∈ l ∧ ∀ q, q ∈ l → q ≤ p.
Proof.
  revert p. induction l as [|x l IH]; intros p Hg; [done|]. simpl in Hg. injection Hg as <-.
  change (foldr _ None l) with (greatest l). destruct (greatest l) as [q|] eqn:Hq; simpl in *.
  - destruct (IH q eq_refl) as [Hin Hmax]. split.
    + destruct (Z.max_spec x q) as [[_ ->]|[_ ->]]; [by right|by left].
    + intros y [->|Hy%Hmax]%elem_of_cons; lia.
  - destruct l as [|y l]; [|done]. split; [by left|]. intros y [->|?%elem_of_nil]%elem_of_cons; [lia|done].
Qed.
Lemma last_proposal_Some i c p : last_proposal i c = Some p →
  (i, p) ∈ challenge_proposals c ∧ ∀ q, (i, q) ∈ challenge_proposals c → q ≤ p.
Proof.
  unfold last_proposal, proposals_of. intros [Hin Hmax]%greatest_Some. split.
  - apply list_elem_of_fmap in Hin as ([j q] & -> & Hj). apply list_elem_of_filter in Hj as [Hij Hj].
    simpl in *. subst. by apply elem_of_elements.
  - intros q Hq. apply Hmax. apply list_elem_of_fmap. exists (i, q). split; [done|].
    apply list_elem_of_filter. split; [done|]. by apply elem_of_elements.
Qed.
Lemma last_proposal_iff i c p : last_proposal i c = Some p ↔
  (i, p) ∈ challenge_proposals c ∧ ∀ q, (i, q) ∈ challenge_proposals c → q ≤ p.
Proof.
  split; [apply last_proposal_Some|]. intros [Hin Hmax].
  destruct (last_proposal i c) as [q|] eqn:Hq.
  - apply last_proposal_Some in Hq as [Hq Hge]. apply Hge in Hin. apply Hmax in Hq. f_equal. lia.
  - exfalso. assert (p ∈ proposals_of i c) as Hp.
    { apply list_elem_of_fmap. exists (i, p). split; [done|]. apply list_elem_of_filter.
      split; [done|]. by apply elem_of_elements. }
    unfold last_proposal in Hq. destruct (proposals_of i c); [by apply elem_of_nil in Hp|done].
Qed.
End storage.

(** ** The calls *)

Section calls.
Context `{CwAssetMsgs, !AnsHosts, Semver, Api, Instantiate2, !Querier, !Registries, DecimalOps, !ChallengeJson, !ComparatorParse}.
Implicit Types (s : State ChallengeStorage) (c : ChallengeStorage).

Lemma on_voting_Ok {A} (m : M SimpleVoting VoteError A) s a s' : on_voting m s = Ok (a, s') ↔
  ∃ v, m (simple_voting (custom s)) = Ok (a, v) ∧ s' = set_custom (set_simple_voting v (custom s)) s.
Proof. unfold on_voting. by rewrite within_Ok, zoom_Ok. Qed.
Lemma assert_challenge_admin_Ok env i s x s' : assert_challenge_admin env i s = Ok (x, s') →
  s' = s ∧ ∃ a, admin s = Some (Some a) ∧ is_admin_custom env (sender i) a = true.
Proof. unfold assert_challenge_admin. intros Hrun. inv_ok. by apply assert_app_admin_Ok in Hrun. Qed.
Lemma check_friends_Ok l s x s' : check_friends l s = Ok (x, s') → s' = s.
Proof. unfold check_friends. intros Hrun. by inv_ok. Qed.
Lemma friends_addrs_Ok l s x s' : friends_addrs l s = Ok (x, s') →
  s' = s ∧ omapM (friend_addr (abstract_registry s)) l = Ok x.
Proof. unfold friends_addrs. intros Hrun. by inv_ok. Qed.
Lemma load_challenge_Ok i s x s' : load_challenge i s = Ok (x, s') → s' = s ∧ challenges (custom s) !! i = Some x.
Proof. unfold load_challenge. intros Hrun. by inv_ok. Qed.
Lemma load_friends_Ok i s x s' : load_friends i s = Ok (x, s') → s' = s ∧ challenge_friends (custom s) !! i = Some x.
Proof. unfold load_friends. intros Hrun. by inv_ok. Qed.
End calls.

(** Inverts checks, loads and saves. *)
Ltac inv_ch_step :=
  match goal with
  | Hl : on_voting _ _ = Ok _ |- _ => apply on_voting_Ok in Hl as (? & ? & ->)
  | Hl : assert_challenge_admin _ _ _ = Ok _ |- _ => apply assert_challenge_admin_Ok in Hl as [-> ?]
  | Hl : check_friends _ _ = Ok _ |- _ => apply check_friends_Ok in Hl as ->
  | Hl : friends_addrs _ _ = Ok _ |- _ => apply friends_addrs_Ok in Hl as [-> ?]
  | Hl : load_challenge _ _ = Ok _ |- _ => apply load_challenge_Ok in Hl as [-> ?]
  | Hl : load_friends _ _ = Ok _ |- _ => apply load_friends_Ok in Hl as [-> ?]
  | Hl : last_proposal_of _ _ = Ok _ |- _ => unfold last_proposal_of in Hl
  | Hl : update_custom _ _ = Ok _ |- _ => unfold update_custom in Hl
  | Hl : save_challenge _ _ _ = Ok _ |- _ => unfold save_challenge, update_custom in Hl
  | Hl : save_friends _ _ _ = Ok _ |- _ => unfold save_friends, update_custom in Hl
  | Hl : bool_decide _ = true |- _ => apply bool_decide_eq_true in Hl
  | Hl : (let '(_, _) := ?x in _) _ = Ok _ |- _ => destruct x
  end.
Ltac inv_ch := repeat (inv_ok_step || inv_ch_step; simpl in * ).

Section steps.
Context `{CwAssetMsgs, !AnsHosts, Semver, Api, Instantiate2, !Querier, !Registries, DecimalOps, !ChallengeJson, !ComparatorParse}.
Implicit Types (s : State ChallengeStorage) (c : ChallengeStorage).

(** A call that keeps the invariant, sends nothing, and makes no proposal
    pass. *)
Definition quiet c c' : Prop :=
  challenges_ok c → challenges_ok c' ∧ passed (simple_voting c') = passed (simple_voting c).
Lemma quiet_trans c1 c2 c3 : quiet c1 c2 → quiet c2 c3 → quiet c1 c3.
Proof. intros H12 H23 [Hok Hp]%H12. destruct (H23 Hok) as [Hok3 Hp3]. split; [done|]. by rewrite Hp3. Qed.
Lemma quiet_rewritten c v id st : rewritten (simple_voting c) v id st → (voting_inv (simple_voting c) → voting_inv v) →
  st ≠ Finished Passed → quiet c (set_simple_voting v c).
Proof.
  intros Hw Hinv Hst Hok. split.
  - apply ok_voting; [done|by apply Hinv, co_voting|by eapply rewritten_dom].
  - apply rewritten_passed in Hw as [_ Hp]. simpl. rewrite Hp. by rewrite decide_False.
Qed.
Lemma quiet_cancel c b id p v : cancel_proposal b id (simple_voting c) = Ok (p, v) → quiet c (set_simple_voting v c).
Proof. intros Hc. eapply quiet_rewritten; [by eapply cancel_effect| |done]. intros Hv. by eapply cancel_proposal_inv. Qed.
Lemma quiet_veto c b id p v : veto_proposal b id (simple_voting c) = Ok (p, v) → quiet c (set_simple_voting v c).
Proof. intros Hc. eapply quiet_rewritten; [by eapply veto_effect| |done]. intros Hv. by eapply veto_proposal_inv. Qed.
Lemma quiet_cast c b id a vt p v : cast_vote b id a vt (simple_voting c) = Ok (p, v) → quiet c (set_simple_voting v c).
Proof. intros Hc. eapply quiet_rewritten; [by eapply cast_vote_effect| |done]. intros Hv. by eapply cast_vote_inv. Qed.
Lemma quiet_load c b id p v : load_proposal b id (simple_voting c) = Ok (p, v) → set_simple_voting v c = c.
Proof. intros [-> _]%load_proposal_Ok. by destruct c. Qed.
Lemma quiet_challenge c i ch ch' : challenges c !! i = Some ch →
  admin_strikes ch' = admin_strikes ch → quiet c (set_challenges (<[i := ch']> (challenges c)) c).
Proof.
  intros Hi Hst Hok. split; [|done]. apply ok_challenge; [done|by eexists|]. rewrite Hst. by eapply co_strikes.
Qed.
Lemma quiet_friends c i l l' : challenge_friends c !! i = Some l →
  quiet c (set_challenge_friends (<[i := l']> (challenge_friends c)) c).
Proof. intros Hi Hok. split; [|done]. apply ok_friends; [done|by eexists]. Qed.

Lemma create_quiet env i req s r s' : create_challenge env i req s = Ok (r, s') →
  quiet (custom s) (custom s') ∧ messages r = [].
Proof.
  unfold create_challenge. intros Hrun. inv_ch. split; [|done]. intros Hok.
  match goal with Ha : add_u _ _ _ = Ok _ |- _ => apply add_u_Ok in Ha as [-> _] end.
  split; [|done]. apply ok_create; [done..|].
  match goal with Hn : challenge_new _ _ = Ok _ |- _ => unfold challenge_new in Hn; inv_ok; done end.
Qed.
Lemma update_quiet env i id u s r s' : update_challenge env i id u s = Ok (r, s') →
  quiet (custom s) (custom s') ∧ messages r = [].
Proof.
  unfold update_challenge. intros Hrun. inv_ch. split; [|done]. eapply quiet_challenge; [done|].
  by destruct (up_name u), (up_description u).
Qed.
Lemma cancel_quiet env i id s r s' : cancel_challenge env i id s = Ok (r, s') →
  quiet (custom s) (custom s') ∧ messages r = [].
Proof.
  unfold cancel_challenge. intros Hrun. inv_ch. split; [|done].
  destruct (last_proposal id (custom s)) as [p|]; inv_ch.
  - eapply quiet_trans; [by eapply quiet_cancel|].
    by eapply (quiet_challenge (set_simple_voting _ (custom s))).
  - by eapply quiet_challenge.
Qed.
Lemma friends_quiet env i id l k s r s' : update_friends_for_challenge env i id l k s = Ok (r, s') →
  quiet (custom s) (custom s') ∧ messages r = [].
Proof.
  unfold update_friends_for_challenge. intros Hrun. inv_ch.
  match goal with Hm : match last_proposal id (custom s) with _ => _ end s = Ok (_, ?s1) |- _ =>
    assert (custom s1 = custom s) as Hsame; [|clear Hm] end.
  { destruct (last_proposal id (custom s)) as [p|]; inv_ch; [|done]. by eapply quiet_load. }
  split; [|done]. rewrite <-Hsame.
  destruct k; unfold add_friends, remove_friends in *; inv_ch; by eapply quiet_friends.
Qed.
Lemma veto_quiet env i id s r s' : execute_veto env i id s = Ok (r, s') →
  quiet (custom s) (custom s') ∧ messages r = [].
Proof. unfold execute_veto. intros Hrun. inv_ch. split; [|done]. by eapply quiet_veto. Qed.

(** The proposal a vote is cast on: the last one, or a new one of the
    challenge. *)
Lemma get_or_create_quiet env id s p s' :
  get_or_create_active_proposal env id s = Ok (p, s') → quiet (custom s) (custom s').
Proof.
  unfold get_or_create_active_proposal. intros Hrun. inv_ch.
  match goal with Hm : match last_proposal id (custom s) with _ => _ end s = Ok (_, ?s1) |- _ =>
    assert (custom s1 = custom s) as Hsame; [|clear Hm] end.
  { destruct (last_proposal id (custom s)) as [q|]; inv_ch; [|done]. by eapply quiet_load. }
  rewrite <-Hsame in *. case_match; inv_ch; [done|]. intros Hok.
  match goal with Hn : new_proposal _ _ _ = Ok _ |- _ =>
    pose proof (new_proposal_inv _ _ _ _ _ (co_voting _ Hok) Hn) as Hinv;
    destruct (new_proposal_effect _ _ _ _ _ (co_voting _ Hok) Hn) as (Hnew & info & Hw & Hact) end.
  split; [by eapply ok_proposal|]. simpl. rewrite (passed_write _ _ _ _ Hw); [by rewrite Hact|].
  rewrite elem_of_passed, Hnew. naive_solver.
Qed.
Lemma cast_quiet env i v id s r s' : execute_cast_vote env i v id s = Ok (r, s') →
  quiet (custom s) (custom s') ∧ messages r = [].
Proof.
  unfold execute_cast_vote. intros Hrun. inv_ch. split; [|done].
  eapply quiet_trans; [by eapply get_or_create_quiet|by eapply quiet_cast].
Qed.
Lemma config_quiet cfg s r s' :
  (on_voting (update_vote_config cfg) ≫= λ _, mret (mkResponse (Msg:=ModuleMsg) "" [])) s = Ok (r, s') →
  quiet (custom s) (custom s') ∧ messages r = [].
Proof.
  intros Hrun. inv_ch. split; [|done].
  match goal with Hu : update_vote_config _ _ = Ok (_, ?v) |- _ => unfold update_vote_config in Hu; inv_ch end.
  intros Hok. split; [|done]. apply ok_voting; [done| |done].
  destruct (co_voting _ Hok) as [Hn Hv Hp]. split; [done|done|]. intros q p Hq. destruct (Hp q p Hq). by split.
Qed.
End steps.

(** ** Penalties *)

Section penalties.
Context `{CwAssetMsgs, !AnsHosts, Semver, Api, Instantiate2, !Querier, !Registries, DecimalOps, !ChallengeJson, !ComparatorParse}.
Implicit Types (s : State ChallengeStorage) (c : ChallengeStorage).

(** The penalty of a challenge: its account is told to transfer the same share
    of the strike asset to every friend. *)
Definition charged s (ch : ChallengeEntry) (friends : list Friend) (r : Response ModuleMsg) : Prop :=
  ∃ account host token msgs, friends ≠ [] ∧ base_state s = Some account ∧
    ans_host s = Ok host ∧ resolve_asset host (strike_asset ch) = Ok token ∧
    Forall2 (λ f m, ∃ a, friend_addr (abstract_registry s) f = Ok a ∧
      asset_transfer_msg token (penalty_shares (strike_strategy ch) (Z.of_nat (List.length friends))).1 a = Some m)
      friends msgs ∧
    messages r = [send (OnAccount account (Account.Execute msgs) [])].

Lemma transfer_one asset a l : transfer [asset] a = Ok l → ∃ m, l = [m] ∧
  asset_transfer_msg (as_info asset) (as_amount asset) a = Some m.
Proof. unfold transfer, transfer_msg. simpl. intros Ht. inv_ok. by eauto. Qed.
Lemma charge_penalty_Ok ch friends s r s' :
  charge_penalty ch friends s = Ok (r, s') → s' = s ∧ charged s ch friends r.
Proof.
  unfold charge_penalty, charged. intros Hrun. apply bind_Ok in Hrun as (u & s1 & He & Hrun).
  apply ensure_Ok in He as [Hb ->]. apply bool_decide_eq_true in Hb.
  assert (friends ≠ []) as Hne by (intros ->; simpl in Hb; lia).
  destruct (penalty_shares _ _) as [share rest]. inv_ch.
  match goal with Ho : omapM _ friends = Ok _ |- _ => apply omapM_Ok in Ho as Hall; clear Ho end.
  unfold executor_execute, execute_with_funds, execute_on_account, account in *. inv_ok. split; [done|].
  destruct friends as [|f0 fs]; [done|].
  assert (∃ host token, ans_host s = Ok host ∧ resolve_asset host (strike_asset ch) = Ok token) as (host & token & Hhost & Htok).
  { inversion Hall as [|? ? ? ? Hx]; subst. unfold transferable_ans, resolve_ans_asset in Hx. inv_ok. by eauto. }
  match goal with Hb : base_state s = Some ?a |- _ => exists a, host, token end.
  match type of Hall with Forall2 _ _ ?acts => exists (mjoin acts) end. split_and!; try done.
  clear Hb Hne. induction Hall as [|f act fs' acts Hx _ IH]; [by constructor|].
  apply obind_Ok in Hx as (a & Ha & Hx). apply obind_Ok in Hx as (asset & Hasset & Hx).
  apply transfer_one in Hx as (m & -> & Hm). simpl. constructor; [|done].
  exists a. split; [done|]. unfold transferable_ans, resolve_ans_asset in Hasset. rewrite Hhost in Hasset.
  inv_ok. unfold resolve_asset in Htok. match goal with Hq : query_asset _ _ = Ok ?t |- _ => assert (t = token) as -> by congruence end. done.
Qed.

(** The count of the votes on the last proposal of a challenge. *)
Lemma count_votes_Ok env i id s r s' : execute_count_votes env i id s = Ok (r, s') →
  ∃ ch p info o v friends, challenges (custom s) !! id = Some ch ∧ last_proposal id (custom s) = Some p ∧
    count_votes (block env) p (simple_voting (custom s)) = Ok ((info, o), v) ∧
    challenge_friends (custom s) !! id = Some friends ∧
    s' = set_custom (set_simple_voting v (custom s)) s ∧
    match o with Passed => charged s' ch friends r | _ => messages r = [] end.
Proof.
  unfold execute_count_votes. intros Hrun. inv_ch. unfold try_finish_challenge in *. inv_ch.
  match goal with Hc : count_votes _ _ _ = Ok ((_, ?o), _) |- _ => destruct o; inv_ch end.
  1: match goal with Hc : charge_penalty _ _ _ = Ok _ |- _ => apply charge_penalty_Ok in Hc as [-> Hch] end.
  all: eexists _, _, _, _, _, _; by split_and!.
Qed.
Lemma app_execute_Ok env i msg s x : App.execute CHALLENGE_APP env i msg s = Ok x →
  ∃ m, msg = Module_msg m ∧ execute_handler env i tt m s = Ok x.
Proof. apply local_app_execute_Ok; [by intros d ?%not_elem_of_nil|done..]. Qed.
(** A call is quiet, or counts a vote that passes and charges the penalty. *)
Lemma execute_cases env i msg s r s' : App.execute CHALLENGE_APP env i msg s = Ok (r, s') →
  challenges_ok (custom s) → challenges_ok (custom s') ∧
  ((passed (simple_voting (custom s')) = passed (simple_voting (custom s)) ∧ messages r = []) ∨
   ∃ p, (p ∉ passed (simple_voting (custom s))) ∧
     passed (simple_voting (custom s')) = {[p]} ∪ passed (simple_voting (custom s)) ∧ ∃ m, messages r = [m]).
Proof.
  intros (m & -> & Hrun)%app_execute_Ok Hok.
  assert (∀ P : Prop, quiet (custom s) (custom s') ∧ messages r = [] → challenges_ok (custom s') ∧
    ((passed (simple_voting (custom s')) = passed (simple_voting (custom s)) ∧ messages r = []) ∨ P)) as Hquiet.
  { intros P [Hq Hr]. destruct (Hq Hok). by eauto. }
  destruct m; simpl in Hrun.
  - by apply Hquiet, (config_quiet new_vote_config).
  - by eapply Hquiet, create_quiet.
  - by eapply Hquiet, update_quiet.
  - by eapply Hquiet, cancel_quiet.
  - by eapply Hquiet, friends_quiet.
  - by eapply Hquiet, cast_quiet.
  - apply count_votes_Ok in Hrun as (ch & p & info & o & v & friends & _ & _ & Hc & _ & -> & Hr).
    pose proof (count_votes_inv _ _ _ _ _ (co_voting _ Hok) Hc) as Hinv. apply count_effect in Hc.
    split; [apply ok_voting; [done..|by eapply rewritten_dom]|].
    apply rewritten_passed in Hc as [Hp Hp']. simpl. destruct o; [right|left; by rewrite Hp', decide_False by done..].
    exists p. rewrite Hp', decide_True by done. split_and!; [done..|].
    destruct Hr as (? & ? & ? & ? & _ & _ & _ & _ & _ & ->). by eexists.
  - by eapply Hquiet, veto_quiet.
Qed.
End penalties.

Section theorems.
Context `{CwAssetMsgs, !AnsHosts, Semver, Api, Instantiate2, DecimalOps, !ChallengeJson, !ComparatorParse}.
Implicit Types (s : State ChallengeStorage) (c : ChallengeStorage).
Abbreviation held s := (proposals_info (simple_voting (custom s))).

(** The states of a challenge app, and calls that succeed with their answers. *)
Inductive challenge_reachable : State ChallengeStorage → Prop :=
  | challenge_init (Q : Querier) (R : Registries) env i a x r s :
      App.instantiate CHALLENGE_APP env i a x (mkState None None None None no_challenges) = Ok (r, s) →
      challenge_reachable s
  | challenge_call (Q : Querier) (R : Registries) env i m s r s' : challenge_reachable s →
      App.execute CHALLENGE_APP env i m s = Ok (r, s') → challenge_reachable s'
  | challenge_migrate (Q : Querier) (R : Registries) env x s r s' : challenge_reachable s →
      App.migrate CHALLENGE_APP env x s = Ok (r, s') → challenge_reachable s'.
Inductive challenge_run : State ChallengeStorage → list (Response ModuleMsg) → State ChallengeStorage → Prop :=
  | challenge_run_nil s : challenge_run s [] s
  | challenge_run_cons (Q : Querier) (R : Registries) env i m s r s' l s'' :
      App.execute CHALLENGE_APP env i m s = Ok (r, s') → challenge_run s' l s'' → challenge_run s (r :: l) s''.

Lemma challenge_reachable_ok s : challenge_reachable s → challenges_ok (custom s).
Proof.
  induction 1 as [Q R env i a x r s Hrun|Q R env i m s r s' _ IH Hrun|Q R env x s r s' _ IH Hrun].
  - unfold App.instantiate, save_module_data, save_contract_version in Hrun. inv_ok.
    unfold instantiate_handler in *. inv_ch.
    match goal with Hi : Voting.instantiate _ _ = Ok (?u, _) |- _ => destruct u; by eapply initially_ok end.
  - by eapply execute_cases.
  - unfold App.migrate, save_module_data, save_contract_version in Hrun. by inv_ok.
Qed.

(** In every reachable state of the app the proposals of the voting object
    are shared out among the challenges: each belongs to exactly one, which
    exists; the one that votes, vetoes and counts act on is the greatest of its
    challenge; challenges and lists of friends are kept for exactly the ids that
    were given out; and the voting object keeps its invariant.  No challenge
    ever has a strike, whatever votes passed. *)
Theorem challenge_proposals_owned s (Hs : challenge_reachable s) :
  voting_inv (simple_voting (custom s)) ∧
  (∀ p, is_Some (held s !! p) → ∃ i, (i, p) ∈ challenge_proposals (custom s) ∧
     is_Some (challenges (custom s) !! i) ∧ ∀ j, (j, p) ∈ challenge_proposals (custom s) → j = i) ∧
  (∀ i p, last_proposal i (custom s) = Some p ↔
     (i, p) ∈ challenge_proposals (custom s) ∧ ∀ q, (i, q) ∈ challenge_proposals (custom s) → q ≤ p) ∧
  (∀ i p, last_proposal i (custom s) = Some p → is_Some (held s !! p)) ∧
  (∃ n, next_id (custom s) = Some n ∧ (∀ i, is_Some (challenges (custom s) !! i) ↔ 1 ≤ i ≤ n) ∧
     (∀ i, is_Some (challenge_friends (custom s) !! i) ↔ 1 ≤ i ≤ n)) ∧
  (∀ i ch, challenges (custom s) !! i = Some ch → num_strikes (admin_strikes ch) = 0).
Proof.
  destruct (challenge_reachable_ok s Hs) as [Hv (n & Hn & _ & Hc & Hf) Hown Hone Hch Hst].
  split_and!; [done| | | |by exists n|done].
  - intros p (i & Hi)%Hown. exists i. split_and!; [done|by eapply Hch|]. intros j Hj. by eapply Hone.
  - intros i p. apply last_proposal_iff.
  - intros i p [Hi _]%last_proposal_Some. apply Hown. by eexists.
Qed.

(** C23. The account is charged exactly once for every proposal that passes:
    over any calls, the messages the app sends are as many as the proposals
    that came to pass, and one that passed stays so. *)
Theorem challenge_charged_once s s' l (Hs : challenge_reachable s) (Hrun : challenge_run s l s') :
  passed (simple_voting (custom s)) ⊆ passed (simple_voting (custom s')) ∧
  size (passed (simple_voting (custom s'))) =
    (size (passed (simple_voting (custom s))) + sum_list ((λ r, List.length (messages r)) <$> l))%nat.
Proof.
  apply challenge_reachable_ok in Hs. induction Hrun as [s|Q R env i m s r s' l s'' Hc _ IH];
    [split; [done|by rewrite Nat.add_0_r]|].
  apply execute_cases in Hc as [Hok Hcase]; [|done]. destruct (IH Hok) as [Hsub Hsize]. rewrite fmap_cons.
  change (sum_list (?x :: ?k)) with (x + sum_list k)%nat.
  destruct Hcase as [[Hp ->]|(p & Hnew & Hp & m' & ->)]; rewrite Hp in Hsub, Hsize; [done|].
  split; [set_solver|]. rewrite Hsize, size_union by set_solver. rewrite size_singleton. simpl List.length. lia.
Qed.

(** C24. What a count of votes does: it settles the last proposal of the
    challenge as the voting object says; if the verdict is a pass it sends one
    message, that makes the account transfer the same share of the strike asset
    to every friend of the challenge, at the address the registry gives; a split
    amount is shared out up to a remainder smaller than the number of friends;
    any other verdict sends nothing. *)
Theorem challenge_penalty_exact (Q : Querier) (R : Registries) env i id s r s'
    (Hc : App.execute CHALLENGE_APP env i (Module_msg (CountVotes id)) s = Ok (r, s')) :
  ∃ ch p info o v friends, challenges (custom s) !! id = Some ch ∧ last_proposal id (custom s) = Some p ∧
    count_votes (block env) p (simple_voting (custom s)) = Ok ((info, o), v) ∧
    challenge_friends (custom s) !! id = Some friends ∧
    s' = set_custom (set_simple_voting v (custom s)) s ∧
    (o ≠ Passed → messages r = []) ∧
    (o = Passed → ∃ account token share rest transfers,
       let n := Z.of_nat (List.length friends) in
       messages r = [send (OnAccount account (Account.Execute transfers) [])] ∧
       base_state s = Some account ∧
       (∃ host, ans_host s = Ok host ∧ resolve_asset host (strike_asset ch) = Ok token) ∧
       Forall2 (λ f m, ∃ a, friend_addr (abstract_registry s) f = Ok a ∧
         asset_transfer_msg token share a = Some m) friends transfers ∧
       match strike_strategy ch with
       | Split amount => share * n + rest = amount ∧ 0 ≤ rest < n
       | PerFriend amount => share = amount
       end).
Proof.
  apply app_execute_Ok in Hc as (m & [= <-] & Hrun). simpl in Hrun.
  apply count_votes_Ok in Hrun as (ch & p & info & o & v & friends & Hch & Hp & Hv & Hf & -> & Hr).
  exists ch, p, info, o, v, friends. split_and!; [done..|by destruct o|]. intros ->.
  destruct Hr as (account & host & token & msgs & Hne & Hb & Hh & Ht & Hall & Hm).
  exists account, token, (penalty_shares (strike_strategy ch) (Z.of_nat (List.length friends))).1,
    (penalty_shares (strike_strategy ch) (Z.of_nat (List.length friends))).2, msgs.
  split_and!; [done|done|by exists host|done|].
  assert (0 < Z.of_nat (List.length friends)) as Hpos by (destruct friends; [done|simpl; lia]).
  destruct (strike_strategy ch) as [amount|amount]; [|done]. cbn -[Z.div Z.modulo].
  pose proof (Z.div_mod amount (Z.of_nat (List.length friends))) as Hd.
  pose proof (Z.mod_pos_bound amount (Z.of_nat (List.length friends)) Hpos). lia.
Qed.
End theorems.
