(* ===== verification/CalendarProofs.v ===== *)
(** * Correctness of the calendar app

    The stakes of the meetings add up to what the app owes; every stake is paid
    out once, in full; and which meetings of a day can overlap. *)

From S2P Require Import Prelude Cosmos Strings Objects Names AccountIds Fees ModuleFactory Ownership AnsObjects Ans AnsClient Registry Clients Account Ibc Sdk SdkApis App AppProofs Calendar.
From Stdlib Require Import Ascii String.
#[local] Open Scope string_scope.
#[local] Open Scope list_scope.
#[local] Open Scope Z_scope.

(** ** What is staked, and what is sent *)

Definition day_staked (l : list Meeting) : Z := zsum (amount_staked <$> l).
(** All the stakes of a calendar. *)
Definition staked (c : CalendarStorage) : Z := map_sum day_staked (calendar c).
(** The amount of a denomination among coins, and in a message. *)
Definition coins_of (d : string) (l : list Coin) : Z :=
  zsum (amount <$> filter (λ c, denom c = d) l).

Lemma coins_of_one d n : coins_of d [mkCoin d n] = n.
Proof. unfold coins_of. rewrite filter_cons_True, filter_nil by done. unfold zsum. simpl. lia. Qed.

Section sums.
Context `{CwAssetKinds}.
Definition sent_coins (m : SubMsg ModuleMsg) : list Coin :=
  match msg_of m with FromModule m => funds_of m | OnAccount _ _ cs => cs end.
Definition sent (d : string) (r : Response ModuleMsg) : Z :=
  zsum (coins_of d ∘ sent_coins <$> messages r).
End sums.

Lemma day_staked_app l k : day_staked (l ++ k) = day_staked l + day_staked k.
Proof. unfold day_staked. by rewrite fmap_app, zsum_app. Qed.
Lemma day_staked_handled l i m : l !! i = Some m →
  day_staked (<[i := unstaked m]> l) = day_staked l - amount_staked m.
Proof.
  intros Hm. unfold day_staked. rewrite list_fmap_insert, (zsum_insert _ _ (amount_staked m)); [simpl; lia|].
  by rewrite list_lookup_fmap, Hm.
Qed.
Lemma staked_new c d o m : calendar c !! d = o →
  staked (set_calendar (<[d := default [] o ++ [m]]> (calendar c)) c) = staked c + amount_staked m.
Proof.
  intros Hl. unfold staked. simpl. rewrite map_sum_insert, Hl, day_staked_app.
  assert (day_staked (default [] o) = from_option day_staked 0 o) as -> by by destruct o.
  unfold day_staked at 4. simpl. lia.
Qed.
Lemma staked_handled c d l i m : calendar c !! d = Some l → l !! i = Some m →
  staked (set_calendar (<[d := <[i := unstaked m]> l]> (calendar c)) c) = staked c - amount_staked m.
Proof.
  intros Hl Hm. unfold staked. simpl. rewrite map_sum_insert, Hl, day_staked_handled with (m := m) by done.
  simpl. lia.
Qed.

(** ** The calls *)

Section calls.
Context `{CwAssetKinds, !CwAssetMsgsLaws, !AnsHosts, Semver, Api, Instantiate2, !Querier, ChronoLaws, MustPayLaws, UintRatioLaws, !CalendarJson}.
Implicit Types (s : State CalendarStorage) (c : Config).

Lemma calendar_admin_Ok env i s x s' : assert_calendar_admin env i s = Ok (x, s') →
  s' = s ∧ ∃ a, admin s = Some (Some a) ∧ is_admin_custom env (sender i) a = true.
Proof. unfold assert_calendar_admin. intros Hrun. inv_ok. by apply assert_app_admin_Ok in Hrun. Qed.
Lemma calendar_config_Ok s x s' : load_config s = Ok (x, s') → s' = s ∧ config (custom s) = Some x.
Proof. unfold load_config. intros Hrun. by inv_ok. Qed.
Lemma date_time_Ok o t s x s' : get_date_time o t s = Ok (x, s') → s' = s ∧ timestamp_opt o t = Some x.
Proof. unfold get_date_time. intros Hrun. by inv_ok. Qed.
Lemma native_denom_Ok a s x s' : resolve_native_ans_denom a s = Ok (x, s') → s' = s.
Proof. unfold resolve_native_ans_denom. intros Hrun. by inv_ok. Qed.
(** A deposit of one coin is a bank transfer to the account. *)
Lemma bank_deposit_Ok d n s l s' : bank_deposit [mkCoin d n] s = Ok (l, s') →
  s' = s ∧ ∃ a, base_state s = Some a ∧ l = [bank_send a (mkCoin d n)].
Proof.
  unfold bank_deposit, deposit, account, transfer_msg, asset_of_coin. intros Hrun. inv_ok. simpl in *. inv_ok.
  rewrite native_transfer in *. simplify_eq. split; [done|]. by eexists.
Qed.
End calls.

(** Inverts checks, loads and saves. *)
Ltac inv_cal_step :=
  match goal with
  | Hl : assert_calendar_admin _ _ _ = Ok _ |- _ => apply calendar_admin_Ok in Hl as [-> ?]
  | Hl : load_config _ = Ok _ |- _ => apply calendar_config_Ok in Hl as [-> ?]
  | Hl : get_date_time _ _ _ = Ok _ |- _ => apply date_time_Ok in Hl as [-> ?]
  | Hl : resolve_native_ans_denom _ _ = Ok _ |- _ => apply native_denom_Ok in Hl as ->
  | Hl : bank_deposit _ _ = Ok _ |- _ => apply bank_deposit_Ok in Hl as (-> & ? & ? & ->)
  | Hl : update_custom _ _ = Ok _ |- _ => unfold update_custom in Hl
  | Hl : bool_decide _ = true |- _ => apply bool_decide_eq_true in Hl
  | Hl : sub_u _ _ = Ok _ |- _ => apply sub_u_Ok in Hl as [-> ?]
  | Hl : mul_u _ _ _ = Ok _ |- _ => apply mul_u_Ok in Hl as [-> ?]
  | Hl : must_pay _ _ = Ok _ |- _ => apply must_pay_Ok in Hl as [? ?]
  end.
Ltac inv_cal := repeat (inv_ok_step || inv_cal_step; simpl in * ).

(** ** Meetings of a day *)

(** The seconds after midnight of a time of the calendar. *)
Definition second_of (t : Time) : Z := hour t * 3600 + minute t * 60.
(** A meeting that was booked under a configuration, on the day that starts (on
    the local clock) at a timestamp: it is within the day and the hours of the
    calendar, and starts and ends at whole minutes. *)
Record booked (c : Config) (day : Z) (m : Meeting) : Prop := mkBooked {
  bk_day : day mod DAY = 0;
  bk_order : start_time m < end_time m;
  bk_minutes : (start_time m + utc_offset c - day) mod 60 = 0 ∧ (end_time m + utc_offset c - day) mod 60 = 0;
  bk_start : second_of (cal_start c) ≤ start_time m + utc_offset c - day;
  bk_end : end_time m + utc_offset c - day ≤ second_of (cal_end c);
  bk_within : 0 ≤ start_time m + utc_offset c - day ∧ end_time m + utc_offset c - day < DAY
}.
(** How a later meeting of a day relates to an earlier one. *)
Definition apart (m m' : Meeting) : Prop := end_time m ≤ start_time m' ∨ end_time m' ≤ start_time m.
Definition encloses (m' m : Meeting) : Prop := start_time m' < start_time m ∧ end_time m < end_time m'.
Definition compatible (l : list Meeting) : Prop :=
  ∀ i j m m', (i < j)%nat → l !! i = Some m → l !! j = Some m' → apart m m' ∨ encloses m' m.
Record day_ok (c : Config) (day : Z) (l : list Meeting) : Prop := mkDayOk {
  do_booked : Forall (booked c day) l;
  do_staked : Forall (λ m, 0 ≤ amount_staked m) l;
  do_compatible : compatible l
}.
Definition calendar_ok (s : CalendarStorage) : Prop :=
  ∃ c, config s = Some c ∧ map_Forall (day_ok c) (calendar s).

Lemma naive_of_time_Ok {E} t x : naive_of_time (E:=E) t = Ok x → x = second_of t.
Proof. unfold naive_of_time. case_decide; [by intros [= <-]|done]. Qed.
Lemma not_conflicts m m' : start_time m < end_time m → start_time m' < end_time m' →
  conflicts (start_time m') (end_time m') m = false → apart m m' ∨ encloses m' m.
Proof.
  unfold conflicts, apart, encloses. intros Hm Hm' [H1 H2]%orb_false_iff.
  apply bool_decide_eq_false in H1, H2. lia.
Qed.
Lemma day_ok_new c day l m : day_ok c day l → booked c day m → 0 ≤ amount_staked m →
  existsb (conflicts (start_time m) (end_time m)) l = false → day_ok c day (l ++ [m]).
Proof.
  intros [Hb Hs Hc] Hm Hst Hno. split; [by apply Forall_app_2; [|constructor]..|].
  intros i j m1 m2 Hij Hi [Hj|[Hlen Hj]]%lookup_app_Some.
  - apply lookup_app_Some in Hi as [Hi|[Hlen _]]; [by eapply Hc|]. apply lookup_lt_Some in Hj. lia.
  - apply list_lookup_singleton_Some in Hj as [Hj <-].
    apply lookup_app_Some in Hi as [Hi|[Hlen' _]]; [|lia].
    apply not_conflicts; [by eapply (Forall_lookup_1 _ _ _ _ Hb Hi)|by apply bk_order in Hm|].
    apply list_elem_of_lookup_2, list_elem_of_In in Hi.
    destruct (conflicts _ _ m1) eqn:Hcf; [|done]. rewrite <-Hno. symmetry. apply existsb_exists. by eexists.
Qed.
Lemma day_ok_handled c day l i m : day_ok c day l → l !! i = Some m → day_ok c day (<[i := unstaked m]> l).
Proof.
  intros [Hb Hs Hc] Hi. split.
  - apply Forall_insert; [done|]. destruct (Forall_lookup_1 _ _ _ _ Hb Hi). by split.
  - by apply Forall_insert.
  - intros j k m1 m2 Hjk Hj Hk.
    assert (∀ n x, <[i := unstaked m]> l !! n = Some x → ∃ y, l !! n = Some y ∧
      start_time y = start_time x ∧ end_time y = end_time x) as Hold.
    { intros n x. destruct (decide (n = i)) as [->|Hne].
      - rewrite list_lookup_insert_eq by (by eapply lookup_lt_Some). intros [= <-]. by exists m.
      - rewrite list_lookup_insert_ne by done. by exists x. }
    apply Hold in Hj as (y1 & Hy1 & Hs1 & He1). apply Hold in Hk as (y2 & Hy2 & Hs2 & He2).
    unfold apart, encloses. rewrite <-Hs1, <-He1, <-Hs2, <-He2. by eapply Hc.
Qed.
Lemma calendar_ok_day s c day l : calendar_ok s → config s = Some c → day_ok c day l →
  calendar_ok (set_calendar (<[day := l]> (calendar s)) s).
Proof.
  intros (c' & Hc' & Hall) Hc Hl. exists c. split; [done|]. apply map_Forall_insert_2; [done|]. by simplify_eq.
Qed.

Section steps.
Context `{CwAssetKinds, !CwAssetMsgsLaws, !AnsHosts, Semver, Api, Instantiate2, !Querier, ChronoLaws, MustPayLaws, UintRatioLaws, !CalendarJson}.
Implicit Types (s : State CalendarStorage) (c : Config).

(** A request: the meeting is booked, what was paid is its stake. *)
Lemma meeting_new_Ok c b o d1 d2 t1 t2 a n m : meeting_new c b d1 d2 a n = Ok m →
  east_opt (utc_offset c) = Some o → timestamp_opt o t1 = Some d1 → timestamp_opt o t2 = Some d2 →
  booked c (date_naive d1 * DAY) m ∧ start_time m = t1 ∧ end_time m = t2 ∧ requester m = a ∧
  amount_staked m = n ∧ seconds (time b) ≤ t1 ∧ naive_time d2 - naive_time d1 = t2 - t1.
Proof.
  unfold meeting_new. intros Hm Ho Hd1 Hd2. inv_ok.
  repeat match goal with Hn : naive_of_time _ = Ok _ |- _ => apply naive_of_time_Ok in Hn as -> end.
  repeat match goal with Hb : bool_decide _ = true |- _ => apply bool_decide_eq_true in Hb end.
  rewrite (timestamp_of _ _ _ Hd1), (timestamp_of _ _ _ Hd2) in *.
  rewrite (local_date _ _ _ _ Ho Hd1), (local_date _ _ _ _ Ho Hd2), (local_time _ _ _ _ Ho Hd1), (local_time _ _ _ _ Ho Hd2) in *.
  unfold DAY, second_of in *. split_and!; try done; [|div_lia].
  split; unfold DAY, second_of; simpl; div_lia.
Qed.
Lemma request_Ok i env t1 t2 s r s' : request_meeting i env t1 t2 s = Ok (r, s') →
  calendar_ok (custom s) → ∃ c day m, config (custom s) = Some c ∧
    let l := default [] (calendar (custom s) !! day) in
    day_ok c day (l ++ [m]) ∧ s' = set_custom (set_calendar (<[day := l ++ [m]]> (calendar (custom s))) (custom s)) s ∧
    start_time m = t1 ∧ end_time m = t2 ∧ requester m = sender i ∧ seconds (time (block env)) ≤ t1 ∧
    funds i = [mkCoin (cal_denom c) (amount_staked m)] ∧ 0 < amount_staked m ∧
    amount_staked m = (t2 - t1) / 60 * price_per_minute c ∧ messages r = [].
Proof.
  unfold request_meeting. intros Hrun (c' & Hc' & Hall). inv_cal.
  match goal with Hm : meeting_new ?c _ ?d _ _ _ = Ok ?m |- _ => rename m into m0; exists c, (date_naive d * DAY), m0;
    eapply meeting_new_Ok in Hm as (Hb & Hs & He & Hr & Ha & Hnow & Hdur); [|done..] end.
  match goal with Hn : negb _ = true |- _ => apply negb_true_iff in Hn end.
  simplify_eq. rewrite Hdur in *. split_and!; try done; [|congruence..].
  apply day_ok_new; [|done|lia|done].
  destruct (calendar (custom s) !! _) as [l|] eqn:Hl; [by apply (Hall _ _ Hl)|].
  split; [constructor..|]. by intros [] k m1 m2 _ Hj.
Qed.

(** What handling a stake sends. *)
Definition settles c (base : option Addr) (m : Meeting) (a : StakeAction) (msgs : list (SubMsg ModuleMsg)) : Prop :=
  match a with
  | Return => msgs = [bank_send (requester m) (mkCoin (cal_denom c) (amount_staked m))]
  | FullSlash => ∃ account, base = Some account ∧ msgs = [bank_send account (mkCoin (cal_denom c) (amount_staked m))]
  | PartialSlash late => ∃ account slash, base = Some account ∧
      late ≤ (end_time m - start_time m) / 60 ∧ slash ≤ amount_staked m ∧
      (0 ≤ late → slash = amount_staked m * late / ((end_time m - start_time m) / 60)) ∧
      msgs = [bank_send (requester m) (mkCoin (cal_denom c) (amount_staked m - slash));
              bank_send account (mkCoin (cal_denom c) slash)]
  end.
Lemma stake_messages_Ok c c' day m a s r s' : stake_messages c m a s = Ok (r, s') →
  booked c' day m → 0 ≤ amount_staked m → s' = s ∧ settles c (base_state s) m a (messages r).
Proof.
  intros Hrun Hm Hs. unfold stake_messages in Hrun. destruct a as [| |late]; simpl in *; inv_cal.
  - done.
  - split; [done|]. by eexists.
  - assert (0 < (end_time m - start_time m) / 60 < 2 ^ 32) as Hdur.
    { destruct Hm as [_ Ho [Hm1 Hm2] _ _ [Hw1 Hw2]]. unfold DAY in *. split; [div_lia|].
      apply Z.le_lt_trans with 1440; [div_lia|done]. }
    assert (wrap_u 32 ((end_time m - start_time m) / 60) = (end_time m - start_time m) / 60) as Hw
      by (unfold wrap_u; rewrite Z.mod_small by lia; done). rewrite Hw in *. split; [done|].
    match goal with Hb : base_state s = Some ?b, Hr : uint_multiply_ratio _ _ _ _ = Some ?n |- _ => exists b, n end.
    split_and!; try done. intros Hlate.
    rewrite multiply_ratio_spec in * by lia. case_decide; [|done]. by simplify_eq.
Qed.
Lemma handle_Ok i env day k a s r s' : handle_stake i env day k a s = Ok (r, s') →
  calendar_ok (custom s) → ∃ c l m, config (custom s) = Some c ∧ calendar (custom s) !! day = Some l ∧
    l !! Z.to_nat k = Some m ∧ end_time m < seconds (time (block env)) ∧ 0 < amount_staked m ∧
    settles c (base_state s) m a (messages r) ∧ day_ok c day (<[Z.to_nat k := unstaked m]> l) ∧
    s' = set_custom (set_calendar (<[day := <[Z.to_nat k := unstaked m]> l]> (calendar (custom s))) (custom s)) s ∧
    ∃ owner, admin s = Some (Some owner) ∧ is_admin_custom env (sender i) owner = true.
Proof.
  unfold handle_stake. intros Hrun (c' & Hc' & Hall). inv_cal.
  match goal with Hl : calendar _ !! day = Some ?l, Hm : ?l !! _ = Some ?m, Hc : config _ = Some ?c |- _ =>
    exists c, l, m; assert (c' = c) as -> by congruence; pose proof (Hall _ _ Hl) as [Hb Hs Hcomp];
    pose proof (Forall_lookup_1 _ _ _ _ Hb Hm) as Hbm; pose proof (Forall_lookup_1 _ _ _ _ Hs Hm) as Hsm end.
  match goal with Hm : stake_messages _ _ _ _ = Ok _ |- _ => eapply stake_messages_Ok in Hm as [-> Hset]; [|done..] end.
  simpl in *. split_and!; try done; [lia|by apply day_ok_handled].
Qed.
End steps.

Section runs.
Context `{CwAssetKinds, !CwAssetMsgsLaws, !AnsHosts, Semver, Api, Instantiate2, ChronoLaws, MustPayLaws, UintRatioLaws, !CalendarJson, !ComparatorParse}.
Implicit Types (s : State CalendarStorage) (c : Config).

Lemma calendar_execute_Ok `{!Querier, !Registries} env i msg s x : App.execute CALENDAR_APP env i msg s = Ok x →
  ∃ m, msg = Module_msg m ∧ execute_handler env i tt m s = Ok x.
Proof. apply local_app_execute_Ok; [by intros d ?%not_elem_of_nil|done..]. Qed.
Lemma calendar_update_Ok `{!Querier} env i p d s r s' : update_config env i p d s = Ok (r, s') → messages r = [] ∧
  ∃ c c', config (custom s) = Some c ∧ s' = set_custom (set_config (Some c') (custom s)) s ∧
    utc_offset c' = utc_offset c ∧ cal_start c' = cal_start c ∧ cal_end c' = cal_end c ∧
    (d = None → cal_denom c' = cal_denom c).
Proof.
  unfold update_config. intros Hrun. inv_cal. split; [done|].
  match goal with Hc : config _ = Some ?c, Hm : match d with _ => _ end _ = Ok (?c', _) |- _ =>
    exists c, c'; destruct d; inv_cal; by destruct p end.
Qed.

(** The states of a calendar app. *)
Inductive calendar_reachable : State CalendarStorage → Prop :=
  | calendar_init (Q : Querier) env i a x r s :
      App.instantiate CALENDAR_APP env i a x (mkState None None None None empty_calendar) = Ok (r, s) →
      calendar_reachable s
  | calendar_call (Q : Querier) (R : Registries) env i m s r s' : calendar_reachable s →
      App.execute CALENDAR_APP env i m s = Ok (r, s') → calendar_reachable s'
  | calendar_migrate (Q : Querier) env x s r s' : calendar_reachable s →
      App.migrate CALENDAR_APP env x s = Ok (r, s') → calendar_reachable s'.

Lemma booked_config c c' day m : utc_offset c' = utc_offset c → cal_start c' = cal_start c →
  cal_end c' = cal_end c → booked c day m → booked c' day m.
Proof. intros Ho Hs He [Hb1 Hb2 Hb3 Hb4 Hb5 Hb6]. split; rewrite ?Ho, ?Hs, ?He; done. Qed.
Lemma execute_calendar_ok `{!Querier, !Registries} env i m s r s' :
  App.execute CALENDAR_APP env i m s = Ok (r, s') → calendar_ok (custom s) → calendar_ok (custom s').
Proof.
  intros (msg & -> & Hrun)%calendar_execute_Ok Hok.
  assert (∀ env i day k a r s', handle_stake i env day k a s = Ok (r, s') → calendar_ok (custom s')) as Hhandle.
  { intros env' i' day k a r' s'' Hrun'. apply handle_Ok in Hrun' as (c & l & m' & Hc & _ & _ & _ & _ & _ & Hd & -> & _); [|done].
    by eapply calendar_ok_day. }
  destruct msg as [t1 t2|day k|day k late|day k|p d]; simpl in Hrun; [|by eapply Hhandle..|].
  - apply request_Ok in Hrun as (c & day & m' & Hc & Hd & -> & _); [|done]. by eapply calendar_ok_day.
  - apply calendar_update_Ok in Hrun as (_ & c & c' & Hc & -> & Ho & Hs & He & _). destruct Hok as (c0 & Hc0 & Hall).
    exists c'. split; [done|]. intros day l Hl. simplify_eq. destruct (Hall day l Hl) as [Hb Hst Hcomp].
    split; [|done..]. eapply (Forall_impl _ _ _ Hb). intros m'. by apply (booked_config c).
Qed.
Lemma calendar_reachable_ok s : calendar_reachable s → calendar_ok (custom s).
Proof.
  induction 1 as [Q env i a x r s Hrun|Q R env i m s r s' _ IH Hrun|Q env x s r s' _ IH Hrun].
  - unfold App.instantiate, save_module_data, save_contract_version in Hrun. inv_ok.
    unfold instantiate_handler in *. inv_cal. eexists. split; [done|]. intros day l Hl. simpl in Hl. by rewrite lookup_empty in Hl.
  - by eapply execute_calendar_ok.
  - unfold App.migrate, save_module_data, save_contract_version in Hrun. inv_ok. unfold migrate_handler in *. by inv_ok.
Qed.

(** What handling a stake sends, in the denomination of the configuration. *)
Lemma settles_sent c base m a r : settles c base m a (messages r) → sent (cal_denom c) r = amount_staked m.
Proof.
  assert (∀ b n, coins_of (cal_denom c) (sent_coins (bank_send b (mkCoin (cal_denom c) n))) = n) as Hone.
  { intros b n. apply coins_of_one. }
  unfold settles, sent. destruct a as [| |late].
  - intros ->. simpl. rewrite Hone. lia.
  - intros (b & _ & ->). simpl. rewrite Hone. lia.
  - intros (b & slash & _ & _ & _ & _ & ->). simpl. rewrite !Hone. lia.
Qed.
Lemma staked_nonneg (st : CalendarStorage) : calendar_ok st → 0 ≤ staked st.
Proof.
  intros (cfg & _ & Hall). apply map_sum_nonneg. intros day l Hl. destruct (Hall day l Hl) as [_ Hst _].
  apply zsum_nonneg, Forall_fmap. exact Hst.
Qed.
(** What a call other than a request brings along of a denomination. *)
Definition gift (d : string) (i : MessageInfo) (m : CalendarExecuteMsg) : Z :=
  match m with RequestMeeting _ _ => 0 | _ => coins_of d (funds i) end.
(** What a call does to the sum of the stakes. *)
Lemma execute_ledger `{!Querier, !Registries} d env i m s r s' : calendar_reachable s →
  (∃ c, config (custom s) = Some c ∧ cal_denom c = d) → (∀ p u, m ≠ UpdateConfig p (Some u)) →
  App.execute CALENDAR_APP env i (Module_msg m) s = Ok (r, s') →
  staked (custom s') = staked (custom s) + coins_of d (funds i) - sent d r - gift d i m ∧
  ∃ c, config (custom s') = Some c ∧ cal_denom c = d.
Proof.
  intros Hok%calendar_reachable_ok (c & Hc & Hd) Hm (msg & [= <-] & Hrun)%calendar_execute_Ok.
  assert (∀ day k a, (∀ t1 t2, m ≠ RequestMeeting t1 t2) → handle_stake i env day k a s = Ok (r, s') →
    staked (custom s') = staked (custom s) + coins_of d (funds i) - sent d r - gift d i m ∧
    ∃ c, config (custom s') = Some c ∧ cal_denom c = d) as Hhandle.
  { intros day k a Hne Hrun'.
    apply handle_Ok in Hrun' as (c' & l & m' & Hc' & Hl & Hm' & _ & _ & Hset & _ & -> & _); [|done].
    assert (c' = c) as -> by congruence. apply settles_sent in Hset. split; [|by exists c].
    simpl. erewrite staked_handled by done. subst d.
    assert (gift (cal_denom c) i m = coins_of (cal_denom c) (funds i)) as -> by (destruct m; naive_solver). lia. }
  destruct m as [t1 t2|day k|day k late|day k|p [u|]]; simpl in Hrun; [| |by eapply Hhandle..| |]; [|by eapply Hhandle| |].
  - apply request_Ok in Hrun as (c' & day & m' & Hc' & _ & -> & _ & _ & _ & _ & Hf & _ & _ & Hr); [|done].
    assert (c' = c) as -> by congruence. split; [|by exists c]. simpl. rewrite staked_new by done.
    unfold sent. rewrite Hr, Hf. subst d. rewrite coins_of_one. simpl. lia.
  - by destruct (Hm p u).
  - apply calendar_update_Ok in Hrun as (Hr & c1 & c2 & Hc1 & -> & _ & _ & _ & Hden).
    assert (c1 = c) as -> by congruence. split; [|exists c2; split; [done|by rewrite Hden]].
    unfold sent. rewrite Hr. unfold staked. simpl. lia.
Qed.

(** The meetings of a calendar.  In every reachable state, on every day, each
    meeting lies within the day and the hours of the calendar on its clock and
    starts and ends at whole minutes; and two meetings of a day are apart, unless
    the later request encloses the earlier meeting on both sides. *)
Theorem calendar_meetings s (Hs : calendar_reachable s) :
  ∃ c, config (custom s) = Some c ∧ ∀ day l, calendar (custom s) !! day = Some l →
    Forall (booked c day) l ∧
    (∀ i j m m', (i < j)%nat → l !! i = Some m → l !! j = Some m' → apart m m' ∨ encloses m' m).
Proof.
  destruct (calendar_reachable_ok s Hs) as (c & Hc & Hall). exists c. split; [done|].
  intros day l Hl. by destruct (Hall day l Hl).
Qed.

(** A stake is handled once, in full.  Handling one succeeds only for the
    administrator, after the meeting, while there is a stake; it sends the whole
    of it in the configured denomination: to the requester, to the account, or
    shared between them by the minutes of the meeting; and afterwards that stake
    is zero, with nothing else changed, so that handling it again fails. *)
Theorem stake_handled_once (Q : Querier) (R : Registries) env i msg day k a s r s'
    (Hmsg : msg = SlashFullStake day k ∧ a = FullSlash ∨ msg = ReturnStake day k ∧ a = Return ∨
      ∃ late, msg = SlashPartialStake day k late ∧ a = PartialSlash late)
    (Hs : calendar_reachable s) (Hc : App.execute CALENDAR_APP env i (Module_msg msg) s = Ok (r, s')) :
  ∃ c l m, config (custom s) = Some c ∧ calendar (custom s) !! day = Some l ∧ l !! Z.to_nat k = Some m ∧
    (∃ owner, admin s = Some (Some owner) ∧ is_admin_custom env (sender i) owner = true) ∧
    end_time m < seconds (time (block env)) ∧ 0 < amount_staked m ∧
    settles c (base_state s) m a (messages r) ∧ sent (cal_denom c) r = amount_staked m ∧
    s' = set_custom (set_calendar (<[day := <[Z.to_nat k := unstaked m]> l]> (calendar (custom s))) (custom s)) s ∧
    (∀ (Q' : Querier) (R' : Registries) env' i' x,
       App.execute CALENDAR_APP env' i' (Module_msg msg) s' ≠ Ok x).
Proof.
  apply calendar_execute_Ok in Hc as (m0 & [= <-] & Hrun).
  assert (∀ (Q' : Querier) env i s x, execute_handler env i tt msg s = Ok x → handle_stake i env day k a s = Ok x) as Hmsg'.
  { intros Q' env' i' s0 x. destruct Hmsg as [[-> ->]|[[-> ->]|(late & -> & ->)]]; done. }
  apply Hmsg', handle_Ok in Hrun as (c & l & m & Hc & Hl & Hm & Hend & Hst & Hset & _ & -> & Hadm);
    [|by apply calendar_reachable_ok].
  exists c, l, m. split_and!; try done; [by eapply settles_sent|].
  intros Q' R' env' i' [r' s''] (m1 & [= <-] & Hrun)%calendar_execute_Ok. apply Hmsg' in Hrun.
  unfold handle_stake in Hrun. inv_cal. rewrite lookup_insert_eq in *. simplify_eq.
  rewrite list_lookup_insert_eq in * by (by eapply lookup_lt_Some). by simplify_eq.
Qed.

(** Calls that do not change the denomination, with the balance of the app in it
    before and after: funds arrive with a call, and what the call sends leaves. *)
Inductive ledger (d : string) : State CalendarStorage → Z → Z → State CalendarStorage → Z → Prop :=
  | ledger_nil s b : ledger d s b 0 s b
  | ledger_cons (Q : Querier) (R : Registries) env i m s b r s' g s'' b'' :
      (∀ p u, m ≠ UpdateConfig p (Some u)) → App.execute CALENDAR_APP env i (Module_msg m) s = Ok (r, s') →
      ledger d s' (b + coins_of d (funds i) - sent d r) g s'' b'' →
      ledger d s b (gift d i m + g) s'' b''.

(** C25. The app always holds the stakes.  Over any calls that leave the
    denomination alone, its balance exceeds the sum of the stakes by exactly what
    it exceeded them before and the coins sent along with other calls than
    requests; so the app never sends what it does not hold. *)
Theorem stakes_held d s b g s' b' (Hs : calendar_reachable s) (Hl : ledger d s b g s' b')
    (Hd : ∃ c, config (custom s) = Some c ∧ cal_denom c = d) :
  b' - staked (custom s') = b - staked (custom s) + g ∧ 0 ≤ staked (custom s') ∧
  ∃ c, config (custom s') = Some c ∧ cal_denom c = d.
Proof.
  induction Hl as [s b|Q R env i m s b r s' g s'' b'' Hm Hc _ IH].
  - split_and!; [lia| |done]. by apply staked_nonneg, calendar_reachable_ok.
  - pose proof (calendar_call _ _ _ _ _ _ _ _ Hs Hc) as Hs'.
    destruct (execute_ledger d env i m s r s') as [Hst Hd']; [done..|].
    destruct (IH Hs' Hd') as (Hb & Hpos & Hd''). split_and!; [lia|done..].
Qed.
End runs.
