(* ===== verification/DexProofs.v ===== *)
(** * Correctness of the dex adapter

    The fee of a swap is capped, set by the owner of the namespace of the
    framework only, and taken exactly once; a simulation is of the swap that is
    executed; what an app asks through the API acts on the account of the app;
    and where requests for other chains go. *)

From S2P Require Import Prelude Cosmos Strings Objects Names AccountIds Fees ModuleFactory Ownership AnsObjects Ans AnsClient Registry Clients Account Ibc IbcClient Sdk SdkApis Adapter AdapterProofs SdkModules DexStandard Dex DexIntegrations.
From Stdlib Require Import Ascii String.
#[local] Open Scope string_scope.
#[local] Open Scope list_scope.
#[local] Open Scope Z_scope.

(** ** Fees *)

Definition fee_capped (f : DexFees) : Prop := share (swap_fee f) ≤ MAX_FEE.
Lemma MAX_FEE_below_one : MAX_FEE < DECIMAL_ONE.
Proof. done. Qed.
Lemma check_fee_share_Ok fee x : check_fee_share fee = Ok x ↔ fee ≤ MAX_FEE.
Proof.
  unfold check_fee_share, guard_or. destruct x.
  destruct (bool_decide (fee ≤ MAX_FEE)) eqn:Hb;
    [apply bool_decide_eq_true in Hb|apply bool_decide_eq_false in Hb]; by split.
Qed.
Lemma fee_new_Ok s f : fee_new s = Ok f → share f = s.
Proof. unfold fee_new. case_decide; [done|]. by intros [= <-]. Qed.
Lemma dex_fees_new_Ok s a f : dex_fees_new s a = Ok f →
  fee_capped f ∧ share (swap_fee f) = s ∧ fee_recipient f = a.
Proof.
  unfold dex_fees_new, fee_capped. intros Hrun. inv_ok.
  match goal with Hc : check_fee_share _ = Ok _, Hf : fee_new _ = Ok _ |- _ =>
    apply check_fee_share_Ok in Hc; apply fee_new_Ok in Hf end. simpl. by subst.
Qed.
Lemma set_swap_fee_share_Ok f s f' : set_swap_fee_share f s = Ok f' →
  fee_capped f' ∧ share (swap_fee f') = s ∧ fee_recipient f' = fee_recipient f.
Proof. apply dex_fees_new_Ok. Qed.

Section fees.
Context `{DecimalLaws}.
(** The fee of an amount: the share, rounded down *)
Definition fee_of (f : DexFees) (amount : Z) : Z := amount * share (swap_fee f) / DECIMAL_ONE.
Lemma fee_of_bounds f amount : fee_capped f → 0 ≤ share (swap_fee f) → 0 ≤ amount →
  0 ≤ fee_of f amount ∧ 20 * fee_of f amount ≤ amount.
Proof.
  unfold fee_capped, fee_of. intros Hc Hs Ha. split; [apply Z.div_pos; [nia|done]|].
  pose proof (Z.mul_div_le (amount * share (swap_fee f)) DECIMAL_ONE ltac:(done)).
  unfold MAX_FEE, DECIMAL_ONE in *. nia.
Qed.
Lemma fee_compute_Ok (f : FeeShare) amount n : 0 ≤ share f → 0 ≤ amount →
  fee_compute f amount = Ok n → n = amount * share f / DECIMAL_ONE.
Proof.
  intros Hs Ha. unfold fee_compute. rewrite mul_floor_spec by done. by case_decide; intros [= <-].
Qed.
End fees.

Section dex.
Context `{DecimalLaws, Semver, Api, Instantiate2, CwOwnable, CoinsOps, Sha256, CwAsset}.
Context `{!CwAssetMsgs, !CwAssetKinds, !CwAssetTexts, !ComparatorParse}.
Context `{!ToJson IbcClient.ExecuteMsg, !ToJson (Adapter.ExecuteMsg DexExecuteMsg), !DexJson}.
Abbreviation DexState := (Adapter.State (option DexFees)).
Implicit Types (s : DexState) (f : DexFees).

(** The fee a swap of an asset pays: nothing, or the transfer of the fee to its
    recipient, and the asset without it *)
Definition pays_fee (f : DexFees) (a : Asset) (fee_msg : option CosmosMsg) (left : Asset) : Prop :=
  left = mkAsset (as_info a) (as_amount a - fee_of f (as_amount a)) ∧
  fee_msg = if decide (fee_of f (as_amount a) = 0) then None
            else asset_transfer_msg (as_info a) (fee_of f (as_amount a)) (fee_recipient f).
Lemma charge_swap_fee_Ok fees a x : charge_swap_fee fees a = Ok x →
  0 ≤ as_amount a → (∀ f, fees = Some f → 0 ≤ share (swap_fee f)) →
  ∃ f, fees = Some f ∧ pays_fee f a x.1 x.2.
Proof.
  unfold charge_swap_fee, swap_usage_fee, usage_fee_new, charge_usage_fee, usage_fee_compute, load_fees.
  intros Hrun Ha Hs. destruct fees as [f|]; simpl in Hrun; [|done]. specialize (Hs f eq_refl).
  exists f. split; [done|]. unfold pays_fee. inv_ok. simpl in *.
  match goal with Hf : fee_new _ = Ok _ |- _ => apply fee_new_Ok in Hf as Hshare end.
  match goal with Hc : fee_compute _ _ = Ok ?n |- _ =>
    apply fee_compute_Ok in Hc; [|by rewrite Hshare|done]; rewrite Hshare in Hc;
    change (n = fee_of f (as_amount a)) in Hc; subst n end.
  case_decide as Hz; inv_ok; simpl.
  - rewrite Hz, Z.sub_0_r. by destruct a.
  - match goal with Hs : sub_u _ _ = Ok _ |- _ => apply sub_u_Ok in Hs as [-> _] end.
    split; [done|]. by match goal with Hm : transfer_msg _ _ = Ok _ |- _ =>
      unfold transfer_msg in Hm; apply ok_or_Ok in Hm end.
Qed.
Lemma charge_swap_fee_capped fees a x f : charge_swap_fee fees a = Ok x → fees = Some f →
  fee_capped f → 0 ≤ share (swap_fee f) → 0 ≤ as_amount a →
  pays_fee f a x.1 x.2 ∧ 0 ≤ as_amount x.2 ≤ as_amount a ∧ 20 * (as_amount a - as_amount x.2) ≤ as_amount a.
Proof.
  intros Hrun -> Hc Hs Ha. apply charge_swap_fee_Ok in Hrun as (f' & [= <-] & Hp); [|done|by intros ? [= <-]].
  split; [done|]. destruct Hp as [-> _]. simpl. pose proof (fee_of_bounds f _ Hc Hs Ha). lia.
Qed.

(** ** Execution *)

Section calls.
Context `{!Querier, !Registries, !Accounts, !AnsHosts, !Exchanges}.

Lemma dex_execute_Ok env i msg s r s' : Adapter.execute DEX_ADAPTER env i msg s = Ok (r, s') →
  (∃ m l, msg = Base_ m ∧ messages r = [] ∧ s' = set_authorized_addresses l s) ∨
  ∃ rq registry account, msg = Module_msg rq ∧ Adapter.abstract_registry s = Ok registry ∧
    may_request s registry (rq_account_address rq) (sender i) account ∧
    dex_execute_handler env i (Some account) (rq_request rq) s = Ok (r, s').
Proof.
  apply (local_adapter_execute_Ok DEX_ADAPTER); [|done..]. intros d Hd. by apply elem_of_nil in Hd.
Qed.
Lemma action_keeps_state env i target dex a s r s' :
  dex_execute_handler env i target (Action dex a) s = Ok (r, s') →
  s' = s ∧ execute_action (dex_features target s) (Adapter.custom s) env dex a = Ok r.
Proof. simpl. intros Hrun. by inv_ok. Qed.

(** What a new recipient is: the account of that number on this chain *)
Definition new_recipient (registry : Addr) (recipient_account : option Z) (old new : Addr) : Prop :=
  match recipient_account with
  | Some n => registry_account registry (mkAccountId Local n) = Ok new
  | None => new = old
  end.
(** An accepted update of the fee *)
Definition fee_updated (registry account : Addr) (swap_fee_share recipient_account : option Z) f f' : Prop :=
  (∃ id, query_namespace registry ABSTRACT_NAMESPACE = Ok (Claimed id account)) ∧
  share (swap_fee f') = default (share (swap_fee f)) swap_fee_share ∧
  (is_Some swap_fee_share → fee_capped f') ∧
  new_recipient registry recipient_account (fee_recipient f) (fee_recipient f').
Lemma update_swap_share_Ok o f f' : update_swap_share o f = Ok f' →
  share (swap_fee f') = default (share (swap_fee f)) o ∧ (is_Some o → fee_capped f') ∧
  fee_recipient f' = fee_recipient f.
Proof.
  destruct o as [v|]; simpl; intros Hrun; inv_ok.
  - match goal with Hs : set_swap_fee_share _ _ = Ok _ |- _ => by apply set_swap_fee_share_Ok in Hs as (? & ? & ?) end.
  - split_and!; [done| |done]. by intros [? ?].
Qed.
Lemma update_recipient_Ok base registry o f f' : f_registry base = Ok registry → update_recipient base o f = Ok f' →
  swap_fee f' = swap_fee f ∧ new_recipient registry o (fee_recipient f) (fee_recipient f').
Proof.
  intros Hreg. destruct o as [v|]; simpl; intros Hrun; inv_ok; [|done].
  split; [done|]. by match goal with Ha : ar_account _ _ = Ok _ |- _ => eapply in_account_registry_Ok in Ha end.
Qed.
Lemma update_fee_Ok registry account fee n s r s' :
  Adapter.abstract_registry s = Ok registry →
  update_fee (Some account) fee n s = Ok (r, s') →
  messages r = [] ∧ ∃ f f', Adapter.custom s = Some f ∧ s' = Adapter.set_custom (Some f') s ∧
    fee_updated registry account fee n f f'.
Proof.
  intros Hreg Hrun. unfold update_fee in Hrun. inv_ok. unfold id, load_fees in *. split; [done|].
  match goal with Hq : mr_query_namespace _ _ = Ok ?ns, Hl : ok_or _ _ = Ok ?f |- _ =>
    eapply in_registry_Ok in Hq; [|exact Hreg]; destruct ns as [nid owner|]; [|done];
    apply ok_or_Ok in Hl; exists f end.
  eexists. split_and!; [done..|]. inv_ok. unfold fee_updated, fee_capped in *.
  match goal with Hb : bool_decide _ = true |- _ => apply bool_decide_eq_true in Hb as -> end.
  repeat match goal with
  | Hs : update_swap_share _ _ = Ok _ |- _ => apply update_swap_share_Ok in Hs as (? & ? & Hr)
  | Hs : update_recipient _ _ _ = Ok _ |- _ => eapply update_recipient_Ok in Hs as (-> & ?); [|exact Hreg]
  end. rewrite <-Hr. split_and!; [by eauto|done..].
Qed.

(** Reachable states of the adapter; what other contracts answer may change
    between the calls. *)
End calls.
Inductive dex_reachable : DexState → Prop :=
  | dex_init (Q : Querier) (R : Registries) (X : Exchanges) (A : Accounts) (N : AnsHosts) env i registry msg r s :
      Adapter.instantiate DEX_ADAPTER env i registry msg (Adapter.mkState None None None ∅ None) = Ok (r, s) →
      dex_reachable s
  | dex_call (Q : Querier) (R : Registries) (X : Exchanges) (A : Accounts) (N : AnsHosts) env i msg s r s' :
      dex_reachable s → Adapter.execute DEX_ADAPTER env i msg s = Ok (r, s') → dex_reachable s'.

Lemma fee_updated_capped `{!Querier, !Registries} registry account o n f f' :
  fee_updated registry account o n f f' → fee_capped f → fee_capped f'.
Proof.
  intros (_ & Hs & Hc & _) Hf. destruct o as [v|]; [by apply Hc|]. unfold fee_capped. by rewrite Hs.
Qed.
Lemma dex_reachable_capped s : dex_reachable s → ∃ f, Adapter.custom s = Some f ∧ fee_capped f.
Proof.
  induction 1 as [Q R X A N env i registry msg r s Hrun|Q R X A N env i msg s r s' _ (f & Hf & Hc) Hrun].
  - unfold Adapter.instantiate in Hrun. simpl in Hrun. inv_ok. unfold dex_instantiate_handler in *. inv_ok.
    match goal with Hd : dex_fees_new _ _ = Ok _ |- _ => apply dex_fees_new_Ok in Hd as (? & _) end. simpl. eauto.
  - apply dex_execute_Ok in Hrun as [(m & l & -> & _ & ->)|(rq & registry & account & -> & Hreg & _ & Hrun)]; [by eauto|].
    destruct (rq_request rq) as [o n|dex a].
    + apply (update_fee_Ok registry) in Hrun as (_ & f0 & f' & Hf0 & -> & Hup); [|done].
      exists f'. split; [done|]. eapply fee_updated_capped; [exact Hup|]. congruence.
    + apply action_keeps_state in Hrun as [-> _]. by eauto.
Qed.

(** C19. The fee of swaps is governed.  In every reachable state of the adapter a
    fee is stored whose share is at most five percent, and a call changes it only
    when it is a request to update it, by somebody who may act for the account
    that holds the namespace of the framework in the registry: then nothing is
    sent, the share is the new one, if one is named, and the recipient is the
    account of this chain with the number that is named, if one is. *)
Theorem dex_fee_governed (s : DexState) (Hs : dex_reachable s) :
  ∃ f, Adapter.custom s = Some f ∧ fee_capped f ∧
  ∀ (Q : Querier) (R : Registries) (X : Exchanges) (A : Accounts) (N : AnsHosts) env i msg r s',
    Adapter.execute DEX_ADAPTER env i msg s = Ok (r, s') →
    Adapter.custom s' = Some f ∨
    ∃ named o n registry account f', msg = Module_msg (mkRequest named (UpdateFee o n)) ∧
      Adapter.abstract_registry s = Ok registry ∧ may_request s registry named (sender i) account ∧
      messages r = [] ∧ s' = Adapter.set_custom (Some f') s ∧ fee_capped f' ∧
      fee_updated registry account o n f f'.
Proof.
  destruct (dex_reachable_capped s Hs) as (f & Hf & Hc). exists f. split_and!; [done..|].
  intros Q R X A N env i msg r s' Hrun.
  apply dex_execute_Ok in Hrun as [(m & l & -> & _ & ->)|(rq & registry & account & -> & Hreg & Hmay & Hrun)]; [by left|].
  destruct rq as [named [o n|dex a]].
  - apply (update_fee_Ok registry) in Hrun as (Hr & f0 & f' & Hf0 & -> & Hup); [|done]. right.
    assert (f0 = f) as -> by congruence. exists named, o, n, registry, account, f'. split_and!; try done.
    by eapply fee_updated_capped.
  - apply action_keeps_state in Hrun as [-> _]. by left.
Qed.

(** ** Swaps *)

Section calls.
Context `{!Querier, !Registries, !Accounts, !AnsHosts, !Exchanges}.

(** The fee is taken from what is offered, the exchange swaps the rest, and the
    payment of the fee follows its messages. *)
Definition swaps_rest (f : DexFees) (offer : AssetUnchecked) (swap : Asset → outcome DexError (list CosmosMsg))
    (msgs : list CosmosMsg) : Prop :=
  ∃ o fee_msg left swap_msgs, asset_check offer = Some o ∧ pays_fee f o fee_msg left ∧
    0 ≤ as_amount left ≤ as_amount o ∧ 20 * (as_amount o - as_amount left) ≤ as_amount o ∧
    swap left = Ok swap_msgs ∧ msgs = swap_msgs ++ option_list fee_msg.
(** The messages of an action: only swaps pay a fee. *)
Definition action_done (f : DexFees) (exchange : DexCommand) (a : DexAction) (msgs : list CosmosMsg) : Prop :=
  ∃ data, match a with
  | Swap pool offer ask max_spread belief_price => ∃ p i, pool_address_check pool = Ok p ∧
      asset_info_check ask = Some i ∧
      swaps_rest f offer (λ left, dex_swap exchange data p left i belief_price max_spread) msgs
  | RouteSwap route offer max_spread belief_price => ∃ nodes, omapM swap_node_check route = Ok nodes ∧
      swaps_rest f offer (λ left, dex_swap_route exchange data nodes left belief_price max_spread) msgs
  | ProvideLiquidity pool assets max_spread => ∃ p l, pool_address_check pool = Ok p ∧
      Forall2 (λ u o, asset_check u = Some o) assets l ∧ (2 ≤ List.length assets)%nat ∧
      dex_provide_liquidity exchange data p l max_spread = Ok msgs
  | WithdrawLiquidity pool lp_token => ∃ p o, pool_address_check pool = Ok p ∧ asset_check lp_token = Some o ∧
      dex_withdraw_liquidity exchange data p o = Ok msgs
  end.
(** The amounts of an action are unsigned. *)
Definition unsigned_action (a : DexAction) : Prop :=
  match a with
  | Swap _ offer _ _ _ | RouteSwap _ offer _ _ => 0 ≤ au_amount offer
  | _ => True
  end.
Lemma asset_check_amount u o : asset_check u = Some o → as_amount o = au_amount u.
Proof. unfold asset_check. by destruct (asset_info_check (au_info u)); [intros [= <-]|]. Qed.
Lemma swaps_rest_intro f offer o x swap swap_msgs :
  asset_check offer = Some o → charge_swap_fee (Some f) o = Ok x → fee_capped f → 0 ≤ share (swap_fee f) →
  0 ≤ au_amount offer → swap x.2 = Ok swap_msgs → swaps_rest f offer swap (swap_msgs ++ option_list x.1).
Proof.
  intros Ho Hx Hc Hs Ha Hswap. pose proof (asset_check_amount _ _ Ho) as Hamount.
  destruct (charge_swap_fee_capped _ _ _ _ Hx eq_refl Hc Hs ltac:(by rewrite Hamount)) as (? & ? & ?).
  by exists o, x.1, x.2, swap_msgs.
Qed.
Lemma resolve_dex_action_Ok base f sender a exchange msgs id :
  resolve_dex_action base (Some f) sender a exchange = Ok (msgs, id) →
  fee_capped f → 0 ≤ share (swap_fee f) → unsigned_action a → action_done f exchange a msgs.
Proof.
  intros Hrun Hc Hs Ha. unfold resolve_dex_action, resolve_provide_liquidity, resolve_withdraw_liquidity,
    resolve_swap, resolve_route_swap, check_pool, check_asset in Hrun. destruct a as [| | |]; simpl in Ha.
  - case_decide as Hlen; [done|]. inv_ok. eexists _, _, _. split_and!; [done| |lia|done].
    match goal with Hm : omapM _ _ = Ok _ |- _ => apply omapM_Ok in Hm; eapply Forall2_impl; [exact Hm|] end.
    intros u o. by rewrite ok_or_Ok.
  - inv_ok. by eexists _, _, _.
  - inv_ok. match goal with Hl : (let '(_, _) := ?x in _) = Ok _ |- _ => destruct x as [fee_msg left]; inv_ok end.
    eexists _, _, _. split_and!; [done..|]. by eapply (swaps_rest_intro f _ _ (fee_msg, left)).
  - inv_ok. match goal with Hl : (let '(_, _) := ?x in _) = Ok _ |- _ => destruct x as [fee_msg left]; inv_ok end.
    eexists _, _. split_and!; [done..|]. by eapply (swaps_rest_intro f _ _ (fee_msg, left)).
Qed.
Lemma join_singletons {A} (l : list A) : mjoin ((λ m, [m]) <$> l) = l.
Proof. induction l as [|x l IH]; [done|]. simpl. by f_equal. Qed.
Lemma local_request_Ok target s dex a r account f : target = Some account → Adapter.custom s = Some f →
  handle_local_request (dex_features target s) (Adapter.custom s) dex a = Ok r →
  fee_capped f → 0 ≤ share (swap_fee f) → unsigned_action a →
  ∃ exchange msgs, resolve_exchange dex = Ok exchange ∧ action_done f exchange a msgs ∧
    r = mkResponse "" [send (OnAccount account (Account.Execute msgs) [])].
Proof.
  intros -> Hf Hrun Hc Hs Ha. rewrite Hf in Hrun. unfold handle_local_request in Hrun. inv_ok.
  match goal with Hl : (let '(_, _) := ?x in _) = Ok _, Hr : _ = Ok ?x |- _ =>
    destruct x as [msgs id]; apply resolve_dex_action_Ok in Hr as Hdone; [|done..] end. inv_ok.
  unfold executor_execute, execute_with_funds, execute_on_account in *. simpl in *. inv_ok.
  eexists _, msgs. split_and!; [done..|]. by rewrite join_singletons.
Qed.

(** C16. What an account asks of an exchange of its chain is what happens.  An
    accepted request for an action on this chain changes no state and sends one
    message: it has the account the request acts for, which let the sender, run
    the messages of the exchange it names, for the assets and the pool of the
    action; liquidity moves without a fee, and a swap is of what is offered less
    the fee, the share of the amount rounded down and never more than a
    twentieth of it, which the message after the swap pays to the recipient, if
    it is not zero. *)
Theorem dex_action_exact (s : DexState) (Hs : dex_reachable s) (f : DexFees) (Hf : Adapter.custom s = Some f)
    (Hshare : 0 ≤ share (swap_fee f)) env i named dex a r s' (Ha : unsigned_action a) name
    (Hlocal : is_over_ibc env dex = Ok (name, false))
    (Hrun : Adapter.execute DEX_ADAPTER env i (Module_msg (mkRequest named (Action dex a))) s = Ok (r, s')) :
  s' = s ∧ ∃ registry account exchange msgs, Adapter.abstract_registry s = Ok registry ∧
    may_request s registry named (sender i) account ∧ resolve_exchange name = Ok exchange ∧
    action_done f exchange a msgs ∧
    r = mkResponse "" [send (OnAccount account (Account.Execute msgs) [])].
Proof.
  destruct (dex_reachable_capped s Hs) as (f' & Hf' & Hc). assert (f' = f) as -> by congruence.
  apply dex_execute_Ok in Hrun as [(m & l & [=] & _)|(rq & registry & account & [= <-] & Hreg & Hmay & Hrun)].
  apply action_keeps_state in Hrun as [-> Hrun]. split; [done|].
  unfold execute_action in Hrun. rewrite Hlocal in Hrun. simpl in Hrun.
  eapply local_request_Ok in Hrun as (exchange & msgs & ? & ? & ?); [|done..].
  by exists registry, account, exchange, msgs.
Qed.

(** ** Other chains *)

(** A platform of another chain *)
Lemma is_over_ibc_true env dex name : is_over_ibc env dex = Ok (name, true) ↔
  ∃ chain, decompose_platform_name dex = (Some chain, name) ∧ chain ≠ get_chain_name env.
Proof.
  unfold is_over_ibc, is_current_chain. destruct (decompose_platform_name dex) as [[c|] p]; simpl.
  - destruct (bool_decide (get_chain_name env = c)) eqn:Hb;
      [apply bool_decide_eq_true in Hb|apply bool_decide_eq_false in Hb]; simpl.
    + split; [intros Hrun; by inv_ok|]. intros (c' & [= <- <-] & Hne). by destruct Hne.
    + split; [intros [= <-]; by eauto|]. by intros (c' & [= <- <-] & _).
  - split; [intros Hrun; by inv_ok|]. by intros (c' & [=] & _).
Qed.
(** What is sent along with an action on another chain *)
Definition assets_of (a : DexAction) : list AssetUnchecked :=
  match a with
  | Swap _ offer _ _ _ | RouteSwap _ offer _ _ => [offer]
  | ProvideLiquidity _ assets _ => assets
  | WithdrawLiquidity _ lp_token => [lp_token]
  end.
Definition coin_of (u : AssetUnchecked) (c : Coin) : Prop :=
  ∃ i, asset_info_check (au_info u) = Some i ∧ asset_kind i = IsNative (denom c) ∧ amount c = au_amount u.
Lemma resolve_assets_Ok a coins : resolve_assets_to_transfer a = Ok coins ↔ Forall2 coin_of (assets_of a) coins.
Proof.
  assert (∀ u c, offer_to_coin u = Ok c ↔ coin_of u c) as Hcoin.
  { intros u [d n]. unfold offer_to_coin, coin_of, asset_check, asset_to_coin. rewrite ok_or_Ok.
    destruct (asset_info_check (au_info u)) as [i|]; simpl; [|naive_solver].
    destruct (asset_kind i) as [e|e|] eqn:Hk; (split; [|intros (i' & [= <-] & Hk' & ->); by congruence]);
      [|done..]. intros [= <- <-]. eauto. }
  assert (resolve_assets_to_transfer a = omapM offer_to_coin (assets_of a)) as -> by by destruct a.
  rewrite omapM_Ok. split; intros Hall; (eapply Forall2_impl; [exact Hall|]); naive_solver.
Qed.

(** Where a request for another chain goes.  An action on a platform of
    another chain never touches an exchange of this one and pays no fee here: the
    account sends exactly the coins of the action through the IBC client, and
    then the same action to the adapter of its remote account.  But both go to
    the chain that has the name of the platform: the chain the caller named is
    only used to tell that it is another one. *)
Theorem dex_request_follows_platform (s : DexState) env i named dex a r s' name
    (Hrun : Adapter.execute DEX_ADAPTER env i (Module_msg (mkRequest named (Action dex a))) s = Ok (r, s'))
    (Hibc : is_over_ibc env dex = Ok (name, true)) :
  s' = s ∧ (∃ chain, decompose_platform_name dex = (Some chain, name) ∧ chain ≠ get_chain_name env) ∧
  ∃ registry account coins, Adapter.abstract_registry s = Ok registry ∧
    may_request s registry named (sender i) account ∧ Forall2 coin_of (assets_of a) coins ∧
    chain_verify name = Ok tt ∧
    messages r =
      [send (OnAccount account (Account.ExecuteOnModule IBC_CLIENT
         (to_json (IbcClient.SendFunds name None None)) coins) []);
       send (OnAccount account (Account.ExecuteOnModule IBC_CLIENT
         (to_json (IbcClient.RemoteAction name (Dispatch [Account.ExecuteOnModule DEX_ADAPTER_ID
           (to_json (request_msg (Action name a))) []]))) []) [])].
Proof.
  apply dex_execute_Ok in Hrun as [(m & l & [=] & _)|(rq & registry & account & [= <-] & Hreg & Hmay & Hrun)].
  apply action_keeps_state in Hrun as [-> Hrun]. split; [done|].
  unfold execute_action in Hrun. rewrite Hibc in Hrun. simpl in Hrun.
  split; [by apply is_over_ibc_true|]. unfold handle_ibc_request, chain_from_string in Hrun. inv_ok.
  match goal with Hr : resolve_assets_to_transfer _ = Ok ?c |- _ =>
    apply resolve_assets_Ok in Hr; exists registry, account, c end.
  unfold ics20_transfer, execute_on_module, host_action, ibc_execute in *. simpl in *. inv_ok.
  split_and!; try done. by match goal with Hc : chain_verify _ = Ok ?x |- _ => destruct x end.
Qed.

(** ** Simulation *)

(** The simulation of a swap: of what is left of the offer after the fee *)
Definition simulates (f : DexFees) (dex : string) (pool : PoolAddress) (o : Asset) (a : asset_info)
    (return_amount spread_amount commission usage_fee : Z) : Prop :=
  ∃ exchange on_input, resolve_exchange dex = Ok exchange ∧ usage_fee = fee_of f (as_amount o) ∧
    dex_simulate_swap exchange (dex_default exchange) pool
      (mkAsset (as_info o) (as_amount o - fee_of f (as_amount o))) a =
      Ok (return_amount, spread_amount, commission, on_input).
Lemma simulate_swap_Ok f dex pool o a r : simulate_swap (Some f) dex pool o a = Ok r →
  0 ≤ share (swap_fee f) → 0 ≤ as_amount o →
  simulates f dex pool o a (return_amount r) (spread_amount r) (commission r).2 (usage_fee r).
Proof.
  unfold simulate_swap, load_fees, as_std. intros Hrun Hs Ho. inv_ok.
  match goal with Hl : (let '(_, _) := ?x in _) = Ok _ |- _ =>
    destruct x as [[[ret spread] com] on_input]; inv_ok end.
  match goal with Hc : fee_compute _ _ = Ok _ |- _ => apply fee_compute_Ok in Hc; [|done..]; subst end.
  match goal with Hs : sub_u _ _ = Ok _ |- _ => apply sub_u_Ok in Hs as [-> _] end.
  by eexists _, on_input.
Qed.

Lemma pool_uncheck_check `{!ApiLaws} (p q : PoolAddress) : pool_address_check (pool_uncheck p) = Ok q → q = p.
Proof.
  destruct p as [a b|a|n]; unfold pool_uncheck; simpl; intros Hrun; inv_ok; rewrite ?addr_validate_r_Ok in *;
    repeat match goal with Hv : addr_validate _ = Some _ |- _ => apply addr_validate_id in Hv end; by subst.
Qed.
Lemma asset_unchecked_check `{!CwAssetTextsLaws} a : asset_check (asset_unchecked a) = Some a.
Proof. unfold asset_check, asset_unchecked. simpl. rewrite uncheck_check. by destruct a. Qed.

(** C18. A simulation is of the swap that is executed.  For assets named in
    lower case, if the simulation by names answers, the swap of the same names
    resolves, on the same name service, to a swap of a pool and two assets that
    are valid; what is simulated is the swap, on that pool and exchange, of what
    is left of the offered asset once the fee is taken; and whenever the action
    itself goes through, it is this remainder, of this asset, on this pool, that
    the exchange swaps, and the fee is the one the simulation announced. *)
Theorem simulation_is_the_swap `{!ApiLaws, !CwAssetTextsLaws} (base : Features) (f : DexFees)
    (offer : AnsAsset) (ask : AssetEntry) (dex : string) (resp : SimulateSwapResponse AssetEntry)
    (Hcap : fee_capped f) (Hshare : 0 ≤ share (swap_fee f)) (Hamount : 0 ≤ aa_amount offer)
    (Hoffer : to_lowercase (aa_name offer) = aa_name offer) (Hask : to_lowercase ask = ask)
    (Hsim : simulate_ans_swap base (Some f) offer ask dex = Ok resp) :
  ∃ ans pool o a, f_ans_host base = Ok ans ∧
    simulates f dex pool o a (return_amount resp) (spread_amount resp) (commission resp).2 (usage_fee resp) ∧
    ∀ max_spread belief_price, ∃ u_pool u_o u_a,
      resolve_dex_ans_action ans (dex, AnsSwap offer ask max_spread belief_price) =
        Ok (Action dex (Swap u_pool u_o u_a max_spread belief_price)) ∧
      asset_check u_o = Some o ∧ asset_info_check u_a = Some a ∧
      ∀ sender exchange msgs id,
        resolve_dex_action base (Some f) sender (Swap u_pool u_o u_a max_spread belief_price) exchange =
          Ok (msgs, id) →
        ∃ data fee_msg left swap_msgs, pays_fee f o fee_msg left ∧
          as_amount left = as_amount o - usage_fee resp ∧
          dex_swap exchange data pool left a belief_price max_spread = Ok swap_msgs ∧
          msgs = swap_msgs ++ option_list fee_msg.
Proof.
  unfold simulate_ans_swap, name_service, ns_query in Hsim. inv_ok.
  match goal with Ho : ok (f_ans_host base) = Some ?h, Hr : resolve_ans_asset ?h _ = Ok ?ra,
    Hk : resolve_asset _ _ = Ok ?info, Hp : dex_pool_address _ _ _ = Ok ?p |- _ =>
    unfold resolve_ans_asset in Hr; exists h, p, (mkAsset ra.1 ra.2), info; rename Hk into Hinfo;
    rename Hp into Hpool; rename Ho into Hhost; rename Hr into Hres end.
  match goal with Hs : simulate_swap _ _ _ _ _ = Ok _ |- _ => rename Hs into Hsim end.
  inv_ok. assert (f_ans_host base = Ok x) as -> by (destruct (f_ans_host base); naive_solver).
  pose proof (simulate_swap_Ok _ _ _ _ _ _ Hsim Hshare Hamount) as Hsims. split_and!; [done..|].
  intros max_spread belief_price. rewrite Hoffer, Hask.
  eexists _, _, _. unfold resolve_asset in Hinfo.
  split; [apply obind_Ok; eexists; split; [eassumption|]; apply obind_Ok; exists x1; split; [done|];
    apply obind_Ok; eexists; split; [exact Hpool|]; reflexivity|].
  split; [apply asset_unchecked_check|]. split; [apply uncheck_check|].
  intros sender exchange msgs id Hrun.
  apply (resolve_dex_action_Ok base f sender (Swap _ _ _ max_spread belief_price) exchange msgs id) in Hrun as
    (data & p & i & Hp & Hi & o & fee_msg & left & swap_msgs & Ho & Hpays & _ & _ & Hswap & ->); [|done..].
  apply pool_uncheck_check in Hp as ->. rewrite asset_unchecked_check in Ho. injection Ho as <-.
  rewrite uncheck_check in Hi. injection Hi as <-. exists data, fee_msg, left, swap_msgs.
  split_and!; [done| |done..]. destruct Hpays as [-> _], Hsims as (? & ? & _ & -> & _). done.
Qed.
End calls.

(** ** What an app asks (api.rs) *)

End dex.

(** ** What exchanges are paid *)

Section outflow.
Context `{DecimalLaws, Semver, Api, CwOwnable, CwAsset, !CwAssetMsgs, !CwAssetKinds, !Accounts}.
Context `{!CwAssetMsgsLaws, !CwAssetKindsLaws}.

(** What messages move out of the account, of one denomination *)
Definition outflow (d : string) (msgs : list CosmosMsg) : Z := zsum ((λ m, total d (funds_of m)) <$> msgs).
Lemma outflow_app d l k : outflow d (l ++ k) = outflow d l + outflow d k.
Proof. unfold outflow. by rewrite fmap_app, zsum_app. Qed.
Definition only (d : string) (n : Z) (e : string) : Z := if decide (e = d) then n else 0.
Lemma total_one d n e : total e [mkCoin d n] = only d n e.
Proof. unfold only. simpl. repeat case_decide; congruence || lia. Qed.
(** Messages that spend one asset *)
Definition spends (a : Asset) (msgs : list CosmosMsg) : Prop :=
  ∀ d, asset_kind (as_info a) = IsNative d → ∀ e, outflow e msgs = only d (as_amount a) e.
Lemma asset_to_coin_Some a c : asset_to_coin a = Some c ↔
  asset_kind (as_info a) = IsNative (denom c) ∧ amount c = as_amount a.
Proof.
  unfold asset_to_coin. destruct c as [d n], (asset_kind (as_info a)) as [e|e|]; simpl; split;
    try discriminate; try (by intros [? _]).
  - by intros [= <- <-].
  - intros [Hk ->]. by injection Hk as <-.
Qed.

Lemma fin_swap_spends `{!KujiraApi} pool o a belief spread msgs :
  fin_swap pool o a belief spread = Ok msgs → spends o msgs.
Proof.
  unfold fin_swap, try_coin. intros Hrun d Hd e. inv_ok. rewrite Hd in *. inv_ok.
  match goal with Hc : asset_to_coin o = Some ?c |- _ =>
    apply asset_to_coin_Some in Hc as [Hk Hn]; destruct c as [d' n]; simpl in * end.
  assert (d' = d) as -> by congruence. unfold outflow. simpl. rewrite Z.add_0_r, Hn.
  change (total e [mkCoin d (as_amount o)] = only d (as_amount o) e). apply total_one.
Qed.
Lemma wyndex_swap_spends `{!WyndexApi, !Cw20Json} pool o a belief spread msgs :
  wyndex_swap pool o a belief spread = Ok msgs → spends o msgs.
Proof.
  unfold wyndex_swap, try_coin. intros Hrun d Hd e. inv_ok. rewrite Hd in *. inv_ok.
  match goal with Hc : asset_to_coin o = Some ?c |- _ =>
    apply asset_to_coin_Some in Hc as [Hk Hn]; destruct c as [d' n]; simpl in * end.
  assert (d' = d) as -> by congruence. unfold outflow. simpl. rewrite Z.add_0_r, Hn.
  change (total e [mkCoin d (as_amount o)] = only d (as_amount o) e). apply total_one.
Qed.
Lemma fee_spends f o fee_msg left e d : asset_kind (as_info o) = IsNative d → pays_fee f o fee_msg left →
  outflow e (option_list fee_msg) = only d (as_amount o - as_amount left) e.
Proof.
  intros Hd [-> ->]. apply kind_native in Hd as Ho. rewrite Ho, native_transfer. simpl.
  replace (as_amount o - (as_amount o - fee_of f (as_amount o))) with (fee_of f (as_amount o)) by lia.
  case_decide as Hz; unfold outflow, only; simpl.
  - rewrite Hz. by case_decide.
  - rewrite Z.add_0_r. apply total_one.
Qed.
Lemma pays_fee_kind f o fee_msg left : pays_fee f o fee_msg left → as_info left = as_info o.
Proof. by intros [-> _]. Qed.

(** A swap moves what was offered, and nothing else.  When a swap on Fin or on
    Wyndex of a native asset goes through, its messages move out of the account
    exactly the offered amount of that denomination, the fee and the rest
    together, and no other coin. *)
Theorem swap_spends_the_offer `{!KujiraApi, !WyndexApi, !CwAssetSend, !Cw20Json} (f : DexFees) (exchange : DexCommand)
    (Hx : exchange = Fin ∨ exchange = WynDex) pool offer ask max_spread belief_price msgs (o : Asset) (d : string)
    (Ho : asset_check offer = Some o) (Hd : asset_kind (as_info o) = IsNative d)
    (Hdone : action_done f exchange (Swap pool offer ask max_spread belief_price) msgs) (e : string) :
  outflow e msgs = if decide (e = d) then as_amount o else 0.
Proof.
  destruct Hdone as (data & p & i & _ & _ & o' & fee_msg & left & swap_msgs & Ho' & Hpays & _ & _ & Hswap & ->).
  assert (o' = o) as -> by congruence. pose proof (pays_fee_kind _ _ _ _ Hpays) as Hk.
  assert (spends left swap_msgs) as Hspends.
  { destruct Hx as [-> | ->]; [exact (fin_swap_spends p left i belief_price max_spread swap_msgs Hswap)|
    exact (wyndex_swap_spends p left i belief_price max_spread swap_msgs Hswap)]. }
  rewrite outflow_app, (Hspends d) by congruence. rewrite (fee_spends _ _ _ _ _ _ Hd Hpays).
  unfold only. case_decide; lia.
Qed.
End outflow.
