(* ===== verification/PingPong.v ===== *)
(** * The ping-pong app

    modules/contracts/apps/ping-pong (contract.rs, handlers/*.rs, ibc/*.rs, msg.rs,
    state.rs, error.rs): apps on two chains play rounds over the IBC client.  A ping
    is answered with a pong in a block of even height and lost otherwise; the ping
    comes back as a callback that carries the events of the answer. *)

From S2P Require Import Prelude Cosmos Strings Objects Names AccountIds Fees ModuleFactory Ownership AnsObjects Ans AnsClient Registry Clients Account Ibc IbcClient Sdk SdkApis App SdkModules.
From Stdlib Require Import Ascii String.
#[local] Open Scope string_scope.
#[local] Open Scope list_scope.
#[local] Open Scope Z_scope.

(** ** Messages (msg.rs) and state (state.rs) *)

Inductive PingPongExecuteMsg : Type :=
  | PingPong (opponent_chain : TruncatedChainId)
  | QueryAndMaybePingPong (opponent_chain : TruncatedChainId).
Inductive PingPongQueryMsg : Type := GameStatus | BlockHeight.
(** [QueryMsg] of the app, made [from] its own queries *)
Inductive PingPongQuery : Type := ModuleQueryOf (q : PingPongQueryMsg).
Inductive PingOrPong : Type := Ping | Pong.
#[export] Instance PingOrPong_eq_dec : EqDecision PingOrPong.
Proof. solve_decision. Defined.
Record PingPongIbcMsg := mkPingPongIbc { hand : PingOrPong }.
Inductive PingPongCallbackMsg : Type :=
  | Pinged (opponent_chain : TruncatedChainId)
  | QueryBlockHeight (opponent_chain : TruncatedChainId).
Record GameStatusResponse := mkGameStatus { gs_wins : Z; gs_losses : Z }.
Record BlockHeightResponse := mkBlockHeight { bh_height : Z }.

(** [WINS], [LOSSES], of 32 bits *)
Record Game := mkGame { wins : option Z; losses : option Z }.
Definition set_wins (v : option Z) (g : Game) : Game := mkGame v (losses g).
Definition set_losses (v : option Z) (g : Game) : Game := mkGame (wins g) v.
Definition empty_game : Game := mkGame None None.

(** [AppError] (error.rs) *)
Inductive PingPongError : Type :=
  | PingStd (e : StdError)
  | PingAbstract (e : AbstractError)
  | PingSdk (e : SdkError)
  | PingAsset
  | PingAdmin (e : AdminError)
  | PingDapp (e : AppError)
  | NotPingPong (source_module : ModuleInfo)
  | ZeroPongs
  | FirstPlayMustBePing.
#[export] Instance ping_contract_error : ContractError PingPongError :=
  {| from_std := PingStd; from_sdk := PingSdk; from_abstract := PingAbstract |}.

(** ** The app (contract.rs) *)

Definition PING_ID : string := "abstract:ping-pong".
Definition PING_VERSION : string := "0.1.0".
Definition PING_DEPENDENCIES : list StaticDependency := [mkStaticDependency IBC_CLIENT [IbcClient.CONTRACT_VERSION]].

Section handlers.
Context `{Semver, Api, Instantiate2, CwOwnable, CoinsOps, Sha256, !Querier, !Registries, !Accounts}.
Context `{!ToJson IbcClient.ExecuteMsg, !ToJson PingPongIbcMsg, !FromJson PingPongIbcMsg}.
Context `{!ToJson PingPongCallbackMsg, !FromJson PingPongCallbackMsg, !ToJson PingPongQuery}.
Context `{!ToJson GameStatusResponse, !ToJson BlockHeightResponse, !FromJson BlockHeightResponse}.
Abbreviation PingM := (M (State Game) PingPongError).
Abbreviation PingResponse := (Response ModuleMsg).

(** What the APIs of the SDK see of the app *)
Definition ping_features (s : State Game) : Features :=
  mkFeatures PING_ID PING_DEPENDENCIES (App.account s) (App.abstract_registry s) (App.ans_host s).
(** [AppContract::module_info] *)
Definition self_module_info : outcome PingPongError ModuleInfo :=
  map_err PingAbstract (module_info_from_id PING_ID (Version PING_VERSION)).
Definition parse {T} `{!FromJson T} (text : string) : outcome PingPongError T :=
  map_err PingStd (query_r (from_json text)).
Definition is_even (env : Env) : bool := bool_decide (height (block env) mod 2 = 0).
(** [WINS.update], [LOSSES.update]: adding one traps when it overflows. *)
Definition update_wins : PingM unit :=
  w ← gets (λ s, wins (custom s));
  w ← lift (ok_or w (PingStd (StdNotFound "wins")));
  w ← lift (add_u 32 w 1);
  modify (λ s, set_custom (set_wins (Some w) (custom s)) s).
Definition update_losses : PingM unit :=
  l ← gets (λ s, losses (custom s));
  l ← lift (ok_or l (PingStd (StdNotFound "losses")));
  l ← lift (add_u 32 l 1);
  modify (λ s, set_custom (set_losses (Some l) (custom s)) s).

(** ** Playing (handlers/execute.rs) *)

Definition ping_pong (opponent_chain : TruncatedChainId) : PingM PingResponse :=
  self_module_info ← lift self_module_info;
  base ← gets ping_features;
  ibc_action ← lift (map_err PingSdk (module_ibc_action base opponent_chain self_module_info
    (mkPingPongIbc Ping) (Some (mkCallback (to_json (Pinged opponent_chain))))));
  mret (mkResponse "ping_pong" [send (FromModule ibc_action)]).
Definition query_and_ping (env : Env) (opponent_chain : TruncatedChainId) : PingM PingResponse :=
  base ← gets ping_features;
  id ← lift (map_err PingSdk (account_id base));
  let remote_account_id := into_remote_account_id id (chain_id_new env) opponent_chain in
  self_module_info ← lift self_module_info;
  module_query ← lift (map_err PingSdk (module_ibc_query base opponent_chain
    (mkInstalledModule self_module_info (Some remote_account_id)) (ModuleQueryOf BlockHeight)
    (mkCallback (to_json (QueryBlockHeight opponent_chain)))));
  mret (mkResponse "rematch" [send (FromModule module_query)]).
Definition execute_handler (env : Env) (i : MessageInfo) (module : unit) (msg : PingPongExecuteMsg) : PingM PingResponse :=
  match msg with
  | PingPong opponent_chain => ping_pong opponent_chain
  | QueryAndMaybePingPong host_chain => query_and_ping env host_chain
  end.

(** ** The other chain (ibc/module.rs) *)

(** The answer to a ping, with the attributes of the response *)
Definition answer_ping (env : Env) (source_module : ModuleIbcInfo) (msg : string) :
    PingM (list (string * string) * PingResponse) :=
  this_module_info ← lift self_module_info;
  ensure (bool_decide (mii_module source_module = this_module_info)) (NotPingPong (mii_module source_module)) ≫= λ _,
  ping_msg ← lift (parse (T:=PingPongIbcMsg) msg);
  ensure (bool_decide (hand ping_msg = Ping)) FirstPlayMustBePing ≫= λ _,
  let resp := mkResponse "ping_ponged" [] in
  if is_even env then mret ([("play", "pong")], resp)
  else update_losses ≫= λ _, mret ([], resp).
Definition receive_module_ibc (env : Env) (module : unit) (source_module : ModuleIbcInfo) (msg : string) :
    PingM PingResponse :=
  x ← answer_ping env source_module msg; mret x.2.

(** ** Callbacks (ibc/callback.rs) *)

Definition is_pong (e : Event) : bool :=
  bool_decide (ty e = "wasm") && existsb (λ a, bool_decide (a = ("play", "pong"))) (attributes e).
Definition play_if_win (result : IbcResult) (opponent_chain : TruncatedChainId) : PingM PingResponse :=
  r ← lift (map_err PingStd (get_query_result result 0));
  response ← lift (parse (T:=BlockHeightResponse) r.2);
  if decide (bh_height response mod 2 = 1) then ping_pong opponent_chain
  else mret (mkResponse "dont_play" []).
Definition ibc_callback (env : Env) (module : unit) (callback : Callback) (result : IbcResult) : PingM PingResponse :=
  msg ← lift (parse (T:=PingPongCallbackMsg) (callback_msg callback));
  match msg with
  | Pinged opponent_chain =>
      exec_events ← lift (map_err PingStd (get_execute_events result));
      if existsb is_pong exec_events then
        if is_even env then ping_pong opponent_chain
        else update_losses ≫= λ _, mret (mkResponse "lost" [])
      else update_wins ≫= λ _, mret (mkResponse "won" [])
  | QueryBlockHeight opponent_chain => play_if_win result opponent_chain
  end.

(** ** Instantiation and queries (handlers/instantiate.rs, query.rs) *)

Definition instantiate_handler (env : Env) (i : MessageInfo) (module msg : unit) : PingM PingResponse :=
  modify (λ s, set_custom (set_losses (Some 0) (set_wins (Some 0) (custom s))) s) ≫= λ _,
  mret (mkResponse "" []).
Definition query_wins (g : Game) : outcome StdError GameStatusResponse :=
  w ← ok_or (wins g) (StdNotFound "wins");
  l ← ok_or (losses g) (StdNotFound "losses");
  Ok (mkGameStatus w l).
Definition query_block_height (env : Env) : BlockHeightResponse := mkBlockHeight (height (block env)).
Definition query_handler (env : Env) (module : unit) (msg : PingPongQueryMsg) (s : State Game) :
    outcome PingPongError string :=
  map_err PingStd match msg with
    | GameStatus => r ← query_wins (custom s); Ok (to_json r)
    | BlockHeight => Ok (to_json (query_block_height env))
    end.

Definition PingPongApp : Type := AbstractContract () (State Game) PingPongError ModuleMsg
  unit PingPongExecuteMsg PingPongQueryMsg unit unit.
Definition PING_APP : PingPongApp :=
  mkContract (PING_ID, PING_VERSION, None) PING_DEPENDENCIES (Some instantiate_handler)
    (Some execute_handler) (Some query_handler) None None ([], []) (Some ibc_callback)
    (Some receive_module_ibc).
End handlers.
