(* ===== verification/SdkStargateProofs.v ===== *)
(** * Correctness of grants and of distribution

    A message executed for another account is that account's message; when the
    expiration of a grant is a time; and what the distribution module is sent. *)

From S2P Require Import Prelude Cosmos Strings Objects Names AccountIds Fees ModuleFactory Ownership AnsObjects Ans AnsClient Registry RegistryAccess Clients Account Ibc IbcClient Sdk SdkApis Adapter App SdkModules SdkStargate.
From Stdlib Require Import Ascii String.
#[local] Open Scope string_scope.
#[local] Open Scope list_scope.
#[local] Open Scope Z_scope.

(** ** Authorizations *)

(** Who a message is from, and the coins it takes from there *)
Definition proto_sender (p : ProtoMsg) : option string :=
  match p with
  | PMsgExecuteContract g _ _ _ | PMsgInstantiateContract g _ _ _ _ _ | PMsgInstantiateContract2 g _ _ _ _ _ _ _
  | PMsgMigrateContract g _ _ _ | PMsgUpdateAdmin g _ _ | PMsgClearAdmin g _ | PMsgSend g _ _
  | PMsgDelegate g _ _ | PMsgUndelegate g _ _ | PMsgBeginRedelegate g _ _ _ | PMsgSetWithdrawAddress g _
  | PMsgWithdrawDelegatorReward g _ | PMsgFundCommunityPool _ g | PMsgTransfer _ _ _ g _ _ _ _
  | PMsgVote _ g _ | PMsgVoteWeighted _ g _ | PMsgRevoke g _ _ | PMsgGrant g _ _ _ | PMsgExec g _
  | PMsgRevokeAllowance g _ | PMsgGrantAllowance g _ _ | PMsgWithdrawValidatorCommission g => Some g
  | _ => None
  end.
Definition proto_funds (p : ProtoMsg) : list ProtoCoin :=
  match p with
  | PMsgExecuteContract _ _ _ f | PMsgInstantiateContract _ _ _ _ _ f | PMsgInstantiateContract2 _ _ _ _ _ f _ _
  | PMsgSend _ _ f | PMsgFundCommunityPool f _ => f
  | PMsgDelegate _ _ c | PMsgTransfer _ _ c _ _ _ _ _ => [c]
  | _ => []
  end.

Section authz.
Context `{Semver, Api, Instantiate2, CwOwnable, !Prost, !ProstLaws, !BodyText}.

(** The messages [execute] has no type for *)
Definition unsupported_by_authz (m : CosmosMsg) : Prop :=
  match m with MsgBankBurn _ | MsgDistribution (FundCommunityPool _) | OtherMsg _ => True | _ => False end.
(** What a value stands for: the bytes of a message that is encoded already, or the
    name and the encoding of a message from the granter that takes the same coins *)
Definition stands_for (granter : Addr) (m : CosmosMsg) (v : ProtoAny) : Prop :=
  match m with
  | MsgStargate url value => v = mkAny url value
  | _ => ∃ p, v = to_any p ∧ proto_sender p = Some granter ∧ proto_funds p = convert_coins (funds_of m)
  end.
Lemma named_any url p : type_url p = url → mkAny url (encode p) = to_any p.
Proof. by intros <-. Qed.
Lemma authz_value_stands_for {E} granter m v : authz_value (E:=E) granter m = Ok v → stands_for granter m v.
Proof.
  destruct m as [| | | |m|m| | | | | | |m|]; simpl; try done; try by (intros [= <-]; eexists; split; [reflexivity|]).
  - intros [= <-]. eexists. split; [apply named_any, url_instantiate2|done].
  - destruct m; intros [= <-]; (eexists; split; [reflexivity|done]).
  - destruct m; [intros [= <-]; (eexists; split; [reflexivity|done])..|done].
  - by intros [= <-].
  - destruct m; intros [= <-].
    + eexists. split; [apply named_any, url_vote|done].
    + eexists. split; [apply named_any, url_vote_weighted|done].
Qed.

(** A message executed for another account is that account's message.  [execute]
    makes a value of every message but burning coins, funding the community pool
    and custom ones, which trap.  What it returns is one message, the grantee's
    request to execute one value: of a message that is encoded already those
    bytes, and of any other the name and the encoding of a message from the granter
    that takes exactly the coins of the message it was made of. *)
Theorem authz_speaks_for_granter {E} (granter grantee : Addr) (m : CosmosMsg) :
  (is_ok (authz_execute (E:=E) granter grantee m) = true ↔ ¬ unsupported_by_authz m) ∧
  ∀ out, authz_execute (E:=E) granter grantee m = Ok out →
    ∃ v, out = stargate_msg (PMsgExec grantee [v]) ∧ stands_for granter m v.
Proof.
  split.
  - unfold authz_execute. by destruct m as [| | | |[]|[]| | | | | | |[]|]; simpl; split; auto.
  - unfold authz_execute. intros out Hrun. inv_ok. eexists. split; [reflexivity|]. by eapply authz_value_stands_for.
Qed.
End authz.

(** ** Expirations *)

(** A protobuf timestamp of an instant: nanoseconds below a second *)
Definition exact_stamp (t : Z) (p : ProtoTime) : Prop :=
  0 ≤ pt_nanos p < NANOS ∧ pt_seconds p * NANOS + pt_nanos p = t.
Lemma as_i_small w x : 0 < w → - 2 ^ (w - 1) ≤ x < 2 ^ (w - 1) → as_i w x = x.
Proof.
  intros Hw Hx. unfold as_i. rewrite Z.mod_small; [lia|].
  replace (2 ^ w) with (2 * 2 ^ (w - 1)); [lia|]. rewrite <-Z.pow_succ_r by lia. f_equal. lia.
Qed.
Lemma as_i_zero x : as_i 32 x = 0 ↔ x mod 2 ^ 32 = 0.
Proof.
  unfold as_i. change (2 ^ (32 - 1)) with 2147483648. change (2 ^ 32) with 4294967296.
  split; intros Hx; div_lia.
Qed.
Lemma nanos_divide s : (s * NANOS) mod 2 ^ 32 = 0 ↔ s mod 2 ^ 23 = 0.
Proof.
  rewrite !Z.mod_divide by done.
  replace (s * NANOS) with (2 ^ 9 * (1953125 * s)) by (unfold NANOS; lia).
  change (2 ^ 32) with (2 ^ 9 * 2 ^ 23). rewrite Z.mul_divide_cancel_l by done. split; [|by apply Z.divide_mul_r].
  intros Hd. by apply (Z.gauss _ 1953125).
Qed.

(** The expiration of a grant is seldom a time.  Of a whole number of seconds since
    the epoch the timestamp of a grant or an allowance is that instant exactly
    when the number is a multiple of two to the twenty-third: the field for the
    fraction of a second is filled with all nanoseconds, cut to 32 bits. *)
Theorem expiration_exact_iff (s : Z) (Hs : 0 ≤ s) (Hu : s * NANOS < 2 ^ 64) :
  exact_stamp (s * NANOS) (convert_stamp (s * NANOS)) ↔ s mod 2 ^ 23 = 0.
Proof.
  assert (seconds (s * NANOS) = s) as Hsec by (unfold seconds; by apply Z.div_mul).
  assert (as_i 64 s = s) as Hi.
  { apply as_i_small; [done|]. change (2 ^ (64 - 1)) with 9223372036854775808. unfold NANOS in *. lia. }
  unfold exact_stamp, convert_stamp. rewrite Hsec. cbn [pt_nanos pt_seconds]. rewrite Hi.
  rewrite <-nanos_divide, <-as_i_zero. unfold NANOS. split; lia.
Qed.

(** ** Distribution *)

Lemma slen_app a b : slen (a +:+ b) = slen a + slen b.
Proof. unfold slen. rewrite <-Nat2Z.inj_add. f_equal. induction a as [|c a IH]; [done|]. simpl. by f_equal. Qed.
(** The bytes of an array of numbers are more than the numbers. *)
Lemma concat_longer sep l : Forall (λ s, 1 ≤ slen s) l → Z.of_nat (List.length l) ≤ slen (String.concat sep l).
Proof.
  induction 1 as [|s l Hs Hl IH]; [done|]. destruct l as [|t l]; [simpl in *; lia|].
  change (String.concat sep (s :: t :: l)) with (s +:+ sep +:+ String.concat sep (t :: l)).
  rewrite !slen_app. cbn [List.length] in *. assert (0 ≤ slen sep) by (unfold slen; lia). lia.
Qed.
Lemma byte_text_length c : 1 ≤ slen (byte_text c).
Proof.
  enough (byte_text c ≠ "") as Hne.
  { destruct (byte_text c) as [|a t]; [done|]. unfold slen. simpl. lia. }
  destruct c as [[] [] [] [] [] [] [] []]; by vm_compute.
Qed.
Lemma json_longer b : slen b < slen (json_of_bytes b).
Proof.
  unfold json_of_bytes, join. rewrite !slen_app.
  assert (Z.of_nat (List.length (byte_text <$> list_ascii_of_string b)) = slen b) as Hl.
  { rewrite length_fmap. unfold slen. induction b as [|c b IH]; simpl in *; lia. }
  pose proof (concat_longer (String ","%char "") (byte_text <$> list_ascii_of_string b)
    ltac:(apply Forall_fmap, Forall_true; intros c; apply byte_text_length)) as Hc.
  rewrite Hl in Hc. change (slen "[") with 1. change (slen "]") with 1. lia.
Qed.

(** The distribution module is not sent its messages.  Each of the four actions is
    one message of the right type whose value is never the encoded message: it is
    the text of its bytes, which is longer. *)
Theorem distribution_value_differs `{Semver, Api, Instantiate2, CwOwnable, !Prost} (p : ProtoMsg) (a : AccountAction)
    (Ha : distribution_msg p = Ok a) :
  ∃ value, a = [MsgStargate (type_url p) value] ∧ value ≠ encode p ∧ slen (encode p) < slen value.
Proof.
  injection Ha as <-. eexists. split; [reflexivity|]. pose proof (json_longer (encode p)) as Hl.
  split; [|done]. intros Heq. rewrite Heq in Hl. lia.
Qed.

Module StargateExamples.
#[local] Existing Instance semver_ref.
#[local] Existing Instance api_ref.
#[local] Existing Instance instantiate2_ref.
#[local] Existing Instance RegistryExamples.ownable_ref.
#[local] Instance prost_ref : Prost := {|
  encode p := match p with PMsgDelegate d v c => d +:+ ">" +:+ v +:+ ":" +:+ pc_amount c | _ => "" end;
  type_url p := match p with
    | PMsgInstantiateContract2 _ _ _ _ _ _ _ _ => "/cosmwasm.wasm.v1.MsgInstantiateContract2"
    | PMsgVote _ _ _ => "/cosmos.gov.v1beta1.MsgVote"
    | PMsgVoteWeighted _ _ _ => "/cosmos.gov.v1beta1.MsgVoteWeighted"
    | PMsgDelegate _ _ _ => "/cosmos.staking.v1beta1.MsgDelegate"
    | _ => "/cosmos.authz.v1beta1.MsgExec"
    end
|}.
#[local] Instance prost_ref_laws : ProstLaws.
Proof. by split. Qed.
#[local] Instance body_ref : BodyText := {| body_text _ := "{}" |}.
Definition delegation : CosmosMsg := MsgStaking (Delegate "val1" (mkCoin "ujuno" 70)).
Lemma authz_speaks_for_granter_witness : ∃ v,
  authz_execute (E:=unit) "alice" "bob" delegation = Ok (stargate_msg (PMsgExec "bob" [v])) ∧ any_value v = "alice>val1:70" ∧
  stands_for "alice" delegation v.
Proof.
  pose proof (authz_speaks_for_granter (E:=unit) "alice" "bob" delegation) as [_ Hall].
  destruct (Hall _ eq_refl) as (v & Hv & Hs). exists (to_any (staking_proto "alice" (Delegate "val1" (mkCoin "ujuno" 70)))).
  split; [reflexivity|]. split; [reflexivity|]. eexists. split; [reflexivity|]. split; reflexivity.
Defined.
Lemma expiration_exact_iff_witness : ¬ exact_stamp (10 * NANOS) (convert_stamp (10 * NANOS)).
Proof.
  intros He. apply (expiration_exact_iff 10 ltac:(lia) ltac:(reflexivity)) in He. discriminate He.
Defined.
Lemma distribution_value_differs_witness :
  ∃ value, set_withdraw_address "alice" "bob" = Ok [MsgStargate "/cosmos.authz.v1beta1.MsgExec" value] ∧ value ≠ "".
Proof.
  destruct (distribution_value_differs (PMsgSetWithdrawAddress "alice" "bob") _ eq_refl) as (value & Hv & Hne & _).
  exists value. split; [exact (f_equal Ok Hv)|exact Hne].
Defined.
End StargateExamples.
