(* ===== verification/TendermintStaking.v ===== *)
(** * The tendermint staking adapter

    modules/contracts/adapters/tendermint-staking (contract.rs, staking.rs, msg.rs,
    error.rs): requests of an account to the staking and distribution modules of its
    chain, whose answers about delegations are a parameter. *)

From S2P Require Import Prelude Cosmos Strings Objects Names AccountIds Fees ModuleFactory Ownership AnsObjects Ans AnsClient Registry Clients Account Ibc IbcClient Sdk SdkApis Adapter.
From Stdlib Require Import Ascii String.
#[local] Open Scope string_scope.
#[local] Open Scope list_scope.
#[local] Open Scope Z_scope.

(** The staking module of the chain: the denomination that is bonded, the coin a
    delegator has at a validator, and all its delegations, by validator. *)
Class ChainStaking := {
  query_bonded_denom : option string;
  query_delegation : Addr → string → option (option Coin);
  query_all_delegations : Addr → option (list (string * Coin))
}.
(** The delegations of an account are at different validators, and are those the
    validators have. *)
Class ChainStakingLaws `{ChainStaking} : Prop := {
  delegations_distinct a l : query_all_delegations a = Some l → NoDup l.*1;
  delegations_agree a l v c : query_all_delegations a = Some l → (v, c) ∈ l → query_delegation a v = Some (Some c)
}.

(** ** Messages (msg.rs, error.rs) *)

Inductive TendermintStakingExecuteMsg : Type :=
  | TmDelegate (validator : string) (amount : Z)
  | TmUndelegateFrom (validator : string) (amount : option Z)
  | TmUndelegateAll
  | TmRedelegate (source_validator destination_validator : string) (amount : option Z)
  | TmSetWithdrawAddress (new_withdraw_address : string)
  | TmWithdrawDelegatorReward (validator : string)
  | TmWithdrawAllRewards.
Inductive TendermintStakeError : Type :=
  | TmStd (e : StdError)
  | TmSdk (e : SdkError)
  | TmAbstract (e : AbstractError)
  | TmAdapter (e : AdapterError).
#[export] Instance tm_contract_error : ContractError TendermintStakeError :=
  {| from_std := TmStd; from_sdk := TmSdk; from_abstract := TmAbstract |}.
#[export] Instance tm_adapter_error : AdapterContractError TendermintStakeError := TmAdapter.

Section staking.
Context `{Semver, Api, Instantiate2, CwOwnable, CoinsOps, Sha256, !Querier, !Registries, !ChainStaking}.

(** ** Messages for the chain (staking.rs) *)

Definition delegate_to (validator : string) (amount : Z) : outcome StdError CosmosMsg :=
  denom ← query_r query_bonded_denom;
  Ok (MsgStaking (Delegate validator (mkCoin denom amount))).
Definition undelegate_from (validator : string) (amount : Z) : outcome StdError CosmosMsg :=
  denom ← query_r query_bonded_denom;
  Ok (MsgStaking (Undelegate validator (mkCoin denom amount))).
Definition redelegate (source_validator destination_validator : string) (amount : Z) : outcome StdError CosmosMsg :=
  denom ← query_r query_bonded_denom;
  Ok (MsgStaking (Redelegate source_validator destination_validator (mkCoin denom amount))).
(** What the account has at a validator *)
Definition delegation_at (account_address : Addr) (validator : string) : outcome StdError Coin :=
  delegation ← query_r (query_delegation account_address validator);
  ok_or delegation (StdMsg ("OS not delegated to validator " +:+ validator)).
Definition redelegate_all (source_validator destination_validator : string) (account_address : Addr) :
    outcome StdError CosmosMsg :=
  amount ← delegation_at account_address source_validator;
  Ok (MsgStaking (Redelegate source_validator destination_validator amount)).
Definition update_withdraw_address (new_withdraw_address : string) : outcome StdError CosmosMsg :=
  _ ← addr_validate_r new_withdraw_address;
  Ok (MsgDistribution (SetWithdrawAddress new_withdraw_address)).
Definition withdraw_rewards (validator : string) : CosmosMsg := MsgDistribution (WithdrawDelegatorReward validator).
Definition withdraw_all_rewards (account_address : Addr) : outcome StdError (list CosmosMsg) :=
  delegations ← query_r (query_all_delegations account_address);
  Ok ((λ d : string * Coin, MsgDistribution (WithdrawDelegatorReward d.1)) <$> (delegations : list (string * Coin))).
Definition undelegate_all_from (account_address : Addr) (validator : string) : outcome StdError CosmosMsg :=
  amount ← delegation_at account_address validator;
  Ok (MsgStaking (Undelegate validator amount)).
Definition undelegate_all (account_address : Addr) : outcome StdError (list CosmosMsg) :=
  delegations ← query_r (query_all_delegations account_address);
  Ok ((λ d : string * Coin, MsgStaking (Undelegate d.1 d.2)) <$> (delegations : list (string * Coin))).

(** ** Requests (contract.rs) *)

Abbreviation TmState := (Adapter.State unit).
Abbreviation TmM := (M TmState TendermintStakeError).
Abbreviation TmResponse := (Response ModuleMsg).

(** [AdapterContract::target] *)
Definition target (target_account : option Addr) : outcome TendermintStakeError Addr :=
  ok_or target_account (TmAdapter (AdapterStd (StdMsg "No target Account specified to execute on."))).
(** The messages of a request *)
Definition request_messages (target_account : option Addr) (msg : TendermintStakingExecuteMsg) :
    outcome TendermintStakeError (list CosmosMsg) :=
  let once (m : outcome StdError CosmosMsg) : outcome TendermintStakeError (list CosmosMsg) :=
    m ← map_err TmStd m; Ok [m] in
  match msg with
  | TmDelegate validator amount => once (delegate_to validator amount)
  | TmUndelegateFrom validator (Some amount) => once (undelegate_from validator amount)
  | TmUndelegateFrom validator None => a ← target target_account; once (undelegate_all_from a validator)
  | TmUndelegateAll => a ← target target_account; map_err TmStd (undelegate_all a)
  | TmRedelegate source_validator destination_validator (Some amount) =>
      once (redelegate source_validator destination_validator amount)
  | TmRedelegate source_validator destination_validator None =>
      a ← target target_account; once (redelegate_all source_validator destination_validator a)
  | TmSetWithdrawAddress new_withdraw_address => once (update_withdraw_address new_withdraw_address)
  | TmWithdrawDelegatorReward validator => Ok [withdraw_rewards validator]
  | TmWithdrawAllRewards => a ← target target_account; map_err TmStd (withdraw_all_rewards a)
  end.
Definition handle_request (env : Env) (info : MessageInfo) (target_account : option Addr)
    (msg : TendermintStakingExecuteMsg) : TmM TmResponse :=
  msgs ← lift (request_messages target_account msg);
  msg ← lift (map_err TmSdk (executor_execute (Adapter.account target_account) ((λ m, [m]) <$> msgs)));
  mret (mkResponse "" [send msg]).

Definition TENDERMINT_STAKING : string := "abstract:tendermint-staking".
Definition TENDERMINT_VERSION : string := "0.26.1".
Definition TendermintStakeAdapter : Type := AbstractContract (option Addr) TmState TendermintStakeError ModuleMsg
  unit TendermintStakingExecuteMsg Empty_set unit unit.
Definition STAKING_ADAPTER : TendermintStakeAdapter :=
  mkContract (TENDERMINT_STAKING, TENDERMINT_VERSION, None) [] None (Some handle_request) None None None ([], []) None None.
End staking.
