(* ===== verification/IbcExamples.v ===== *)
(** * Two chains to evaluate the interchain contracts on

    The account "acc1" of juno, its client "client", and the host "host" on
    osmosis; a text encoding of the values the contracts write as JSON; and the
    theorems about client and host applied to a registration, a transfer with
    actions, and a dispatch to an account that does not exist yet. *)

From S2P Require Import Prelude Cosmos Strings Objects Names AccountIds Fees ModuleFactory Ownership AnsObjects Ans AnsProofs AnsClient Registry RegistryAccess Clients Account AccountInstall Ibc IbcClient IbcClientProofs IbcHost IbcHostProofs.
From Stdlib Require Import Ascii String.
#[local] Open Scope string_scope.
#[local] Open Scope list_scope.
#[local] Open Scope Z_scope.

(** ** Texts for the values of the contracts *)

Module Texts.
Fixpoint text_of_pos (p : positive) : string :=
  match p with xH => "" | xO p => String "0" (text_of_pos p) | xI p => String "1" (text_of_pos p) end.
Fixpoint pos_of_text (s : string) : positive :=
  match s with
  | EmptyString => xH
  | String c s => if decide (c = "0"%char) then xO (pos_of_text s) else xI (pos_of_text s)
  end.
Lemma pos_text_inverse p : pos_of_text (text_of_pos p) = p.
Proof. induction p as [p IH|p IH|]; simpl; by rewrite ?IH. Qed.
(** A text for every value of a countable type. *)
Definition text_of `{Countable A} (a : A) : string := text_of_pos (encode a).
Definition of_text `{Countable A} (s : string) : option A := decode (pos_of_text s).
Lemma text_inverse `{Countable A} (a : A) : of_text (text_of a) = Some a.
Proof. unfold of_text, text_of. by rewrite pos_text_inverse, decode_encode. Qed.

#[export] Instance AccountId_countable : Countable AccountId.
Proof.
  refine (inj_countable' (λ i, (match acc_trace i with Local => None | Remote l => Some l end, acc_seq i))
    (λ p, mkAccountId (match p.1 with None => Local | Some l => Remote l end) p.2) _).
  by intros [[] ?].
Defined.
#[export] Instance ModuleInfo_countable : Countable ModuleInfo.
Proof.
  refine (inj_countable' (λ i, (mi_namespace i, mi_name i,
      match mi_version i with Latest => None | Version v => Some v end))
    (λ p, mkModuleInfo p.1.1 p.1.2 (match p.2 with None => Latest | Some v => Version v end)) _).
  by intros [? ? []].
Defined.
#[export] Instance InstalledModule_eq_dec : EqDecision InstalledModuleIdentification.
Proof. solve_decision. Defined.
#[export] Instance InstalledModule_countable : Countable InstalledModuleIdentification.
Proof.
  refine (inj_countable' (λ i, (im_module_info i, im_account_id i)) (λ p, mkInstalledModule p.1 p.2) _).
  by intros [].
Defined.
#[export] Instance ModuleQuery_eq_dec : EqDecision ModuleQuery.
Proof. solve_decision. Defined.
#[export] Instance ModuleQuery_countable : Countable ModuleQuery.
Proof.
  refine (inj_countable' (λ q, (mq_target_module q, mq_msg q)) (λ p, mkModuleQuery p.1 p.2) _). by intros [].
Defined.
#[export] Instance WasmQuery_eq_dec : EqDecision WasmQuery.
Proof. solve_decision. Defined.
#[export] Instance WasmQuery_countable : Countable WasmQuery.
Proof.
  refine (inj_countable' (λ q, match q with Smart a m => inl (a, m) | OtherWasmQuery q => inr q end)
    (λ p, match p with inl x => Smart x.1 x.2 | inr q => OtherWasmQuery q end) _). by intros [].
Defined.
#[export] Instance QueryRequest_eq_dec {C} `{EqDecision C} : EqDecision (QueryRequest C).
Proof. solve_decision. Defined.
#[export] Instance QueryRequest_countable {C} `{Countable C} : Countable (QueryRequest C).
Proof.
  refine (inj_countable' (λ q, match q with
      | QueryCustom c => inl c
      | QueryWasm q => inr (inl q)
      | QueryBank q => inr (inr (0, q, "")) | QueryStaking q => inr (inr (1, q, ""))
      | QueryDistribution q => inr (inr (2, q, "")) | QueryStargate p d => inr (inr (3, p, d))
      | QueryIbc q => inr (inr (4, q, "")) | QueryGrpc q => inr (inr (5, q, ""))
      end)
    (λ p, match p with
      | inl c => QueryCustom c
      | inr (inl q) => QueryWasm q
      | inr (inr (0, q, _)) => QueryBank q | inr (inr (1, q, _)) => QueryStaking q
      | inr (inr (2, q, _)) => QueryDistribution q | inr (inr (3, p, d)) => QueryStargate p d
      | inr (inr (4, q, _)) => QueryIbc q | inr (inr (_, q, _)) => QueryGrpc q
      end) _).
  by intros [].
Defined.
#[export] Instance Callback_eq_dec : EqDecision Callback.
Proof. solve_decision. Defined.
#[export] Instance IbcClientCallback_eq_dec : EqDecision IbcClientCallback.
Proof. solve_decision. Defined.
#[export] Instance IbcClientCallback_countable : Countable IbcClientCallback.
Proof.
  refine (inj_countable' (λ c, match c with
      | ModuleRemoteAction a c m => inl (a, callback_msg c, m)
      | ModuleRemoteQuery a c q => inr (inl (a, callback_msg c, q))
      | CreateAccount id => inr (inr (Some id))
      | WhoAmI => inr (inr None)
      end)
    (λ p, match p with
      | inl (a, c, m) => ModuleRemoteAction a (mkCallback c) m
      | inr (inl (a, c, q)) => ModuleRemoteQuery a (mkCallback c) q
      | inr (inr (Some id)) => CreateAccount id
      | inr (inr None) => WhoAmI
      end) _).
  by intros [? [] ?|? [] ?| |].
Defined.
End Texts.

Module IbcExamples.
Import Texts.
#[local] Existing Instance semver_ref.
#[local] Existing Instance api_ref.
#[local] Existing Instance api_ref_laws.
#[local] Existing Instance instantiate2_ref.
#[local] Existing Instance RegistryExamples.ownable_ref.
#[local] Existing Instance coins_ref.
#[local] Existing Instance sha256_ref.
#[local] Existing Instance AnsExamples.asset_ref.

Ltac evaluate := match goal with |- _ = ?b => vm_cast_no_check (eq_refl b) end.

(** The texts of memos are not read back: one text stands for them all. *)
#[local] Instance json : IbcJson := {|
  callback_to_json := text_of;
  callback_from_json := of_text;
  module_query_to_json m q := text_of m +:+ q;
  memo_to_json _ := "memo";
  account_id_to_json := text_of;
  transfer_sequence s := parse_u 64 s
|}.
#[local] Instance json_laws : IbcJsonLaws.
Proof.
  split; simpl.
  - apply text_inverse.
  - intros a b Hab. apply (f_equal (of_text (A:=AccountId))) in Hab. rewrite !text_inverse in Hab. by injection Hab.
Qed.
#[local] Instance utils : CwUtils := {|
  one_coin l := match l with [c] => if decide (amount c = 0) then None else Some c | _ => None end;
  parse_execute_response_data s := Some (Some s);
  page_length o := Z.to_nat (default 10 o)
|}.
#[local] Instance utils_laws : CwUtilsLaws.
Proof.
  split. simpl. intros l c. destruct l as [|x [|]]; try done. by case_decide; intros [= ->].
Qed.

Definition acc1 : AccountId := mkAccountId Local 1.
(** The account of acc1 on osmosis. *)
Definition acc1_on_osmosis : AccountId := mkAccountId (Remote ["juno"]) 1.
Definition account_module (v : string) : ModuleInfo := mkModuleInfo "abstract" "account" (Version v).

Definition juno_registry : Registry.State :=
  Registry.set_account_addresses (list_to_map [(akey acc1, "acc1")]) Registry.empty_state.
(** The registry of osmosis, before and after the account is created. *)
Definition osmosis_registry : Registry.State :=
  Registry.set_registered (list_to_map [(mkey (account_module "1.0.0"), RefAccount 3)]) Registry.empty_state.
Definition osmosis_registry' : Registry.State :=
  Registry.set_account_addresses (list_to_map [(akey acc1_on_osmosis, "acc1-osmo")]) osmosis_registry.
Definition registries (st : Registry.State) : Registries := {|
  registry_state a := if decide (a = "deployer/reg") then Some st else None
|}.
#[local] Instance ans_hosts : AnsHosts := {|
  ans_state a := if decide (a = "deployer/ans") then
    Some (Ans.set_channels (list_to_map [(mkChannelEntry "osmosis" "ics-20", "channel-0");
      (mkChannelEntry "juno" "ics-20", "channel-42")]) Ans.empty_state) else None
|}.
#[local] Instance chain_accounts : Accounts := {|
  account_state _ := Some Account.empty_state;
  app_account _ := None;
  smart_query_of _ _ := None
|}.
#[local] Instance querier : Querier := {|
  wasm_contract_info a := Some (mkContractInfo 1 None);
  wasm_code_info _ := Some (mkCodeInfo "deployer" "checksum");
  cw2_contract _ := None;
  account_id_of a := if decide (a = "acc1") then Some acc1 else None;
  module_data_of _ := None;
  ownership_of _ := None;
  nft_owner_of _ _ := None;
  calling_to_as_admin_of _ := None;
  registry_account_of _ _ := None
|}.
#[local] Instance no_modules : ModuleQueries := {|
  authorized_addresses_of _ _ := None;
  ica_action_of _ _ := None;
  module_factory_at _ := false
|}.

(** ** The client on juno *)

Definition client_env : Env := mkEnv (mkBlock 1 0 "juno-1") "client".
Definition by_admin : MessageInfo := mkInfo "admin" [].
Definition by_acc1 : MessageInfo := mkInfo "acc1" [mkCoin "ujuno" 7].
Definition by_note : MessageInfo := mkInfo "note" [].
#[local] Instance juno : Registries := registries juno_registry.

Definition client_run (s : IbcClient.State) (i : MessageInfo) (m : IbcClient.ExecuteMsg) :=
  IbcClient.execute client_env i m s.
Definition c0 : IbcClient.State := commit IbcClient.empty_state (IbcClient.instantiate by_admin IbcClient.empty_state).
Definition c1 : IbcClient.State :=
  commit c0 (client_run c0 by_admin (RegisterInfrastructure "osmosis" "note" "host")).
(** The answer to the registration of acc1: the event names its address. *)
Definition created : CallbackMessage := mkCallbackMessage "client" (text_of (CreateAccount acc1))
  (CallbackExecute (ExecutionSuccess (mkExecutionResponse "proxy"
    [mkSubMsgResponse [mkEvent "wasm-abstract" [("account_address", "acc1-osmo")]]]))).
Definition c2 : IbcClient.State := commit c1 (client_run c1 by_note (ReceiveCallback created)).

Lemma c1_reachable : IbcClientProofs.reachable c1.
Proof.
  unfold c1. destruct (client_run _ _ _) as [[r s]|e|] eqn:Hrun; simpl.
  - eapply IbcClientProofs.reachable_call; [|exact Hrun]. by eapply (IbcClientProofs.reachable_init by_admin).
  - by eapply (IbcClientProofs.reachable_init by_admin).
  - by eapply (IbcClientProofs.reachable_init by_admin).
Qed.
Lemma infra_bijection_witness : reverse_polytone_note c1 !! "note" = Some "osmosis" ∧
  ∃ i, ibc_infra c1 !! "osmosis" = Some i ∧ polytone_note i = "note".
Proof.
  assert (reverse_polytone_note c1 !! "note" = Some "osmosis") as Hn by (vm_compute; reflexivity).
  split; [exact Hn|].
  exact (proj2 (proj1 (infra_bijection c1 c1_reachable) "osmosis" "note") Hn).
Defined.

Lemma callback_runs : is_ok (client_run c1 by_note (ReceiveCallback created)) = true.
Proof. vm_compute. reflexivity. Qed.

(** A transfer of 7 ujuno with one action, sent as packet 5. *)
Definition sending : M IbcClient.State IbcClientError (Response ClientMsg) :=
  IbcClient.execute client_env by_acc1 (SendFundsWithActions "osmosis" ["swap"]).
Definition c3 : IbcClient.State := commit c2 (sending c2).
Definition sent_reply : M IbcClient.State IbcClientError (Response ClientMsg) :=
  IbcClient.reply SEND_FUNDS_WITH_ACTIONS_REPLY_ID (Ok (Some "5")).
Lemma sending_runs : is_ok (sending c2) = true.
Proof. vm_compute. reflexivity. Qed.
Lemma sent_reply_runs : is_ok (sent_reply c3) = true.
Proof. vm_compute. reflexivity. Qed.

(** ** The host on osmosis *)

Definition host_env : Env := mkEnv (mkBlock 1 0 "osmosis-1") "host".
Definition by_proxy : MessageInfo := mkInfo "proxy" [].
#[local] Instance osmosis : Registries := registries osmosis_registry.
Definition host_run (s : IbcHost.State) (i : MessageInfo) (m : HostExecuteMsg) :=
  IbcHost.execute host_env i m s.
Definition h0 : IbcHost.State :=
  commit IbcHost.empty_state (IbcHost.instantiate by_admin IbcHost.empty_state).
Definition h1 : IbcHost.State := commit h0 (host_run h0 by_admin (RegisterChainProxy "juno" "proxy")).
Lemma h1_reachable : IbcHostProofs.reachable h1.
Proof.
  unfold h1. destruct (host_run _ _ _) as [[r s]|e|] eqn:Hrun; simpl.
  - eapply IbcHostProofs.reachable_call; [|exact Hrun]. by eapply (IbcHostProofs.reachable_init by_admin).
  - by eapply (IbcHostProofs.reachable_init by_admin).
  - by eapply (IbcHostProofs.reachable_init by_admin).
Qed.
Lemma proxies_bijection_witness : reverse_chain_proxies h1 !! "proxy" = Some "juno" ∧
  chain_proxies h1 !! "juno" = Some "proxy".
Proof.
  assert (reverse_chain_proxies h1 !! "proxy" = Some "juno") as Hp by (vm_compute; reflexivity).
  split; [exact Hp|]. exact (proj2 (proj1 (proxies_bijection h1 h1_reachable) "juno" "proxy") Hp).
Defined.

(** acc1 has its account on osmosis run a message; the account does not exist. *)
Definition dispatched : HostAction := Dispatch [Account.Execute [OtherMsg "swap"]].
Definition dispatching := host_run h1 by_proxy (HostExecute acc1 "acc1" dispatched).
Definition h2 : IbcHost.State := commit h1 dispatching.
Lemma dispatching_runs : is_ok dispatching = true.
Proof. vm_compute. reflexivity. Qed.

Lemma proxy_of_juno c : reverse_chain_proxies h1 !! sender by_proxy = Some c → c = "juno".
Proof.
  assert (reverse_chain_proxies h1 !! sender by_proxy = Some "juno") as Hp by (vm_compute; reflexivity).
  intros Hc. pose proof (eq_trans (eq_sym Hp) Hc) as Heq. by injection Heq.
Qed.
Lemma host_actions_isolated_witness : ∃ r s, dispatching = Ok (r, s) ∧
  ∀ x, x ∈ messages r → creates host_env acc1 "juno" (msg_of x).
Proof.
  pose proof dispatching_runs as Hok. destruct dispatching as [[r s]|e|] eqn:Hrun; [|discriminate Hok..].
  exists r, s. split; [reflexivity|]. intros x Hx.
  destruct (proj1 (host_actions_isolated querier osmosis host_env by_proxy _ h1 r s Hrun) x Hx)
    as [(c & i & ad & ac & a & m & [= <- <- <-] & Hc & Ha & _)|[(c & i & ad & ac & [= <- <- <-] & Hc & Hm)
    |[(c & i & [=] & _)|(c & so & t & m & mo & [=] & _)]]];
    apply proxy_of_juno in Hc as ->; [|exact Hm].
  vm_compute in Ha. discriminate Ha.
Defined.

(** The account is created; the reply runs the message on it. *)
Definition after_creation :=
  IbcHost.reply (H7:=registries osmosis_registry') host_env INIT_BEFORE_ACTION_REPLY_ID (Ok None).
Lemma created_then_acted_witness :
  ∃ r, after_creation h2 = Ok ((r, None), h1) ∧
    messages r = [reply_on_success (AccountCall "acc1-osmo" (Account.Execute [OtherMsg "swap"]))
      RESPONSE_REPLY_ID].
Proof.
  pose proof dispatching_runs as Hok. unfold h2.
  destruct dispatching as [[r s]|e|] eqn:Hrun; [|discriminate Hok..]. simpl.
  destruct (created_then_acted querier osmosis host_env by_proxy acc1 "acc1" dispatched h1 r s
    ltac:(intros a Hd; discriminate Hd) ltac:(vm_compute; reflexivity) Hrun) as (c & Hc & Hcase).
  apply proxy_of_juno in Hc as ->.
  destruct Hcase as [(account & Ha & _)|(m & _ & _ & Hreply)]; [vm_compute in Ha; discriminate Ha|].
  assert (account_from (R:=registries osmosis_registry') host_env "juno" acc1 "acc1-osmo") as Ha
    by (vm_compute; reflexivity).
  set (r' := receive_dispatch "acc1-osmo" [Account.Execute [OtherMsg "swap"]]). exists r'.
  split; [|reflexivity]. unfold after_creation.
  exact (proj2 (Hreply _ _ _ (Ok None) _ Ha (r', None) h1) (conj eq_refl (conj eq_refl eq_refl))).
Defined.

(** The message of the host instantiates the account. *)
Definition asked : AccountInstantiateMsg :=
  create_account_msg host_env 3 acc1_on_osmosis
    (Some (default_account_name "juno" acc1_on_osmosis)) None None None [].
Definition account_env : Env := mkEnv (mkBlock 1 0 "osmosis-1") "acc1-osmo".
Definition by_host : MessageInfo := mkInfo "host" [].
Lemma host_owns_accounts_witness :
  ∃ st, account_id st = Some acc1_on_osmosis ∧
    ownership st = Some (mkOwnership (External "host" "abstract-ibc") None None).
Proof.
  assert (is_ok (Account.instantiate account_env by_host asked Account.empty_state) = true) as Hok
    by (vm_compute; reflexivity).
  destruct (Account.instantiate account_env by_host asked Account.empty_state) as [[r st]|e|] eqn:Hi;
    [clear Hok|discriminate Hok..].
  destruct (host_owns_accounts querier osmosis host_env account_env by_host acc1 "juno" (Some "any") 3
    (show_account_id acc1_on_osmosis) (text_of acc1_on_osmosis) asked [] r st) as (Hid & Hown & _);
    [|exact Hi|by exists st].
  exists "any", 3, (Some (default_account_name "juno" acc1_on_osmosis)), None, None, None, [], [].
  split; [evaluate|vm_compute; reflexivity].
Defined.

(** A module call of acc1 acts for its account on osmosis, and back. *)
Lemma module_account_id_travels_witness :
  ∃ id, client_to_host_module_account_id (E:=HostError) host_env "juno" acc1 = Ok id ∧
    client_to_host_module_account_id (E:=HostError) client_env "osmosis" id = Ok acc1.
Proof.
  destruct (module_account_id_travels HostError host_env client_env "juno" acc1
    ltac:(vm_compute; reflexivity)) as (_ & Hround & _).
  apply Hround. vm_compute. done.
Defined.
End IbcExamples.
