(* ===== verification/AccountExamples.v ===== *)
(** * A chain to evaluate the account and the module factory on

    One account, "acc1", owned by "alice"; a registry with an app "dex" that
    depends on an adapter "price"; and the theorems about accounts and the
    factory applied to its calls. *)

From S2P Require Import Prelude Cosmos Strings Objects Names AccountIds Fees ModuleFactory Ownership Registry RegistryProofs RegistryAccess Clients Account AccountProofs AccountAdmin AccountModules AccountInstall.
From Stdlib Require Import Ascii String.
#[local] Open Scope string_scope.
#[local] Open Scope list_scope.
#[local] Open Scope Z_scope.

Module AccountExamples.
#[local] Existing Instance semver_ref.
#[local] Existing Instance api_ref.
#[local] Existing Instance instantiate2_ref.
#[local] Existing Instance RegistryExamples.ownable_ref.
#[local] Existing Instance coins_ref.
#[local] Existing Instance coins_ref_laws.
#[local] Existing Instance sha256_ref.
#[local] Existing Instance json_ref.

Definition dex (v : string) : ModuleInfo := mkModuleInfo "abstract" "dex" (Version v).
Definition price (v : string) : ModuleInfo := mkModuleInfo "abstract" "price" (Version v).
Definition acc1 : AccountId := mkAccountId Local 1.

(** Equality of two closed terms, by evaluation: the types, which hold the
    structures the definitions are generic in, are not normalised. *)
Ltac evaluate := match goal with |- _ = ?b => vm_cast_no_check (eq_refl b) end.

(** The registry: the app costs a fee of 5 and needs 2 to start. *)
Definition registry0 : Registry.State :=
  set_config (Some (mkConfig true None))
  (set_registered (list_to_map [(mkey (dex "1.0.0"), RefApp 7); (mkey (dex "2.0.0"), RefApp 8);
     (mkey (price "1.0.0"), RefAdapter "price0")])
  (set_module_config (list_to_map [(mkey (dex "1.0.0"),
     mkModuleConfiguration (InstallFee (mkFixedFee (mkCoin "uabs" 5))) None [mkCoin "uabs" 2])])
  (set_account_addresses (list_to_map [(akey ABSTRACT_ACCOUNT_ID, "acc0"); (akey acc1, "acc1")])
  (set_local_account_sequence (Some 2)
  (set_namespaces {["abstract" := ABSTRACT_ACCOUNT_ID]} Registry.empty_state))))).
#[local] Instance registries : Registries := {|
  registry_state a := if decide (a = "deployer/reg") then Some registry0 else None
|}.

(** The address of the app: created by the factory with the account's salt. *)
Definition dex_addr : Addr := "deployer/mf/local-1abstract".
(** The dependencies of the app, in the version before and after an upgrade. *)
Definition on_price : list Dependency := [mkDependency "abstract:price" ["1.0.0"]].
Definition chain_with (v : string) (deps : list Dependency) : Querier := {|
  wasm_contract_info a :=
    if decide (a = "acc1" ∨ a = "deployer/mf") then Some (mkContractInfo 1 None) else None;
  wasm_code_info _ := Some (mkCodeInfo "deployer" "checksum");
  cw2_contract a :=
    if decide (a = dex_addr) then Some (mkContractVersion "abstract:dex" v)
    else if decide (a = "price0") then Some (mkContractVersion "abstract:price" "1.0.0") else None;
  account_id_of a := if decide (a = "acc1") then Some acc1 else None;
  module_data_of a :=
    if decide (a = dex_addr) then Some (mkModuleData "abstract:dex" v deps None)
    else if decide (a = "price0") then Some (mkModuleData "abstract:price" "1.0.0" [] None) else None;
  ownership_of _ := None;
  nft_owner_of _ _ := None;
  calling_to_as_admin_of _ := None;
  registry_account_of _ _ := None
|}.
#[local] Instance chain : Querier := chain_with "1.0.0" on_price.
#[local] Instance module_queries : ModuleQueries := {|
  authorized_addresses_of _ _ := Some [];
  ica_action_of _ _ := None;
  module_factory_at a := bool_decide (a = "deployer/mf")
|}.

Definition env : Env := mkEnv (mkBlock 1 0 "juno-1") "acc1".
Definition by_alice : MessageInfo := mkInfo "alice" [mkCoin "uabs" 7].
Definition creation : AccountInstantiateMsg :=
  mkAccountInit 1 (Some (Monarchy "alice")) (Some acc1) None [] (Some "savings") None None.
Definition to_install : list ModuleInstallConfig :=
  [mkInstall (dex "1.0.0") (Some "{}"); mkInstall (price "1.0.0") None].

(** The account after its creation, and after each of the calls below. *)
Definition s0 : State := commit empty_state (instantiate env by_alice creation empty_state).
Definition installing : M State AccountError (Response CosmosMsg) :=
  execute env by_alice (InstallModules to_install).
Definition s1 : State := commit s0 (installing s0).
Definition installed_reply : M State AccountError (Response CosmosMsg * option string) :=
  reply REGISTER_MODULES_DEPENDENCIES_REPLY_ID (Ok None).
Definition s2 : State := commit s1 (installed_reply s1).

Lemma creation_ok : is_ok (instantiate env by_alice creation empty_state) = true.
Proof. vm_compute. reflexivity. Qed.
Lemma installing_ok : is_ok (installing s0) = true.
Proof. vm_compute. reflexivity. Qed.
Lemma installed_ok : is_ok (installed_reply s1) = true.
Proof. vm_compute. reflexivity. Qed.
Lemma s2_modules : account_modules s2 !! "abstract:dex" = Some dex_addr ∧
  "abstract:dex" ∈ dependents_of s2 "abstract:price".
Proof. split; vm_compute; reflexivity. Qed.

(** The messages a call answers. *)
Definition answered {E S} (o : outcome E (Response CosmosMsg * S)) : list (SubMsg CosmosMsg) :=
  match o with Ok (r, _) => messages r | _ => [] end.
Lemma creation_answers : answered (instantiate env by_alice creation empty_state) =
  [send (WasmExecute "deployer/reg" (ToRegistry (Registry.AddAccount None "alice")) [])].
Proof. evaluate. Qed.

(** ** Creation *)


(** ** The module factory *)

Definition factory_env : Env := mkEnv (mkBlock 1 0 "juno-1") "deployer/mf".
Definition from_account : MessageInfo := mkInfo "acc1" [mkCoin "uabs" 7].
Definition factory_modules : list FactoryModuleInstallConfig :=
  [mkFactoryInstall (dex "1.0.0") (Some "{}"); mkFactoryInstall (price "1.0.0") None].
Definition factory_call : M ModuleFactory.State ModuleFactoryError (Response CosmosMsg) :=
  ModuleFactory.execute factory_env from_account
    (ModuleFactory.InstallModules factory_modules "local-1abstract").
Lemma installing_answers : answered (installing s0) =
  [reply_on_success (WasmExecute "deployer/mf" (ToModuleFactory factory_modules "local-1abstract")
    [mkCoin "uabs" 7]) REGISTER_MODULES_DEPENDENCIES_REPLY_ID].
Proof. evaluate. Qed.
Lemma factory_ok : is_ok (factory_call ModuleFactory.empty_state) = true.
Proof. vm_compute. reflexivity. Qed.

Lemma simulation_exact_witness :
  ∃ resp, query_simulate_install_modules factory_env [dex "1.0.0"; price "1.0.0"] = Ok resp ∧
    total_required_funds resp = [mkCoin "uabs" 7].
Proof.
  pose proof factory_ok as Hok.
  destruct (factory_call ModuleFactory.empty_state) as [[r s]|e|] eqn:He; [|discriminate Hok..].
  exact (simulation_exact factory_env from_account factory_modules "local-1abstract" _ _ _ He).
Defined.

Lemma install_funds_conserved_witness :
  ∃ msgs k, sent "uabs" msgs + k = 7 ∧ is_ok (factory_call ModuleFactory.empty_state) = true.
Proof.
  pose proof factory_ok as Hok.
  destruct (factory_call ModuleFactory.empty_state) as [[r s]|e|] eqn:He; [|discriminate Hok..].
  destruct (install_funds_conserved factory_env from_account factory_modules "local-1abstract"
    _ _ _ "uabs" He) as (msgs & code_id & registry & resps & _ & _ & _ & _ & Hs).
  exists msgs, (total "uabs" (mjoin (kept_funds <$> resps))). split; [exact Hs|reflexivity].
Defined.

Lemma install_addresses_agree_witness :
  ∃ rf, ok (factory_call ModuleFactory.empty_state) = Some rf ∧
    ∃ ctx, install_modules_context s1 = Some ctx ∧
      omap (instantiated_at "deployer/mf") (msg_of <$> messages rf.1) = omap snd ctx.
Proof.
  pose proof factory_ok as Hok. pose proof installing_ok as Hok1. unfold s1.
  destruct (factory_call ModuleFactory.empty_state) as [[rf sf]|e|] eqn:Hf; [|discriminate Hok..].
  exists (rf, sf). split; [reflexivity|].
  destruct (installing s0) as [[r s]|e|] eqn:He; [|discriminate Hok1..].
  assert (messages r = [reply_on_success (WasmExecute (contract_address factory_env)
    (ToModuleFactory factory_modules "local-1abstract") (funds by_alice))
    REGISTER_MODULES_DEPENDENCIES_REPLY_ID]) as Hmsg.
  { pose proof installing_answers as Ha. rewrite He in Ha. exact Ha. }
  destruct (install_addresses_agree env factory_env by_alice to_install factory_modules
    "local-1abstract" s0 s ModuleFactory.empty_state sf r rf He Hmsg) as (ctx & adds & Hctx & Ho & _); [|exact Hf|].
  - intros c c' Hc Hc'. vm_compute in Hc, Hc'. congruence.
  - exists ctx. split; [exact Hctx|exact Ho].
Defined.

(** ** The whitelist *)

Lemma s0_reachable : AccountProofs.reachable s0.
Proof.
  pose proof creation_ok as Hok. unfold s0.
  destruct (instantiate env by_alice creation empty_state) as [[r s]|e|] eqn:He; [|discriminate Hok..].
  exact (AccountProofs.reachable_init chain registries module_queries env by_alice creation r s He).
Qed.
Lemma s2_reachable : AccountProofs.reachable s2.
Proof.
  unfold s2, installed_reply, s1, installing.
  eapply AccountProofs.reachable_step; [|apply (step_reply _ chain registries module_queries)].
  eapply AccountProofs.reachable_step; [|apply (step_execute _ chain registries module_queries)].
  exact s0_reachable.
Qed.

Lemma whitelist_bounded_witness :
  ∃ w, whitelisted_modules s2 = Some w ∧ w = [dex_addr; "price0"] ∧ NoDup w.
Proof.
  destruct (whitelist_bounded s2 s2_reachable) as (w & Hw & Hnd & _).
  exists w. split; [exact Hw|]. split; [|exact Hnd].
  vm_compute in Hw. injection Hw as <-. reflexivity.
Defined.

Lemma update_whitelist_spec_witness :
  update_whitelisted_modules ["bob"] ["price0"] s2
  = Ok (tt, set_whitelisted_modules (Some [dex_addr; "bob"]) s2).
Proof.
  refine (proj2 (update_whitelist_spec ["bob"] ["price0"] s2 _ [dex_addr; "price0"] tt eq_refl _) _).
  - apply (bool_decide_unpack _). vm_compute. exact I.
  - split_and!; [apply (bool_decide_unpack _); vm_compute; exact I..|intros x; set_solver
                |vm_compute; discriminate|reflexivity].
Defined.

(** ** Authorisation and administrator calls *)

(** The app has the account send coins. *)
Definition by_dex : MessageInfo := mkInfo dex_addr [].
Definition payment : ExecuteMsg := Execute [MsgBankSend "bob" [mkCoin "uabs" 1]].
Lemma payment_ok : is_ok (execute env by_dex payment s2) = true.
Proof. vm_compute. reflexivity. Qed.
Lemma account_authorization_witness : may_execute s2 env dex_addr.
Proof.
  pose proof payment_ok as Hok.
  destruct (execute env by_dex payment s2) as [[r s]|e|] eqn:He; [|discriminate Hok..].
  exact (proj1 (proj2 (account_authorization env by_dex payment s2 s r He))).
Defined.

(** The owner administers the app. *)
Definition to_dex : ExecuteMsg := AdminExecuteOnModule "abstract:dex" "{}".
Definition administering : M State AccountError (Response CosmosMsg) := execute env by_alice to_dex.
Definition s3 : State := set_calling_to_as_admin (Some dex_addr) s2.
Lemma administering_is_ok : is_ok (administering s2) = true.
Proof. vm_compute. reflexivity. Qed.
Lemma administering_spec s r s' a :
  account_modules s !! "abstract:dex" = Some a → administering s = Ok (r, s') →
  s' = set_calling_to_as_admin (Some a) s ∧ messages r =
    [reply_on_success (WasmExecute a (Raw "{}") [mkCoin "uabs" 7]) ADMIN_ACTION_REPLY_ID].
Proof.
  intros Hdex He. apply execute_inv in He as [[_ He]|(b & [=] & _)].
  apply bind_Ok in He as (a' & t & Ha & He). unfold load_module_addr in Ha. inv_ok.
  rewrite Hdex in *. simplify_eq. by apply admin_execute_spec in He as (_ & _ & -> & Hr).
Qed.
Lemma administering_ok : ∃ r, administering s2 = Ok (r, s3) ∧ messages r =
  [reply_on_success (WasmExecute dex_addr (Raw "{}") [mkCoin "uabs" 7]) ADMIN_ACTION_REPLY_ID].
Proof.
  pose proof administering_is_ok as Hok.
  destruct (administering s2) as [[r s]|e|] eqn:He; [|discriminate Hok..].
  destruct (administering_spec s2 r s dex_addr (proj1 s2_modules) He) as [-> Hr].
  exists r. split; [reflexivity|exact Hr].
Qed.

Lemma s2_no_call : calling_to_as_admin s2 = None.
Proof. vm_compute. reflexivity. Qed.
Lemma admin_call_granted_witness : nested_owner (ownership s2) "alice".
Proof.
  destruct administering_ok as (r & He & _).
  refine (proj1 (admin_call_granted env by_alice to_dex s2 s3 r He _)).
  rewrite s2_no_call. discriminate.
Defined.

(** The account is created; then the owner administers the app, which calls
    back to have the account pay. *)
Lemma s0_at_rest : at_rest s0.
Proof.
  pose proof creation_ok as Hok. pose proof creation_answers as Ha. unfold s0.
  destruct (instantiate env by_alice creation empty_state) as [[r s]|e|] eqn:He; [|discriminate Hok..].
  eapply (at_rest_created chain registries module_queries env by_alice creation r s s He).
  cbn [answered] in Ha. rewrite Ha. apply (dispatch_send _ _ s s s); constructor.
Qed.
(** A payment sends its messages and leaves the account as it was. *)
Lemma payment_keeps s r s' :
  execute env by_dex payment s = Ok (r, s') → s' = s ∧ messages r = [send (MsgBankSend "bob" [mkCoin "uabs" 1])].
Proof.
  intros He. apply execute_inv in He as [[_ He]|(b & [=] & _)].
  apply bind_Ok in He as (u & t & Hg & He). apply may_execute_guard in Hg as [_ ->]. by inv_ok.
Qed.
Lemma payment_s3_ok : is_ok (execute env by_dex payment s3) = true.
Proof. vm_compute. reflexivity. Qed.
Lemma call_back : calls s3 s3.
Proof.
  pose proof payment_s3_ok as Hok.
  destruct (execute env by_dex payment s3) as [[r s]|e|] eqn:He; [|discriminate Hok..].
  pose proof (payment_keeps _ _ _ He) as [-> Hr].
  eapply calls_cons; [|constructor].
  eapply (call_execute chain registries module_queries env by_dex payment s3 r s3 s3 He).
  rewrite Hr. apply (dispatch_send _ _ s3 s3 s3); constructor.
Qed.
Lemma administered : calls s2 (set_calling_to_as_admin None s3).
Proof.
  destruct administering_ok as (r & He & Hr).
  eapply calls_cons; [|constructor].
  eapply (call_execute chain registries module_queries env by_alice to_dex s2 r s3 _ He).
  rewrite Hr. eapply (dispatch_reply chain registries module_queries _ _ (Ok None) [] s3 s3
    (mkResponse "" [], None)); [exact call_back| |constructor|constructor].
  unfold reply. rewrite decide_False by done. by rewrite decide_True by done.
Qed.
Lemma admin_calls_transient_witness :
  (calling_to_as_admin s0 = None ∧ migrate_context s0 = Some []) ∧
  calling_to_as_admin (set_calling_to_as_admin None s3) = None.
Proof.
  destruct (admin_calls_transient s0 s2 _ s0_at_rest administered) as [H1 [[H2|H2] _]].
  - split; [exact H1|]. rewrite H2. exact s2_no_call.
  - split; [exact H1|exact H2].
Defined.

(** ** The graph of dependencies *)

Definition installed_context : list (Module_ * option Addr) :=
  [(mkModule (dex "1.0.0") (RefApp 7), Some dex_addr); (mkModule (price "1.0.0") (RefAdapter "price0"), None)].
Lemma s1_context : install_modules_context s1 = Some installed_context.
Proof. evaluate. Qed.
Lemma install_registers_witness :
  ∃ r s, installed_reply s1 = Ok (r, s) ∧ registered_module s (mkModule (dex "1.0.0") (RefApp 7)).
Proof.
  pose proof installed_ok as Hok.
  destruct (installed_reply s1) as [[r s]|e|] eqn:He; [|discriminate Hok..].
  exists r, s. split; [reflexivity|].
  destruct (install_registers (Ok None) installed_context s1 s r s1_context He) as (_ & Hr & _).
  refine (proj2 (Hr _ (Some dex_addr) _)). left.
Defined.

(** Uninstalling the app, which nothing depends on. *)
Lemma s2_map : account_modules s2 = {["abstract:dex" := dex_addr; "abstract:price" := "price0"]}.
Proof. evaluate. Qed.
Lemma dex_data : ok_or (module_data_of dex_addr) tt = Ok (mkModuleData "abstract:dex" "1.0.0" on_price None).
Proof. evaluate. Qed.
Lemma price_data : ok_or (module_data_of "price0") tt = Ok (mkModuleData "abstract:price" "1.0.0" [] None).
Proof. evaluate. Qed.
Lemma s2_closed : dependencies_closed s2.
Proof.
  intros m l x (a & data & Ha & Hdata & <-) Hx. rewrite s2_map in Ha.
  apply lookup_insert_Some in Ha as [[<- <-]|[_ Ha]].
  - assert (md_dependencies data = on_price) as Hd.
    { pose proof dex_data as He. rewrite Hdata in He. by injection He as ->. }
    rewrite Hd in Hx. apply list_elem_of_singleton in Hx. subst x.
    split; [rewrite s2_map; by eexists|exact (proj2 s2_modules)].
  - apply lookup_singleton_Some in Ha as [<- <-].
    assert (md_dependencies data = []) as Hd.
    { pose proof price_data as He. rewrite Hdata in He. by injection He as ->. }
    rewrite Hd in Hx. by apply elem_of_nil in Hx.
Qed.
Definition uninstalling : M State AccountError (Response CosmosMsg) :=
  execute env by_alice (UninstallModule "abstract:dex").
Lemma uninstalling_ok : is_ok (uninstalling s2) = true.
Proof. vm_compute. reflexivity. Qed.
Lemma uninstall_keeps_dependencies_witness :
  ∃ r s, uninstalling s2 = Ok (r, s) ∧ dependencies_closed s ∧
    account_modules s = delete "abstract:dex" (account_modules s2).
Proof.
  pose proof uninstalling_ok as Hok.
  destruct (uninstalling s2) as [[r s]|e|] eqn:He; [|discriminate Hok..].
  exists r, s. split; [reflexivity|].
  destruct (uninstall_keeps_dependencies env by_alice "abstract:dex" s2 s r s2_closed He)
    as (_ & Hm & _ & Hc). split; [exact Hc|exact Hm].
Defined.

(** The app is upgraded to a version without dependencies. *)
Definition s4 : State := commit s2 (execute env by_alice (Upgrade [(dex "2.0.0", None)]) s2).
Lemma s4_context : migrate_context s4 = Some [("abstract:dex", on_price)].
Proof. evaluate. Qed.
Lemma s4_dependents : "abstract:dex" ∈ dependents_of s4 "abstract:price".
Proof. vm_compute. reflexivity. Qed.

(** The chain after the migration. *)
#[local] Instance chain2 : Querier := chain_with "2.0.0" [].
Definition upgraded_reply : M State AccountError (Response CosmosMsg * option string) :=
  reply ASSERT_MODULE_DEPENDENCIES_REQUIREMENTS_REPLY_ID (Ok None).
Lemma upgraded_ok : is_ok (upgraded_reply s4) = true.
Proof. vm_compute. reflexivity. Qed.
Lemma upgrade_updates_graph_witness :
  ∃ r s, upgraded_reply s4 = Ok (r, s) ∧ graph_updated s4 s "abstract:dex" on_price.
Proof.
  pose proof upgraded_ok as Hok.
  destruct (upgraded_reply s4) as [[r s]|e|] eqn:He; [|discriminate Hok..].
  exists r, s. split; [reflexivity|].
  refine (proj1 (proj2 (upgrade_updates_graph (Ok None) [("abstract:dex", on_price)] s4 s r
    s4_context _ _ He)) _ _ _).
  - apply NoDup_singleton.
  - intros m old Hin. apply list_elem_of_singleton in Hin as [= -> ->]. split; [apply NoDup_singleton|].
    intros x Hx. apply list_elem_of_singleton in Hx as ->. exact s4_dependents.
  - left.
Defined.
End AccountExamples.
