(* ===== verification/ModuleExamples.v ===== *)
(** * Modules to evaluate the bases on

    An adapter and an app without code of their own, installed on the account
    "acc1" of [AccountExamples]; and the theorems about modules applied to them. *)

From S2P Require Import Prelude Cosmos Strings Objects Names AccountIds Fees ModuleFactory Ownership Registry RegistryAccess Clients Account AccountExamples Ibc IbcExamples Sdk Adapter App AdapterProofs AppProofs.
From Stdlib Require Import Ascii String.
#[local] Open Scope string_scope.
#[local] Open Scope list_scope.
#[local] Open Scope Z_scope.

Module ModuleExamples.
Import AccountExamples.
#[local] Existing Instance semver_ref.
#[local] Existing Instance api_ref.
#[local] Existing Instance api_ref_laws.
#[local] Existing Instance instantiate2_ref.
#[local] Existing Instance RegistryExamples.ownable_ref.
#[local] Existing Instance coins_ref.
#[local] Existing Instance sha256_ref.
#[local] Existing Instance json_ref.
#[local] Existing Instance AccountExamples.registries.
#[local] Existing Instance AccountExamples.module_queries.
#[local] Instance comparators : ComparatorParse := Some.
#[local] Instance accounts : Accounts := {|
  account_state a := if decide (a = "acc1") then Some s2 else None;
  app_account _ := None;
  smart_query_of _ _ := None
|}.
(** The account is in an administrator call to any contract. *)
#[local] Instance chain_admin : Querier := {|
  wasm_contract_info _ := Some (mkContractInfo 1 None);
  wasm_code_info _ := Some (mkCodeInfo "deployer" "checksum");
  cw2_contract _ := None;
  account_id_of a := if decide (a = "acc1") then Some acc1 else None;
  module_data_of _ := None;
  ownership_of _ := None;
  nft_owner_of _ _ := None;
  calling_to_as_admin_of a := if decide (a = "acc1") then Some CALLING_TO_AS_ADMIN_WILD_CARD else None;
  registry_account_of _ _ := None
|}.

(** The errors of a module without errors of its own. *)
Inductive ModuleError : Type :=
  | ErrStd (e : StdError) | ErrSdk (e : SdkError) | ErrAbstract (e : AbstractError) | ErrAdapter (e : AdapterError).
#[local] Instance contract_error : ContractError ModuleError :=
  {| from_std := ErrStd; from_sdk := ErrSdk; from_abstract := ErrAbstract |}.
#[local] Instance adapter_error : AdapterContractError ModuleError := ErrAdapter.

(** A module with an execute handler that does nothing and knows the IBC client. *)
Definition plain {Self St} : AbstractContract Self St ModuleError string unit string unit unit unit :=
  mkContract ("abstract:plain", "1.0.0", None) [mkStaticDependency IBC_CLIENT ["1.0.0"]] None
    (Some (λ _ _ _ m, mret (mkResponse m []))) None None None ([], []) None None.

(** ** The adapter *)

Abbreviation PlainAdapter :=
  (AbstractContract (option Addr) (Adapter.State unit) ModuleError string unit string unit unit unit).
Definition adapter : PlainAdapter := plain.
Definition adapter_env (a : Addr) : Env := mkEnv (mkBlock 1 0 "juno-1") a.
Definition a0 : Adapter.State unit :=
  commit (Adapter.mkState None None None ∅ tt)
    (Adapter.instantiate adapter (adapter_env "plain1") by_alice "deployer/reg" tt
      (Adapter.mkState None None None ∅ tt)).
(** The account authorises an address and its app. *)
Definition authorizing : M (Adapter.State unit) ModuleError (Response string) :=
  Adapter.execute adapter (adapter_env "plain1") (mkInfo "acc1" [])
    (Base_ (mkBaseExecute None (UpdateAuthorizedAddresses ["bob"; "abstract:dex"] []))).
Definition a1 : Adapter.State unit := commit a0 (authorizing a0).

Lemma adapter_created_ok : is_ok (Adapter.instantiate adapter (adapter_env "plain1") by_alice "deployer/reg" tt
  (Adapter.mkState None None None ∅ tt)) = true.
Proof. vm_compute. reflexivity. Qed.
Lemma authorizing_ok : is_ok (authorizing a0) = true.
Proof. vm_compute. reflexivity. Qed.
Lemma a1_lists : Adapter.authorized_addresses a1 !! "acc1" = Some ["bob"; dex_addr].
Proof. evaluate. Qed.
Lemma adapter_keeps : keeps_base adapter.
Proof.
  split; simpl; try done.
  intros h env i self x [= <-] s r s' Hrun. by inv_ok.
Qed.
Lemma a1_reachable : AdapterProofs.reachable adapter a1.
Proof.
  pose proof adapter_created_ok as Hok0. pose proof authorizing_ok as Hok1. unfold a1.
  destruct (authorizing a0) as [[r s]|e|] eqn:He; [|discriminate Hok1..].
  refine (reachable_call adapter chain_admin _ accounts _ _ _ a0 r s _ He). unfold a0.
  destruct (Adapter.instantiate _ _ _ _ _ _) as [[r0 s0]|e|] eqn:He0; [|discriminate Hok0..].
  exact (reachable_init adapter chain_admin _ _ _ _ _ _ _ He0).
Qed.
Lemma adapter_lists_bounded_witness : NoDup ["bob"; dex_addr].
Proof. exact (proj1 (adapter_lists_bounded adapter adapter_keeps a1 a1_reachable "acc1" _ a1_lists)). Defined.

(** An upgrade from the adapter at "price0", with the list above, to a new
    instance at "price1". *)
#[local] Instance upgrade_queries : ModuleQueries := {|
  authorized_addresses_of a _ := if decide (a = "price0") then Some ["bob"; dex_addr] else None;
  ica_action_of _ _ := None;
  module_factory_at _ := false
|}.
Definition replacing := replace_adapter env "price1" "price0".
Lemma replacing_ok : is_ok (replacing s2) = true.
Proof. vm_compute. reflexivity. Qed.
Lemma acc1_registered : registered_account "deployer/reg" "acc1".
Proof. exists acc1, registry0. split_and!; [reflexivity..|]. vm_compute. reflexivity. Qed.
Lemma acc1_calls a (s : Adapter.State unit) : Adapter.base_state s = Some 1 →
  called_as_admin "acc1" (adapter_env a) s "deployer/reg".
Proof. intros Hs. split; [|exact acc1_registered|exact (orb_true_r _)]. unfold Adapter.abstract_registry. by rewrite Hs. Qed.
Lemma a1_authorized : authorized a1 "acc1" = ["bob"; dex_addr].
Proof. unfold authorized. by rewrite a1_lists. Qed.
Lemma a0_authorized : authorized a0 "acc1" = [].
Proof. evaluate. Qed.
Lemma bases : Adapter.base_state a1 = Some 1 ∧ Adapter.base_state a0 = Some 1.
Proof. split; evaluate. Qed.
Lemma upgrade_moves_authorized_witness :
  ∃ mo mn, ok (replacing s2) ≫= (λ x, Some x.1) = Some [mo; mn] ∧ is_ok (replacing s2) = true.
Proof.
  pose proof replacing_ok as Hok.
  destruct (replacing s2) as [[msgs st']|e|] eqn:He; [|discriminate Hok..].
  destruct (upgrade_moves_authorized adapter adapter env (adapter_env "price0") (adapter_env "price1")
    a1 a0 "deployer/reg" s2 st' msgs [] He) as (mo & mn & _ & _ & _ & _ & _ & _ & Hm & _).
  - evaluate.
  - exact (acc1_calls _ _ (proj1 bases)).
  - exact (acc1_calls _ _ (proj2 bases)).
  - unfold plain_addresses. change (contract_address env) with "acc1". rewrite a1_authorized.
    repeat constructor.
  - change (contract_address env) with "acc1". rewrite a1_authorized. by apply (bool_decide_unpack _); vm_compute.
  - change (contract_address env) with "acc1". rewrite a0_authorized. by intros a _ ?%not_elem_of_nil.
  - change (contract_address env) with "acc1". rewrite a0_authorized, a1_authorized. by vm_compute.
  - exists mo, mn. split; [by rewrite Hm|reflexivity].
Defined.

(** ** The app *)

Abbreviation PlainApp := (AbstractContract () (App.State unit) ModuleError string unit string unit unit unit).
Definition app : PlainApp := plain.
Definition app_state (account : Addr) : App.State unit :=
  commit (App.mkState None None None None tt)
    (App.instantiate app env by_alice account tt (App.mkState None None None None tt)).
Lemma app_created_ok : is_ok (App.instantiate app env by_alice "acc1" tt
  (App.mkState None None None None tt)) = true.
Proof. vm_compute. reflexivity. Qed.
Lemma app_keeps : keeps_app_base app.
Proof.
  split; simpl; try done.
  intros h env i x [= <-] s r s' Hrun. by inv_ok.
Qed.
Lemma app_keeps_account_witness :
  App.base_state (app_state "acc1") = Some "acc1" ∧ App.admin (app_state "acc1") = Some (Some "acc1").
Proof.
  pose proof app_created_ok as Hok. unfold app_state.
  destruct (App.instantiate app env by_alice "acc1" tt _) as [[r s]|e|] eqn:He; [|discriminate Hok..].
  destruct (app_keeps_account app app_keeps "acc1" s (app_init app "acc1" chain_admin _ _ _ _ _ _ He)
    chain_admin AccountExamples.registries env) as (Hb & Ha & _).
  split; [exact Hb|exact Ha].
Defined.

(** The factory creates the app "dex" for the account. *)
Definition creation_of_dex : CosmosMsg := WasmInstantiate2 (Some "acc1") 7
  "Module: dex provided by abstract with version 1.0.0, Height 1" (ToNewApp "acc1" "{}")
  [mkCoin "uabs" 2] "local-1abstract".
Lemma factory_answers : answered (factory_call ModuleFactory.empty_state) =
  [send (MsgBankSend "acc0" [mkCoin "uabs" 5]); send creation_of_dex].
Proof. evaluate. Qed.
Lemma created_modules_belong_witness :
  App.admin (app_state "acc1") = Some (Some (sender from_account)).
Proof.
  pose proof factory_ok as Hok. pose proof factory_answers as Ha. pose proof app_created_ok as Happ.
  destruct (factory_call ModuleFactory.empty_state) as [[rf sf]|e|] eqn:He; [|discriminate Hok..].
  destruct (created_modules_belong app app_keeps chain AccountExamples.registries factory_env from_account
    factory_modules "local-1abstract" _ _ _ He) as [Hcreated _].
  unfold app_state.
  destruct (App.instantiate app env by_alice "acc1" tt _) as [[r s]|e|] eqn:Hi; [|discriminate Happ..].
  destruct (Hcreated creation_of_dex "acc1" "{}") as [_ Howned].
  - cbn [answered] in Ha. rewrite Ha. right. left.
  - reflexivity.
  - exact (proj2 (Howned _ _ _ _ _ _ Hi)).
Defined.
End ModuleExamples.
