(* ===== verification/SubscriptionExamples.v ===== *)
(** * A subscription to evaluate

    The subscription app of the account "acc1": one coin a second, with two
    emitted to every subscriber; "bob" pays and claims, and the theorems about
    the app are applied to it. *)

From S2P Require Import Prelude Cosmos Strings Objects Names AccountIds Fees ModuleFactory Ownership AnsObjects Ans AnsProofs AnsClient Registry RegistryAccess Clients Account Ibc Sdk SdkApis App Subscription SubscriptionProofs ModuleExamples.
From Stdlib Require Import Ascii String.
#[local] Open Scope string_scope.
#[local] Open Scope list_scope.
#[local] Open Scope Z_scope.

Module SubscriptionExamples.
#[local] Existing Instance semver_ref.
#[local] Existing Instance api_ref.
#[local] Existing Instance instantiate2_ref.
#[local] Existing Instance RegistryExamples.ownable_ref.
#[local] Existing Instance decimal_ref.
#[local] Existing Instance decimal_ref_laws.
#[local] Existing Instance AnsExamples.asset_ref.
#[local] Existing Instance ModuleExamples.comparators.
#[local] Existing Instance ModuleExamples.chain_admin.
#[local] Existing Instance AccountExamples.AccountExamples.registries.

#[local] Instance arith_ref : DecimalArith := {|
  checked_mul_ceil a d := let r := (a * d + DECIMAL_ONE - 1) / DECIMAL_ONE in
    if decide (r < 2 ^ 128) then Some r else None;
  checked_div_floor a d :=
    if decide (d ≠ 0 ∧ a * DECIMAL_ONE / d < 2 ^ 128) then Some (a * DECIMAL_ONE / d) else None;
  decimal_from_uint n := if decide (n * DECIMAL_ONE < 2 ^ 128) then Some (n * DECIMAL_ONE) else None;
  decimal_mul a d := if decide (a * d / DECIMAL_ONE < 2 ^ 128) then Some (a * d / DECIMAL_ONE) else None
|}.
#[local] Instance arith_ref_laws : DecimalArithLaws.
Proof. by split. Qed.
(** Native assets start with "n", tokens of contracts with "c". *)
#[local] Instance asset_msgs : CwAssetMsgs := {|
  asset_native d := String "n" d;
  asset_cw20 a := String "c" a;
  show_asset_info i := i;
  asset_transfer_msg i n a := match i with
    | String c d => if decide (c = "n"%char) then Some (MsgBankSend a [mkCoin d n])
                    else Some (WasmExecute d (Raw "transfer") [])
    | EmptyString => None
    end
|}.
#[local] Instance asset_msgs_laws : CwAssetMsgsLaws.
Proof. split; [|done]. by intros d e [= ->]. Qed.
#[local] Instance sub_json : SubscriptionJson := {|
  hook_to_json l := String.concat "," l;
  deposit_hook_from_json s := Some (Some s);
  response_to_json _ := "answer"
|}.

Definition at_second (t : Z) : Env := mkEnv (mkBlock 1 (t * NANOS) "juno-1") "subscription".
Definition by_bob (funds : list Coin) : MessageInfo := mkInfo "bob" funds.
Definition setup : SubscriptionInstantiateMsg :=
  mkSubscriptionInit "nujuno" DECIMAL_ONE (SecondPerUser (2 * DECIMAL_ONE) "nuemit") 10 None.
Definition created := App.instantiate SUBSCRIPTION_MODULE (at_second 90) (by_bob []) "acc1" setup
  (mkState None None None None no_subscriptions).
Definition q0 : State SubStorage := commit (mkState None None None None no_subscriptions) created.
Definition paying := Subscription.execute (at_second 100) (by_bob [mkCoin "ujuno" 20]) (CustomModule (Pay None)).
Definition q1 : State SubStorage := commit q0 (paying q0).
Definition claiming := Subscription.execute (at_second 110) (by_bob []) (CustomModule (ClaimEmissions "bob")).
Definition q2 : State SubStorage := commit q1 (claiming q1).
Definition bob_sub : Subscriber := mkSubscriber (120 * NANOS) (100 * NANOS).

Ltac evaluate := match goal with |- _ = ?b => vm_cast_no_check (eq_refl b) end.
Lemma created_ok : is_ok created = true.
Proof. evaluate. Qed.
Lemma paying_ok : is_ok (paying q0) = true.
Proof. evaluate. Qed.
Lemma claiming_ok : is_ok (claiming q1) = true.
Proof. evaluate. Qed.
Lemma bob_subscribed : subscribers (custom q1) !! "bob" = Some bob_sub.
Proof. evaluate. Qed.
Lemma q0_config : sub_config (custom q0) =
  Some (mkSubscriptionConfig "nujuno" DECIMAL_ONE (SecondPerUser (2 * DECIMAL_ONE) "nuemit") None).
Proof. evaluate. Qed.
Lemma q1_config : sub_config (custom q1) = sub_config (custom q0).
Proof. evaluate. Qed.

Lemma q1_reachable : sub_reachable q1.
Proof.
  pose proof created_ok as Hok0. pose proof paying_ok as Hok1. unfold q1.
  destruct (paying q0) as [[r s]|e|] eqn:He; [|discriminate Hok1..].
  refine (sub_call ModuleExamples.chain_admin AccountExamples.AccountExamples.registries (at_second 100) (by_bob [mkCoin "ujuno" 20])
    (CustomModule (Pay None)) q0 r s _ He).
  unfold q0. destruct created as [[r0 s0]|e|] eqn:He0; [|discriminate Hok0..].
  exact (sub_init ModuleExamples.chain_admin (at_second 90) (by_bob []) "acc1" setup r0 s0 He0).
Qed.
Lemma claim_run : ∃ r, run q1 [mkEvent (at_second 110) q1 r] q2 ∧ ∃ m, messages r = [m] ∧ emitted_to "bob" m = 20.
Proof.
  pose proof claiming_ok as Hok. unfold q2.
  assert (match claiming q1 with Ok (r, _) => emitted_to "bob" <$> messages r | _ => [] end = [20]) as Hpaid
    by evaluate.
  destruct (claiming q1) as [[r s]|e|] eqn:He; [|discriminate Hok..].
  exists r. split.
  - exact (run_cons ModuleExamples.chain_admin AccountExamples.AccountExamples.registries (at_second 110) (by_bob [])
      (CustomModule (ClaimEmissions "bob")) q1 r s [] s He (run_nil s)).
  - destruct (messages r) as [|m [|m' l]]; try discriminate Hpaid. exists m. split; [done|]. by injection Hpaid.
Qed.

Lemma subscribers_counted_witness : ∃ n, sub_state (custom q1) = Some n ∧ 0 < n.
Proof. exact (proj2 (proj2 (subscribers_counted q1 q1_reachable) "bob" bob_sub bob_subscribed)). Defined.

Lemma paid_time_honoured_witness :
  ∃ sub', subscribers (custom q2) !! "bob" = Some sub' ∧ 120 * NANOS ≤ expiration_timestamp sub'.
Proof.
  destruct claim_run as (r & Hrun & _).
  apply (paid_time_honoured q1 q2 _ "bob" bob_sub Hrun bob_subscribed).
  constructor; [reflexivity|constructor].
Defined.

Lemma payment_buys_witness : ∃ a, subscribers (custom q1) =
  <[a := renewed (100 * NANOS) (subscribers (custom q0) !! a) (seconds_bought 20 DECIMAL_ONE)]> (subscribers (custom q0)).
Proof.
  pose proof paying_ok as Hok. unfold q1.
  destruct (paying q0) as [[r s]|e|] eqn:He; [|discriminate Hok..].
  destruct (payment_buys (at_second 100) (by_bob [mkCoin "ujuno" 20]) (CustomModule (Pay None)) q0 s r
    _ I q0_config ltac:(vm_compute; discriminate) He) as (asset & a & (coin & Hc & Ha & Hs) & _ & _ & _ & Hsubs).
  injection Hc as Hc. subst asset coin. destruct (Hsubs ltac:(vm_compute; discriminate)) as [Hins _].
  exists a. exact Hins.
Defined.

End SubscriptionExamples.
