(* ===== verification/ChallengeExamples.v ===== *)
(** * A challenge to evaluate

    The challenge app of the account "acc1": one challenge with two friends, of
    whom one votes for the penalty; counting the votes charges the account. *)

From S2P Require Import Prelude Cosmos Strings Voting Objects Names AccountIds Fees ModuleFactory Ownership AnsObjects Ans AnsProofs AnsClient Registry RegistryAccess Clients Account Ibc Sdk SdkApis App Challenge ChallengeProofs ModuleExamples SubscriptionExamples.
From Stdlib Require Import Ascii String.
#[local] Open Scope string_scope.
#[local] Open Scope list_scope.
#[local] Open Scope Z_scope.

Module ChallengeExamples.
#[local] Existing Instance semver_ref.
#[local] Existing Instance api_ref.
#[local] Existing Instance instantiate2_ref.
#[local] Existing Instance RegistryExamples.ownable_ref.
#[local] Existing Instance decimal_ref.
#[local] Existing Instance AnsExamples.asset_ref.
#[local] Existing Instance SubscriptionExamples.SubscriptionExamples.asset_msgs.
#[local] Existing Instance ModuleExamples.comparators.
#[local] Existing Instance ModuleExamples.chain_admin.
#[local] Existing Instance AccountExamples.AccountExamples.registries.

(** A name service that knows one asset, at every address. *)
Definition ans0 : Ans.State := commit Ans.empty_state (Ans.instantiate "owner" Ans.empty_state).
Definition ans1 : Ans.State := commit ans0 (Ans.execute (mkEnv (mkBlock 1 0 "juno-1") "ans") (mkInfo "owner" [])
  (UpdateAssetAddresses [("juno", "nujuno")] []) ans0).
#[local] Instance ans_hosts : AnsHosts := {| ans_state _ := Some ans1 |}.
#[local] Instance challenge_json : ChallengeJson := {| challenge_to_json _ := "answer" |}.

Definition at_second (t : Z) : Env := mkEnv (mkBlock 1 (t * NANOS) "juno-1") "challenge".
Definition sent_by (a : Addr) : MessageInfo := mkInfo a [].
Definition created := App.instantiate CHALLENGE_APP (at_second 90) (sent_by "bob") "acc1" (mkVoteConfig Majority None)
  (mkState None None None None no_challenges).
Definition c0 : State ChallengeStorage := commit (mkState None None None None no_challenges) created.
Definition call (t : Z) (a : Addr) (m : ChallengeExecuteMsg) :=
  App.execute CHALLENGE_APP (at_second t) (sent_by a) (Module_msg m).
Definition bob : Friend := FriendByAddr "bob" "Bob".
Definition carol : Friend := FriendByAddr "carol" "Carol".
Definition req : ChallengeRequest :=
  mkChallengeRequest "run daily" "juno" (Split 101) None 1000 100 None [bob; carol].
Definition adding := call 100 "acc1" (CreateChallenge req).
Definition c1 : State ChallengeStorage := commit c0 (adding c0).
Definition voting := call 110 "bob" (CastVote 1 (mkVote true None)).
Definition c2 : State ChallengeStorage := commit c1 (voting c1).
Definition voting2 := call 120 "carol" (CastVote 1 (mkVote true None)).
Definition c3 : State ChallengeStorage := commit c2 (voting2 c2).
Definition counting := call 300 "bob" (CountVotes 1).
Definition c4 : State ChallengeStorage := commit c3 (counting c3).

Ltac evaluate := match goal with |- _ = ?b => vm_cast_no_check (eq_refl b) end.
Lemma challenge_created_ok : is_ok created = true.
Proof. evaluate. Qed.
Lemma calls_ok : is_ok (adding c0) = true ∧ is_ok (voting c1) = true ∧ is_ok (voting2 c2) = true ∧
  is_ok (counting c3) = true.
Proof. split_and!; evaluate. Qed.
Lemma c4_passed : passed (simple_voting (custom c4)) = {[1]}.
Proof. evaluate. Qed.
Lemma c3_passed : passed (simple_voting (custom c3)) = ∅.
Proof. evaluate. Qed.

(** A call that succeeds, taken from its state. *)
Lemma call_Ok t a m c : is_ok (call t a m c) = true → ∃ r, call t a m c = Ok (r, commit c (call t a m c)).
Proof. destruct (call t a m c) as [[r s]|e|]; [intros _; by exists r|done..]. Qed.
Lemma call_reachable t a m c : challenge_reachable c → is_ok (call t a m c) = true →
  challenge_reachable (commit c (call t a m c)).
Proof.
  intros Hc Hok. destruct (call_Ok t a m c Hok) as [r Hr].
  exact (challenge_call ModuleExamples.chain_admin AccountExamples.AccountExamples.registries (at_second t) (sent_by a)
    (Module_msg m) c r _ Hc Hr).
Qed.
Lemma c3_reachable : challenge_reachable c3.
Proof.
  destruct calls_ok as (H1 & H2 & H3 & _).
  refine (call_reachable _ _ _ c2 (call_reachable _ _ _ c1 (call_reachable _ _ _ c0 _ H1) H2) H3).
  pose proof challenge_created_ok as Hok. unfold c0. destruct created as [[r s]|e|] eqn:He; [|discriminate Hok..].
  exact (challenge_init ModuleExamples.chain_admin AccountExamples.AccountExamples.registries (at_second 90) (sent_by "bob")
    "acc1" (mkVoteConfig Majority None) r s He).
Qed.
Lemma counting_run : ∃ r, challenge_run c3 [r] c4.
Proof.
  destruct (call_Ok 300 "bob" (CountVotes 1) c3 (proj2 (proj2 (proj2 calls_ok)))) as [r Hr]. exists r.
  exact (challenge_run_cons ModuleExamples.chain_admin AccountExamples.AccountExamples.registries (at_second 300) (sent_by "bob")
    (Module_msg (CountVotes 1)) c3 r c4 [] c4 Hr (challenge_run_nil c4)).
Qed.

Lemma challenge_proposals_owned_witness :
  ∃ ch, challenges (custom c3) !! 1 = Some ch ∧ num_strikes (admin_strikes ch) = 0.
Proof.
  destruct (challenges (custom c3) !! 1) as [ch|] eqn:Hch.
  - exists ch. split; [reflexivity|].
    exact (proj2 (proj2 (proj2 (proj2 (proj2 (challenge_proposals_owned c3 c3_reachable))))) 1 ch Hch).
  - apply (f_equal (λ o, bool_decide (is_Some o))) in Hch. vm_compute in Hch. discriminate Hch.
Defined.

Lemma challenge_charged_once_witness : ∃ r, challenge_run c3 [r] c4 ∧ List.length (messages r) = 1%nat.
Proof.
  destruct counting_run as [r Hrun]. exists r. split; [exact Hrun|].
  pose proof (proj2 (challenge_charged_once c3 c4 [r] c3_reachable Hrun)) as Hsize.
  rewrite c4_passed, c3_passed, size_singleton, size_empty in Hsize.
  cbn [fmap list_fmap sum_list plus] in Hsize. rewrite Nat.add_0_r in Hsize. exact (eq_sym Hsize).
Defined.

Lemma c3_facts : (strike_strategy <$> challenges (custom c3) !! 1) = Some (Split 101) ∧
  last_proposal 1 (custom c3) = Some 1 ∧ challenge_friends (custom c3) !! 1 = Some [bob; carol].
Proof. split_and!; evaluate. Qed.
Lemma c3_count : (match count_votes (block (at_second 300)) 1 (simple_voting (custom c3)) with
  | Ok ((_, o), _) => Some o | _ => None end) = Some Passed.
Proof. evaluate. Qed.

(** A split of 101 between two friends: 50 each. *)
Lemma challenge_penalty_exact_witness : ∃ r account token transfers,
  call 300 "bob" (CountVotes 1) c3 = Ok (r, c4) ∧
  messages r = [send (OnAccount account (Account.Execute transfers) [])] ∧
  Forall2 (λ f m, ∃ a, friend_addr (App.abstract_registry c3) f = Ok a ∧ asset_transfer_msg token 50 a = Some m)
    [bob; carol] transfers.
Proof.
  destruct (call_Ok 300 "bob" (CountVotes 1) c3 (proj2 (proj2 (proj2 calls_ok)))) as [r Hr].
  destruct (challenge_penalty_exact ModuleExamples.chain_admin AccountExamples.AccountExamples.registries
    (at_second 300) (sent_by "bob") 1 c3 r c4 Hr)
    as (ch & p & info & o & v & friends & Hch & Hp & Hv & Hf & _ & _ & Hpassed).
  destruct c3_facts as (Hs & Hl & Hfr). rewrite Hch in Hs. injection Hs as Hs.
  rewrite Hl in Hp. injection Hp as Hp. subst p. rewrite Hfr in Hf. injection Hf as Hf. subst friends.
  pose proof c3_count as Hcount. rewrite Hv in Hcount. injection Hcount as Hcount. subst o.
  destruct (Hpassed eq_refl) as (account & token & share & rest & transfers & Hm & _ & _ & Hall & Hshare).
  rewrite Hs in Hshare. change (Z.of_nat (List.length [bob; carol])) with 2 in Hshare.
  assert (share = 50) as Hshare50 by lia. subst share.
  exists r, account, token, transfers. split; [exact Hr|]. split; [exact Hm|exact Hall].
Defined.
End ChallengeExamples.
