(* ===== verification/CalendarExamples.v ===== *)
(** * A calendar to evaluate

    The calendar app of the account "acc1", open from nine to five: one meeting is
    requested, another that encloses it is accepted, and the stake of the first
    is shared after it. *)

From S2P Require Import Prelude Cosmos Strings Objects Names AccountIds Fees ModuleFactory Ownership AnsObjects Ans AnsProofs AnsClient Registry RegistryAccess Clients Account Ibc Sdk SdkApis App Calendar CalendarProofs ModuleExamples SubscriptionExamples ChallengeExamples.
From Stdlib Require Import Ascii String.
#[local] Open Scope string_scope.
#[local] Open Scope list_scope.
#[local] Open Scope Z_scope.

Module CalendarExamples.
#[local] Existing Instance semver_ref.
#[local] Existing Instance api_ref.
#[local] Existing Instance instantiate2_ref.
#[local] Existing Instance RegistryExamples.ownable_ref.
#[local] Existing Instance AnsExamples.asset_ref.
#[local] Existing Instance SubscriptionExamples.SubscriptionExamples.asset_msgs.
#[local] Existing Instance SubscriptionExamples.SubscriptionExamples.asset_msgs_laws.
#[local] Existing Instance ChallengeExamples.ChallengeExamples.ans_hosts.
#[local] Existing Instance ModuleExamples.comparators.
#[local] Existing Instance ModuleExamples.chain_admin.
#[local] Existing Instance AccountExamples.AccountExamples.registries.

#[local] Instance kinds : CwAssetKinds := {|
  asset_kind i := match i with
    | String c d => if decide (c = "n"%char) then IsNative d
                    else if decide (c = "c"%char) then IsCw20 d else IsOther
    | EmptyString => IsOther
    end
|}.
#[local] Instance chrono_ref : Chrono := {|
  FixedOffset := Z;
  DateTime := Z * Z;
  east_opt s := if decide (-DAY < s < DAY) then Some s else None;
  timestamp_opt o t := Some (t, o);
  timestamp d := d.1;
  date_naive d := (d.1 + d.2) / DAY;
  naive_time d := (d.1 + d.2) mod DAY
|}.
#[local] Instance chrono_ref_laws : ChronoLaws.
Proof.
  split.
  - by intros o t d [= <-].
  - simpl. intros s o t d. case_decide; [|done]. by intros [= <-] [= <-].
  - simpl. intros s o t d. case_decide; [|done]. by intros [= <-] [= <-].
Qed.
#[local] Instance must_pay_ref : MustPay := {|
  must_pay i d := match funds i with
    | [] => Err NoFunds
    | [c] => if decide (denom c = d ∧ 0 < amount c) then Ok (amount c) else Err (MissingDenom d)
    | _ => Err MultipleDenoms
    end
|}.
#[local] Instance must_pay_ref_laws : MustPayLaws.
Proof.
  split. intros i d n. simpl. destruct (funds i) as [|[e k] [|]]; try done. simpl.
  case_decide as Hd; [|done]. destruct Hd as [-> Hpos]. by intros [= <-].
Qed.
#[local] Existing Instance ratio_ref.
#[local] Existing Instance ratio_ref_laws.
#[local] Instance calendar_json : CalendarJson := {| calendar_to_json _ := "answer" |}.

Definition at_second (t : Z) : Env := mkEnv (mkBlock 1 (t * NANOS) "juno-1") "calendar".
Definition setup : CalendarInstantiateMsg := mkCalendarInit 2 "juno" 0 (mkTime 9 0) (mkTime 17 0).
Definition created := App.instantiate CALENDAR_APP (at_second 90) (mkInfo "bob" []) "acc1" setup
  (mkState None None None None empty_calendar).
Definition k0 : State CalendarStorage := commit (mkState None None None None empty_calendar) created.
Definition day10 : Z := 10 * DAY.
Definition call (t : Z) (i : MessageInfo) (m : CalendarExecuteMsg) :=
  App.execute CALENDAR_APP (at_second t) i (Module_msg m).
(** From ten to half past ten; then from half past nine to eleven *)
Definition booking := call 800000 (mkInfo "bob" [mkCoin "ujuno" 60]) (RequestMeeting (day10 + 36000) (day10 + 37800)).
Definition k1 : State CalendarStorage := commit k0 (booking k0).
Definition around := call 800000 (mkInfo "carol" [mkCoin "ujuno" 180]) (RequestMeeting (day10 + 34200) (day10 + 39600)).
Definition k2 : State CalendarStorage := commit k1 (around k1).
Definition late : CalendarExecuteMsg := SlashPartialStake day10 0 10.
Definition slashing := call 1000000 (mkInfo "acc1" []) late.
Definition k3 : State CalendarStorage := commit k2 (slashing k2).

Ltac evaluate := match goal with |- _ = ?b => vm_cast_no_check (eq_refl b) end.
Lemma calendar_created_ok : is_ok created = true.
Proof. evaluate. Qed.
Lemma calendar_calls_ok : is_ok (booking k0) = true ∧ is_ok (around k1) = true ∧ is_ok (slashing k2) = true.
Proof. split_and!; evaluate. Qed.

(** A meeting that encloses one that was booked is accepted. *)
Example enclosing_accepted :
  List.map (λ m, (start_time m - day10, end_time m - day10)) (default [] (calendar (custom k2) !! day10)) =
  [(36000, 37800); (34200, 39600)].
Proof. evaluate. Qed.

Lemma calendar_call_Ok t i m k : is_ok (call t i m k) = true → ∃ r, call t i m k = Ok (r, commit k (call t i m k)).
Proof. destruct (call t i m k) as [[r s]|e|]; [intros _; by exists r|done..]. Qed.
Lemma calendar_call_reachable t i m k : calendar_reachable k → is_ok (call t i m k) = true →
  calendar_reachable (commit k (call t i m k)).
Proof.
  intros Hk Hok. destruct (calendar_call_Ok t i m k Hok) as [r Hr].
  exact (calendar_call ModuleExamples.chain_admin AccountExamples.AccountExamples.registries (at_second t) i
    (Module_msg m) k r _ Hk Hr).
Qed.
Lemma k0_reachable : calendar_reachable k0.
Proof.
  pose proof calendar_created_ok as Hok. unfold k0. destruct created as [[r s]|e|] eqn:He; [|discriminate Hok..].
  exact (calendar_init ModuleExamples.chain_admin (at_second 90) (mkInfo "bob" []) "acc1" setup r s He).
Qed.
Lemma k2_reachable : calendar_reachable k2.
Proof.
  destruct calendar_calls_ok as (H1 & H2 & _).
  exact (calendar_call_reachable _ _ _ k1 (calendar_call_reachable _ _ _ k0 k0_reachable H1) H2).
Qed.
Lemma k0_denom : (cal_denom <$> config (custom k0)) = Some "ujuno".
Proof. evaluate. Qed.

Lemma calendar_meetings_witness : ∃ c l, calendar (custom k2) !! day10 = Some l ∧ Forall (booked c day10) l.
Proof.
  destruct (calendar_meetings k2 k2_reachable) as (c & _ & Hall).
  destruct (calendar (custom k2) !! day10) as [l|] eqn:Hl.
  - exists c, l. split; [reflexivity|]. exact (proj1 (Hall day10 l Hl)).
  - apply (f_equal (λ o, bool_decide (is_Some o))) in Hl. vm_compute in Hl. discriminate Hl.
Defined.

(** Ten of thirty minutes late: a third is slashed. *)
Lemma stake_handled_once_witness : ∃ r, slashing k2 = Ok (r, k3) ∧ sent "ujuno" r = 60.
Proof.
  destruct (calendar_call_Ok 1000000 (mkInfo "acc1" []) late k2 (proj2 (proj2 calendar_calls_ok))) as [r Hr].
  exists r. split; [exact Hr|].
  destruct (stake_handled_once ModuleExamples.chain_admin AccountExamples.AccountExamples.registries
    (at_second 1000000) (mkInfo "acc1" []) late day10 0 (PartialSlash 10) k2 r k3
    (or_intror (or_intror (ex_intro _ 10 (conj eq_refl eq_refl)))) k2_reachable Hr)
    as (c & l & m & Hc & Hl & Hm & _ & _ & _ & _ & Hsent & _ & _).
  assert (amount_staked <$> (calendar (custom k2) !! day10 ≫= λ l, l !! 0%nat) = Some 60) as Hst by evaluate.
  assert (cal_denom <$> config (custom k2) = Some "ujuno") as Hden by evaluate.
  rewrite Hl in Hst. cbn [mbind option_bind] in Hst. change (Z.to_nat 0) with 0%nat in Hm. rewrite Hm in Hst.
  rewrite Hc in Hden. injection Hst as Hst. injection Hden as Hden. rewrite Hden, Hst in Hsent. exact Hsent.
Defined.

Lemma first_ledger : ∃ b', ledger "ujuno" k0 0 0 k1 b'.
Proof.
  destruct (calendar_call_Ok 800000 _ _ k0 (proj1 calendar_calls_ok)) as [r Hr].
  eexists. refine (ledger_cons _ ModuleExamples.chain_admin AccountExamples.AccountExamples.registries
    (at_second 800000) (mkInfo "bob" [mkCoin "ujuno" 60]) (RequestMeeting (day10 + 36000) (day10 + 37800)) k0 0 r _ 0 _ _ _ Hr
    (ledger_nil _ _ _)). intros p u. discriminate.
Qed.
Lemma stakes_held_witness : ∃ b', ledger "ujuno" k0 0 0 k1 b' ∧ b' = 60.
Proof.
  destruct first_ledger as [b' Hl]. exists b'. split; [exact Hl|].
  assert (∃ c, config (custom k0) = Some c ∧ cal_denom c = "ujuno") as Hd.
  { pose proof k0_denom as Hd. destruct (config (custom k0)) as [c|]; [|discriminate Hd]. exists c.
    split; [reflexivity|]. injection Hd as Hd. exact Hd. }
  destruct (stakes_held "ujuno" k0 0 0 k1 b' k0_reachable Hl Hd) as [Hb _].
  assert (staked (custom k1) = 60) as H1 by evaluate. assert (staked (custom k0) = 0) as H0 by evaluate.
  rewrite H1, H0 in Hb. lia.
Defined.
End CalendarExamples.
