(* ===== verification/DexExamples.v ===== *)
(** * A dex adapter to evaluate

    The adapter on the chain "juno-1", where Wyndex has a pool of two assets: the
    account "acc1" authorises an app, which trades for it. *)

From S2P Require Import Prelude Cosmos Strings Objects Names AccountIds Fees ModuleFactory Ownership AnsObjects Ans AnsProofs AnsClient Registry RegistryAccess Clients Account Ibc IbcClient Sdk SdkApis Adapter AdapterProofs SdkModules DexStandard Dex DexIntegrations DexProofs AccountExamples ModuleExamples SubscriptionExamples CalendarExamples.
From Stdlib Require Import Ascii String.
#[local] Open Scope string_scope.
#[local] Open Scope list_scope.
#[local] Open Scope Z_scope.

Module DexExamples.
#[local] Existing Instance semver_ref.
#[local] Existing Instance api_ref.
#[local] Existing Instance api_ref_laws.
#[local] Existing Instance instantiate2_ref.
#[local] Existing Instance RegistryExamples.ownable_ref.
#[local] Existing Instance coins_ref.
#[local] Existing Instance sha256_ref.
#[local] Existing Instance decimal_ref.
#[local] Existing Instance decimal_ref_laws.
#[local] Existing Instance AnsExamples.asset_ref.
#[local] Existing Instance SubscriptionExamples.SubscriptionExamples.asset_msgs.
#[local] Existing Instance SubscriptionExamples.SubscriptionExamples.asset_msgs_laws.
#[local] Existing Instance CalendarExamples.CalendarExamples.kinds.
#[local] Existing Instance ModuleExamples.comparators.
#[local] Existing Instance ModuleExamples.chain_admin.
#[local] Existing Instance AccountExamples.AccountExamples.registries.

#[local] Instance asset_texts : CwAssetTexts := {| asset_info_uncheck i := i |}.
#[local] Instance asset_texts_laws : CwAssetTextsLaws.
Proof. by split. Qed.
#[local] Instance kinds_laws : CwAssetKindsLaws.
Proof.
  split.
  - intros i d. destruct i as [|c r]; [done|]. simpl. split.
    + case_decide as Hc; [intros [= ->]; by rewrite Hc|]. by case_decide.
    + intros [= -> ->]. done.
  - intros i d. destruct i as [|c r]; [done|]. simpl. split.
    + case_decide; [done|]. case_decide as Hc; [intros [= ->]; by rewrite Hc|done].
    + intros [= -> ->]. done.
Qed.
#[local] Instance accounts : Accounts := {|
  account_state a := if decide (a = "acc1") then Some AccountExamples.AccountExamples.s2 else None;
  app_account _ := None;
  smart_query_of a _ := if decide (a = "pair1") then Some "sim" else None
|}.
#[local] Instance kujira : KujiraApi := {|
  fin_swap_json _ _ _ := "fin swap";
  bow_deposit_json _ := "deposit";
  bow_withdraw_json := "withdraw";
  fin_simulation_json _ _ := "simulate";
  fin_simulation_of _ := Some (480, 3, 5)
|}.
#[local] Instance wyndex : WyndexApi := {|
  wyndex_swap_json _ _ _ := "wyndex swap";
  wyndex_hook_swap_json _ _ := "hook swap";
  wyndex_hook_withdraw_json := "hook withdraw";
  wyndex_provide_json _ _ := "provide";
  wyndex_simulation_json _ := "simulate";
  wyndex_simulation_of _ := Some (480, 3, 5)
|}.
#[local] Instance asset_send : CwAssetSend := {| asset_send_msg a c m := Some (WasmExecute c (Raw m) []) |}.
#[local] Instance cw20_json : Cw20Json := {| increase_allowance_json _ _ := "allow"; cw20_send_json _ _ _ := "send" |}.
(** The adapter as it is built for Juno *)
#[local] Instance exchanges : Exchanges := {|
  exchange_of name := if decide (name = WYNDEX) then WynDex else Fin;
  exchange_feature f := bool_decide (f = "wynd")
|}.
#[local] Instance client_json : ToJson IbcClient.ExecuteMsg := λ _, "client".
#[local] Instance adapter_json : ToJson (Adapter.ExecuteMsg DexExecuteMsg) := λ _, "request".
#[local] Instance dex_json : DexJson := {|
  dex_error_text _ := "error";
  simulate_json _ := "simulated";
  simulate_raw_json _ := "simulated";
  messages_json _ := "messages";
  fees_json _ _ := "fees"
|}.

(** A name service with two assets and their pool *)
Definition host : Env := mkEnv (mkBlock 1 0 "juno-1") "ans".
Definition owner : MessageInfo := mkInfo "owner" [].
Definition n0 : Ans.State := commit Ans.empty_state (Ans.instantiate "owner" Ans.empty_state).
Definition n1 : Ans.State := commit n0 (Ans.execute host owner
  (UpdateAssetAddresses [("juno", "nujuno"); ("atom", "nuatom")] []) n0).
Definition n2 : Ans.State := commit n1 (Ans.execute host owner (UpdateDexes ["wyndex"] []) n1).
Definition n3 : Ans.State := commit n2 (Ans.execute host owner
  (UpdatePools [(PoolContract "pair1", mkPoolMetadata "wyndex" ConstantProduct ["juno"; "atom"])] []) n2).
#[local] Instance names : AnsHosts := {| ans_state a := if decide (a = "ans") then Some n3 else None |}.

Definition at_dex : Env := mkEnv (mkBlock 1 0 "juno-1") "dex".
Definition DexState : Type := Adapter.State (option DexFees).
Definition empty_dex : DexState := Adapter.mkState None None None ∅ None.
Definition created := Adapter.instantiate DEX_ADAPTER at_dex (mkInfo "bob" []) "deployer/reg"
  (mkDexInit (10 ^ 16) 0) (Adapter.mkState None None None ∅ None).
Definition d0 : DexState := commit empty_dex created.
Definition call (i : Addr) (m : Adapter.ExecuteMsg DexExecuteMsg) := Adapter.execute DEX_ADAPTER at_dex (mkInfo i []) m.
Definition authorizing := call "acc1" (Base_ (mkBaseExecute None (UpdateAuthorizedAddresses ["trader"] []))).
Definition d1 : DexState := commit d0 (authorizing d0).
Definition swap : DexAction := Swap (PoolContract "pair1") (mkUnchecked "nujuno" 1000) "nuatom" None None.
Definition swapping := call "trader" (Module_msg (mkRequest (Some "acc1") (Action "wyndex" swap))).
Definition fees0 : DexFees := mkDexFees (mkFee (10 ^ 16)) "acc0".

Ltac evaluate := match goal with |- _ = ?b => vm_cast_no_check (eq_refl b) end.
Lemma dex_created : is_ok created = true ∧ is_ok (authorizing d0) = true ∧ is_ok (swapping d1) = true.
Proof. split_and!; evaluate. Qed.
Lemma d1_fees : Adapter.custom d1 = Some fees0.
Proof. evaluate. Qed.
(** Ten of the thousand are the fee. *)
Example swap_answers : (λ x, messages x.1) <$> ok (swapping d1) =
  Some [send (OnAccount "acc1" (Account.Execute [WasmExecute "pair1" (Raw "wyndex swap") [mkCoin "ujuno" 990];
    MsgBankSend "acc0" [mkCoin "ujuno" 10]]) [])].
Proof. evaluate. Qed.

Lemma dex_call_Ok i m s : is_ok (call i m s) = true →
  ∃ r, Adapter.execute DEX_ADAPTER at_dex (mkInfo i []) m s = Ok (r, commit s (call i m s)).
Proof. unfold call. destruct (Adapter.execute _ _ _ m s) as [[r s']|e|]; [intros _; by exists r|done..]. Qed.
Lemma d1_reachable : dex_reachable d1.
Proof.
  destruct dex_created as (Hc & Ha & _). destruct (dex_call_Ok _ _ _ Ha) as [r1 Hr1].
  refine (dex_call ModuleExamples.chain_admin AccountExamples.AccountExamples.registries exchanges accounts names
    at_dex (mkInfo "acc1" []) (Base_ (mkBaseExecute None (UpdateAuthorizedAddresses ["trader"] []))) d0 r1 d1 _ Hr1).
  unfold d0. destruct created as [[r s]|e|] eqn:He; [|discriminate Hc..].
  exact (dex_init ModuleExamples.chain_admin AccountExamples.AccountExamples.registries exchanges accounts names
    at_dex (mkInfo "bob" []) "deployer/reg" (mkDexInit (10 ^ 16) 0) r s He).
Qed.
Lemma wyndex_local : is_over_ibc at_dex "wyndex" = Ok ("wyndex", false).
Proof. evaluate. Qed.
Lemma d1_registry : Adapter.abstract_registry d1 = Ok "deployer/reg".
Proof. evaluate. Qed.
Lemma d1_authorized : "trader" ∈ authorized d1 "acc1".
Proof.
  assert (authorized d1 "acc1" = ["trader"]) as -> by evaluate. by left.
Qed.

Lemma dex_fee_governed_witness : ∃ f, Adapter.custom d1 = Some f ∧ fee_capped f ∧ fee_recipient f = "acc0".
Proof.
  destruct (dex_fee_governed d1 d1_reachable) as (f & Hf & Hc & _). exists f. split; [exact Hf|]. split; [exact Hc|].
  pose proof d1_fees as Hd. rewrite Hf in Hd. injection Hd as ->. reflexivity.
Defined.
Lemma dex_action_exact_witness : ∃ r, swapping d1 = Ok (r, d1) ∧ ∃ msgs, messages r =
  [send (OnAccount "acc1" (Account.Execute msgs) [])] ∧ action_done fees0 WynDex swap msgs.
Proof.
  destruct (dex_call_Ok "trader" (Module_msg (mkRequest (Some "acc1") (Action "wyndex" swap))) d1
    (proj2 (proj2 dex_created))) as [r Hr].
  destruct (dex_action_exact d1 d1_reachable fees0 d1_fees ltac:(simpl; lia) at_dex (mkInfo "trader" [])
    (Some "acc1") "wyndex" swap r _ ltac:(simpl; lia) "wyndex" wyndex_local Hr)
    as (Hs & registry & account & exchange & msgs & _ & Hmay & Hx & Hdone & ->).
  exists (mkResponse "" [send (OnAccount account (Account.Execute msgs) [])]).
  split; [rewrite Hs in Hr; exact Hr|]. destruct Hmay as (_ & Hacc & _). injection Hacc as <-.
  exists msgs. split; [reflexivity|]. unfold resolve_exchange in Hx. simpl in Hx. injection Hx as <-. exact Hdone.
Defined.

Definition trader : Features := mkFeatures "abstract:trader" [mkStaticDependency "abstract:dex" []] (Ok "acc1")
  (Ok "deployer/reg") (Ok "ans").
Definition offered : Asset := mkAsset "nujuno" 1000.
Definition asked : asset_info := "nuatom".
Definition asking := api_swap (dex trader "wyndex") offered asked None None (PoolContract "pair1").
Lemma asking_ok : is_ok asking = true.
Proof. evaluate. Qed.
Lemma acc1_in_registry : registered_account "deployer/reg" "acc1".
Proof. exact ModuleExamples.acc1_registered. Qed.

Definition simulating := simulate_ans_swap trader (Some fees0) (mkAnsAsset "juno" 1000) "atom" "wyndex".
Lemma simulating_ok : is_ok simulating = true.
Proof. evaluate. Qed.
Lemma simulation_is_the_swap_witness : ∃ r, simulating = Ok r ∧ usage_fee r = 10.
Proof.
  pose proof simulating_ok as Hok. destruct simulating as [r|e|] eqn:Hr; [|discriminate Hok..].
  exists r. split; [reflexivity|].
  destruct (simulation_is_the_swap trader fees0 (mkAnsAsset "juno" 1000) "atom" "wyndex" r
    ltac:(unfold fee_capped, MAX_FEE; simpl; lia) ltac:(simpl; lia) ltac:(simpl; lia) eq_refl eq_refl Hr)
    as (ans & pool & o & a & Hans & (exchange & b & _ & Hu & _) & Hres).
  destruct (Hres None None) as (up & uo & ua & Hact & Ho & _). injection Hans as <-.
  rewrite Hu. change (resolve_dex_ans_action "ans" ("wyndex", AnsSwap (mkAnsAsset "juno" 1000) "atom" None None) =
    Ok (Action "wyndex" (Swap up uo ua None None))) in Hact.
  assert (resolve_dex_ans_action "ans" ("wyndex", AnsSwap (mkAnsAsset "juno" 1000) "atom" None None) =
    Ok (Action "wyndex" (Swap (PoolContract "pair1") (mkUnchecked "nujuno" 1000) "nuatom" None None))) as He by evaluate.
  rewrite He in Hact. injection Hact as _ <- _. injection Ho as <-. reflexivity.
Defined.

Lemma swap_done : ∃ msgs, action_done fees0 WynDex swap msgs.
Proof.
  assert (∃ msgs id, resolve_dex_action trader (Some fees0) "acc1" swap WynDex = Ok (msgs, id)) as (msgs & id & Hr)
    by (eexists _, _; vm_compute; reflexivity).
  exists msgs. eapply resolve_dex_action_Ok; [exact Hr|unfold fee_capped, MAX_FEE; simpl; lia|simpl; lia|simpl; lia].
Qed.
Lemma swap_spends_the_offer_witness : ∃ msgs, action_done fees0 WynDex swap msgs ∧
  outflow "ujuno" msgs = 1000 ∧ outflow "uatom" msgs = 0.
Proof.
  destruct swap_done as [msgs Hdone]. exists msgs. split; [exact Hdone|].
  pose proof (swap_spends_the_offer fees0 WynDex (or_intror eq_refl) (PoolContract "pair1") (mkUnchecked "nujuno" 1000) asked
    None None msgs offered "ujuno"
    eq_refl eq_refl Hdone) as Hout.
  split; [exact (Hout "ujuno")|exact (Hout "uatom")].
Defined.
End DexExamples.
