(* ===== verification/PaymentProofs.v ===== *)
(** * Correctness of the payment app

    What a tip sends and what is recorded of it, and the history that queries at
    a height read back. *)

From stdpp Require Import relations.
From S2P Require Import Prelude Cosmos Strings Objects Names AccountIds Fees ModuleFactory Ownership AnsObjects Ans AnsClient Registry Clients Account Ibc Sdk SdkApis Adapter App AppProofs SdkModules Subscription DexStandard Dex Payment.
From Stdlib Require Import Ascii String.
#[local] Open Scope string_scope.
#[local] Open Scope list_scope.
#[local] Open Scope Z_scope.

Section payment.
Context `{SnapshotMapsLaws, Semver, Api, Instantiate2, CwOwnable, CoinsOps, Sha256, CwAsset, !CwAssetMsgs, !CwAssetTexts}.
Context `{!AssetLists, !ComparatorParse, !PaymentJson}.
Context `{!ToJson (Adapter.ExecuteMsg DexExecuteMsg), !ToJson DexQueryMsg, !FromJson (SimulateSwapResponse AssetEntry)}.
Implicit Types (s : State PaymentStorage).

(** ** The history *)

(** What was recorded of an asset of a tipper, and in a list *)
Definition recorded s (a : Addr) (n : AssetEntry) : Z := default 0 (snap_entries (tippers (custom s)) !! (a, n)).
Definition tips_of s (a : Addr) : Z := default 0 (snap_entries (tipper_count (custom s)) !! a).
Definition credited (n : AssetEntry) (l : list AnsAsset) : Z := zsum (aa_amount <$> filter (λ a, aa_name a = n) l).
Lemma credited_cons n a l : credited n (a :: l) = (if decide (aa_name a = n) then aa_amount a else 0) + credited n l.
Proof.
  unfold credited. rewrite filter_cons. case_decide; [done|]. lia.
Qed.
Lemma credited_nil n : credited n [] = 0.
Proof. done. Qed.
Lemma credited_app n l k : credited n (l ++ k) = credited n l + credited n k.
Proof. unfold credited. by rewrite filter_app, fmap_app, zsum_app. Qed.

(** A map that was saved to at a height only *)
Definition saved_at {K V} `{Countable K} (height : Z) (m m' : SnapshotMap K V) : Prop :=
  ∀ h, snap_until m h → h ≤ height → snap_until m' height ∧
    ∀ k h', h' ≤ height → snap_at_height m' k h' = snap_at_height m k h'.
Lemma saved_at_refl {K V} `{Countable K} height (m : SnapshotMap K V) : saved_at height m m.
Proof. intros h Hm Hh. split; [by eapply until_mono|done]. Qed.
Lemma saved_at_save {K V} `{Countable K} height (m m' : SnapshotMap K V) k v :
  saved_at height (snap_save k v height m) m' → saved_at height m m'.
Proof.
  intros Hs h Hm Hh. apply until_mono with (h' := height) in Hm; [|done].
  destruct (Hs height) as [Hu Hat]; [by eapply until_save|done|]. split; [done|].
  intros k' h' Hh'. rewrite Hat by done. by rewrite at_height_past.
Qed.

Lemma update_assets_Ok a height l s u s' : mfor l (update_tipper_asset a height) s = Ok (u, s') →
  ∃ t, s' = set_custom (set_tippers t (custom s)) s ∧ saved_at height (tippers (custom s)) t ∧
    ∀ b n, recorded s' b n = recorded s b n + (if decide (b = a) then credited n l else 0).
Proof.
  revert s. induction l as [|x l IH]; intros s Hrun.
  - simpl in Hrun. apply ret_Ok in Hrun as [_ ->]. exists (tippers (custom s)). split_and!.
    + by destruct s as [? ? ? ? []].
    + apply saved_at_refl.
    + intros b n. unfold credited, zsum. simpl. case_decide; lia.
  - apply mfor_Ok_cons in Hrun as (s1 & Hx & Hrun). apply IH in Hrun as (t & -> & Ht & Hrec).
    unfold update_tipper_asset, update_custom in Hx. inv_ok. exists t. split_and!; [done|by eapply saved_at_save|].
    intros b n. rewrite Hrec, credited_cons.
    match goal with Ha : add_u _ _ _ = Ok _ |- _ => apply add_u_Ok in Ha as [-> _] end.
    unfold recorded at 1. simpl. rewrite entries_save.
    destruct (decide (b = a)) as [-> |Hb].
    + destruct (decide (aa_name x = n)) as [<- |Hn].
      * rewrite lookup_insert_eq. simpl. unfold recorded. lia.
      * rewrite lookup_insert_ne by congruence. unfold recorded. lia.
    + rewrite lookup_insert_ne by congruence. unfold recorded. lia.
Qed.
(** A tip counts once, in the total and for the tipper. *)
Record tip_recorded (a : Addr) (l : list AnsAsset) (height : Z) s s' : Prop := mkTipRecorded {
  tr_rest : ∃ t n c, s' = set_custom (set_tipper_count c (set_tip_count (Some n) (set_tippers t (custom s)))) s;
  tr_total : ∃ n, tip_count (custom s) = Some n ∧ tip_count (custom s') = Some (n + 1) ∧ n + 1 < 2 ^ 32;
  tr_counts : snap_entries (tipper_count (custom s')) = <[a := tips_of s a + 1]> (snap_entries (tipper_count (custom s)));
  tr_amounts : ∀ b n, recorded s' b n = recorded s b n + (if decide (b = a) then credited n l else 0);
  tr_tippers_saved : saved_at height (tippers (custom s)) (tippers (custom s'));
  tr_counts_saved : saved_at height (tipper_count (custom s)) (tipper_count (custom s'))
}.
Lemma update_history_Ok a l height s u s' : update_tipper_history a l height s = Ok (u, s') →
  tip_recorded a l height s s'.
Proof.
  unfold update_tipper_history, update_custom. intros Hrun. inv_ok.
  repeat match goal with Ha : add_u _ _ _ = Ok _ |- _ => apply add_u_Ok in Ha as [-> ?] end.
  match goal with Hm : mfor _ _ _ = Ok _ |- _ => apply update_assets_Ok in Hm as (t & -> & Ht & Hrec) end.
  simpl in *. split; simpl.
  - by eexists _, _, _.
  - by eexists.
  - by rewrite entries_save.
  - exact Hrec.
  - exact Ht.
  - eapply saved_at_save, saved_at_refl.
Qed.

(** ** Payments *)

(** What becomes of a payment: the swap it causes, and what is recorded *)
Inductive handled `{!Registries, !Accounts, !AnsHosts} (base : Features) (c : Config) (host : Addr) (desired : AssetEntry) (pay : AnsAsset) :
    option CosmosMsg * AnsAsset → Prop :=
  | is_desired : aa_name pay = desired → handled base c host desired pay (None, pay)
  | is_kept : aa_name pay ≠ desired → swap_pair c desired host pay = Ok None →
      handled base c host desired pay (None, pay)
  | is_swapped p m simulated : aa_name pay ≠ desired → swap_pair c desired host pay = Ok (Some p) →
      ans_swap (dex base (pairing_dex p)) pay desired (Some MAX_SPREAD) None = Ok m →
      ans_simulate_swap (dex base (pairing_dex p)) pay desired = Ok simulated →
      handled base c host desired pay (Some m, mkAnsAsset desired (return_amount simulated)).
Definition all_handled `{!Registries, !Accounts, !AnsHosts} (base : Features) (c : Config) (host : Addr)
    (paid : list AnsAsset) (l : list (option CosmosMsg * AnsAsset)) : Prop :=
  match desired_asset c with
  | Some desired => Forall2 (handled base c host desired) paid l
  | None => l = (λ a, (None, a)) <$> paid
  end.

(** The pair a payment is swapped on has pools, for the two assets, on a dex of the app. *)
Lemma swap_pair_Some `{!AnsHosts} c desired host pay p : swap_pair c desired host pay = Ok (Some p) →
  pairing_dex p ∈ exchanges c ∧ asset_x p = desired ∧ asset_y p = aa_name pay ∧
  ∃ st k refs, ans_state host = Some st ∧ asset_pairings st !! k = Some refs ∧ refs ≠ [] ∧
    p = pairing_new (asset_x k) (asset_y k) (pairing_dex k).
Proof.
  unfold swap_pair, pool_list. intros Hp. inv_ok.
  match goal with Hf : fst <$> find ?f ?l = Some p |- _ =>
    destruct (find f l) as [[p' refs]|] eqn:Hfind; [|done]; simpl in Hf; injection Hf as ->;
    apply find_some in Hfind as [Hin Hb]; apply bool_decide_eq_true in Hb as [Hrefs Hdex] end.
  split; [done|]. unfold query_r in *. inv_ok.
  match goal with Ha : ans_state host ≫= _ = Some _ |- _ => destruct (ans_state host) as [st|]; [|done]; simpl in Ha; injection Ha as <- end.
  apply list_elem_of_In, list_elem_of_fmap in Hin as ([d ids] & [= -> ->] & Hin).
  apply elem_of_take in Hin as (i & Hin & _). apply list_elem_of_lookup_2, elem_of_range in Hin.
  apply list_elem_of_omap in Hin as ([k refs'] & Hk & Hsome). case_decide as Hxy; [|done]. injection Hsome as <- <-.
  destruct Hxy as [Hx Hy]. split_and!; try done. exists st, k, refs'. rewrite Hx, Hy. by apply elem_of_map_to_list in Hk.
Qed.

(** The accumulator of the loop against the payments that were handled *)
Lemma receive_fold_Ok `{!Registries, !Accounts, !AnsHosts} base c desired host paid acc acc' :
  ofold paid acc (receive_asset base c desired host) = Ok acc' →
  ∃ l, Forall2 (handled base c host desired) paid l ∧
    swap_msgs acc' = swap_msgs acc ++ omap fst l ∧
    ∀ n, credited n (assets_to_add acc') + (if decide (desired = n) then desired_amount acc' else 0) =
      credited n (assets_to_add acc) + (if decide (desired = n) then desired_amount acc else 0) + credited n l.*2.
Proof.
  revert acc. induction paid as [|a paid IH]; intros acc Hrun; simpl in Hrun.
  - inv_ok. exists []. split_and!; [constructor|by rewrite app_nil_r|]. intros n. simpl. rewrite credited_nil. lia.
  - apply obind_Ok in Hrun as (acc1 & Ha & Hrun). apply IH in Hrun as (l & Hl & Hm & Hc).
    unfold receive_asset in Ha. case_decide as Hn.
    + inv_ok. match goal with Ha : add_u _ _ _ = Ok _ |- _ => apply add_u_Ok in Ha as [-> _] end.
      exists ((None, a) :: l). split_and!; [by constructor; [apply is_desired|]|done|].
      intros n. rewrite Hc, fmap_cons, credited_cons. cbn [fst snd]. case_decide; lia.
    + inv_ok. match goal with Hp : swap_pair _ _ _ _ = Ok ?o |- _ => destruct o as [p|] eqn:Hpair end.
      * inv_ok. match goal with Ha : add_u _ _ _ = Ok _ |- _ => apply add_u_Ok in Ha as [-> _] end.
        eexists ((Some _, mkAnsAsset desired _) :: l). split_and!; [by constructor; [eapply is_swapped|]| |].
        -- rewrite Hm. simpl. by rewrite <-app_assoc.
        -- intros n. rewrite Hc, fmap_cons, credited_cons. cbn [fst snd aa_name aa_amount desired_amount assets_to_add]. repeat case_decide; lia.
      * inv_ok. exists ((None, a) :: l). split_and!; [by constructor; [eapply is_kept|]|done|].
        intros n. rewrite Hc, fmap_cons, credited_cons. cbn [fst snd desired_amount assets_to_add]. rewrite credited_app, credited_cons, credited_nil. repeat case_decide; lia.
Qed.
Lemma receive_assets_Ok `{!Registries, !Accounts, !AnsHosts} base c host paid r msgs :
  receive_assets base c host paid = Ok (r, msgs) →
  ∃ l, all_handled base c host paid l ∧ msgs = omap fst l ∧ ∀ n, credited n r = credited n l.*2.
Proof.
  unfold receive_assets, all_handled. intros Hrun. destruct (desired_asset c) as [desired|].
  - inv_ok. match goal with Hf : ofold _ _ _ = Ok _ |- _ => apply receive_fold_Ok in Hf as (l & Hl & Hm & Hc) end.
    exists l. split_and!; [done|done|]. intros n. specialize (Hc n). rewrite credited_app. simpl in Hc.
    rewrite credited_nil in Hc. destruct (decide (desired_amount _ = 0)) as [Hz|Hz].
    + rewrite Hz in Hc. rewrite credited_nil. repeat case_decide; lia.
    + rewrite credited_cons, credited_nil. simpl. repeat case_decide; lia.
  - inv_ok. eexists. split_and!; [done| |].
    + match goal with |- [] = omap _ (_ <$> ?l) => by induction l end.
    + intros n. rewrite <-list_fmap_compose. f_equal. symmetry. apply list_fmap_id.
Qed.

(** ** Calls *)

(** Who tips with a message, and what the cw20 contract that calls received *)
Definition tipping (info : MessageInfo) (m : CustomExecuteMsg) : option (Addr * option Asset) :=
  match m with
  | CustomModule Tip => Some (sender info, None)
  | CustomReceive m => a ← addr_validate (cw20_sender m);
      Some (a, Some (mkAsset (asset_cw20 (sender info)) (cw20_amount m)))
  | _ => None
  end.
(** The assets a call brings along *)
Definition brought (info : MessageInfo) (receipt : option Asset) (i : asset_info) : Z :=
  held i (asset_of_coin <$> funds info) + from_option (λ a, if decide (as_info a = i) then as_amount a else 0) 0 receipt.

Section calls.
Context `{!Querier, !Registries, !Accounts, !AnsHosts}.
(** What a tip does: what it brings is forwarded, what was paid is handled *)
Record tip_done (env : Env) (info : MessageInfo) (a : Addr) (receipt : option Asset) s (r : Response ModuleMsg) s'
    (deposited : list Asset) (account : Addr) (forwarded : list CosmosMsg) (c : Config) (host : Addr)
    (paid recorded : list AnsAsset) (l : list (option CosmosMsg * AnsAsset)) : Prop := mkTipDone {
  td_deposited : ∀ `{!AssetListsLaws} i, held i deposited = brought info receipt i;
  td_account : base_state s = Some account;
  td_forwarded : Forall2 (λ x m, asset_transfer_msg (as_info x) (as_amount x) account = Some m) deposited forwarded;
  td_config : config (custom s) = Some c;
  td_host : App.ans_host s = Ok host;
  td_paid : Forall2 (λ x p, query_asset_reverse host (as_info x) = Ok (aa_name p) ∧ aa_amount p = as_amount x) deposited paid;
  td_handled : all_handled (payment_features s) c host paid l;
  td_messages : messages r = (λ m, send (FromModule m)) <$> forwarded ++ omap fst l;
  td_recorded : tip_recorded a recorded (height (block env)) s s';
  td_credited : ∀ n, credited n recorded = credited n l.*2
}.
Lemma tip_Ok env info receipt s r s' : tip env info receipt s = Ok (r, s') →
  ∃ deposited account forwarded c host paid recorded l,
    tip_done env info (sender info) receipt s r s' deposited account forwarded c host paid recorded l.
Proof.
  unfold tip, load_config, load_names, name_service, deposit. intros Hrun. inv_ok.
  match goal with Hp : receive_assets _ _ _ _ = Ok ?p |- _ =>
    destruct p as [recorded swaps]; apply receive_assets_Ok in Hp as (l & Hl & -> & Hcred) end.
  inv_ok. match goal with Hu : update_tipper_history _ _ _ _ = Ok _ |- _ => apply update_history_Ok in Hu end.
  match goal with Hd : match receipt with _ => _ end = Ok ?d, Ha : account s = Ok ?a, Hf : omapM _ _ = Ok ?f,
      Hc : config _ = Some ?c, Hh : ok (ans_host s) = Some ?h, Hp : ns_query _ _ = Ok ?p |- _ =>
    exists d, a, f, c, h, p, recorded, l end.
  split; try done.
  - intros Hlaws i. unfold brought. destruct receipt as [z|]; inv_ok; [|simpl; lia].
    match goal with Ha : asset_list_add _ _ = Some _ |- _ => by rewrite (asset_list_add_held _ _ _ i Ha) end.
  - unfold account in *. by inv_ok.
  - match goal with Hf : omapM _ _ = Ok _ |- _ => apply omapM_Ok in Hf; eapply Forall2_impl; [exact Hf|] end.
    unfold transfer_msg. intros ? m Hm. by inv_ok.
  - by apply ok_Some.
  - unfold ns_query in *. inv_ok.
    match goal with Hp : omapM _ _ = Ok _ |- _ => apply omapM_Ok, Forall2_fmap_l in Hp; eapply Forall2_impl; [exact Hp|] end.
    intros ? p. simpl. unfold resolve_cw_asset. intros Hm. by inv_ok.
Qed.
Lemma desired_update_Ok env info d n e s r s' : update_config env info d n e s = Ok (r, s') →
  ∃ c, s' = set_custom (set_config (Some c) (custom s)) s ∧ messages r = [].
Proof.
  unfold update_config, update_custom, load_names, load_config. intros Hrun. inv_ok.
  match goal with Ha : assert_app_admin _ _ _ = Ok _ |- _ => apply assert_app_admin_Ok in Ha as [-> _] end. by eexists.
Qed.
(** A call of the app is a tip, or an update of the configuration. *)
Lemma payment_execute_Ok env info m s r s' : payment_execute env info m s = Ok (r, s') →
  (∃ a receipt, tipping info m = Some (a, receipt) ∧
     tip env (mkInfo a (funds info)) receipt s = Ok (r, s')) ∨
  (∃ d n e, m = CustomModule (UpdateConfig d n e) ∧ update_config env info d n e s = Ok (r, s')).
Proof.
  unfold payment_execute. intros Hrun. destruct m as [[]|m|m]; simpl in Hrun.
  - assert (∀ msg, App.execute PAYMENT_APP env info (Module_msg msg) s = Ok (r, s') →
      payment_execute_handler env info tt msg s = Ok (r, s')) as Hexec.
    { intros msg Hex. eapply local_app_execute_Ok in Hex as (m' & [= <-] & Hh); [exact Hh| |done|done].
      by intros d ->%list_elem_of_singleton. }
    apply Hexec in Hrun. destruct m as [|d n e]; simpl in Hrun.
    + left. exists (sender info), None. split; [done|]. by destruct info.
    + right. by exists d, n, e.
  - left. unfold receive_handler in Hrun. inv_ok. unfold addr_validate_r in *. inv_ok.
    eexists _, _. split; [|done]. simpl. by match goal with Ha : addr_validate _ = Some _ |- _ => rewrite Ha end.
Qed.

End calls.

(** ** Runs *)

(** The states of the app and the height of the block they are read in *)
Inductive payment_created : Z * State PaymentStorage → Prop :=
  | payment_init (Q : Querier) (N : AnsHosts) (R : Registries) (A : Accounts) env i a x r s :
      App.instantiate PAYMENT_APP env i a x (mkState None None None None empty_payment) = Ok (r, s) →
      payment_created (height (block env), s).
Inductive payment_step : Z * State PaymentStorage → Z * State PaymentStorage → Prop :=
  | payment_block h h' s : h ≤ h' → payment_step (h, s) (h', s)
  | payment_call (Q : Querier) (N : AnsHosts) (R : Registries) (A : Accounts) env i m s r s' :
      payment_execute env i m s = Ok (r, s') → payment_step (height (block env), s) (height (block env), s')
  | payment_migrate (Q : Querier) (N : AnsHosts) (R : Registries) (A : Accounts) env x s r s' :
      App.migrate PAYMENT_APP env x s = Ok (r, s') → payment_step (height (block env), s) (height (block env), s').
Definition payment_reachable (x : Z * State PaymentStorage) : Prop := ∃ y, payment_created y ∧ rtc payment_step y x.

(** The counts add up, and nothing was saved after the current block *)
Record payment_ok (h : Z) (s : State PaymentStorage) : Prop := mkPaymentOk {
  po_counted : tip_count (custom s) = Some (map_sum id (snap_entries (tipper_count (custom s))));
  po_tippers : snap_until (tippers (custom s)) h;
  po_counts : snap_until (tipper_count (custom s)) h
}.
(** What a step keeps of what was saved before a height *)
Definition kept_before (height : Z) (s s' : State PaymentStorage) : Prop :=
  (∀ k h, h ≤ height → snap_at_height (tippers (custom s')) k h = snap_at_height (tippers (custom s)) k h) ∧
  (∀ k h, h ≤ height → snap_at_height (tipper_count (custom s')) k h = snap_at_height (tipper_count (custom s)) k h).

Lemma payment_step_ok x y : payment_step x y → payment_ok x.1 x.2 →
  x.1 ≤ y.1 ∧ payment_ok y.1 y.2 ∧ kept_before x.1 x.2 y.2.
Proof.
  intros Hstep [Hc Ht Hn]. destruct Hstep as [h h' s Hh|Q N R A env i m s r s' Hrun|Q N R A env x s r s' Hrun]; simpl in *.
  - split_and!; [done| |done]. split; [done|by eapply until_mono..].
  - split; [done|]. apply payment_execute_Ok in Hrun as [(a & receipt & _ & Hrun)|(d & n & e & _ & Hrun)].
    + apply tip_Ok in Hrun as (deposited & account & forwarded & c & host & paid & rec & l & Hdone).
      destruct Hdone as [_ _ _ _ _ _ _ _ [_ (n & Hn1 & Hn2 & _) Hcounts _ Hts Hcs] _].
      destruct (Hts _ Ht ltac:(lia)) as [Ht' Hat]. destruct (Hcs _ Hn ltac:(lia)) as [Hn' Han].
      split; [split; [|done..]|done]. rewrite Hn2, Hcounts, map_sum_insert. f_equal.
      assert (n = map_sum id (snap_entries (tipper_count (custom s)))) as -> by congruence.
      unfold tips_of. simpl. destruct (snap_entries (tipper_count (custom s)) !! a); unfold id; simpl; lia.
    + apply desired_update_Ok in Hrun as (c & -> & _). by split.
  - unfold App.migrate, save_module_data, save_contract_version in Hrun. inv_ok.
    unfold payment_migrate_handler in *. inv_ok. by split.
Qed.
Lemma payment_steps_ok x y : rtc payment_step x y → payment_ok x.1 x.2 → payment_ok y.1 y.2 ∧ kept_before x.1 x.2 y.2.
Proof.
  induction 1 as [x|x y z Hxy _ IH]; intros Hok; [by split|].
  apply payment_step_ok in Hxy as (Hle & Hy & [Ht Hn]); [|done]. destruct (IH Hy) as [Hz [Ht' Hn']].
  split; [done|]. split; intros k h Hh; [rewrite Ht' by lia; by apply Ht|rewrite Hn' by lia; by apply Hn].
Qed.
Lemma payment_created_ok x : payment_created x → payment_ok x.1 x.2.
Proof.
  destruct 1 as [Q N R A env i a x r s Hrun].
  unfold App.instantiate, save_module_data, save_contract_version in Hrun. inv_ok.
  unfold payment_instantiate_handler, load_names, update_custom in *. inv_ok.
  split; simpl; [by rewrite entries_empty|apply until_empty..].
Qed.
Lemma payment_reachable_ok x : payment_reachable x → payment_ok x.1 x.2.
Proof. intros (y & Hy%payment_created_ok & Hsteps). by apply payment_steps_ok in Hsteps as [? _]. Qed.

(** The history of tips is kept.  In every reachable state the total count is
    the sum of the counts of the tippers; and a query of a tipper at the height
    of a block answers, in every later state, with the number of tips and the
    amounts that were recorded when that block began. *)
Theorem tips_remembered (h : Z) s (Hs : payment_reachable (h, s)) :
  tip_count (custom s) = Some (map_sum id (snap_entries (tipper_count (custom s)))) ∧
  ∀ at_height h' s', h < at_height → rtc payment_step (at_height, s) (h', s') →
    ∀ address start_after limit t, query_tipper (custom s') address start_after limit (Some at_height) = Ok t →
    tipper_tips t = tips_of s (tipper_address t) ∧
    ∀ x, x ∈ total_amounts t → aa_amount x = recorded s (tipper_address t) (aa_name x).
Proof.
  apply payment_reachable_ok in Hs as [Hc Ht Hn]. split; [exact Hc|]. intros H' h' s' Hh Hsteps address start limit t Hq.
  apply payment_steps_ok in Hsteps as [_ [Hts Hns]]; [|by split; [|eapply until_mono; [done|simpl; lia]..]].
  unfold query_tipper, tipper_at_height in Hq. inv_ok. simpl. unfold tips_of, recorded. simpl in *. split.
  - rewrite Hns by lia. by erewrite at_height_latest.
  - intros ? (entry & -> & _)%list_elem_of_fmap. simpl. rewrite Hts by lia. by erewrite at_height_latest.
Qed.
End payment.

(** ** A payment app to evaluate

    The payment app of the account "acc1", which has the dex adapter installed
    and wants "atom": tips of juno, which has a pool on Wyndex, are swapped. *)

From S2P Require Import Prelude Cosmos Strings Objects Names AccountIds Fees ModuleFactory Ownership AnsObjects Ans AnsProofs AnsClient Registry RegistryAccess Clients Account Ibc IbcClient Sdk SdkApis Adapter App SdkModules Subscription DexStandard Dex Payment AccountExamples ModuleExamples SubscriptionExamples DexExamples.

(** ** A snapshot map: the entries, and the value every save replaced *)

Record SnapRef (K V : Type) `{Countable K} := mkSnapRef { sr_now : gmap K V; sr_log : list (K * Z * option V) }.
Arguments mkSnapRef {K V _ _} sr_now sr_log.
Arguments sr_now {K V _ _} s.
Arguments sr_log {K V _ _} s.
Definition replaced_since {K V} `{Countable K} (k : K) (h : Z) (l : list (K * Z * option V)) : option (K * Z * option V) :=
  find (λ e, bool_decide (e.1.1 = k ∧ h ≤ e.1.2)) l.
Definition snapshots_ref : SnapshotMaps := {|
  SnapshotMap := SnapRef;
  snap_empty _ _ _ _ := mkSnapRef ∅ [];
  snap_entries _ _ _ _ := sr_now;
  snap_save _ _ _ _ k v h m := mkSnapRef (<[k := v]> (sr_now m)) (sr_log m ++ [(k, h, sr_now m !! k)]);
  snap_at_height _ _ _ _ m k h :=
    match replaced_since k h (sr_log m) with Some e => e.2 | None => sr_now m !! k end;
  snap_until _ _ _ _ m h := Forall (λ e, e.1.2 ≤ h) (sr_log m)
|}.
Lemma replaced_since_none {K V} `{Countable K} (k : K) h h' (l : list (K * Z * option V)) :
  Forall (λ e, e.1.2 ≤ h) l → h < h' → replaced_since k h' l = None.
Proof.
  unfold replaced_since. induction 1 as [|e l He _ IH]; intros Hlt; simpl; [done|].
  rewrite bool_decide_false by lia. by apply IH.
Qed.
Lemma replaced_since_app {K V} `{Countable K} (k : K) h (l l' : list (K * Z * option V)) :
  replaced_since k h (l ++ l') = match replaced_since k h l with Some e => Some e | None => replaced_since k h l' end.
Proof. unfold replaced_since. induction l as [|e l IH]; simpl; [done|]. by destruct (bool_decide _). Qed.
Lemma snapshots_ref_laws : @SnapshotMapsLaws snapshots_ref.
Proof.
  split; simpl; intros.
  - done.
  - done.
  - constructor.
  - apply Forall_app. split; [|by constructor]. eapply Forall_impl; [done|]. simpl. lia.
  - eapply Forall_impl; [done|]. simpl. lia.
  - by erewrite replaced_since_none.
  - rewrite replaced_since_app. destruct (replaced_since _ _ (sr_log m)); [done|].
    unfold replaced_since. simpl. case_bool_decide as Hk.
    + by destruct Hk as [-> _].
    + rewrite lookup_insert_ne; [done|]. intros ->. naive_solver.
Qed.

Module PaymentExamples.
#[local] Existing Instance snapshots_ref.
#[local] Existing Instance snapshots_ref_laws.
#[local] Existing Instance semver_ref.
#[local] Existing Instance api_ref.
#[local] Existing Instance instantiate2_ref.
#[local] Existing Instance RegistryExamples.ownable_ref.
#[local] Existing Instance coins_ref.
#[local] Existing Instance sha256_ref.
#[local] Existing Instance AnsExamples.asset_ref.
#[local] Existing Instance SubscriptionExamples.SubscriptionExamples.asset_msgs.
#[local] Existing Instance DexExamples.DexExamples.asset_texts.
#[local] Existing Instance DexExamples.DexExamples.adapter_json.
#[local] Existing Instance ModuleExamples.comparators.
#[local] Existing Instance ModuleExamples.chain_admin.
#[local] Existing Instance AccountExamples.AccountExamples.registries.

(** Adding to a list: the amounts of one asset are one entry. *)
Fixpoint add_asset (l : list Asset) (a : Asset) : option (list Asset) :=
  match l with
  | [] => Some [a]
  | x :: l => if decide (as_info x = as_info a)
      then if decide (as_amount x + as_amount a < 2 ^ 128)
        then Some (mkAsset (as_info x) (as_amount x + as_amount a) :: l) else None
      else cons x <$> add_asset l a
  end.
#[local] Instance asset_lists : AssetLists := {| asset_list_add := add_asset |}.
Lemma held_cons i x l : held i (x :: l) = (if decide (as_info x = i) then as_amount x else 0) + held i l.
Proof. unfold held. rewrite filter_cons. case_decide; [done|]. lia. Qed.
#[local] Instance asset_lists_laws : AssetListsLaws.
Proof.
  split. intros l a. simpl. induction l as [|x l IH]; simpl; intros l' i.
  - intros [= <-]. rewrite held_cons. unfold held. simpl. unfold zsum. simpl. lia.
  - case_decide as Hx.
    + case_decide; [|done]. intros [= <-]. rewrite !held_cons. simpl. rewrite Hx. case_decide; lia.
    + intros (l2 & Hl & ->)%fmap_Some. rewrite !held_cons, (IH l2 i Hl). lia.
Qed.

#[local] Instance accounts : Accounts := {|
  account_state a := if decide (a = "acc1") then Some AccountExamples.AccountExamples.s2 else None;
  Ibc.app_account _ := None;
  smart_query_of _ _ := Some "480"
|}.
#[local] Instance names : AnsHosts := {| ans_state _ := Some DexExamples.DexExamples.n3 |}.
#[local] Instance dex_query_json : ToJson DexQueryMsg := λ _, "simulate".
#[local] Instance simulated_json : FromJson (SimulateSwapResponse AssetEntry) :=
  λ _, Some (mkSimulateSwap ("juno", "atom", "wyndex") 480 3 ("atom", 5) 1).
#[local] Instance payment_json : PaymentJson := {| payment_to_json _ := "answer" |}.

Definition at_block (h : Z) : Env := mkEnv (mkBlock h 0 "juno-1") "payment".
Definition setup : PaymentInit := mkPaymentInit (Some "atom") "usd" ["wyndex"].
Definition fresh_payment : State PaymentStorage := mkState None None None None empty_payment.
Definition created := App.instantiate PAYMENT_APP (at_block 1) (mkInfo "alice" []) "acc1" setup fresh_payment.
Definition p0 : State PaymentStorage := commit fresh_payment created.
Definition tips : CustomExecuteMsg := CustomModule Tip.
Definition bob_tips : MessageInfo := mkInfo "bob" [mkCoin "ujuno" 1000; mkCoin "uatom" 7].
Definition tipped (h : Z) := payment_execute (at_block h) bob_tips tips.
Definition p1 : State PaymentStorage := commit p0 (tipped 1 p0).
Definition p2 : State PaymentStorage := commit p1 (tipped 5 p1).

Ltac evaluate := match goal with |- _ = ?b => vm_cast_no_check (eq_refl b) end.
Lemma payment_runs : is_ok created = true ∧ is_ok (tipped 1 p0) = true ∧ is_ok (tipped 5 p1) = true.
Proof. split_and!; evaluate. Qed.
(** Both coins are forwarded; the juno is to be swapped by the adapter. *)
Example tip_answers : (λ x, messages x.1) <$> ok (tipped 1 p0) =
  Some [send (FromModule (MsgBankSend "acc1" [mkCoin "ujuno" 1000]));
        send (FromModule (MsgBankSend "acc1" [mkCoin "uatom" 7]));
        send (FromModule (WasmExecute AccountExamples.AccountExamples.dex_addr (Raw "request") []))].
Proof. evaluate. Qed.
Example tip_records : (recorded p1 "bob" "atom", recorded p1 "bob" "juno", recorded p2 "bob" "atom", tips_of p2 "bob") =
  (487, 0, 974, 2).
Proof. evaluate. Qed.

Lemma payment_call_Ok h s : is_ok (tipped h s) = true → ∃ r, tipped h s = Ok (r, commit s (tipped h s)).
Proof. destruct (tipped h s) as [[r s']|e|]; [intros _; by exists r|done..]. Qed.
Lemma payment_call_step h s : is_ok (tipped h s) = true → payment_step (h, s) (h, commit s (tipped h s)).
Proof.
  intros [r Hr]%payment_call_Ok.
  exact (payment_call ModuleExamples.chain_admin names AccountExamples.AccountExamples.registries accounts
    (at_block h) bob_tips tips s r _ Hr).
Qed.
Lemma p0_created : payment_created (1, p0).
Proof.
  destruct payment_runs as (Hok & _). unfold p0. destruct created as [[r s]|e|] eqn:He; [|discriminate Hok..].
  exact (payment_init ModuleExamples.chain_admin names AccountExamples.AccountExamples.registries accounts
    (at_block 1) (mkInfo "alice" []) "acc1" setup r s He).
Qed.
Lemma p1_reachable : payment_reachable (1, p1).
Proof.
  exists (1, p0). split; [exact p0_created|]. apply rtc_once. exact (payment_call_step 1 p0 (proj1 (proj2 payment_runs))).
Qed.
Lemma p2_later : rtc payment_step (3, p1) (5, p2).
Proof.
  apply rtc_l with (5, p1); [apply payment_block; lia|]. apply rtc_once.
  exact (payment_call_step 5 p1 (proj2 (proj2 payment_runs))).
Qed.

Lemma query_bob (s : PaymentStorage) : query_tipper s "bob" None None (Some 3) = Ok (tipper_at_height s "bob" None None 3).
Proof. reflexivity. Qed.
Definition bob_at_3 : TipperResponse := tipper_at_height (custom p2) "bob" None None 3.
(** At the height 3 the second tip had not been made. *)
Lemma tips_remembered_witness : tipper_tips bob_at_3 = tips_of p1 "bob".
Proof.
  exact (proj1 (proj2 (tips_remembered 1 p1 p1_reachable) 3 5 p2 eq_refl p2_later "bob" None None bob_at_3
    (query_bob (custom p2)))).
Defined.
End PaymentExamples.
