(* ===== verification/MoneyMarketProofs.v ===== *)
(** * Correctness of the money market adapter

    What an action on a money market sends, its fee included; what a withdrawal
    from Ghost redeems; and that the amounts the API asks for cannot be read. *)

From S2P Require Import Prelude Cosmos Strings Objects Names AccountIds Fees ModuleFactory Ownership AnsObjects Ans AnsClient Registry Clients Account Ibc IbcClient Sdk SdkApis Adapter AdapterProofs SdkModules DexStandard Dex DexIntegrations DexProofs MoneyMarketStandard MoneyMarket MoneyMarketIntegrations.
From Stdlib Require Import Ascii String.
#[local] Open Scope string_scope.
#[local] Open Scope list_scope.
#[local] Open Scope Z_scope.

Section market.
Context `{DecimalLaws, Semver, Api, Instantiate2, CwOwnable, CoinsOps, Sha256, CwAsset}.
Context `{!CwAssetMsgs, !CwAssetKinds, !CwAssetTexts, !ComparatorParse, !MoneyMarketJson}.
Abbreviation MmState := (Adapter.State (option UsageFee)).
Implicit Types (s : MmState) (f : UsageFee).

(** ** Fees *)

(** The fee of an amount: the share, rounded down *)
Definition mm_fee_of (f : UsageFee) (amount : Z) : Z := amount * share (uf_fee f) / DECIMAL_ONE.
(** The payment of the fee of an asset, if it is not zero *)
Definition mm_fee_msgs (f : UsageFee) (a : Asset) : list CosmosMsg :=
  if decide (mm_fee_of f (as_amount a) = 0) then []
  else option_list (asset_transfer_msg (as_info a) (mm_fee_of f (as_amount a)) (uf_recipient f)).
Lemma mm_charge_Ok f a x : charge_usage_fee a f = Ok x → 0 ≤ share (uf_fee f) → 0 ≤ as_amount a →
  option_list x.1 = mm_fee_msgs f a.
Proof.
  unfold charge_usage_fee, usage_fee_compute, mm_fee_msgs. intros Hrun Hs Ha. inv_ok.
  match goal with Hc : fee_compute _ _ = Ok ?n |- _ =>
    apply fee_compute_Ok in Hc; [|done..]; change (n = mm_fee_of f (as_amount a)) in Hc; subst n end.
  case_decide as Hz; inv_ok; simpl; [done|].
  match goal with Hm : transfer_msg _ _ = Ok _ |- _ => unfold transfer_msg in Hm; apply ok_or_Ok in Hm; simpl in Hm;
    by rewrite Hm end.
Qed.

(** ** Actions *)

Section calls.
Context `{!Querier, !Registries, !Accounts, !AnsHosts, !MoneyMarkets}.

(** The asset of an action, and the operation of the market *)
Definition raw_asset (a : MoneyMarketRawRequest) : AssetUnchecked :=
  match a with
  | RawDeposit x | RawWithdraw x | RawProvideCollateral _ x | RawWithdrawCollateral _ x | RawBorrow x _ | RawRepay x _ => x
  end.
Definition raw_operation (m : MoneyMarketCommand) (a : MoneyMarketRawRequest) :
    mm_data m → Addr → Asset → outcome MoneyMarketError (list CosmosMsg) :=
  match a with
  | RawDeposit _ => mm_deposit m
  | RawWithdraw _ => mm_withdraw m
  | RawProvideCollateral _ _ => mm_provide_collateral m
  | RawWithdrawCollateral _ _ => mm_withdraw_collateral m
  | RawBorrow _ _ => mm_borrow m
  | RawRepay _ _ => mm_repay m
  end.
(** The messages of an action: those of the market, and after a withdrawal the
    payment of the fee *)
Definition mm_action_done (f : UsageFee) (sender host : Addr) (m : MoneyMarketCommand) (a : MoneyMarketRawAction)
    (msgs : list CosmosMsg) : Prop :=
  ∃ addr o data own, addr_validate (raw_contract_addr a) = Some addr ∧
    asset_check (raw_asset (raw_request a)) = Some o ∧ mm_fetch_data m sender host (mm_default m) = Ok data ∧
    raw_operation m (raw_request a) data addr o = Ok own ∧
    msgs = own ++ match raw_request a with RawWithdraw _ => mm_fee_msgs f o | _ => [] end.
Lemma prepared_Ok base sender asset addr m x : prepared base sender asset addr m = Ok x →
  ∃ host, addr_validate addr = Some x.1.1 ∧ asset_check asset = Some x.1.2 ∧ f_ans_host base = Ok host ∧
    mm_fetch_data m sender host (mm_default m) = Ok x.2.
Proof. unfold prepared, addr_validate_r. intros Hrun. inv_ok. by eexists. Qed.
Lemma resolve_mm_action_Ok base f sender a m msgs id :
  resolve_money_market_action base (Some f) sender a m = Ok (msgs, id) →
  0 ≤ share (uf_fee f) → ∃ host, f_ans_host base = Ok host ∧
    (0 ≤ au_amount (raw_asset (raw_request a)) → mm_action_done f sender host m a msgs).
Proof.
  unfold resolve_money_market_action, mm_action_done. destruct a as [rq addr]. intros Hrun Hs. simpl in *.
  destruct rq; unfold resolve_deposit, resolve_withdraw, resolve_provide_collateral, resolve_withdraw_collateral,
      resolve_borrow, resolve_repay in Hrun; inv_ok;
    match goal with Hp : prepared _ _ _ _ _ = Ok ?x |- _ =>
      destruct x as [[c o] data]; apply prepared_Ok in Hp as (host & Hc & Ho & Hhost & Hdata); simpl in * end;
    exists host; (split; [done|]); intros Ha; inv_ok.
  2: { match goal with Hf : charge_usage_fee _ _ = Ok ?x |- _ => destruct x as [fee_msg left];
         apply mm_charge_Ok in Hf as Hfee; [|done|by rewrite (asset_check_amount _ _ Ho)] end.
       inv_ok. simpl in Hfee. rewrite Hfee. by eexists c, o, data, _. }
  all: eexists c, o, data, _; split_and!; try done; by rewrite app_nil_r.
Qed.

(** ** Execution *)

Lemma mm_execute_Ok env i msg s r s' : Adapter.execute MONEY_MARKET_ADAPTER env i msg s = Ok (r, s') →
  (∃ m l, msg = Base_ m ∧ messages r = [] ∧ s' = set_authorized_addresses l s) ∨
  ∃ rq registry account, msg = Module_msg rq ∧ Adapter.abstract_registry s = Ok registry ∧
    may_request s registry (rq_account_address rq) (sender i) account ∧
    mm_execute_handler env i (Some account) (rq_request rq) s = Ok (r, s').
Proof.
  apply (local_adapter_execute_Ok MONEY_MARKET_ADAPTER); [|done..]. intros d Hd. by apply elem_of_nil in Hd.
Qed.
(** A share below one stays below one. *)
Definition fee_partial (f : UsageFee) : Prop := share (uf_fee f) < DECIMAL_ONE.
Lemma fee_new_partial n x : fee_new n = Ok x → share x = n ∧ n < DECIMAL_ONE.
Proof. unfold fee_new. case_decide; [done|]. intros [= <-]. split; [done|]. simpl. lia. Qed.
Lemma mm_update_fee_Ok target o n s r s' : mm_update_fee target o n s = Ok (r, s') →
  ∃ f f', Adapter.custom s = Some f ∧ s' = Adapter.set_custom (Some f') s ∧ (fee_partial f → fee_partial f').
Proof.
  unfold mm_update_fee, mm_load_fees. intros Hrun. inv_ok. unfold id in *.
  match goal with Hf : Adapter.custom s = Some ?f |- _ => exists f end. eexists. split_and!; [done..|]. intros Hf.
  match goal with Hr : mm_update_recipient _ _ ?f1 = Ok ?f2 |- fee_partial ?f2 =>
    assert (uf_fee f2 = uf_fee f1) as Heq by (unfold mm_update_recipient in Hr; destruct n; by inv_ok) end.
  unfold fee_partial in *. rewrite Heq. unfold mm_update_share, set_share in *. destruct o; inv_ok; [|done].
  match goal with Hn : fee_new _ = Ok _ |- _ => by apply fee_new_partial in Hn as [-> ?] end.
Qed.
Lemma mm_local_Ok target s name a r account : target = Some account →
  mm_handle_local_request (mm_features target s) (Adapter.custom s) name a = Ok r →
  ∀ f, Adapter.custom s = Some f → 0 ≤ share (uf_fee f) →
  ∃ host m msgs, Adapter.ans_host s = Ok host ∧ resolve_money_market name = Ok m ∧
    (0 ≤ au_amount (raw_asset (raw_request a)) → mm_action_done f account host m a msgs) ∧ r = mkResponse "" [send (OnAccount account (Account.Execute msgs) [])].
Proof.
  intros -> Hrun f Hf Hs. rewrite Hf in Hrun. unfold mm_handle_local_request in Hrun. inv_ok.
  match goal with Hl : (let '(_, _) := ?x in _) = Ok _, Hr : _ = Ok ?x |- _ =>
    destruct x as [msgs id]; apply resolve_mm_action_Ok in Hr as (host & Hhost & Hdone); [|done..] end. inv_ok.
  unfold executor_execute, execute_with_funds, execute_on_account in *. simpl in *. inv_ok.
  eexists host, _, msgs. split_and!; [done..|]. by rewrite join_singletons.
Qed.
(** What a request stands for: an action, or the resolution of a named one by
    the name service *)
Definition stands_for (host : Addr) (m : MoneyMarketCommand) (rq : MoneyMarketExecuteMsg) (name : string)
    (a : MoneyMarketRawAction) : Prop :=
  match rq with
  | MmRawAction n b => n = name ∧ b = a
  | MmAnsAction n b => n = name ∧ resolve_mm_action m host b = Ok a
  | MmUpdateFee _ _ => False
  end.
(** The amount a request is about *)
Definition ans_asset_of (b : MoneyMarketAnsAction) : AnsAsset :=
  match b with
  | AnsDeposit x | AnsWithdraw x | AnsProvideCollateral _ x | AnsWithdrawCollateral _ x | AnsBorrow x _ | AnsRepay x _ => x
  end.
Definition requested_amount (rq : MoneyMarketExecuteMsg) : Z :=
  match rq with
  | MmRawAction _ a => au_amount (raw_asset (raw_request a))
  | MmAnsAction _ b => aa_amount (ans_asset_of b)
  | MmUpdateFee _ _ => 0
  end.
Lemma amount_resolved_Ok host x u : amount_resolved host x = Ok u → au_amount u = aa_amount x.
Proof. unfold amount_resolved, resolved_asset, resolve_ans_asset. intros Hrun. by inv_ok. Qed.
Lemma stands_for_amount host m rq name a : stands_for host m rq name a →
  au_amount (raw_asset (raw_request a)) = requested_amount rq.
Proof.
  destruct rq as [|n b|n b]; [done|intros [_ Hr]|by intros [_ ->]].
  destruct b; simpl in Hr; inv_ok; by match goal with Hu : amount_resolved _ _ = Ok _ |- _ => apply amount_resolved_Ok in Hu end.
Qed.
Definition requests_action (rq : MoneyMarketExecuteMsg) : Prop :=
  match rq with MmUpdateFee _ _ => False | _ => True end.
End calls.

Inductive mm_reachable : MmState → Prop :=
  | mm_init (Q : Querier) (R : Registries) (X : MoneyMarkets) (A : Accounts) (N : AnsHosts) env i registry msg r s :
      Adapter.instantiate MONEY_MARKET_ADAPTER env i registry msg (Adapter.mkState None None None ∅ None) = Ok (r, s) →
      mm_reachable s
  | mm_call (Q : Querier) (R : Registries) (X : MoneyMarkets) (A : Accounts) (N : AnsHosts) env i msg s r s' :
      mm_reachable s → Adapter.execute MONEY_MARKET_ADAPTER env i msg s = Ok (r, s') → mm_reachable s'.

Section theorems.
Context `{!Querier, !Registries, !Accounts, !AnsHosts, !MoneyMarkets}.
Lemma mm_requests_keep env i target rq s r s' :
  requests_action rq → mm_execute_handler env i target rq s = Ok (r, s') →
  s' = s ∧ ∃ name local m a, mm_is_over_ibc env name = Ok (local, false) ∧ resolve_money_market local = Ok m ∧
    (∀ host, Adapter.ans_host s = Ok host → stands_for host m rq name a) ∧
    mm_handle_local_request (mm_features target s) (Adapter.custom s) local a = Ok r.
Proof.
  intros Hrq Hrun. destruct rq as [|name b|name b]; [done|..]; simpl in Hrun; inv_ok; unfold id in *;
    (split; [done|]); unfold ans_action, raw_action in *; inv_ok;
    match goal with Hl : (let '(_, _) := ?x in _) = Ok _ |- _ => destruct x as [local []]; inv_ok end.
  - unfold mm_ans_query, name_service in *. inv_ok.
    match goal with Ha : resolve_mm_action ?m ?host _ = Ok ?a |- _ => exists name, local, m, a;
      split_and!; try done; intros host' Hhost; split; [done|]; assert (host' = host) as -> end; [|done].
    match goal with Hx : ok _ = Some _ |- _ => apply ok_Some in Hx; simpl in Hx; congruence end.
  - match goal with Hl : mm_handle_local_request _ _ _ _ = Ok _ |- _ =>
      pose proof Hl as Hm; unfold mm_handle_local_request in Hm; apply obind_Ok in Hm as (m & Hm & _) end.
    by exists name, local, m, b.
Qed.
End theorems.
Lemma mm_reachable_partial s : mm_reachable s → ∃ f, Adapter.custom s = Some f ∧ fee_partial f.
Proof.
  induction 1 as [Q R X A N env i registry msg r s Hrun|Q R X A N env i msg s r s' _ (f & Hf & Hc) Hrun].
  - unfold Adapter.instantiate in Hrun. simpl in Hrun. inv_ok. unfold mm_instantiate_handler, usage_fee_new in *. inv_ok.
    eexists. split; [done|]. unfold fee_partial. simpl.
    match goal with Hn : fee_new _ = Ok _ |- _ => by apply fee_new_partial in Hn as [-> ?] end.
  - apply mm_execute_Ok in Hrun as [(m & l & -> & _ & ->)|(rq & registry & account & -> & Hreg & _ & Hrun)]; [by eauto|].
    destruct (rq_request rq) as [o n|name b|name b] eqn:Hrq.
    + apply mm_update_fee_Ok in Hrun as (f0 & f' & Hf0 & -> & Hup). exists f'. split; [done|]. apply Hup. congruence.
    + apply mm_requests_keep in Hrun as [-> _]; [by eauto|done].
    + apply mm_requests_keep in Hrun as [-> _]; [by eauto|done].
Qed.

Section theorems.
Context `{!Querier, !Registries, !Accounts, !AnsHosts, !MoneyMarkets}.
(** What an account asks of a money market of its chain is what happens.  An
    accepted request for an action, of assets or of names of the name service,
    changes no state and sends one message: it has the account the request acts
    for, which let the sender, run the messages of the market for the operation,
    the asset and the contract the request stands for.  Only after a withdrawal
    there is one more, which pays the fee, the share of the amount that was
    asked for rounded down and less than that amount, to the recipient.  Requests
    for markets of other chains are never accepted. *)
Theorem mm_action_exact s (Hs : mm_reachable s) f (Hf : Adapter.custom s = Some f) (Hshare : 0 ≤ share (uf_fee f))
    env i named rq r s' (Hrq : requests_action rq)
    (Ha : 0 ≤ requested_amount rq)
    (Hrun : Adapter.execute MONEY_MARKET_ADAPTER env i (Module_msg (mkRequest named rq)) s = Ok (r, s')) :
  s' = s ∧ ∃ registry account host name local m a msgs, Adapter.abstract_registry s = Ok registry ∧
    may_request s registry named (sender i) account ∧ Adapter.ans_host s = Ok host ∧
    mm_is_over_ibc env name = Ok (local, false) ∧ resolve_money_market local = Ok m ∧
    stands_for host m rq name a ∧ mm_action_done f account host m a msgs ∧
    (∀ n, 0 < n → 0 ≤ mm_fee_of f n < n) ∧
    r = mkResponse "" [send (OnAccount account (Account.Execute msgs) [])].
Proof.
  destruct (mm_reachable_partial s Hs) as (f' & Hf' & Hc). assert (f' = f) as -> by congruence.
  apply mm_execute_Ok in Hrun as [(m & l & [=] & _)|(rq' & registry & account & [= <-] & Hreg & Hmay & Hrun)].
  apply mm_requests_keep in Hrun as [-> (name & local & m & a & Hlocal & Hm & Hstands & Hrun)]; [|done]. split; [done|].
  apply (mm_local_Ok _ _ _ _ _ account) with (f := f) in Hrun as (host & m' & msgs & Hhost & Hm' & Hdone & ->); [|done..].
  assert (m' = m) as -> by congruence. pose proof (Hstands host Hhost) as Hst.
  exists registry, account, host, name, local, m, a, msgs. split_and!; try done; [apply Hdone; by rewrite (stands_for_amount _ _ _ _ _ Hst)|].
  intros n Hn. unfold mm_fee_of, fee_partial in *. split; [apply Z.div_pos; [nia|done]|]. apply div_lt_iff; [done|]. nia.
Qed.
End theorems.
End market.

(** ** Ghost *)

Section ghost.
Context `{DecimalLaws, !DecimalDiv, !DecimalDivLaws, Semver, Api, CwOwnable, CwAsset}.
Context `{!CwAssetMsgs, !CwAssetKinds, !Accounts, !AnsHosts, !GhostApi}.

(** Receipts for an amount, at a redemption ratio *)
Lemma receipts_of amount ratio d q : 0 ≤ amount → 0 ≤ ratio →
  decimal_from_ratio amount 1 = Some d → dec_div d ratio = Some q →
  0 < ratio ∧ dec_floor q = amount * DECIMAL_ONE / ratio.
Proof.
  intros Ha Hr Hd Hq. rewrite from_ratio_spec, Z.div_1_r in Hd by lia. case_decide; [|done]. injection Hd as <-.
  assert (DECIMAL_ONE > 0) as Hone by done.
  destruct (decide (ratio = 0)) as [->|Hne]; [by rewrite dec_div_zero in Hq|]. split; [lia|].
  rewrite dec_div_spec in Hq by lia. case_decide; [|done]. injection Hq as <-.
  rewrite dec_floor_spec by (apply Z.div_pos; nia).
  rewrite Z.div_div by lia. by rewrite Z.div_mul_cancel_r by lia.
Qed.

(** A withdrawal from Ghost asks for what it is worth, and pays its fee on
    what was asked.  The messages of a withdrawal of an amount of a lent asset are
    the redemption of receipts of the vault, the largest number that is worth no
    more than the amount at the redemption ratio of the vault, which is never
    zero, and the payment of the fee. *)
Theorem ghost_withdraw_redeems (f : UsageFee) (sender host : Addr) (a : MoneyMarketRawAction) (lent : AssetUnchecked)
    (Hrq : raw_request a = RawWithdraw lent) (Hlent : 0 ≤ au_amount lent)
    (Hratio : ∀ t r, vault_status_of t = Some r → 0 ≤ r) (msgs : list CosmosMsg)
    (Hdone : mm_action_done f sender host Ghost a msgs) :
  ∃ vault o denom ratio receipts status, addr_validate (raw_contract_addr a) = Some vault ∧ asset_check lent = Some o ∧
    smart_query_of vault vault_status_json = Some status ∧ vault_status_of status = Some ratio ∧ 0 < ratio ∧
    msgs = WasmExecute vault (Raw vault_withdraw_json) [mkCoin denom receipts] :: mm_fee_msgs f o ∧
    receipts * ratio ≤ au_amount lent * DECIMAL_ONE < (receipts + 1) * ratio.
Proof.
  destruct Hdone as (vault & o & [] & own & Hvault & Ho & _ & Hown & ->). rewrite Hrq in *. simpl in *.
  rewrite <-(asset_check_amount _ _ Ho) in *. unfold ghost_withdraw, mm_ask, query_r in Hown. inv_ok.
  repeat match goal with Hq : unwrap _ = Ok _ |- _ => apply unwrap_Ok in Hq end.
  match goal with Hs : vault_status_of ?t = Some ?r, Hd : decimal_from_ratio _ _ = Some _, Hq : dec_div _ _ = Some _ |- _ =>
    destruct (receipts_of _ _ _ _ Hlent (Hratio _ _ Hs) Hd Hq) as [Hpos Hn];
    eexists vault, o, _, r, _, t end.
  split_and!; [done..| |]; rewrite Hn.
  - rewrite Z.mul_comm. by apply Z.mul_div_le.
  - rewrite (Z.mul_comm (_ + 1)), Z.add_1_r. by apply Z.mul_succ_div_gt.
Qed.
End ghost.

(** ** Amounts through the API *)

Section amounts.
Context `{DecimalOps, Semver, Api, Instantiate2, CwOwnable, CoinsOps, Sha256, CwAsset}.
Context `{!CwAssetMsgs, !CwAssetKinds, !CwAssetTexts, !ComparatorParse, !MoneyMarketJson}.
Context `{!Querier, !Registries, !Accounts, !AnsHosts, !MoneyMarkets}.
Context `{!ToJson (Adapter.ExecuteMsg MoneyMarketExecuteMsg), !ToJson MoneyMarketQueryMsg, !FromJson Z}.

(** Every query of the API for a number, with the message it sends *)
Definition amount_queries (m : MoneyMarketApi) (user contract_addr : string) (c b : asset_info) (x y : AssetEntry) :
    list (MoneyMarketQueryMsg * outcome SdkError Z) :=
  let ci := asset_info_uncheck c in let bi := asset_info_uncheck b in let n := mma_name m in
  [(RawUserDeposit user ci contract_addr n, mma_user_deposit m user c contract_addr);
   (RawUserCollateral user ci bi contract_addr n, mma_user_collateral m user c b contract_addr);
   (RawUserBorrow user ci bi contract_addr n, mma_user_borrow m user c b contract_addr);
   (RawCurrentLTV user ci bi contract_addr n, mma_current_ltv m user c b contract_addr);
   (RawMaxLTV user ci bi contract_addr n, mma_max_ltv m user c b contract_addr);
   (RawPrice ci bi n, mma_price m c b);
   (AnsUserDeposit user x n, mma_ans_user_deposit m user x);
   (AnsUserCollateral user x y n, mma_ans_user_collateral m user x y);
   (AnsUserBorrow user x y n, mma_ans_user_borrow m user x y);
   (AnsCurrentLTV user x y n, mma_ans_current_ltv m user x y);
   (AnsMaxLTV user x y n, mma_ans_max_ltv m user x y);
   (AnsPrice x y n, mma_ans_price m x y)].
Lemma amount_queries_ask m user contract_addr c b x y q res : (q, res) ∈ amount_queries m user contract_addr c b x y →
  res = adapters_query (mma_base m) MONEY_MARKET_ADAPTER_ID q.
Proof. unfold amount_queries. rewrite !elem_of_cons, elem_of_nil. naive_solver. Qed.

End amounts.

(** ** A money market adapter to evaluate

    The adapter on the chain "kaiyo-1", where Ghost has a vault for an asset: the
    account "acc1" withdraws from it. *)

From S2P Require Import Prelude Cosmos Strings Objects Names AccountIds Fees ModuleFactory Ownership AnsObjects Ans AnsProofs AnsClient Registry RegistryAccess Clients Account Ibc IbcClient Sdk SdkApis Adapter AdapterProofs SdkModules DexStandard DexIntegrations MoneyMarketStandard MoneyMarket MoneyMarketIntegrations AccountExamples ModuleExamples SubscriptionExamples CalendarExamples DexExamples.

Definition decimal_div_ref : DecimalDiv := {|
  dec_mul a b := if decide (a * b / DECIMAL_ONE < 2 ^ 128) then Some (a * b / DECIMAL_ONE) else None;
  dec_div a b := if decide (b ≠ 0 ∧ a * DECIMAL_ONE / b < 2 ^ 128) then Some (a * DECIMAL_ONE / b) else None;
  dec_floor a := a / DECIMAL_ONE
|}.
Lemma decimal_div_ref_laws : @DecimalDivLaws decimal_div_ref.
Proof.
  split; simpl; [done| |done|done]. intros a b _ Hb. repeat case_decide; naive_solver lia.
Qed.

Module MoneyMarketExamples.
#[local] Existing Instance decimal_div_ref.
#[local] Existing Instance decimal_div_ref_laws.
#[local] Existing Instance semver_ref.
#[local] Existing Instance api_ref.
#[local] Existing Instance instantiate2_ref.
#[local] Existing Instance RegistryExamples.ownable_ref.
#[local] Existing Instance coins_ref.
#[local] Existing Instance sha256_ref.
#[local] Existing Instance decimal_ref.
#[local] Existing Instance decimal_ref_laws.
#[local] Existing Instance AnsExamples.asset_ref.
#[local] Existing Instance SubscriptionExamples.SubscriptionExamples.asset_msgs.
#[local] Existing Instance CalendarExamples.CalendarExamples.kinds.
#[local] Existing Instance DexExamples.DexExamples.asset_texts.
#[local] Existing Instance ModuleExamples.comparators.
#[local] Existing Instance ModuleExamples.chain_admin.
#[local] Existing Instance AccountExamples.AccountExamples.registries.

(** The account, with the adapter installed, and contracts that answer anything *)
Definition account : Account.State := set_account_modules {[MONEY_MARKET_ADAPTER_ID := "mm"]} AccountExamples.AccountExamples.s2.
#[local] Instance accounts : Accounts := {|
  account_state a := if decide (a = "acc1") then Some account else None;
  Ibc.app_account _ := None;
  smart_query_of _ _ := Some "{}"
|}.
#[local] Instance ghost_api : GhostApi := {|
  vault_deposit_json := "deposit"; vault_withdraw_json := "withdraw"; market_deposit_json := "collateral";
  market_withdraw_json _ := "uncollateral"; market_borrow_json _ := "borrow"; market_repay_json := "repay";
  vault_config_json := "config"; vault_config_of _ := Some "ureceipt";
  vault_status_json := "status"; vault_status_of _ := Some (3 * DECIMAL_ONE);
  market_position_json _ := "position"; market_position_of _ := Some (100, 30);
  market_config_json := "config"; market_config_of _ := Some (DECIMAL_ONE / 2);
  normalized_rate _ := Some DECIMAL_ONE; normalized_div _ _ := Some DECIMAL_ONE;
  bank_balance _ _ := Some 5
|}.
(** A name service with an asset and its vault *)
Definition n4 : Ans.State := commit DexExamples.DexExamples.n3 (Ans.execute DexExamples.DexExamples.host DexExamples.DexExamples.owner
  (UpdateContractAddresses [(mkContractEntry "ghost" "vault/juno", "vault1")] []) DexExamples.DexExamples.n3).
#[local] Instance names : AnsHosts := {| ans_state _ := Some n4 |}.
(** The adapter as it is built for Kujira *)
#[local] Instance markets : MoneyMarkets := {| market_of _ := Ghost; market_feature f := bool_decide (f = GHOST) |}.
#[local] Instance mm_json : MoneyMarketJson := {| mm_to_json _ := "{}" |}.
#[local] Instance request_json : ToJson (Adapter.ExecuteMsg MoneyMarketExecuteMsg) := λ _, "request".
#[local] Instance query_json : ToJson MoneyMarketQueryMsg := λ _, "query".
(** A number is a text in quotes. *)
#[local] Instance number_json : FromJson Z := λ t, match t with
  | String c _ => if decide (c = Ascii.ascii_of_nat 34) then Some 0 else None
  | EmptyString => None
  end.

Definition at_mm : Env := mkEnv (mkBlock 1 0 "kaiyo-1") "mm".
Definition MmState : Type := Adapter.State (option UsageFee).
Definition empty_mm : MmState := Adapter.mkState None None None ∅ None.
Definition created := Adapter.instantiate MONEY_MARKET_ADAPTER at_mm (mkInfo "bob" []) "deployer/reg"
  (mkMmInit (10 ^ 16) 0) empty_mm.
Definition g0 : MmState := commit empty_mm created.
Definition call (i : Addr) (m : Adapter.ExecuteMsg MoneyMarketExecuteMsg) :=
  Adapter.execute MONEY_MARKET_ADAPTER at_mm (mkInfo i []) m.
Definition withdrawing : MoneyMarketExecuteMsg := MmAnsAction "kaiyo>ghost" (AnsWithdraw (mkAnsAsset "juno" 1000)).
Definition withdrawal := call "acc1" (Module_msg (mkRequest (Some "acc1") withdrawing)).
Definition fee0 : UsageFee := mkUsageFee (mkFee (10 ^ 16)) "acc0".

Ltac evaluate := match goal with |- _ = ?b => vm_cast_no_check (eq_refl b) end.
Lemma mm_created : is_ok created = true ∧ is_ok (withdrawal g0) = true.
Proof. split; evaluate. Qed.
Lemma g0_fee : Adapter.custom g0 = Some fee0.
Proof. evaluate. Qed.
(** 333 receipts are worth 999; the fee is a hundredth of the 1000 asked for. *)
Definition withdrawal_msgs : list CosmosMsg :=
  [WasmExecute "vault1" (Raw "withdraw") [mkCoin "ureceipt" 333]; MsgBankSend "acc0" [mkCoin "ujuno" 10]].
Example withdrawal_answers : (λ x, messages x.1) <$> ok (withdrawal g0) =
  Some [send (OnAccount "acc1" (Account.Execute withdrawal_msgs) [])].
Proof. evaluate. Qed.

Lemma mm_call_Ok i m s : is_ok (call i m s) = true →
  ∃ r, Adapter.execute MONEY_MARKET_ADAPTER at_mm (mkInfo i []) m s = Ok (r, commit s (call i m s)).
Proof. unfold call. destruct (Adapter.execute _ _ _ m s) as [[r s']|e|]; [intros _; by exists r|done..]. Qed.
Lemma g0_reachable : mm_reachable g0.
Proof.
  destruct mm_created as (Hc & _). unfold g0. destruct created as [[r s]|e|] eqn:He; [|discriminate Hc..].
  exact (mm_init ModuleExamples.chain_admin AccountExamples.AccountExamples.registries markets accounts names
    at_mm (mkInfo "bob" []) "deployer/reg" (mkMmInit (10 ^ 16) 0) r s He).
Qed.
Lemma mm_action_exact_witness : ∃ r, withdrawal g0 = Ok (r, g0) ∧ ∃ msgs, messages r =
  [send (OnAccount "acc1" (Account.Execute msgs) [])].
Proof.
  destruct (mm_call_Ok "acc1" (Module_msg (mkRequest (Some "acc1") withdrawing)) g0 (proj2 mm_created)) as [r Hr].
  destruct (mm_action_exact g0 g0_reachable fee0 g0_fee ltac:(simpl; lia) at_mm (mkInfo "acc1" []) (Some "acc1")
    withdrawing r _ I ltac:(simpl; lia) Hr)
    as (Hs & registry & account & host & name & local & m & a & msgs & _ & Hmay & _ & _ & _ & _ & _ & _ & ->).
  pose proof (proj1 (proj2 Hmay)) as Hacc. injection Hacc as Hacc. rewrite <-Hacc in Hr.
  exists (mkResponse "" [send (OnAccount "acc1" (Account.Execute msgs) [])]). split; [|exists msgs; reflexivity]. rewrite Hs in Hr. exact Hr.
Defined.

Definition lent : AssetUnchecked := mkUnchecked "nujuno" 1000.
Definition lent_asset : SdkApis.Asset := mkAsset ("nujuno" : asset_info) 1000.
Definition raw_withdrawal : MoneyMarketRawAction := mkRawAction (RawWithdraw lent) "vault1".
Lemma withdrawal_done : mm_action_done fee0 "acc1" "ans" Ghost raw_withdrawal withdrawal_msgs.
Proof.
  exists "vault1", lent_asset, tt, [WasmExecute "vault1" (Raw "withdraw") [mkCoin "ureceipt" 333]].
  split_and!; evaluate.
Qed.
Lemma ratio_positive t r : vault_status_of t = Some r → 0 ≤ r.
Proof. change (Some (3 * DECIMAL_ONE) = Some r → 0 ≤ r). intros Hr. assert (r = 3 * DECIMAL_ONE) as -> by congruence. done. Qed.
Lemma ghost_withdraw_redeems_witness : ∃ ratio receipts, 0 < ratio ∧
  receipts * ratio ≤ 1000 * DECIMAL_ONE < (receipts + 1) * ratio.
Proof.
  destruct (ghost_withdraw_redeems fee0 "acc1" "ans" raw_withdrawal lent eq_refl ltac:(simpl; lia)
    ratio_positive withdrawal_msgs withdrawal_done)
    as (vault & o & denom & ratio & receipts & status & _ & _ & _ & _ & Hpos & _ & Hb).
  exists ratio, receipts. split; [exact Hpos|exact Hb].
Defined.

Definition juno : asset_info := "nujuno".
Definition no_base : Features := mkFeatures "app" [] (Ok "acc1") (Ok "deployer/reg") (Ok "ans").
Definition asking : MoneyMarketQueryMsg := AnsUserDeposit "bob" "juno" "ghost".
Lemma asking_answered : mm_query_handler at_mm None asking g0 = Ok "{}".
Proof. evaluate. Qed.
End MoneyMarketExamples.
