(* ===== verification/StakingProofs.v ===== *)
(** * Correctness of the staking adapter

    What an action on a provider sends; that the providers stake and unstake every
    asset of a request, each at the contract of its own name; and that their
    answers have an entry for every token. *)

From S2P Require Import Prelude Cosmos Strings Objects Names AccountIds Fees ModuleFactory Ownership AnsObjects Ans AnsClient Registry Clients Account Ibc IbcClient Sdk SdkApis Adapter AdapterProofs SdkModules DexStandard Dex DexIntegrations DexProofs StakingStandard MiniAstrovault StakingIntegrations CwStaking.
From Stdlib Require Import Ascii String.
#[local] Open Scope string_scope.
#[local] Open Scope list_scope.
#[local] Open Scope Z_scope.

(** ** Requests *)

Section requests.
Context `{Semver, Api, Instantiate2, CwOwnable, CoinsOps, Sha256, CwAsset, !CwAssetMsgs, !CwAssetKinds}.
Context `{!Querier, !Registries, !Accounts, !AnsHosts, !ComparatorParse, !StakingProviders, !StakingJson}.
Context `{!ToJson IbcClient.ExecuteMsg, !ToJson (Adapter.ExecuteMsg StakingExecuteMsg)}.
Implicit Types (s : Adapter.State unit).

Lemma stk_execute_Ok env i msg s r s' : Adapter.execute CW_STAKING_ADAPTER env i msg s = Ok (r, s') →
  (∃ m l, msg = Base_ m ∧ messages r = [] ∧ s' = set_authorized_addresses l s) ∨
  ∃ rq registry account, msg = Module_msg rq ∧ Adapter.abstract_registry s = Ok registry ∧
    may_request s registry (rq_account_address rq) (sender i) account ∧
    stk_execute_handler env i (Some account) (rq_request rq) s = Ok (r, s').
Proof.
  apply (local_adapter_execute_Ok CW_STAKING_ADAPTER); [|done..]. intros d Hd. by apply elem_of_nil in Hd.
Qed.
(** The messages of a provider for an action of an account: what the provider
    makes of the data it fetches for the names of the action *)
Definition staking_done (account host registry : Addr) (p : CwStakingCommand) (a : StakingAction)
    (msgs : list CosmosMsg) : Prop :=
  ∃ data, staking_fetch_data p (Some account) host registry (staking_assets_from_action a) (staking_default p) = Ok data ∧
    provider_msgs p data a = Ok msgs.
Lemma stk_local_Ok s account a name r : stk_handle_local_request (stk_features (Some account) s) a name = Ok r →
  ∃ host registry p msgs, Adapter.ans_host s = Ok host ∧ Adapter.abstract_registry s = Ok registry ∧
    resolve_local_provider name = Ok p ∧ staking_done account host registry p a msgs ∧
    r = mkResponse "" [send (OnAccount account (Account.Execute msgs) [])].
Proof.
  unfold stk_handle_local_request, resolve_staking_action, provider_data. intros Hrun. inv_ok.
  unfold executor_execute, execute_with_funds, execute_on_account in *. simpl in *. inv_ok.
  rewrite join_singletons. eexists _, _, _, _. split_and!; [done..| |done]. by eexists.
Qed.

Lemma stk_module_Ok s env i named msg r s' name : staking_over_ibc env (provider msg) = Ok (name, false) →
  Adapter.execute CW_STAKING_ADAPTER env i (Module_msg (mkRequest named msg)) s = Ok (r, s') →
  s' = s ∧ ∃ registry account, Adapter.abstract_registry s = Ok registry ∧
    may_request s registry named (sender i) account ∧
    stk_handle_local_request (stk_features (Some account) s) (action msg) name = Ok r.
Proof.
  intros Hlocal Hrun.
  apply stk_execute_Ok in Hrun as [(m & l & [=] & _)|(rq & registry & account & [= <-] & Hreg & Hmay & Hrun)].
  unfold stk_execute_handler in Hrun. simpl in Hrun. inv_ok. unfold stk_execute in *. rewrite Hlocal in *. by eauto 10.
Qed.

(** What staking sends.  An accepted request on a provider of this chain
    comes from the account, one of its authorised addresses or its owner,
    changes no state, and sends one message that has the account run exactly the
    messages of the provider, with the data fetched for the names of the
    request. *)
Theorem staking_action_exact s env i named msg r s' name
    (Hlocal : staking_over_ibc env (provider msg) = Ok (name, false))
    (Hrun : Adapter.execute CW_STAKING_ADAPTER env i (Module_msg (mkRequest named msg)) s = Ok (r, s')) :
  s' = s ∧ ∃ registry account host p msgs, Adapter.abstract_registry s = Ok registry ∧
    may_request s registry named (sender i) account ∧ Adapter.ans_host s = Ok host ∧
    resolve_local_provider name = Ok p ∧ staking_done account host registry p (action msg) msgs ∧
    r = mkResponse "" [send (OnAccount account (Account.Execute msgs) [])].
Proof.
  apply (stk_module_Ok _ _ _ _ _ _ _ _ Hlocal) in Hrun as (-> & registry & account & Hreg & Hmay & Hl). split; [done|].
  apply stk_local_Ok in Hl as (host & registry' & p & msgs & Hhost & Hreg' & Hp & Hdone & ->).
  assert (registry' = registry) as -> by congruence.
  by exists registry, account, host, p, msgs.
Qed.
End requests.

(** ** Providers *)

Section providers.
Context `{Semver, Api, Instantiate2, CwOwnable, CoinsOps, Sha256, CwAsset, !CwAssetMsgs, !CwAssetKinds}.
Context `{!Querier, !Registries, !Accounts, !AnsHosts, !ComparatorParse, !StakingProviders, !StakingJson}.
Context `{!ToJson IbcClient.ExecuteMsg, !ToJson (Adapter.ExecuteMsg StakingExecuteMsg)}.
Context `{!BowApi, !WynDexStakingApi, !OsmosisLockup, !AstroportApi, !Cw20Json, !HashOrder}.
Context `{!ToJson AstrovaultStakingReceiveMsg, !ToJson AstrovaultStakingExecuteMsg, !ToJson AstrovaultStakingQueryMsg}.
Context `{!FromJson LpConfigResponse, !FromJson LpBalanceResponse, !FromJson (list RewardSourceResponse)}.
Implicit Types (s : Adapter.State unit).

(** A provider that stakes every token at a contract of its own: what it sends,
    for an unbonding period, to stake or unstake an amount of an LP token at a
    staking contract, if it can *)
Record TokenProvider := mkTokenProvider {
  tp_name : string;
  tp_command : CwStakingCommand;
  tp_stake : option Duration → asset_info → Addr → Z → option CosmosMsg;
  tp_unstake : option Duration → asset_info → Addr → Z → option CosmosMsg
}.
Definition denom_of (lp : asset_info) : option string := match asset_kind lp with IsNative d => Some d | _ => None end.
Definition token_of (lp : asset_info) : option Addr := match asset_kind lp with IsCw20 a => Some a | _ => None end.
Definition sent_to (token staking : Addr) (n : Z) (hook : string) : CosmosMsg :=
  WasmExecute token (Raw (cw20_send_json staking n hook)) [].
Definition bow_provider : TokenProvider := mkTokenProvider BOW Bow
  (λ _ lp staking n, d ← denom_of lp; Some (WasmExecute staking (Raw bow_stake_json) [mkCoin d n]))
  (λ _ lp staking n, d ← denom_of lp; Some (WasmExecute staking (Raw (bow_unstake_json (mkCoin d n))) [])).
Definition wyndex_provider : TokenProvider := mkTokenProvider WYNDEX WynDex
  (λ period lp staking n, token ← token_of lp; t ← ok (unwrap_unbond period);
    Some (sent_to token staking n (wyndex_delegate_json t)))
  (λ period lp staking n, t ← ok (unwrap_unbond period); Some (WasmExecute staking (Raw (wyndex_unbond_json n t)) [])).
Definition astroport_provider : TokenProvider := mkTokenProvider ASTROPORT Astroport
  (λ _ lp staking n, token ← token_of lp; Some (sent_to token staking n astroport_deposit_json))
  (λ _ lp staking n, token ← token_of lp; Some (WasmExecute staking (Raw (astroport_withdraw_json token n)) [])).
Definition astrovault_provider : TokenProvider := mkTokenProvider ASTROVAULT Astrovault
  (λ _ lp staking n, token ← token_of lp; Some (sent_to token staking n (to_json (AvDeposit None (Some true) None))))
  (λ _ lp staking n, Some (WasmExecute staking
    (Raw (to_json (Withdrawal (Some n) None None (Some false) None None))) [])).
Definition token_providers : list TokenProvider := [bow_provider; wyndex_provider; astroport_provider; astrovault_provider].

(** One message for every asset, in their order, of the asset and the staking
    contract the name service has for its name *)
Definition each_asset (host : Addr) (name : string) (mk : asset_info → Addr → Z → option CosmosMsg)
    (assets : list AnsAsset) (msgs : list CosmosMsg) : Prop :=
  Forall2 (λ a msg, ∃ lp staking, query_asset host (aa_name a) = Ok lp ∧
    query_contract host (staking_entry name (aa_name a)) = Ok staking ∧
    mk lp staking (aa_amount a) = Some msg) assets msgs.
Class TokenProviderLaws (P : TokenProvider) : Prop := {
  tp_stakes sender host registry assets period data msgs :
    staking_fetch_data (tp_command P) sender host registry (aa_name <$> assets) (staking_default (tp_command P)) = Ok data →
    staking_stake (tp_command P) data assets period = Ok msgs → each_asset host (tp_name P) (tp_stake P period) assets msgs;
  tp_unstakes sender host registry assets period data msgs :
    staking_fetch_data (tp_command P) sender host registry (aa_name <$> assets) (staking_default (tp_command P)) = Ok data →
    staking_unstake (tp_command P) data assets period = Ok msgs → each_asset host (tp_name P) (tp_unstake P period) assets msgs
}.

(** Tokens fetched for the names of the assets are paired with all of them. *)
Lemma fetched_each {T} (one : AssetEntry → outcome CwStakingError T) (f : AnsAsset → T → CosmosMsg)
    (Q : AnsAsset → CosmosMsg → Prop) assets tokens :
  omapM one (aa_name <$> assets) = Ok tokens → (∀ a t, one (aa_name a) = Ok t → Q a (f a t)) →
  Forall2 Q assets (zip_with f assets tokens).
Proof.
  rewrite omapM_Ok, Forall2_fmap_l. intros Hall HQ. induction Hall as [|a t assets tokens Hat Hall IH]; simpl; [constructor|].
  constructor; auto.
Qed.
Lemma expect_cw20_Ok i a : expect_cw20 i = Ok a → token_of i = Some a.
Proof. unfold expect_cw20, token_of. by destruct (asset_kind i); [|intros [= ->]|]. Qed.
Lemma each_fetched {T} (one : AssetEntry → outcome CwStakingError T) (f : AnsAsset → T → CosmosMsg) host name mk
    assets tokens : omapM one (aa_name <$> assets) = Ok tokens →
  (∀ a t, one (aa_name a) = Ok t → ∃ lp staking, query_asset host (aa_name a) = Ok lp ∧
    query_contract host (staking_entry name (aa_name a)) = Ok staking ∧ mk lp staking (aa_amount a) = Some (f a t)) →
  each_asset host name mk assets (zip_with f assets tokens).
Proof. intros Ht Hmk. by eapply fetched_each. Qed.
Ltac fetched := intros; simpl in *; inv_ok; (eapply each_fetched; [eassumption|]); intros a t Ht;
  unfold bow_token, wyndex_token, astroport_token, astrovault_token, staking_contract_address, stk_query_asset in Ht;
  inv_ok; eexists _, _; split_and!; try eassumption; simpl;
  repeat match goal with Hx : expect_cw20 _ = Ok _ |- _ => apply expect_cw20_Ok in Hx as -> end.
#[export] Instance bow_lawful : TokenProviderLaws bow_provider.
Proof.
  unfold bow_provider, Bow, bow_fetch_data, bow_stake, bow_unstake.
  split; fetched; unfold denom_of; match goal with Hk : _ = Ok ?d |- context[asset_kind ?i] => destruct (asset_kind i); by inv_ok end.
Qed.
#[export] Instance wyndex_lawful : TokenProviderLaws wyndex_provider.
Proof.
  unfold wyndex_provider, WynDex, wyndex_fetch_data, wyndex_stake_msgs, wyndex_unstake.
  split; fetched; by match goal with Hu : unwrap_unbond _ = Ok _ |- _ => rewrite Hu end.
Qed.
#[export] Instance astroport_lawful : TokenProviderLaws astroport_provider.
Proof. unfold astroport_provider, Astroport, astroport_fetch_data, astroport_stake, astroport_unstake. by split; fetched. Qed.
#[export] Instance astrovault_lawful : TokenProviderLaws astrovault_provider.
Proof.
  unfold astrovault_provider, Astrovault, astrovault_fetch_data, astrovault_stake, astrovault_unstake, astrovault_withdrawal.
  by split; fetched.
Qed.
Lemma token_providers_lawful P : P ∈ token_providers → TokenProviderLaws P.
Proof. unfold token_providers. rewrite !elem_of_cons, elem_of_nil. intros [->|[->|[->|[->|[]]]]]; apply _. Qed.


(** ** Answers *)

Definition staking_providers : list (string * CwStakingCommand) :=
  [(BOW, Bow); (WYNDEX, WynDex); (OSMOSIS, Osmosis); (ASTROPORT, Astroport); (ASTROVAULT, Astrovault)].
Definition query_tokens (q : StakingQueryMsg) : list AssetEntry :=
  match q with
  | QueryInfo _ tokens | QueryStaked _ tokens _ _ | QueryUnbonding _ tokens _ | QueryRewardTokens _ tokens => tokens
  end.
Definition query_provider_name (q : StakingQueryMsg) : string :=
  match q with QueryInfo p _ | QueryStaked p _ _ _ | QueryUnbonding p _ _ | QueryRewardTokens p _ => p end.
Definition entries (r : StakingResponse) : nat :=
  match r with
  | StakingInfoResponse l => List.length l
  | StakeResponse l => List.length l
  | RewardTokensResponse l => List.length l
  | UnbondingResponse l => List.length l
  end.
(** One entry for every token, with two exceptions: Bow and Astroport answer no
    unbonding positions at all, and Astrovault describes a staking contract once
    for all its tokens. *)
Definition entries_for (name : string) (q : StakingQueryMsg) (n : nat) : Prop :=
  match q with
  | QueryUnbonding _ _ _ => n = if decide (name ∈ [BOW; ASTROPORT]) then 0%nat else List.length (query_tokens q)
  | QueryInfo _ _ => if decide (name = ASTROVAULT) then (n ≤ List.length (query_tokens q))%nat
                     else n = List.length (query_tokens q)
  | _ => n = List.length (query_tokens q)
  end.
Lemma omapM_length {A B E} (f : A → outcome E B) l ys : omapM f l = Ok ys → List.length ys = List.length l.
Proof. rewrite omapM_Ok. intros Hall. symmetry. by apply Forall2_length in Hall. Qed.
Lemma staking_contracts_length `{!HashOrderLaws} (d : AstrovaultData) :
  (List.length (hash_order (elements (staking_contracts d))) ≤ List.length (astrovault_tokens d))%nat.
Proof.
  rewrite hash_order_permutes. unfold staking_contracts.
  rewrite <-(length_fmap astrovault_staking_contract). induction (_ <$> _) as [|x l IH]; simpl; [by rewrite elements_empty|].
  change (size ({[x]} ∪ list_to_set l : gset Addr) ≤ S (List.length l))%nat.
  change (size (list_to_set l : gset Addr) ≤ List.length l)%nat in IH.
  rewrite size_union_alt, size_singleton. etrans; [|by apply le_n_S, IH].
  simpl. apply le_n_S, subseteq_size. set_solver.
Qed.

(** What a provider answers about the tokens it fetched *)
Definition answers_counted (name : string) (p : CwStakingCommand) : Prop :=
  ∀ host registry tokens data, staking_fetch_data p None host registry tokens (staking_default p) = Ok data →
  (∀ l, staking_query_info p data = Ok l → if decide (name = ASTROVAULT) then (List.length l ≤ List.length tokens)%nat
     else List.length l = List.length tokens) ∧
  (∀ staker stakes period l, staking_query_staked p data staker stakes period = Ok l → List.length l = List.length tokens) ∧
  (∀ staker l, staking_query_unbonding p data staker = Ok l →
     List.length l = if decide (name ∈ [BOW; ASTROPORT]) then 0%nat else List.length tokens) ∧
  (∀ l, staking_query_rewards p data = Ok l → List.length l = List.length tokens).
Ltac counted := intros host registry tokens data Hd; simpl in Hd; unfold bow_fetch_data, wyndex_fetch_data, osmosis_fetch_data,
  astroport_fetch_data, astrovault_fetch_data in Hd; inv_ok;
  repeat match goal with Ho : omapM _ tokens = Ok _ |- _ => apply omapM_length in Ho end;
  simpl; split_and!; intros; inv_ok;
  repeat match goal with Ho : omapM _ _ = Ok ?l |- _ => apply omapM_length in Ho end;
  simpl in *; rewrite ?length_fmap in *; try congruence.
Lemma providers_counted `{!HashOrderLaws} name p : (name, p) ∈ staking_providers → answers_counted name p.
Proof.
  unfold staking_providers. rewrite !elem_of_cons, elem_of_nil.
  intros [[= -> ->]|[[= -> ->]|[[= -> ->]|[[= -> ->]|[[= -> ->]|[]]]]]].
  - unfold Bow, bow_query_info, bow_query_staked, bow_query_unbonding, bow_query_rewards. counted.
  - unfold WynDex, wyndex_query_info, wyndex_query_staked, wyndex_query_unbonding, wyndex_query_rewards. counted.
  - unfold Osmosis, osmosis_query_info, osmosis_query_staked, osmosis_query_unbonding, osmosis_query_rewards. counted.
  - unfold Astroport, astroport_query_info, astroport_query_staked, astroport_query_unbonding, astroport_query_rewards. counted.
  - unfold Astrovault, astrovault_query_info, astrovault_query_staked, astrovault_query_unbonding, astrovault_query_rewards.
    counted. match goal with Ho : List.length ?l = List.length (hash_order (elements (staking_contracts ?d))) |- _ =>
      pose proof (staking_contracts_length d); simpl in *; lia end.
Qed.
Lemma query_provider_Ok base host registry env provider tokens local x : staking_over_ibc env provider = Ok (local, false) →
  query_provider base host registry env provider tokens = Ok x → projT1 x = provider_of local ∧
  staking_fetch_data (projT1 x) None host registry tokens (staking_default (projT1 x)) = Ok (projT2 x).
Proof.
  unfold query_provider. intros -> Hrun. simpl in Hrun. inv_ok. simpl. split; [|done].
  match goal with Hr : resolve_local_provider _ = Ok _ |- _ => unfold resolve_local_provider in Hr end.
  destruct (staking_feature local); [|done]. destruct (provider_feature _); by inv_ok.
Qed.

(** Answers per token.  On the five providers every answer to a query has
    exactly one entry for every token of the query, as the messages document, but
    for unbonding positions on Bow and Astroport, which are never given, and
    staking contracts on Astrovault, which are not repeated. *)
Theorem staking_answers_per_token `{!HashOrderLaws} base env q r local name
    (Hp : (name, provider_of local) ∈ staking_providers)
    (Hlocal : staking_over_ibc env (query_provider_name q) = Ok (local, false))
    (Hrun : stk_answer base env q = Ok r) : entries_for name q (entries r).
Proof.
  apply providers_counted in Hp. unfold stk_answer in Hrun. inv_ok.
  destruct q; inv_ok; (match goal with Hq : query_provider _ _ _ _ _ _ = Ok ?x |- _ =>
    destruct (query_provider_Ok _ _ _ _ _ _ _ _ Hlocal Hq) as [Heq Hd]; destruct x as [p data]; simpl in * end);
    subst p; destruct (Hp _ _ _ _ Hd) as (Hinfo & Hstaked & Hunbonding & Hrewards);
    first [by eapply Hinfo|by eapply Hstaked|by eapply Hunbonding|by eapply Hrewards].
Qed.
End providers.

(** ** A staking adapter to evaluate

    The adapter on the chain "juno-1", where Wyndex has staking contracts for two
    LP tokens: the account "acc1" stakes both. *)

From S2P Require Import Prelude Cosmos Strings Objects Names AccountIds Fees ModuleFactory Ownership AnsObjects Ans AnsProofs AnsClient Registry RegistryAccess Clients Account Ibc IbcClient Sdk SdkApis Adapter AdapterProofs SdkModules DexStandard Dex DexIntegrations StakingStandard MiniAstrovault StakingIntegrations CwStaking AccountExamples ModuleExamples SubscriptionExamples CalendarExamples DexExamples.

Module StakingExamples.
#[local] Existing Instance semver_ref.
#[local] Existing Instance api_ref.
#[local] Existing Instance instantiate2_ref.
#[local] Existing Instance RegistryExamples.ownable_ref.
#[local] Existing Instance coins_ref.
#[local] Existing Instance sha256_ref.
#[local] Existing Instance AnsExamples.asset_ref.
#[local] Existing Instance SubscriptionExamples.SubscriptionExamples.asset_msgs.
#[local] Existing Instance CalendarExamples.CalendarExamples.kinds.
#[local] Existing Instance DexExamples.DexExamples.cw20_json.
#[local] Existing Instance DexExamples.DexExamples.client_json.
#[local] Existing Instance ModuleExamples.comparators.
#[local] Existing Instance ModuleExamples.chain_admin.
#[local] Existing Instance AccountExamples.AccountExamples.registries.

(** The account, and contracts that answer anything *)
#[local] Instance accounts : Accounts := {|
  account_state a := if decide (a = "acc1") then Some AccountExamples.AccountExamples.s2 else None;
  Ibc.app_account _ := None;
  smart_query_of _ _ := Some "{}"
|}.
#[local] Instance wyndex_api : WynDexStakingApi := {|
  wyndex_delegate_json t := "delegate"; wyndex_unbond_json n t := "unbond"; wyndex_claim_json := "claim";
  wyndex_withdraw_rewards_json := "rewards"; wyndex_bonding_query := "bonding"; wyndex_bonding_of _ := Some [604800];
  wyndex_stake c a t := Some (if decide (c = "stake1") then Some 100 else None);
  wyndex_claims_query a := "claims"; wyndex_claims_of _ := Some [(5, AtTime 7)];
  wyndex_distribution_query := "distribution"; wyndex_distribution_of _ := Some [inl "ujuno"; inr "wynd"]
|}.
#[local] Instance bow_api : BowApi := {|
  bow_stake_json := "stake"; bow_unstake_json _ := "unstake"; bow_claim_json _ := "claim"; bow_stake_query _ _ := "stake";
  bow_stake_of _ := Some 1; bow_incentives_query _ := "incentives"; bow_incentives_of _ := Some []
|}.
#[local] Instance lockup : OsmosisLockup := {|
  lock_tokens o t l := WasmExecute o (Raw "lock") l; begin_unlocking o i l := WasmExecute o (Raw "unlock") l;
  begin_unlocking_all o := WasmExecute o (Raw "unlock all") []; account_locked_coins _ := None;
  account_unlocking_coins _ := None; gauge_ids _ := None; gauge_by_id _ := None; uint128_from_str _ := None
|}.
#[local] Instance astroport_api : AstroportApi := {|
  astroport_deposit_json := "deposit"; astroport_withdraw_json _ _ := "withdraw"; astroport_claim_json _ := "claim";
  astroport_deposit_query _ _ := "deposit"; astroport_deposit_of _ := None; astroport_rewards_query _ := "rewards";
  astroport_rewards_of _ := None
|}.
#[local] Instance hash_ref : HashOrder := λ A l, l.
#[local] Instance hash_ref_laws : HashOrderLaws.
Proof. by intros A l. Qed.
#[local] Instance receive_json : ToJson AstrovaultStakingReceiveMsg := λ _, "deposit".
#[local] Instance execute_json : ToJson AstrovaultStakingExecuteMsg := λ _, "withdrawal".
#[local] Instance query_json : ToJson AstrovaultStakingQueryMsg := λ _, "query".
#[local] Instance config_json : FromJson LpConfigResponse := λ _, None.
#[local] Instance balance_json : FromJson LpBalanceResponse := λ _, None.
#[local] Instance sources_json : FromJson (list RewardSourceResponse) := λ _, None.

(** A name service with the two tokens and their staking contracts *)
Definition n4 : Ans.State := commit DexExamples.DexExamples.n3 (Ans.execute DexExamples.DexExamples.host DexExamples.DexExamples.owner
  (UpdateAssetAddresses [("wyndex/atom,juno", "clp1"); ("wyndex/juno,osmo", "clp2")] []) DexExamples.DexExamples.n3).
Definition n5 : Ans.State := commit n4 (Ans.execute DexExamples.DexExamples.host DexExamples.DexExamples.owner
  (UpdateContractAddresses [(mkContractEntry "wyndex" "staking/wyndex/atom,juno", "stake1");
    (mkContractEntry "wyndex" "staking/wyndex/juno,osmo", "stake2")] []) n4).
#[local] Instance names : AnsHosts := {| ans_state _ := Some n5 |}.
(** The adapter as it is built for Juno *)
#[local] Instance providers : StakingProviders := {| provider_of _ := WynDex; provider_feature f := bool_decide (f = "wynd") |}.
#[local] Instance staking_json : StakingJson := {| staking_error_text _ := "error"; staking_to_json _ := "{}" |}.
#[local] Instance request_json : ToJson (Adapter.ExecuteMsg StakingExecuteMsg) := λ _, "request".

Definition at_stk : Env := mkEnv (mkBlock 1 0 "juno-1") "stk".
Definition StkState : Type := Adapter.State unit.
Definition empty_stk : StkState := Adapter.mkState None None None ∅ tt.
Definition created := Adapter.instantiate CW_STAKING_ADAPTER at_stk (mkInfo "bob" []) "deployer/reg" tt empty_stk.
Definition t0 : StkState := commit empty_stk created.
Definition call (i : Addr) (m : Adapter.ExecuteMsg StakingExecuteMsg) :=
  Adapter.execute CW_STAKING_ADAPTER at_stk (mkInfo i []) m.
Definition two : list AnsAsset := [mkAnsAsset "wyndex/atom,juno" 70; mkAnsAsset "wyndex/juno,osmo" 30].
Definition week : option Duration := Some (DurationTime 604800).
Definition staking : StakingExecuteMsg := mkStakingExecute "juno>wyndex" (Stake two week).
Definition stakes := call "acc1" (Module_msg (mkRequest (Some "acc1") staking)).

Ltac evaluate := match goal with |- _ = ?b => vm_cast_no_check (eq_refl b) end.
Lemma stk_created : is_ok created = true ∧ is_ok (stakes t0) = true.
Proof. split; evaluate. Qed.
Definition stake_msgs : list CosmosMsg :=
  [WasmExecute "lp1" (Raw "send") []; WasmExecute "lp2" (Raw "send") []].
Example stakes_answers : (λ x, messages x.1) <$> ok (stakes t0) =
  Some [send (OnAccount "acc1" (Account.Execute stake_msgs) [])].
Proof. evaluate. Qed.
Lemma wyndex_here : staking_over_ibc at_stk "juno>wyndex" = Ok ("wyndex", false).
Proof. evaluate. Qed.
Lemma wyndex_resolved : resolve_local_provider "wyndex" = Ok (tp_command wyndex_provider).
Proof. evaluate. Qed.
Lemma stk_call_Ok i m s : is_ok (call i m s) = true →
  ∃ r, Adapter.execute CW_STAKING_ADAPTER at_stk (mkInfo i []) m s = Ok (r, commit s (call i m s)).
Proof. unfold call. destruct (Adapter.execute _ _ _ m s) as [[r s']|e|]; [intros _; by exists r|done..]. Qed.
Lemma staking_action_exact_witness : ∃ r, stakes t0 = Ok (r, t0) ∧ ∃ msgs, messages r =
  [send (OnAccount "acc1" (Account.Execute msgs) [])].
Proof.
  destruct (stk_call_Ok "acc1" (Module_msg (mkRequest (Some "acc1") staking)) t0 (proj2 stk_created)) as [r Hr].
  destruct (staking_action_exact t0 at_stk (mkInfo "acc1" []) (Some "acc1") staking r _ "wyndex" wyndex_here Hr)
    as (Hs & registry & account & host & p & msgs & _ & Hmay & _ & _ & _ & ->).
  pose proof (proj1 (proj2 Hmay)) as Hacc. injection Hacc as Hacc. rewrite <-Hacc in Hr.
  exists (mkResponse "" [send (OnAccount "acc1" (Account.Execute msgs) [])]). split; [|exists msgs; reflexivity].
  rewrite Hs in Hr. exact Hr.
Defined.
Definition nobody : Features := mkFeatures "app" [] (Ok "acc1") (Ok "deployer/reg") (Ok "ans").
Definition asking : StakingQueryMsg := QueryStaked "wyndex" ["wyndex/atom,juno"; "wyndex/juno,osmo"] "bob" week.
Lemma stake_asking_answered : stk_answer nobody at_stk asking = Ok (StakeResponse [100; 0]).
Proof. evaluate. Qed.
Lemma asking_here : staking_over_ibc at_stk (query_provider_name asking) = Ok ("wyndex", false).
Proof. evaluate. Qed.
Lemma staking_answers_per_token_witness : entries_for WYNDEX asking (entries (StakeResponse [100; 0])).
Proof.
  apply (staking_answers_per_token nobody at_stk asking (StakeResponse [100; 0]) "wyndex" WYNDEX).
  - right. left.
  - exact asking_here.
  - exact stake_asking_answered.
Defined.
End StakingExamples.
