(* ===== verification/DexAstroProofs.v ===== *)
(** * Correctness of the integration with Astrovault

    Deposits in pools that list their assets in an order of their own: the order
    of the pool, no asset lost, and which deposits are accepted. *)

From S2P Require Import Prelude Cosmos Strings Objects Names AccountIds Fees ModuleFactory Ownership AnsObjects Ans AnsClient Registry Clients Account Ibc IbcClient Sdk SdkApis Adapter App SdkModules DexStandard Dex DexIntegrations StakingIntegrations MiniAstrovault DexAstro.
From Stdlib Require Import Ascii String.
#[local] Open Scope string_scope.
#[local] Open Scope list_scope.
#[local] Open Scope Z_scope.

(** ** [swap_remove] *)

Lemma swap_remove_snoc {A} i (l : list A) y : swap_remove i (l ++ [y]) =
  if decide (i = List.length l) then Some (y, l) else x ← l !! i; Some (x, <[i:=y]> l).
Proof.
  unfold swap_remove. rewrite last_snoc, removelast_last, length_app. destruct (decide (i = List.length l)) as [->|Hi].
  - rewrite lookup_app_r, Nat.sub_diag by lia. simpl. by rewrite decide_True by lia.
  - destruct (decide (i < List.length l)%nat) as [Hlt|Hge].
    + rewrite lookup_app_l by lia. destruct (l !! i); simpl; [|done]. by rewrite decide_False by lia.
    + by rewrite !lookup_ge_None_2 by (rewrite ?length_app; simpl; lia).
Qed.
Lemma swap_remove_Some {A} i (l : list A) x l' : swap_remove i l = Some (x, l') → l !! i = Some x ∧ l ≡ₚ x :: l'.
Proof.
  destruct l as [|y l _] using rev_ind; [done|]. rewrite swap_remove_snoc. case_decide as Hi.
  - intros [= <- <-]. split; [|apply Permutation_sym, Permutation_cons_append].
    subst i. by rewrite lookup_app_r, Nat.sub_diag by lia.
  - intros (z & Hz & [= -> <-])%bind_Some. split; [by apply lookup_app_l_Some|].
    rewrite insert_take_drop by by eapply lookup_lt_Some. rewrite <-(take_drop_middle l i x Hz) at 1.
    rewrite <-!app_assoc. simpl. rewrite <-Permutation_middle. f_equiv. f_equiv. by rewrite <-Permutation_cons_append.
Qed.
Lemma swap_remove_lt {A} i (l : list A) : (i < List.length l)%nat → is_Some (swap_remove i l).
Proof.
  intros Hi. unfold swap_remove. destruct (lookup_lt_is_Some_2 l i Hi) as [x ->].
  destruct (last l) eqn:Hl; [by eexists|]. apply last_None in Hl as ->. simpl in Hi. lia.
Qed.

(** ** The order of a pool *)

Lemma position_Some {A} (P : A → Prop) `{!∀ x, Decision (P x)} l i :
  position P l = Some i → ∃ x, l !! i = Some x ∧ P x.
Proof.
  unfold position. intros ([j x] & Hp & ->)%fmap_Some. apply list_find_Some in Hp as (? & ? & _). by exists x.
Qed.
Lemma position_None {A} (P : A → Prop) `{!∀ x, Decision (P x)} l : position P l = None ↔ Forall (λ x, ¬ P x) l.
Proof. unfold position. by rewrite fmap_None, list_find_None. Qed.
(** The found asset of an item, if there is one *)
Lemma found_Some item assets found rest :
  (position (λ a, av_info a = item) assets ≫= λ i, swap_remove i assets) = Some (found, rest) →
  av_info found = item ∧ assets ≡ₚ found :: rest.
Proof.
  intros (i & Hi & Hr)%bind_Some. apply position_Some in Hi as (x & Hx & Hinfo). apply swap_remove_Some in Hr as [Hl Hperm].
  assert (x = found) as <- by congruence. done.
Qed.
Lemma found_None item assets :
  (position (λ a, av_info a = item) assets ≫= λ i, swap_remove i assets) = None → item ∉ av_info <$> assets.
Proof.
  rewrite bind_None. intros [Hn|(i & Hi & Hr)].
  - apply position_None in Hn. rewrite list_elem_of_fmap. intros (a & -> & Ha).
    rewrite Forall_forall in Hn. by apply (Hn a).
  - apply position_Some in Hi as (x & Hx & _). apply lookup_lt_Some in Hx.
    destruct (swap_remove_lt i assets Hx) as [? Hs]. congruence.
Qed.
(** The result is the order; with what is left over it is the assets and zeros. *)
Lemma normalize_from_spec order : ∀ assets res rest, normalize_from assets order = (res, rest) →
  av_info <$> res = order ∧
  ∃ zeros, res ++ rest ≡ₚ assets ++ zeros ∧ Forall (λ a, av_amount a = 0) zeros.
Proof.
  induction order as [|item order IH]; intros assets res rest; simpl.
  { intros [= <- <-]. split; [done|]. exists []. by rewrite app_nil_r. }
  destruct (position _ assets ≫= _) as [[found left_]|] eqn:Hf.
  - destruct (normalize_from left_ order) as [res' rest'] eqn:Hn. intros [= <- <-].
    apply found_Some in Hf as [Hi Hperm]. destruct (IH _ _ _ Hn) as (Hres & zeros & Hz & Hzero). split; [by rewrite fmap_cons, Hi, Hres|].
    exists zeros. split; [|done]. by rewrite Hperm, <-!app_comm_cons, Hz.
  - destruct (normalize_from assets order) as [res' rest'] eqn:Hn. intros [= <- <-].
    destruct (IH _ _ _ Hn) as (Hres & zeros & Hz & Hzero). split; [by rewrite fmap_cons, Hres|].
    exists (mkAstrovaultAsset item 0 :: zeros). split; [|by constructor].
    by rewrite <-app_comm_cons, Hz, Permutation_middle.
Qed.
(** Nothing is left over exactly if the pool has every asset, as often as it is given. *)
Lemma normalize_from_rest order : ∀ assets,
  (normalize_from assets order).2 = [] ↔ (av_info <$> assets) ⊆+ order.
Proof.
  induction order as [|item order IH]; intros assets; simpl.
  { split; [intros ->; done|]. intros Hs%submseteq_nil_r. by apply fmap_nil_inv in Hs. }
  destruct (position _ assets ≫= _) as [[found left_]|] eqn:Hf.
  - apply found_Some in Hf as [Hi Hperm]. specialize (IH left_). destruct (normalize_from left_ order) as [res rest].
    simpl in *. rewrite IH, Hperm, fmap_cons, Hi. split; [apply submseteq_skip|]. intros (k & Hk & Hl)%submseteq_cons_l.
    by apply (inj (cons item)) in Hk as ->.
  - apply found_None in Hf. specialize (IH assets). destruct (normalize_from assets order) as [res rest]. simpl in *. rewrite IH.
    rewrite submseteq_cons_r. split; [by left|]. intros [?|(l & Hl & _)]; [done|]. destruct Hf. rewrite Hl. by left.
Qed.
Lemma normalize_order_Ok assets order res : astrovault_assets_normalize_order assets order = Ok res →
  av_info <$> res = order ∧ ∃ zeros, res ≡ₚ assets ++ zeros ∧ Forall (λ a, av_amount a = 0) zeros.
Proof.
  unfold astrovault_assets_normalize_order. destruct (normalize_from assets order) as [r [|a rest]] eqn:Hn; [|done].
  intros [= <-]. apply normalize_from_spec in Hn as (Ho & zeros & Hz & Hzero). rewrite app_nil_r in Hz. by eauto.
Qed.
Lemma normalize_order_is_Ok assets order :
  (∃ res, astrovault_assets_normalize_order assets order = Ok res) ↔ av_info <$> assets ⊆+ order.
Proof.
  rewrite <-normalize_from_rest. unfold astrovault_assets_normalize_order.
  destruct (normalize_from assets order) as [r [|a rest]]; naive_solver.
Qed.

(** ** Deposits *)

Section deposits.
Context `{Semver, Api, CwOwnable, CwAsset, !CwAssetMsgs, !CwAssetKinds, !Accounts, !CwAssetSend, !Cw20Json}.
Context `{!ToJson AstrovaultDexQueryMsg, !ToJson AstrovaultDexExecuteMsg, !ToJson AstrovaultCw20HookMsg}.
Context `{!FromJson ConfigResponse, !FromJson PoolInfo, !FromJson SimulationResponse}.
Context `{!FromJson StablePoolQuerySwapSimulation, !FromJson SwapCalcResponse}.

(** C28. Deposits in a stable pool of Astrovault.  A deposit of at most two
    assets is accepted exactly when the pool has each of them, as often as it is
    given.  It approves the tokens and calls the pool once, with an amount for
    every asset of the pool, in the order of the pool, which are exactly the
    amounts that are offered, and zero for the assets that are not; the coins
    that are sent are the native ones, without those of amount zero. *)
Theorem stable_deposit_in_pool_order pool is_xasset (info : PoolInfo) offer_assets given max_spread
    (Htype : fetch_pool_type pool = Ok (StablePool is_xasset)) (Hinfo : av_query pool AvPoolInfo = Ok info)
    (Hgiven : omapM cw_asset_to_astrovault offer_assets = Ok given) (Htwo : (List.length offer_assets ≤ 2)%nat) :
  ((∃ msgs, astrovault_provide_liquidity (PoolContract pool) offer_assets max_spread = Ok msgs) ↔
     av_info <$> given ⊆+ asset_infos info) ∧
  ∀ msgs, astrovault_provide_liquidity (PoolContract pool) offer_assets max_spread = Ok msgs →
    ∃ res zeros, av_info <$> res = asset_infos info ∧ res ≡ₚ given ++ zeros ∧ Forall (λ a, av_amount a = 0) zeros ∧
      msgs = cw_approve_msgs offer_assets pool ++
        [WasmExecute pool (Raw (to_json (DepositStable (av_amount <$> res) None None)))
          (non_zero (coins_in_assets offer_assets))].
Proof.
  assert (astrovault_provide_liquidity (PoolContract pool) offer_assets max_spread =
    (res ← astrovault_assets_normalize_order given (asset_infos info);
     Ok (cw_approve_msgs offer_assets pool ++ [WasmExecute pool (Raw (to_json (DepositStable (av_amount <$> res) None None)))
       (non_zero (coins_in_assets offer_assets))]))) as ->.
  { unfold astrovault_provide_liquidity. simpl. rewrite Htype. simpl. rewrite decide_False by lia. simpl. rewrite Hgiven. simpl.
    rewrite Hinfo. simpl. by destruct (astrovault_assets_normalize_order _ _). }
  rewrite <-normalize_order_is_Ok. split.
  - split; [intros [msgs Hm]; inv_ok; by eexists|intros [res ->]; by eexists].
  - intros msgs Hm. inv_ok. match goal with Hn : astrovault_assets_normalize_order _ _ = Ok ?r |- _ =>
      apply normalize_order_Ok in Hn as (Ho & zeros & Hz & Hzero); by exists r, zeros end.
Qed.
End deposits.

(** ** A pool of Astrovault to evaluate

    A stable pool of three assets, and a deposit of two of them in another order. *)

From S2P Require Import Prelude Cosmos Strings Objects Names AccountIds Fees ModuleFactory Ownership AnsObjects Ans AnsProofs AnsClient Registry RegistryAccess Clients Account Ibc IbcClient Sdk SdkApis Adapter App SdkModules DexStandard Dex DexIntegrations StakingIntegrations MiniAstrovault DexAstro AccountExamples ModuleExamples SubscriptionExamples CalendarExamples DexExamples.

Module DexAstroExamples.
#[local] Existing Instance semver_ref.
#[local] Existing Instance api_ref.
#[local] Existing Instance RegistryExamples.ownable_ref.
#[local] Existing Instance AnsExamples.asset_ref.
#[local] Existing Instance SubscriptionExamples.SubscriptionExamples.asset_msgs.
#[local] Existing Instance CalendarExamples.CalendarExamples.kinds.
#[local] Existing Instance DexExamples.DexExamples.cw20_json.
#[local] Existing Instance DexExamples.DexExamples.asset_send.

(** Contracts answer the query they are asked. *)
#[local] Instance accounts : Accounts := {|
  account_state _ := None;
  Ibc.app_account _ := None;
  smart_query_of _ q := Some q
|}.
#[local] Instance query_json : ToJson AstrovaultDexQueryMsg := λ _, "query".
#[local] Instance execute_json : ToJson AstrovaultDexExecuteMsg := λ m,
  match m with DepositStable amounts _ _ => join ","%char (pretty <$> amounts) | _ => "execute" end.
#[local] Instance hook_json : ToJson AstrovaultCw20HookMsg := λ _, "hook".
#[local] Instance config_json : FromJson ConfigResponse := λ _,
  Some (mkConfigResponse STABLE_POOL_FACTORY (Some (mkPoolSettings None))).
#[local] Instance info_json : FromJson PoolInfo := λ _,
  Some (mkPoolInfo [NativeToken "uatom"; Token "wynd"; NativeToken "ujuno"]).
#[local] Instance simulation_json : FromJson SimulationResponse := λ _, None.
#[local] Instance stable_json : FromJson StablePoolQuerySwapSimulation := λ _, None.
#[local] Instance ratio_json : FromJson SwapCalcResponse := λ _, None.

Definition offered : list Asset := [mkAsset ("nujuno" : asset_info) 50; mkAsset ("cwynd" : asset_info) 7].
Definition given : list AstrovaultAsset := [mkAstrovaultAsset (NativeToken "ujuno") 50; mkAstrovaultAsset (Token "wynd") 7].
Definition pool_info : PoolInfo := mkPoolInfo [NativeToken "uatom"; Token "wynd"; NativeToken "ujuno"].
Ltac evaluate := match goal with |- _ = ?b => vm_cast_no_check (eq_refl b) end.
Lemma offered_given : omapM cw_asset_to_astrovault offered = Ok given.
Proof. evaluate. Qed.
Lemma stable_pool : fetch_pool_type "pool1" = Ok (StablePool false).
Proof. evaluate. Qed.
Lemma pool_answers : av_query "pool1" AvPoolInfo = Ok pool_info.
Proof. evaluate. Qed.
Example deposit_answers : astrovault_provide_liquidity (PoolContract "pool1") offered None =
  Ok [WasmExecute "wynd" (Raw "allow") []; WasmExecute "pool1" (Raw "0,7,50") [mkCoin "ujuno" 50]].
Proof. evaluate. Qed.
Lemma stable_deposit_in_pool_order_witness :
  ∃ msgs, astrovault_provide_liquidity (PoolContract "pool1") offered None = Ok msgs ∧
  ∃ res : list AstrovaultAsset, av_info <$> res = asset_infos pool_info.
Proof.
  destruct (stable_deposit_in_pool_order "pool1" false pool_info offered given None stable_pool pool_answers offered_given
    ltac:(simpl; lia)) as [Hacc Hmsgs].
  destruct (proj2 Hacc ltac:(apply (submseteq_trans _ [Token "wynd"; NativeToken "ujuno"]);
    [apply Permutation_submseteq, Permutation_swap|apply submseteq_cons; reflexivity])) as [msgs Hm].
  exists msgs. split; [exact Hm|]. destruct (Hmsgs msgs Hm) as (res & zeros & Hres & _). exists res. exact Hres.
Defined.
End DexAstroExamples.
