(* ===== verification/IcaClientProofs.v ===== *)
(** * Correctness of the ICA client

    The notes stay well-formed and are the owner's; and what an account sends for
    actions on its interchain accounts, the account and the client together. *)

From stdpp Require Import relations.
From S2P Require Import Prelude Cosmos Strings Objects Names AccountIds Fees ModuleFactory Ownership AnsObjects Ans AnsClient Registry Clients Account Ibc Sdk SdkApis SdkModules DexIntegrations AccountProofs DexProofs IcaClient.
From Stdlib Require Import Ascii String.
#[local] Open Scope string_scope.
#[local] Open Scope list_scope.
#[local] Open Scope Z_scope.

(** ** Notes *)

Section notes.
Context `{Semver, Api, Instantiate2, CwOwnable, !CwOwnableLaws}.
Implicit Types s : State.

(** The sender owns the client. *)
Definition ica_owner s (a : Addr) : Prop := ∃ o, cw_ownership s = Some o ∧ cw_owner o = Some a.
Lemma ica_assert_owner_Ok info s u s' : assert_owner info s = Ok (u, s') → s' = s ∧ ica_owner s (sender info).
Proof.
  unfold assert_owner. intros Ha. inv_ok. split; [done|]. eexists. split; [done|].
  match goal with Hc : cw_assert_owner _ _ = Ok ?u |- _ => destruct u; by apply cw_assert_owner_spec in Hc end.
Qed.
(** What a message does to the notes *)
Definition notes_step s (i : Addr) (msg : ExecuteMsg) s' : Prop :=
  match msg with
  | UpdateOwnership _ => ica_infra s' = ica_infra s
  | RegisterInfrastructure chain text => ∃ note, ica_owner s i ∧ chain_verify chain = Ok tt ∧ addr_validate text = Some note ∧
      ica_infra s !! chain = None ∧ s' = set_ica_infra (<[chain := note]> (ica_infra s)) s
  | RemoveHost chain => ica_owner s i ∧ chain_verify chain = Ok tt ∧ s' = set_ica_infra (delete chain (ica_infra s)) s
  end.
Ltac owner_found :=
  match goal with Ho : assert_owner _ _ = Ok _ |- _ => apply ica_assert_owner_Ok in Ho as [-> Ho] end;
  match goal with Hv : chain_verify _ = Ok ?x |- _ => destruct x end.
Lemma execute_notes env i msg s r s' : execute env i msg s = Ok (r, s') → messages r = [] ∧ notes_step s (sender i) msg s'.
Proof.
  destruct msg as [a|chain text|chain]; simpl; intros Hrun.
  - inv_ok. by destruct s.
  - unfold execute_register_infrastructure, addr_validate_r in Hrun. inv_ok. rewrite bool_decide_eq_true in *. split; [done|].
    owner_found. eexists. by split_and!.
  - unfold execute_remove_host in Hrun. inv_ok. split; [done|]. owner_found. by split_and!.
Qed.
Inductive ica_reachable : State → Prop :=
  | ica_init i r s : instantiate i empty_state = Ok (r, s) → ica_reachable s
  | ica_call env i msg s r s' : ica_reachable s → execute env i msg s = Ok (r, s') → ica_reachable s'
  | ica_migrate (Q : Querier) env msg s r s' : ica_reachable s → migrate env msg s = Ok (r, s') → ica_reachable s'.
Definition well_formed s : Prop :=
  map_Forall (λ chain note, chain_verify chain = Ok tt ∧ ∃ text, addr_validate text = Some note) (ica_infra s).
Lemma instantiate_notes i s r s' : instantiate i s = Ok (r, s') → ica_infra s' = ica_infra s.
Proof. unfold instantiate. intros Hrun. by inv_ok. Qed.
Lemma migrate_notes `{!Querier} env msg s r s' : migrate env msg s = Ok (r, s') → ica_infra s' = ica_infra s.
Proof.
  unfold migrate. destruct msg; intros Hrun; inv_ok; [|by inv_ok]. by eapply instantiate_notes.
Qed.
Lemma notes_step_well_formed s i msg s' : notes_step s i msg s' → well_formed s → well_formed s'.
Proof.
  unfold well_formed. destruct msg as [a|chain text|chain]; simpl.
  - by intros ->.
  - intros (note & _ & Hc & Ht & _ & ->) Hw. apply map_Forall_insert_2; [by eauto|done].
  - intros (_ & _ & ->) Hw. by apply map_Forall_delete.
Qed.
Lemma reachable_well_formed s : ica_reachable s → well_formed s.
Proof.
  induction 1 as [i r s Hr|env i msg s r s' _ IH Hr|Q env msg s r s' _ IH Hr].
  - unfold well_formed. apply instantiate_notes in Hr as ->. apply map_Forall_empty.
  - apply execute_notes in Hr as [_ Hr]. by eapply notes_step_well_formed.
  - unfold well_formed. by apply migrate_notes in Hr as ->.
Qed.
End notes.

(** The notes of the ICA client are well-formed and the owner's.  In every
    reachable state each note is a validated address, of a valid name of a chain;
    a message sends nothing, and one that changes the note of a chain comes from
    the owner and either registers a note where there was none, or removes it:
    no note is ever replaced. *)
Theorem ica_notes_wellformed `{Semver, Api, Instantiate2, CwOwnable, !CwOwnableLaws} (s : State) (Hs : ica_reachable s) :
  well_formed s ∧
  ∀ env i msg r s', execute env i msg s = Ok (r, s') → messages r = [] ∧ well_formed s' ∧
    ∀ chain, ica_infra s' !! chain ≠ ica_infra s !! chain → ica_owner s (sender i) ∧
      ((∃ text note, msg = RegisterInfrastructure chain text ∧ addr_validate text = Some note ∧
          ica_infra s !! chain = None ∧ ica_infra s' !! chain = Some note) ∨
       msg = RemoveHost chain ∧ ica_infra s' !! chain = None).
Proof.
  apply reachable_well_formed in Hs. split; [done|]. intros env i msg r s' Hrun.
  apply execute_notes in Hrun as [Hm Hstep]. split; [done|]. split; [by eapply notes_step_well_formed|].
  intros chain Hne. destruct msg as [a|c text|c]; simpl in Hstep.
  - by rewrite Hstep in Hne.
  - destruct Hstep as (note & Ho & _ & Ht & Hnone & ->). simpl in *. split; [done|]. left.
    destruct (decide (c = chain)) as [->|?]; [|by rewrite lookup_insert_ne in Hne].
    exists text, note. by rewrite lookup_insert_eq.
  - destruct Hstep as (Ho & _ & ->). simpl in *. split; [done|]. right.
    destruct (decide (c = chain)) as [->|?]; [|by rewrite lookup_delete_ne in Hne].
    by rewrite lookup_delete_eq.
Qed.

(** ** Actions *)

Section actions.
Context `{Semver, Api, Instantiate2, CwOwnable, CoinsOps, Sha256, CwAsset, !CwAssetMsgs, !CwAssetKinds}.
Context `{!Querier, !Registries, !ModuleQueries, !AnsHosts, !Accounts, !EvmNotes, !ToJson Ucs01ForwarderExecuteMsg}.

(** The message of an action on a chain with a note: a call of the note, without
    coins, or the coins to the forwarder the name service has, on its channel to
    the chain *)
Definition action_sent (env : Env) (chain : TruncatedChainId) (note : Addr) (a : IcaAction) (m : CosmosMsg) : Prop :=
  match a with
  | ExecuteIca (IcaEvm msgs callback) =>
      m = WasmExecute note (Raw (note_execute_json msgs callback PACKET_LIFETIME)) []
  | Fund funds receiver memo => ∃ code_id host channel forwarder to,
      abstract_code_id (contract_address env) = Ok code_id ∧ ans_host_new code_id = Ok host ∧
      query_channel host (mkChannelEntry chain UCS01_PROTOCOL) = Ok channel ∧
      query_contract host (mkContractEntry UCS01_PROTOCOL UCS01_FORWARDER_CONTRACT) = Ok forwarder ∧
      recipient env note receiver = Ok to ∧
      m = WasmExecute forwarder (Raw (to_json (Transfer channel to (default "" memo) (Some 3600)))) funds
  end.
Definition action_funds (a : IcaAction) : list Coin := match a with Fund funds _ _ => funds | _ => [] end.
Lemma process_action_Ok env chain ty note a l : process_action env chain ty note a = Ok l →
  ty = Evm ∧ ∃ m, l = [m] ∧ action_sent env chain note a m.
Proof.
  destruct a as [[msgs callback]|funds receiver memo]; simpl.
  - intros Hrun. inv_ok. rewrite bool_decide_eq_true in *. split; [done|]. by eexists.
  - destruct ty; [|done]. unfold send_funds. intros Hrun. inv_ok. split; [done|]. eexists. split; [done|].
    by eexists _, _, _, _, _.
Qed.
Lemma action_sent_funds env chain note a m d : action_sent env chain note a m → total d (funds_of m) = total d (action_funds a).
Proof. destruct a as [[msgs callback]|funds receiver memo]; simpl; [by intros ->|]. by intros (? & ? & ? & ? & ? & _ & _ & _ & _ & _ & ->). Qed.
Lemma actions_sent_outflow env chain note actions msgs d : Forall2 (action_sent env chain note) actions msgs →
  outflow d msgs = zsum ((λ a, total d (action_funds a)) <$> actions).
Proof.
  unfold outflow. intros Hall. f_equal. induction Hall as [|a m actions msgs Ha Hall IH]; [done|].
  rewrite !fmap_cons. f_equal; [by eapply action_sent_funds|exact IH].
Qed.
Lemma ica_action_Ok s env account chain actions msgs : IcaClient.ica_action s env account chain actions = Ok msgs →
  ∃ ty note, chain_type chain = Some ty ∧ ica_infra s !! chain = Some note ∧
    Forall2 (action_sent env chain note) actions msgs ∧ (actions ≠ [] → ty = Evm).
Proof.
  unfold IcaClient.ica_action. intros Hrun. inv_ok.
  match goal with Ho : omapM (process_action _ _ ?ty ?note) _ = Ok ?ls |- _ => exists ty, note; apply omapM_Ok in Ho;
    rename Ho into Hall; split_and!; try done end.
  - induction Hall as [|a l actions ls Ha Hall IH]; [constructor|]. apply process_action_Ok in Ha as (_ & m & -> & Hm).
    simpl. by constructor.
  - intros Hne. destruct Hall as [|a l actions ls Ha _]; [done|]. by apply process_action_Ok in Ha as [-> _].
Qed.

(** C39. What an account sends for actions on its interchain accounts.  An account
    whose ICA client answers with its notes accepts the request only of a
    whitelisted address, its owner or itself, changes no state, and sends one
    message for every action, in their order: calls go to the note the owner of
    the client registered for the chain, which is an EVM chain, and carry no
    coins; coins go to the forwarder.  In every denomination the account sends
    exactly what the actions fund. *)
Theorem ica_actions_follow_notes (env env' : Env) info st st' r q a (s : IcaClient.State) account chain actions
    (Hclient : account_modules st !! ICA_CLIENT = Some a)
    (Hanswers : ica_action_of a q = ok (IcaClient.ica_action s env' account chain actions))
    (Hrun : Account.execute env info (Account.IcaAction q) st = Ok (r, st')) :
  may_execute st env (sender info) ∧ st' = st ∧
  ∃ note msgs, ica_infra s !! chain = Some note ∧ messages r = send <$> msgs ∧
    Forall2 (action_sent env' chain note) actions msgs ∧ (actions ≠ [] → chain_type chain = Some Evm) ∧
    ∀ d, outflow d msgs = zsum ((λ a, total d (action_funds a)) <$> actions).
Proof.
  apply execute_inv in Hrun as [[_ Hrun]|(b & [=] & _)]. simpl in Hrun.
  apply ica_action_inv in Hrun as (Hmay & -> & a' & msgs & Ha & Hq & Hm). split; [done|]. split; [done|].
  assert (a' = a) as -> by congruence. rewrite Hanswers in Hq. apply ok_Some in Hq.
  apply ica_action_Ok in Hq as (ty & note & Hty & Hnote & Hall & Hevm). exists note, msgs. split_and!; try done.
  - intros Hne. by rewrite Hty, Hevm.
  - intros d. by eapply actions_sent_outflow.
Qed.
End actions.

(** ** An ICA client to evaluate

    The owner registers a note for the EVM chain "bartio"; the account "acc1" funds
    its account there and calls a contract. *)

From S2P Require Import Prelude Cosmos Strings Objects Names AccountIds Fees ModuleFactory Ownership AnsObjects Ans AnsProofs AnsClient Registry RegistryAccess Clients Account Ibc Sdk SdkApis SdkModules DexIntegrations AccountProofs DexProofs IcaClient AccountExamples ModuleExamples SubscriptionExamples CalendarExamples DexExamples.

Module IcaExamples.
#[local] Existing Instance semver_ref.
#[local] Existing Instance api_ref.
#[local] Existing Instance instantiate2_ref.
#[local] Existing Instance RegistryExamples.ownable_ref.
#[local] Existing Instance RegistryExamples.ownable_ref_laws.
#[local] Existing Instance coins_ref.
#[local] Existing Instance sha256_ref.
#[local] Existing Instance AnsExamples.asset_ref.
#[local] Existing Instance SubscriptionExamples.SubscriptionExamples.asset_msgs.
#[local] Existing Instance CalendarExamples.CalendarExamples.kinds.
#[local] Existing Instance ModuleExamples.chain_admin.
#[local] Existing Instance AccountExamples.AccountExamples.registries.

(** The note knows the account of the client on the other chain. *)
#[local] Instance accounts : Accounts := {|
  account_state _ := None;
  Ibc.app_account _ := None;
  smart_query_of _ q := Some q
|}.
#[local] Instance notes : EvmNotes := {|
  note_execute_json msgs _ _ := String.concat ";" msgs;
  remote_address_json a := a;
  remote_address_of _ := Some (Some "123fff");
  from_hex s := Some s
|}.
#[local] Instance forwarder_json : ToJson Ucs01ForwarderExecuteMsg := λ m,
  match m with Transfer channel receiver _ _ => channel +:+ "/" +:+ receiver end.
(** A name service with the channel and the forwarder *)
Definition n4 : Ans.State := commit DexExamples.DexExamples.n3 (Ans.execute DexExamples.DexExamples.host DexExamples.DexExamples.owner
  (UpdateChannels [(mkChannelEntry "bartio" "ucs01", "channel-1")] []) DexExamples.DexExamples.n3).
Definition n5 : Ans.State := commit n4 (Ans.execute DexExamples.DexExamples.host DexExamples.DexExamples.owner
  (UpdateContractAddresses [(mkContractEntry "ucs01" "forwarder", "forwarder1")] []) n4).
#[local] Instance names : AnsHosts := {| ans_state _ := Some n5 |}.

Definition at_ica : Env := mkEnv (mkBlock 1 0 "juno-1") "ica".
Definition by_owner : MessageInfo := mkInfo "owner" [].
Definition created := IcaClient.instantiate by_owner IcaClient.empty_state.
Definition i0 : IcaClient.State := commit IcaClient.empty_state created.
Definition registering := IcaClient.execute at_ica by_owner (RegisterInfrastructure "bartio" "note1").
Definition i1 : IcaClient.State := commit i0 (registering i0).
Definition actions : list IcaAction :=
  [Fund [mkCoin "ujuno" 5] None None; ExecuteIca (IcaEvm ["call"] None)].
Definition answer := IcaClient.ica_action i1 at_ica "acc1" "bartio" actions.
#[local] Instance modules : ModuleQueries := {|
  authorized_addresses_of _ _ := None;
  ica_action_of _ _ := ok answer;
  module_factory_at _ := false
|}.
Definition account : Account.State := set_account_modules {[ICA_CLIENT := "ica"]} AccountExamples.AccountExamples.s2.
Definition at_acc : Env := mkEnv (mkBlock 1 0 "juno-1") "acc1".
Definition acting := Account.execute at_acc (mkInfo "alice" []) (Account.IcaAction "actions") account.

Ltac evaluate := match goal with |- _ = ?b => vm_cast_no_check (eq_refl b) end.
Lemma ica_created : is_ok created = true ∧ is_ok (registering i0) = true ∧ is_ok acting = true.
Proof. split_and!; evaluate. Qed.
Example acting_answers : (λ x, messages x.1) <$> ok acting =
  Some [send (WasmExecute "forwarder1" (Raw "channel-1/123fff") [mkCoin "ujuno" 5]);
        send (WasmExecute "note1" (Raw "call") [])].
Proof. evaluate. Qed.
Lemma ica_call_Ok s m : is_ok (IcaClient.execute at_ica by_owner m s) = true →
  ∃ r, IcaClient.execute at_ica by_owner m s = Ok (r, commit s (IcaClient.execute at_ica by_owner m s)).
Proof. destruct (IcaClient.execute _ _ _ s) as [[r s']|e|]; [intros _; by exists r|done..]. Qed.
Lemma i1_reachable : ica_reachable i1.
Proof.
  destruct ica_created as (Hc & Hr & _). destruct (ica_call_Ok _ _ Hr) as [r Hr'].
  refine (ica_call at_ica by_owner (RegisterInfrastructure "bartio" "note1") i0 r i1 _ Hr').
  unfold i0. destruct created as [[r0 s0]|e|] eqn:He; [|discriminate Hc..]. exact (ica_init by_owner r0 s0 He).
Qed.
Lemma bartio_note : ica_infra i1 !! "bartio" = Some "note1".
Proof. evaluate. Qed.
Lemma ica_notes_wellformed_witness : ∃ text, addr_validate text = Some "note1".
Proof. exact (proj2 (proj1 (ica_notes_wellformed i1 i1_reachable) "bartio" "note1" bartio_note)). Defined.
Lemma client_answers : ica_action_of "ica" "actions" = ok (IcaClient.ica_action i1 at_ica "acc1" "bartio" actions).
Proof. unfold ica_action_of, modules, answer. reflexivity. Qed.
Lemma ica_actions_follow_notes_witness : ∃ r msgs, acting = Ok (r, account) ∧ messages r = send <$> msgs ∧
  outflow "ujuno" msgs = zsum ((λ a, total "ujuno" (action_funds a)) <$> actions).
Proof.
  pose proof (proj2 (proj2 ica_created)) as Hok. destruct acting as [[r st']|e|] eqn:Hr; [|discriminate Hok..].
  destruct (ica_actions_follow_notes at_acc at_ica (mkInfo "alice" []) account st' r "actions" "ica" i1 "acc1" "bartio" actions
    eq_refl client_answers Hr) as (_ & Hs & note & msgs & _ & Hm & _ & _ & Hout).
  exists r, msgs. rewrite Hs. split; [reflexivity|]. split; [exact Hm|]. exact (Hout "ujuno").
Defined.
End IcaExamples.
