(* ===== verification/PingPongProofs.v ===== *)
(** * Correctness of the ping-pong app

    The apps of many chains as one system, whose answers travel and arrive, or are
    lost, in any order; and one round from its ping to its callback. *)

From stdpp Require Import relations.
From S2P Require Import Prelude Cosmos Strings Objects Names AccountIds Fees ModuleFactory Ownership AnsObjects Ans AnsClient Registry Clients Account Ibc IbcClient Sdk SdkApis App SdkModules PingPong.
From Stdlib Require Import Ascii String.
#[local] Open Scope string_scope.
#[local] Open Scope list_scope.
#[local] Open Scope Z_scope.

Section proofs.
Context `{Semver, Api, Instantiate2, CwOwnable, CoinsOps, Sha256, !Accounts, !ComparatorParse}.
Context `{!ToJson IbcClient.ExecuteMsg, !ToJson PingPongIbcMsg, !FromJson PingPongIbcMsg}.
Context `{!ToJson PingPongCallbackMsg, !FromJson PingPongCallbackMsg, !ToJson PingPongQuery}.
Context `{!ToJson GameStatusResponse, !ToJson BlockHeightResponse, !FromJson BlockHeightResponse}.
Implicit Types s : State Game.

(** ** Scores *)

Definition in_32 (x : Z) : Prop := 0 ≤ x < 2 ^ 32.
(** A game with its two counters *)
Definition playing s : Prop := ∃ w l, custom s = mkGame (Some w) (Some l) ∧ in_32 w ∧ in_32 l.
Definition wins_of s : Z := default 0 (wins (custom s)).
Definition losses_of s : Z := default 0 (losses (custom s)).
(** The score moves by so many wins and losses. *)
Definition scored s s' (dw dl : Z) : Prop :=
  playing s' ∧ wins_of s' = wins_of s + dw ∧ losses_of s' = losses_of s + dl.
Lemma scored_refl s : playing s → scored s s 0 0.
Proof. intros Hs. split; [done|]. lia. Qed.
Lemma update_wins_Ok s u s' : playing s → update_wins s = Ok (u, s') → scored s s' 1 0.
Proof.
  intros (w & l & Hs & Hw & Hl) Hrun. unfold update_wins in Hrun. inv_ok. rewrite Hs in *. simplify_eq/=.
  match goal with Ha : add_u _ _ _ = Ok _ |- _ => apply add_u_Ok in Ha as [-> ?] end.
  unfold scored, playing, wins_of, losses_of, in_32 in *. rewrite Hs. simpl.
  split; [eexists _, _; split; [reflexivity|lia]|lia].
Qed.
Lemma update_losses_Ok s u s' : playing s → update_losses s = Ok (u, s') → scored s s' 0 1.
Proof.
  intros (w & l & Hs & Hw & Hl) Hrun. unfold update_losses in Hrun. inv_ok. rewrite Hs in *. simplify_eq/=.
  match goal with Ha : add_u _ _ _ = Ok _ |- _ => apply add_u_Ok in Ha as [-> ?] end.
  unfold scored, playing, wins_of, losses_of, in_32 in *. rewrite Hs. simpl.
  split; [eexists _, _; split; [reflexivity|lia]|lia].
Qed.

Section handlers.
Context `{!Querier, !Registries}.
(** Playing changes no score: it sends a ping, or a query. *)
Lemma ping_pong_same chain s r s' : ping_pong chain s = Ok (r, s') → s' = s.
Proof. unfold ping_pong. intros Hrun. by inv_ok. Qed.
Lemma query_and_ping_same env chain s r s' : query_and_ping env chain s = Ok (r, s') → s' = s.
Proof. unfold query_and_ping. intros Hrun. by inv_ok. Qed.
Lemma execute_same env i m s r s' : App.execute PING_APP env i (Module_msg m) s = Ok (r, s') → s' = s.
Proof.
  simpl. intros Hrun. inv_ok.
  destruct m; [by eapply ping_pong_same|by eapply query_and_ping_same].
Qed.
(** The answer to a ping: a pong, or a loss *)
Lemma answer_ping_Ok env source msg s attrs r s' : playing s → answer_ping env source msg s = Ok ((attrs, r), s') →
  (attrs = [("play", "pong")] ∧ s' = s) ∨ (attrs = [] ∧ scored s s' 0 1).
Proof.
  intros Hs. unfold answer_ping. intros Hrun. inv_ok.
  destruct (is_even env); inv_ok; [by left|right]. split; [done|]. by eapply update_losses_Ok.
Qed.
(** A callback moves the score by at most one; it is a win only when the ping was
    executed and nobody answered with a pong. *)
Definition won (result : IbcResult) : Z :=
  match result with
  | ResultExecute _ (ExecutionSuccess e) =>
      match head (Ibc.result e) with
      | Some res => if existsb is_pong (events res) then 0 else 1
      | None => 0
      end
  | _ => 0
  end.
Lemma won_range result : 0 ≤ won result ≤ 1.
Proof. destruct result as [| ? [e|]|]; simpl; try lia. destruct (head _); [|lia]. destruct (existsb _ _); lia. Qed.
Lemma execute_events_won result evs : get_execute_events result = Ok evs →
  won result = if existsb is_pong evs then 0 else 1.
Proof.
  destruct result as [|? [e|]|]; simpl; [done| |done..]. intros Hrun. unfold unwrap in Hrun.
  destruct (head _); simpl in Hrun; by simplify_eq.
Qed.
Lemma callback_Ok env i m s r s' : playing s → App.execute PING_APP env i (IbcCallbackMsg m) s = Ok (r, s') →
  ∃ dw dl, scored s s' dw dl ∧ 0 ≤ dw ≤ won (response_result m) ∧ 0 ≤ dl.
Proof.
  intros Hs. simpl. intros Hrun. inv_ok.
  match goal with Hr : Sdk.ibc_callback _ _ _ _ _ _ _ = Ok _ |- _ =>
    apply ibc_callback_Ok in Hr as (_ & _ & h & [= <-] & Hrun) end.
  pose proof (won_range (response_result m)) as Hw. unfold ibc_callback in Hrun. inv_ok.
  match goal with x : PingPongCallbackMsg |- _ => destruct x end; inv_ok.
  - match goal with He : get_execute_events _ = Ok _ |- _ => apply execute_events_won in He as Hwon end.
    destruct (existsb _ _); [destruct (is_even env)|]; inv_ok.
    + match goal with Hr : ping_pong _ _ = Ok _ |- _ => apply ping_pong_same in Hr as -> end. exists 0, 0. split; [by apply scored_refl|lia].
    + exists 0, 1. split; [by eapply update_losses_Ok|lia].
    + exists 1, 0. split; [by eapply update_wins_Ok|lia].
  - match goal with Hr : play_if_win _ _ _ = Ok _ |- _ => unfold play_if_win in Hr end. inv_ok. exists 0, 0.
    assert (s' = s) as ->; [|split; [by apply scored_refl|lia]].
    case_decide; [by eapply ping_pong_same|by inv_ok].
Qed.
End handlers.

(** ** The apps of many chains *)

(** The app of each chain, and the results that are underway to the chain that
    asked, with the callback to hand them to *)
Record Net := mkNet { games : gmap TruncatedChainId (State Game); underway : list (TruncatedChainId * IbcResponseMsg) }.
Definition in_game (chain : TruncatedChainId) s (n : Net) : Net := mkNet (<[chain := s]> (games n)) (underway n).
Definition to_deliver (chain : TruncatedChainId) (m : IbcResponseMsg) (n : Net) : Net :=
  mkNet (games n) (underway n ++ [(chain, m)]).
(** The events of a chain for a response with attributes *)
Definition response_events (addr : Addr) (attrs : list (string * string)) : list Event :=
  if decide (attrs = []) then [] else [mkEvent "wasm" (("_contract_address", addr) :: attrs)].
(** The result of a call that was executed: the events of the app among those of
    other contracts, none of which plays pong *)
Definition executed_with (addr : Addr) (attrs : list (string * string)) (result : IbcResult) : Prop :=
  ∃ text by_ others rest, Forall (λ e, is_pong e = false) others ∧
    result = ResultExecute text (ExecutionSuccess (mkExecutionResponse by_
      (mkSubMsgResponse (others ++ response_events addr attrs) :: rest))).
Definition not_executed (result : IbcResult) : Prop :=
  match result with ResultExecute _ (ExecutionSuccess _) => False | _ => True end.
(** One transaction on one chain.  A call of the host is executed, and its result
    travels to some chain; a call fails, or a query is answered, and so does the
    result; a result is handed to the app that asked, or lost on the way. *)
Inductive net_step (n : Net) : Net → Prop :=
  | net_join chain (Q : Querier) (R : Registries) env i account x r s : games n !! chain = None →
      App.instantiate PING_APP env i account x (mkState None None None None empty_game) = Ok (r, s) →
      net_step n (in_game chain s n)
  | net_play chain (Q : Querier) (R : Registries) env i m s r s' : games n !! chain = Some s →
      App.execute PING_APP env i (Module_msg m) s = Ok (r, s') → net_step n (in_game chain s' n)
  | net_migrate chain (Q : Querier) (R : Registries) env x s r s' : games n !! chain = Some s →
      App.migrate PING_APP env x s = Ok (r, s') → net_step n (in_game chain s' n)
  | net_answer from chain (Q : Querier) (R : Registries) env i m attrs s r s' callback result :
      games n !! chain = Some s →
      App.execute PING_APP env i (ModuleIbcCall m) s = Ok (r, s') →
      answer_ping env (src_module_info m) (module_ibc_msg m) s = Ok ((attrs, r), s') →
      executed_with (contract_address env) attrs result →
      net_step n (to_deliver from (mkIbcResponse callback result) (in_game chain s' n))
  | net_other from callback result : not_executed result →
      net_step n (to_deliver from (mkIbcResponse callback result) n)
  | net_callback chain (Q : Querier) (R : Registries) env i m s r s' l1 l2 : underway n = l1 ++ (chain, m) :: l2 →
      games n !! chain = Some s → App.execute PING_APP env i (IbcCallbackMsg m) s = Ok (r, s') →
      net_step n (mkNet (<[chain := s']> (games n)) (l1 ++ l2))
  | net_lost chain m l1 l2 : underway n = l1 ++ (chain, m) :: l2 → net_step n (mkNet (games n) (l1 ++ l2)).
Definition net_reachable : Net → Prop := rtc net_step (mkNet ∅ []).

Definition total_of (f : State Game → Z) (m : gmap TruncatedChainId (State Game)) : Z :=
  map_fold (λ _ s acc, f s + acc) 0 m.
Lemma total_insert f m chain s : m !! chain = None → total_of f (<[chain := s]> m) = f s + total_of f m.
Proof. intros Hc. unfold total_of. rewrite map_fold_insert_L; [done|intros; lia|done]. Qed.
Lemma total_update f m chain s s' : m !! chain = Some s → total_of f (<[chain := s']> m) = total_of f m - f s + f s'.
Proof.
  intros Hc. rewrite <-(insert_id m chain s Hc) at 2. rewrite <-!(insert_delete_eq m).
  rewrite !total_insert by apply lookup_delete_eq. lia.
Qed.
(** Results underway that will be taken for wins *)
Definition won_underway (n : Net) : Z := zsum ((λ x, won (response_result x.2)) <$> underway n).

(** The invariant of the system *)
Definition fair (n : Net) : Prop :=
  total_of wins_of (games n) + won_underway n ≤ total_of losses_of (games n) ∧
  map_Forall (λ _ s, playing s) (games n).
Lemma scored_fair n chain s s' dw dl us : fair n → games n !! chain = Some s → scored s s' dw dl →
  dw + zsum ((λ x, won (response_result x.2)) <$> us) ≤ dl + won_underway n →
  fair (mkNet (<[chain := s']> (games n)) us).
Proof.
  intros [Hle Hp] Hs (Hplay & Hw & Hl) Hu. split; simpl.
  - rewrite !(total_update _ _ _ _ _ Hs), Hw, Hl. unfold won_underway at 1. simpl. lia.
  - by apply map_Forall_insert_2.
Qed.
Lemma in_game_fair n chain s s' : fair n → games n !! chain = Some s → custom s' = custom s → fair (in_game chain s' n).
Proof.
  intros Hn Hs Hc. apply (scored_fair n chain s s' 0 0); [done..| |done].
  destruct Hn as [_ Hp]. specialize (Hp chain s Hs). unfold scored, playing, wins_of, losses_of in *. rewrite Hc.
  split; [done|lia].
Qed.
Lemma won_split (us l1 l2 : list (TruncatedChainId * IbcResponseMsg)) x : us = l1 ++ x :: l2 →
  zsum ((λ x, won (response_result x.2)) <$> us) =
  won (response_result x.2) + zsum ((λ x, won (response_result x.2)) <$> (l1 ++ l2)).
Proof. intros ->. rewrite !fmap_app, !zsum_app, fmap_cons. simpl. lia. Qed.
(** The result of an executed ping counts as a win only when the answer was a loss. *)
Lemma executed_won addr attrs result : executed_with addr attrs result →
  won result = if existsb is_pong (response_events addr attrs) then 0 else 1.
Proof.
  intros (text & by_ & others & rest & Hothers & ->). simpl. rewrite existsb_app.
  assert (existsb is_pong others = false) as ->; [|done].
  induction Hothers as [|e others He _ IH]; [done|]. simpl. by rewrite He.
Qed.
Lemma instantiate_playing `{!Querier, !Registries} env i account x r s :
  App.instantiate PING_APP env i account x (mkState None None None None empty_game) = Ok (r, s) →
  playing s ∧ wins_of s = 0 ∧ losses_of s = 0.
Proof.
  unfold App.instantiate, save_module_data, save_contract_version. simpl. intros Hrun. inv_ok. unfold instantiate_handler in *. inv_ok. split; [|done].
  exists 0, 0. by split_and!.
Qed.
Lemma migrate_same `{!Querier, !Registries} env x s r s' :
  App.migrate PING_APP env x s = Ok (r, s') → custom s' = custom s.
Proof. unfold App.migrate, save_module_data, save_contract_version. simpl. intros Hrun. by inv_ok. Qed.
Lemma net_step_fair n n' : net_step n n' → fair n → fair n'.
Proof.
  intros Hstep Hn. destruct Hstep as [chain Q R env i account x r s Hnone Hrun|chain Q R env i m s r s' Hs Hrun
    |chain Q R env x s r s' Hs Hrun|from chain Q R env i m attrs s r s' callback result Hs Hrun Hans Hex
    |from callback result Hres|chain Q R env i m s r s' l1 l2 Hu Hs Hrun|chain m l1 l2 Hu].
  - destruct Hn as [Hle Hp]. destruct (instantiate_playing _ _ _ _ _ _ Hrun) as (Hplay & Hw & Hl). split; simpl.
    + rewrite !total_insert by done. rewrite Hw, Hl. unfold won_underway in *. simpl. lia.
    + by apply map_Forall_insert_2.
  - apply execute_same in Hrun as ->. by eapply in_game_fair.
  - apply migrate_same in Hrun. by eapply in_game_fair.
  - apply executed_won in Hex. pose proof (proj2 Hn chain s Hs) as Hplay. simpl in Hplay.
    unfold to_deliver. simpl.
    destruct (answer_ping_Ok _ _ _ _ _ _ _ Hplay Hans) as [[-> ->]|[-> Hsc]]; simpl in Hex.
    + eapply (scored_fair n chain s s 0 0); [done..|by apply scored_refl|].
      unfold won_underway. rewrite fmap_app, zsum_app. simpl. rewrite Hex. lia.
    + eapply (scored_fair n chain s s' 0 1); [done..|].
      unfold won_underway. rewrite fmap_app, zsum_app. simpl. rewrite Hex. lia.
  - destruct Hn as [Hle Hp]. split; [|done]. unfold won_underway, to_deliver in *. simpl.
    rewrite fmap_app, zsum_app. simpl. assert (won result = 0) as ->; [|lia]. by destruct result as [|? []|].
  - pose proof (proj2 Hn chain s Hs) as Hplay. simpl in Hplay.
    destruct (callback_Ok _ _ _ _ _ _ Hplay Hrun) as (dw & dl & Hsc & Hdw & Hdl).
    eapply (scored_fair n chain s s' dw dl); [done..|].
    unfold won_underway. rewrite (won_split _ _ _ _ Hu). simpl. lia.
  - destruct Hn as [Hle Hp]. split; [|done]. unfold won_underway in *. simpl.
    rewrite (won_split _ _ _ _ Hu) in Hle. pose proof (won_range (response_result (chain, m).2)). lia.
Qed.

(** ** A round *)

Lemma ping_add_one {E} a : 0 ≤ a → a + 1 < 2 ^ 32 → add_u (E:=E) 32 a 1 = Ok (a + 1).
Proof. intros ??. unfold add_u. by rewrite decide_True. Qed.
Lemma update_losses_runs s : playing s → losses_of s + 1 < 2 ^ 32 → ∃ s', update_losses s = Ok (tt, s') ∧ scored s s' 0 1.
Proof.
  intros Hs Hmax. assert (∃ s', update_losses s = Ok (tt, s')) as [s' Hrun]; [|exists s'; split; [done|by eapply update_losses_Ok]].
  destruct Hs as (w & l & Hs & Hw & Hl). unfold losses_of, in_32 in *. rewrite Hs in Hmax. simpl in Hmax.
  unfold update_losses, gets, lift, modify, mbind, M_bind. rewrite Hs. cbn. rewrite ping_add_one by lia. cbn. by eexists.
Qed.
Lemma update_wins_runs s : playing s → wins_of s + 1 < 2 ^ 32 → ∃ s', update_wins s = Ok (tt, s') ∧ scored s s' 1 0.
Proof.
  intros Hs Hmax. assert (∃ s', update_wins s = Ok (tt, s')) as [s' Hrun]; [|exists s'; split; [done|by eapply update_wins_Ok]].
  destruct Hs as (w & l & Hs & Hw & Hl). unfold wins_of, in_32 in *. rewrite Hs in Hmax. simpl in Hmax.
  unfold update_wins, gets, lift, modify, mbind, M_bind. rewrite Hs. cbn. rewrite ping_add_one by lia. cbn. by eexists.
Qed.
Lemma executed_events addr attrs result : executed_with addr attrs result →
  ∃ evs, get_execute_events result = Ok evs ∧ existsb is_pong evs = existsb is_pong (response_events addr attrs).
Proof.
  intros He. pose proof (executed_won _ _ _ He) as Hw. destruct He as (text & by_ & others & rest & _ & ->).
  eexists. split; [reflexivity|]. simpl in *. by destruct (existsb is_pong (others ++ _)), (existsb is_pong (response_events _ _)).
Qed.

Lemma run_bind {S' E A B} (m : M S' E A) (f : A → M S' E B) (s : S') a (s' : S') : m s = Ok (a, s') → (m ≫= f) s = f a s'.
Proof. intros Hm. unfold mbind, M_bind. by rewrite Hm. Qed.
(** The app of the other chain answers a ping of this app. *)
Lemma answers_ping `{Hping : ∀ m : PingPongIbcMsg, from_json (to_json m) = Some m} env from target s :
  self_module_info = Ok target → playing s → losses_of s + 1 < 2 ^ 32 →
  ∃ r s', answer_ping env (mkModuleIbcInfo from target) (to_json (mkPingPongIbc Ping)) s =
    Ok ((if is_even env then [("play", "pong")] else [], r), s') ∧
    if is_even env then s' = s else scored s s' 0 1.
Proof.
  intros Hi Hs Hmax. unfold answer_ping, parse. rewrite Hi, Hping.
  unfold ensure, lift, mbind, M_bind. cbn. rewrite bool_decide_true by done. cbn. destruct (is_even env); [by eexists _, _|].
  destruct (update_losses_runs s Hs Hmax) as (s' & Hrun & Hsc). eexists _, s'.
  split; [|exact Hsc]. exact (run_bind _ _ _ _ _ Hrun).
Qed.
(** What the callback of a ping does with the result. *)
Lemma pinged_callback `{!Querier, !Registries} `{Hcb : ∀ m : PingPongCallbackMsg, from_json (to_json m) = Some m}
    env chain addr attrs result s : executed_with addr attrs result → playing s →
  wins_of s + 1 < 2 ^ 32 → losses_of s + 1 < 2 ^ 32 →
  let run := ibc_callback env tt (mkCallback (to_json (Pinged chain))) result s in
  if existsb is_pong (response_events addr attrs) then
    if is_even env then run = ping_pong chain s else ∃ r s', run = Ok (r, s') ∧ scored s s' 0 1
  else ∃ r s', run = Ok (r, s') ∧ scored s s' 1 0.
Proof.
  intros Hex Hs Hw Hl. destruct (executed_events _ _ _ Hex) as (evs & He & <-). cbn zeta.
  unfold ibc_callback, parse. simpl callback_msg. rewrite Hcb, He.
  unfold lift, mbind, M_bind. cbn.
  destruct (existsb is_pong evs); [destruct (is_even env); [done|]|].
  - destruct (update_losses_runs s Hs Hl) as (s' & Hrun & Hsc). eexists _, s'.
    split; [|exact Hsc]. exact (run_bind _ _ _ _ _ Hrun).
  - destruct (update_wins_runs s Hs Hw) as (s' & Hrun & Hsc). eexists _, s'.
    split; [|exact Hsc]. exact (run_bind _ _ _ _ _ Hrun).
Qed.
(** The message of a ping *)
Lemma ping_pong_Ok `{!Querier, !Registries} chain s r s' : ping_pong chain s = Ok (r, s') →
  ∃ client target, self_module_info = Ok target ∧ messages r = [send (FromModule (WasmExecute client
    (Raw (to_json (IbcClient.ModuleIbcAction chain target (to_json (mkPingPongIbc Ping))
      (Some (mkCallback (to_json (Pinged chain))))))) []))].
Proof.
  unfold ping_pong, module_ibc_action, call_ibc_client. intros Hrun. inv_ok.
  eexists _, _. by split.
Qed.
End proofs.

(** C26. Every win is a loss.  Apps on any number of chains play, by transactions in
    any order: calls of the host and results of calls, to whomever and in whatever
    order they arrive, or lost.  In every reachable state the wins of all apps,
    with those of the results that are underway, are at most their losses, and
    each app has two counters of 32 bits. *)
Theorem wins_are_losses `{Semver, Api, Instantiate2, CwOwnable, CoinsOps, Sha256, !Accounts, !ComparatorParse}
    `{!ToJson IbcClient.ExecuteMsg, !ToJson PingPongIbcMsg, !FromJson PingPongIbcMsg}
    `{!ToJson PingPongCallbackMsg, !FromJson PingPongCallbackMsg, !ToJson PingPongQuery}
    `{!ToJson GameStatusResponse, !ToJson BlockHeightResponse, !FromJson BlockHeightResponse}
    (n : Net) (Hn : net_reachable n) :
  total_of wins_of (games n) + won_underway n ≤ total_of losses_of (games n) ∧
  map_Forall (λ _ s, playing s) (games n).
Proof.
  apply (rtc_ind_r (λ n, fair n) (mkNet ∅ [])) in Hn; [exact Hn|split; [done|apply map_Forall_empty]|].
  intros n1 n2 _ Hstep IH. by eapply net_step_fair.
Qed.

(** A round from its ping to its callback.  Playing sends one call of the IBC
    client and changes nothing.  The same app on the other chain answers that
    message: with a pong, without a change, in a block of even height, and
    otherwise with a loss.  The callback of the message then makes a lost answer a
    win of the app that pinged; a pong it answers with the next ping in a block of
    even height, and otherwise loses.  So a round ends with one win for one loss,
    with a loss, or with another round. *)
Theorem ping_round `{Semver, Api, Instantiate2, CwOwnable, CoinsOps, Sha256, !Accounts, !ComparatorParse}
    `{!ToJson IbcClient.ExecuteMsg, !ToJson PingPongIbcMsg, !FromJson PingPongIbcMsg}
    `{!ToJson PingPongCallbackMsg, !FromJson PingPongCallbackMsg, !ToJson PingPongQuery}
    `{!ToJson GameStatusResponse, !ToJson BlockHeightResponse, !FromJson BlockHeightResponse, !Querier, !Registries}
    (Hping : ∀ m : PingPongIbcMsg, from_json (to_json m) = Some m)
    (Hcb : ∀ m : PingPongCallbackMsg, from_json (to_json m) = Some m)
    env info chain s r s' (Hrun : App.execute PING_APP env info (Module_msg (PingPong chain)) s = Ok (r, s')) :
  s' = s ∧ ∃ client target text callback,
  messages r = [send (FromModule (WasmExecute client
    (Raw (to_json (IbcClient.ModuleIbcAction chain target text (Some callback)))) []))] ∧
  ∀ env_b from b, playing b → losses_of b + 1 < 2 ^ 32 →
  ∃ attrs rb b', answer_ping env_b (mkModuleIbcInfo from target) text b = Ok ((attrs, rb), b') ∧
  (if is_even env_b then b' = b else scored b b' 0 1) ∧
  ∀ addr result env_a a, executed_with addr attrs result → playing a →
    wins_of a + 1 < 2 ^ 32 → losses_of a + 1 < 2 ^ 32 →
    let run := ibc_callback env_a tt callback result a in
    if is_even env_b then
      if is_even env_a then run = ping_pong chain a else ∃ ra a', run = Ok (ra, a') ∧ scored a a' 0 1
    else ∃ ra a', run = Ok (ra, a') ∧ scored a a' 1 0.
Proof.
  split; [by eapply execute_same|].
  assert (ping_pong chain s = Ok (r, s')) as Hplay by exact Hrun.
  apply ping_pong_Ok in Hplay as (client & target & Hi & Hm). eexists client, target, _, _. split; [exact Hm|].
  intros env_b from b Hb Hmax.
  destruct (answers_ping (Hping:=Hping) env_b from target b Hi Hb Hmax) as (rb & b' & Hans & Hb').
  eexists _, rb, b'. split; [exact Hans|]. split; [exact Hb'|].
  intros addr result env_a a Hex Ha Hw Hl.
  pose proof (pinged_callback (Hcb:=Hcb) env_a chain addr _ result a Hex Ha Hw Hl) as Hcall.
  by destruct (is_even env_b).
Qed.

(** ** A game to evaluate

    The app on the chains "juno" and "osmosis": Juno pings, Osmosis answers in a block
    of odd height and loses. *)

From S2P Require Import Prelude Cosmos Strings Objects Names AccountIds Fees ModuleFactory Ownership AnsObjects Ans AnsProofs AnsClient Registry RegistryAccess Clients Account Ibc IbcClient IbcHost Sdk SdkApis App SdkModules PingPong AccountExamples ModuleExamples.

Module PingPongExamples.
#[local] Existing Instance semver_ref.
#[local] Existing Instance api_ref.
#[local] Existing Instance instantiate2_ref.
#[local] Existing Instance RegistryExamples.ownable_ref.
#[local] Existing Instance coins_ref.
#[local] Existing Instance sha256_ref.
#[local] Existing Instance ModuleExamples.comparators.
#[local] Existing Instance ModuleExamples.accounts.
#[local] Existing Instance ModuleExamples.chain_admin.

(** A registry with the IBC client and the IBC host *)
Definition native (name version : string) : ModuleInfo := mkModuleInfo "abstract" name (Version version).
Definition registry1 : Registry.State := set_registered (list_to_map
  [(mkey (native "ibc-client" IbcClient.CONTRACT_VERSION), RefNative "client");
   (mkey (native "ibc-host" IbcHost.CONTRACT_VERSION), RefNative "host")]) AccountExamples.AccountExamples.registry0.
#[local] Instance registries : Registries := {|
  registry_state a := if decide (a = "deployer/reg") then Some registry1 else None
|}.

#[local] Instance client_json : ToJson IbcClient.ExecuteMsg := λ m,
  match m with IbcClient.ModuleIbcAction chain _ msg _ => chain +:+ "/" +:+ msg | _ => "other" end.
#[local] Instance ping_json : ToJson PingPongIbcMsg := λ m, match hand m with Ping => "ping" | Pong => "pong" end.
#[local] Instance ping_parse : FromJson PingPongIbcMsg := λ t,
  if decide (t = "ping") then Some (mkPingPongIbc Ping)
  else if decide (t = "pong") then Some (mkPingPongIbc Pong) else None.
#[local] Instance callback_json : ToJson PingPongCallbackMsg := λ m,
  match m with Pinged c => String "p" c | QueryBlockHeight c => String "q" c end.
#[local] Instance callback_parse : FromJson PingPongCallbackMsg := λ t,
  match t with
  | String a c => if decide (a = "p"%char) then Some (Pinged c)
                  else if decide (a = "q"%char) then Some (QueryBlockHeight c) else None
  | EmptyString => None
  end.
#[local] Instance query_json : ToJson PingPongQuery := λ _, "query".
#[local] Instance status_json : ToJson GameStatusResponse := λ _, "status".
#[local] Instance height_json : ToJson BlockHeightResponse := λ _, "height".
#[local] Instance height_parse : FromJson BlockHeightResponse := λ _, None.
Lemma ping_texts (m : PingPongIbcMsg) : from_json (to_json m) = Some m.
Proof. by destruct m as [[]]. Qed.
Lemma callback_texts (m : PingPongCallbackMsg) : from_json (to_json m) = Some m.
Proof. by destruct m. Qed.

Definition on_chain (chain : string) (h : Z) : Env := mkEnv (mkBlock h 0 chain) "pingpong".
Definition new_game : State Game := mkState None None None None empty_game.
Definition created := App.instantiate PING_APP (on_chain "juno-1" 1) (mkInfo "bob" []) "acc1" tt new_game.
Definition g0 : State Game := commit new_game created.
Definition playing_osmosis := App.execute PING_APP (on_chain "juno-1" 2) (mkInfo "bob" []) (Module_msg (PingPong "osmosis")).
Definition self : ModuleInfo := mkModuleInfo "abstract" "ping-pong" (Version PING_VERSION).
Definition the_ping : ModuleIbcMsg := mkModuleIbcMsg (mkModuleIbcInfo "juno" self) "ping".
(** Osmosis answers in block seven. *)
Definition answering := App.execute PING_APP (on_chain "osmosis-1" 7) (mkInfo "host" []) (ModuleIbcCall the_ping).
Definition g1 : State Game := commit g0 (answering g0).
Definition no_pong : IbcResult := ResultExecute "" (ExecutionSuccess (mkExecutionResponse "proxy" [mkSubMsgResponse []])).
Definition the_callback : IbcResponseMsg := mkIbcResponse (mkCallback "posmosis") no_pong.
Definition called_back := App.execute PING_APP (on_chain "juno-1" 3) (mkInfo "client" []) (IbcCallbackMsg the_callback).
Definition g2 : State Game := commit g0 (called_back g0).

Ltac evaluate := match goal with |- _ = ?b => vm_cast_no_check (eq_refl b) end.
Lemma ping_created : is_ok created = true ∧ is_ok (playing_osmosis g0) = true ∧ is_ok (answering g0) = true ∧
  is_ok (called_back g0) = true.
Proof. split_and!; evaluate. Qed.
Example ping_sent : (λ x, messages x.1) <$> ok (playing_osmosis g0) =
  Some [send (FromModule (WasmExecute "client" (Raw "osmosis/ping") []))].
Proof. evaluate. Qed.
Example ping_scores : (custom g1, custom g2) = (mkGame (Some 0) (Some 1), mkGame (Some 1) (Some 0)).
Proof. evaluate. Qed.
Example pong_answered : (λ x, x.1.1) <$> ok (answer_ping (on_chain "osmosis-1" 8) (src_module_info the_ping) "ping" g0) =
  Some [("play", "pong")].
Proof. evaluate. Qed.
Lemma g0_playing : playing g0.
Proof. exists 0, 0. split_and!; [evaluate|unfold in_32; lia..]. Qed.
Lemma ping_call_Ok env i m s : is_ok (App.execute PING_APP env i m s) = true →
  ∃ r, App.execute PING_APP env i m s = Ok (r, commit s (App.execute PING_APP env i m s)).
Proof. destruct (App.execute _ _ _ m s) as [[r s']|e|]; [intros _; by exists r|done..]. Qed.

(** The round: Juno's ping, which Osmosis answers in block seven and loses *)
Lemma ping_round_witness : ∃ r, playing_osmosis g0 = Ok (r, g0) ∧ ∃ target text,
  ∃ attrs rb b', answer_ping (on_chain "osmosis-1" 7) (mkModuleIbcInfo "juno" target) text g0 = Ok ((attrs, rb), b') ∧
    scored g0 b' 0 1.
Proof.
  destruct (ping_call_Ok _ _ _ g0 (proj1 (proj2 ping_created))) as [r Hr].
  destruct (ping_round ping_texts callback_texts (on_chain "juno-1" 2) (mkInfo "bob" []) "osmosis" g0 r _ Hr)
    as (Hs & client & target & text & callback & _ & Hans).
  exists r. split; [rewrite Hs in Hr; exact Hr|]. exists target, text.
  destruct (Hans (on_chain "osmosis-1" 7) "juno" g0 g0_playing) as (attrs & rb & b' & Ha & Hb & _).
  - change (losses_of g0 + 1) with (losses_of g0 + 1). vm_compute. reflexivity.
  - exists attrs, rb, b'. split; [exact Ha|exact Hb].
Defined.

(** The two chains after the round: Osmosis has lost, and its answer is underway *)
Definition n1 : Net := in_game "osmosis" g0 (in_game "juno" g0 (mkNet ∅ [])).
Definition n2 : Net := to_deliver "juno" the_callback (in_game "osmosis" g1 n1).
Definition n3 : Net := mkNet (<["juno" := g2]> (games n2)) [].
Lemma answer_texts r : answering g0 = Ok (r, g1) → answer_ping (on_chain "osmosis-1" 7) (mkModuleIbcInfo "juno" self) "ping" g0 = Ok (([], r), g1).
Proof.
  intros Hr. assert (is_ok (answer_ping (on_chain "osmosis-1" 7) (mkModuleIbcInfo "juno" self) "ping" g0) = true) as Hok by evaluate.
  apply module_ibc_Ok in Hr as (_ & h & [= <-] & Hr). unfold receive_module_ibc in Hr. cbn [src_module_info module_ibc_msg the_ping] in Hr.
  destruct (answer_ping _ _ _ g0) as [[[attrs r'] s]|e|] eqn:Ha; [|discriminate Hok..].
  assert (attrs = []) as ->.
  { apply (f_equal (λ o, (λ x, x.1.1) <$> ok o)) in Ha. vm_compute in Ha. by injection Ha. }
  unfold mbind, M_bind in Hr. rewrite Ha in Hr. by injection Hr as <- ->.
Qed.
Lemma n3_reachable : net_reachable n3.
Proof.
  destruct ping_created as (Hc & _ & Ha & Hb).
  assert (∃ r, created = Ok (r, g0)) as [rc Hc'].
  { unfold g0. destruct created as [[r s]|e|]; [by exists r|discriminate Hc..]. }
  destruct (ping_call_Ok _ _ _ g0 Ha) as [ra Ha']. destruct (ping_call_Ok _ _ _ g0 Hb) as [rb Hb'].
  eapply rtc_l; [refine (net_join _ "juno" _ registries _ _ _ _ _ _ _ Hc'); apply lookup_empty|].
  eapply rtc_l; [refine (net_join _ "osmosis" _ registries _ _ _ _ _ _ _ Hc'); reflexivity|].
  eapply rtc_l; [refine (net_answer n1 "juno" "osmosis" _ registries _ _ the_ping [] g0 ra g1 (mkCallback "posmosis") no_pong eq_refl Ha'
    (answer_texts ra Ha') _); exists "", "proxy", [], []; by split|].
  eapply rtc_l; [exact (net_callback n2 "juno" _ registries _ _ the_callback g0 rb g2 [] [] eq_refl eq_refl Hb')|].
  apply rtc_refl.
Qed.
Lemma wins_are_losses_witness : wins_of g2 + wins_of g1 ≤ losses_of g2 + losses_of g1.
Proof.
  pose proof (proj1 (wins_are_losses n3 n3_reachable)) as Hle. vm_compute in Hle. vm_compute. exact Hle.
Defined.
End PingPongExamples.
