(* ===== verification/IcaOwner.v ===== *)
(** * The owner of interchain account controllers

    modules/contracts/standalones/ica-owner (lib.rs, contract.rs, state.rs, msg.rs,
    error.rs): a standalone module that creates controllers of interchain accounts,
    numbers them, and sends actions through them.  The controller contract, of the
    package cw-ica-controller, is code outside the repository. *)

From S2P Require Import Prelude Cosmos Strings Objects Names AccountIds Fees ModuleFactory Ownership AnsObjects Ans AnsClient Registry Clients Account Ibc IbcClient IbcHost Sdk SdkApis App.
From Stdlib Require Import Ascii String.
#[local] Open Scope string_scope.
#[local] Open Scope list_scope.
#[local] Open Scope Z_scope.

(** cw-ica-controller: the types of its channels and messages; the message that
    creates a controller, of a code, for an owner that gets its callbacks, with
    options, a label and a salt, and the address it will have; and the message of a
    controller that sends messages with a memo. *)
Class IcaController `{CwOwnable} := {
  IbcChannel : Type;
  TxEncoding : Type;
  ChannelOpenInitOptions : Type;
  controller_instantiate2 : Env → Z → Addr → ChannelOpenInitOptions → string → Addr → string → option (CosmosMsg * Addr);
  controller_send : Addr → list CosmosMsg → string → option CosmosMsg
}.

(** ** Messages and state (msg.rs, state.rs, error.rs) *)

Section state.
Context `{Semver, CwOwnable, !IcaController}.
(** [ChannelState] of a channel that is open *)
Inductive ChannelStatus : Type := ChannelOpen | ChannelClosed.
Record ChannelState := mkChannelState { channel : IbcChannel; channel_status : ChannelStatus }.
Record IcaState := mkIcaState { ica_id : Z; ica_addr : string; tx_encoding : TxEncoding; channel_state : ChannelState }.
Record IcaContractState := mkIcaContractState { ica_contract_addr : Addr; ica_state : option IcaState }.
Definition ica_contract_state_new (contract_addr : Addr) : IcaContractState := mkIcaContractState contract_addr None.
(** [CONFIG], [ICA_COUNT], [ICA_STATES], [CONTRACT_ADDR_TO_ICA_ID] *)
Record IcaOwnerStorage := mkIcaOwnerStorage {
  ica_controller_code_id : option Z;
  ica_count : option Z;
  ica_states : gmap Z IcaContractState;
  contract_addr_to_ica_id : gmap Addr Z
}.
Definition set_code_id (v : option Z) (s : IcaOwnerStorage) : IcaOwnerStorage :=
  mkIcaOwnerStorage v (ica_count s) (ica_states s) (contract_addr_to_ica_id s).
Definition set_ica_count (v : option Z) (s : IcaOwnerStorage) : IcaOwnerStorage :=
  mkIcaOwnerStorage (ica_controller_code_id s) v (ica_states s) (contract_addr_to_ica_id s).
Definition set_ica_states (v : gmap Z IcaContractState) (s : IcaOwnerStorage) : IcaOwnerStorage :=
  mkIcaOwnerStorage (ica_controller_code_id s) (ica_count s) v (contract_addr_to_ica_id s).
Definition set_addr_to_id (v : gmap Addr Z) (s : IcaOwnerStorage) : IcaOwnerStorage :=
  mkIcaOwnerStorage (ica_controller_code_id s) (ica_count s) (ica_states s) v.
Definition empty_owner : IcaOwnerStorage := mkIcaOwnerStorage None None ∅ ∅.
(** [IcaControllerCallbackMsg], [MyStandaloneExecuteMsg], [MyStandaloneQueryMsg] *)
Inductive IcaControllerCallbackMsg : Type :=
  | OnChannelOpenAckCallback (channel : IbcChannel) (ica_address : string) (tx_encoding : TxEncoding)
  | OnAcknowledgementPacketCallback (data : string)
  | OnTimeoutPacketCallback (data : string).
Inductive IcaOwnerExecuteMsg : Type :=
  | CreateIcaContract (salt : option string) (channel_open_init_options : ChannelOpenInitOptions)
  | ReceiveIcaCallback (callback_msg : IcaControllerCallbackMsg)
  | SendAction (ica_id : Z) (msg : CosmosMsg).
Inductive IcaOwnerQueryMsg : Type := OwnerConfig | QueryICACount | QueryIcaContractState (ica_id : Z).
Inductive IcaOwnerResponse : Type :=
  | OwnerConfigResponse (ica_controller_code_id : Z)
  | ICACountResponse (count : Z)
  | IcaContractStateResponse (s : IcaContractState).
Inductive IcaOwnerError : Type :=
  | OwnStd (e : StdError)
  | OwnAbstract (e : AbstractError)
  | OwnSdk (e : SdkError)
  | OwnAsset
  | OwnAdmin (e : AdminError).
End state.

Definition MY_NAMESPACE : string := "yournamespace".
Definition MY_STANDALONE_NAME : string := "my-standalone".
Definition MY_STANDALONE_ID : string := MY_NAMESPACE +:+ ":" +:+ MY_STANDALONE_NAME.
Definition STANDALONE_VERSION : string := "0.0.1".
Definition MY_STANDALONE : StandaloneContract := mkStandalone (MY_STANDALONE_ID, STANDALONE_VERSION, None) [].
Definition INSTANTIATE_REPLY_ID : Z := 0.

Section contract.
Context `{Semver, Api, Instantiate2, CwOwnable, !Querier, !Factories, !ComparatorParse, !IcaController}.
Abbreviation OwnState := (State (bool * IcaOwnerStorage)).
Abbreviation OwnM := (M OwnState IcaOwnerError).
Abbreviation OwnResponse := (Response CosmosMsg).
Definition owner_storage (s : OwnState) : IcaOwnerStorage := (custom s).2.
Definition update_owner (f : IcaOwnerStorage → IcaOwnerStorage) : OwnM unit :=
  modify (λ s, set_custom ((custom s).1, f (owner_storage s)) s).
Definition assert_ica_admin (env : Env) (info : MessageInfo) : OwnM unit :=
  within OwnAdmin (assert_app_admin env (sender info)).
Definition load_ica {A} (f : IcaOwnerStorage → option A) (what : string) : OwnM A :=
  x ← gets (λ s, f (owner_storage s)); lift (ok_or x (OwnStd (StdNotFound what))).

(** ** Entry points (contract.rs) *)

Definition instantiate (info : MessageInfo) (code_id : Z) : OwnM OwnResponse :=
  update_owner (set_code_id (Some code_id)) ≫= λ _,
  update_owner (set_ica_count (Some 0)) ≫= λ _,
  within OwnSdk (standalone_instantiate MY_STANDALONE info true) ≫= λ _,
  mret (mkResponse "init" []).
Definition create_ica_contract (env : Env) (info : MessageInfo) (salt : option string)
    (options : ChannelOpenInitOptions) : OwnM OwnResponse :=
  assert_ica_admin env info ≫= λ _,
  code_id ← load_ica ica_controller_code_id "config";
  count ← load_ica ica_count "ica_count";
  let salt := default (pretty (seconds (time (block env)))) salt in
  let label := "icacontroller-" +:+ contract_address env +:+ "-" +:+ pretty count in
  '(cosmos_msg, contract_addr) ← lift (ok_or
    (controller_instantiate2 env code_id (contract_address env) options label (contract_address env) salt)
    (OwnStd (StdMsg "instantiate2")));
  update_owner (λ s, set_ica_states (<[count := ica_contract_state_new contract_addr]> (ica_states s)) s) ≫= λ _,
  update_owner (λ s, set_addr_to_id (<[contract_addr := count]> (contract_addr_to_ica_id s)) s) ≫= λ _,
  count' ← lift (add_u 64 count 1);
  update_owner (set_ica_count (Some count')) ≫= λ _,
  mret (mkResponse "create_ica_contract" [send cosmos_msg]).
Definition ica_callback (info : MessageInfo) (callback_msg : IcaControllerCallbackMsg) : OwnM OwnResponse :=
  id ← load_ica (λ s, contract_addr_to_ica_id s !! sender info) "contract_addr_to_ica_id";
  st ← load_ica (λ s, ica_states s !! id) "ica_states";
  match callback_msg with
  | OnChannelOpenAckCallback channel ica_address tx_encoding =>
      let opened := mkIcaState id ica_address tx_encoding (mkChannelState channel ChannelOpen) in
      update_owner (λ s, set_ica_states
        (<[id := mkIcaContractState (ica_contract_addr st) (Some opened)]> (ica_states s)) s)
  | _ => mret tt
  end ≫= λ _,
  mret (mkResponse "ica_callback" []).
Definition send_action (env : Env) (info : MessageInfo) (id : Z) (msg : CosmosMsg) : OwnM OwnResponse :=
  assert_ica_admin env info ≫= λ _,
  st ← load_ica (λ s, ica_states s !! id) "ica_states";
  msg ← lift (ok_or (controller_send (ica_contract_addr st) [msg] "aloha") (OwnStd (StdMsg "to_json")));
  mret (mkResponse "send_action" [send msg]).
Definition execute (env : Env) (info : MessageInfo) (msg : IcaOwnerExecuteMsg) : OwnM OwnResponse :=
  match msg with
  | CreateIcaContract salt options => create_ica_contract env info salt options
  | ReceiveIcaCallback callback_msg => ica_callback info callback_msg
  | SendAction id msg => send_action env info id msg
  end.
Definition query_config (s : IcaOwnerStorage) : outcome StdError IcaOwnerResponse :=
  c ← ok_or (ica_controller_code_id s) (StdNotFound "config"); Ok (OwnerConfigResponse c).
Definition query_ica_state (s : IcaOwnerStorage) (id : Z) : outcome StdError IcaContractState :=
  ok_or (ica_states s !! id) (StdNotFound "ica_states").
Definition query_ica_count (s : IcaOwnerStorage) : outcome StdError IcaOwnerResponse :=
  c ← ok_or (ica_count s) (StdNotFound "ica_count"); Ok (ICACountResponse c).
Definition query (s : OwnState) (msg : IcaOwnerQueryMsg) : outcome StdError IcaOwnerResponse :=
  match msg with
  | OwnerConfig => query_config (owner_storage s)
  | QueryICACount => query_ica_count (owner_storage s)
  | QueryIcaContractState id => r ← query_ica_state (owner_storage s) id; Ok (IcaContractStateResponse r)
  end.
(** A reply with another id is not implemented. *)
Definition reply (id : Z) : OwnM OwnResponse :=
  if decide (id = INSTANTIATE_REPLY_ID) then mret (mkResponse "instantiate_reply" []) else lift Panic.
Definition migrate : OwnM OwnResponse :=
  within OwnAbstract (standalone_migrate MY_STANDALONE) ≫= λ _,
  mret (mkResponse "migrate" []).
End contract.
