(* ===== verification/IcaOwnerProofs.v ===== *)
(** * Correctness of the owner of interchain account controllers

    The numbering of its controllers as an invariant, who may create and use them,
    and what a callback of a controller can change; with a run. *)

From S2P Require Import Prelude Cosmos Strings Objects Names AccountIds Fees ModuleFactory Ownership AnsObjects Ans AnsClient Registry RegistryAccess Clients Account Ibc IbcClient IbcHost Sdk SdkApis App AppProofs AccountExamples ModuleExamples IcaOwner.
From Stdlib Require Import Ascii String.
#[local] Open Scope string_scope.
#[local] Open Scope list_scope.
#[local] Open Scope Z_scope.

(** ** The numbering *)

Section numbering.
Context `{Semver, CwOwnable, !IcaController}.
Implicit Types st : IcaOwnerStorage.

(** The controllers are numbered from 0 up to the count; the number of an address is
    that of a controller at it, and an account that was opened has the number of
    its controller. *)
Record numbered (n : Z) st : Prop := mkNumbered {
  n_count : ica_count st = Some n;
  n_range : 0 ≤ n < 2 ^ 64;
  n_states : ∀ id, is_Some (ica_states st !! id) ↔ 0 ≤ id < n;
  n_ids : ∀ a id, contract_addr_to_ica_id st !! a = Some id → ∃ c, ica_states st !! id = Some c ∧ ica_contract_addr c = a;
  n_opened : ∀ id c o, ica_states st !! id = Some c → ica_state c = Some o → ica_id o = id
}.
(** The storage with one more controller, and with a controller whose account is open *)
Definition with_controller (n : Z) (a : Addr) st : IcaOwnerStorage :=
  set_ica_count (Some (n + 1)) (set_addr_to_id (<[a := n]> (contract_addr_to_ica_id st))
    (set_ica_states (<[n := ica_contract_state_new a]> (ica_states st)) st)).
Definition with_open (o : IcaState) (a : Addr) st : IcaOwnerStorage :=
  set_ica_states (<[ica_id o := mkIcaContractState a (Some o)]> (ica_states st)) st.
Lemma numbered_fresh n st : numbered n st → ica_states st !! n = None.
Proof.
  intros Hn. apply eq_None_not_Some. intros Hs. apply (n_states _ _ Hn) in Hs. lia.
Qed.
Lemma numbered_instantiate code : numbered 0 (set_ica_count (Some 0) (set_code_id (Some code) empty_owner)).
Proof.
  split; simpl; [done|lia| |done..]. intros id. rewrite lookup_empty. split; [by intros [? ?]|lia].
Qed.
Lemma numbered_with_controller n a st : numbered n st → n + 1 < 2 ^ 64 → numbered (n + 1) (with_controller n a st).
Proof.
  intros Hn Hlt. pose proof (numbered_fresh n st Hn) as Hf. destruct Hn as [Hc Hr Hs Hi Ho].
  split; simpl; [done|lia|..].
  - intros id. destruct (decide (n = id)) as [<-|Hne].
    + rewrite lookup_insert_eq. split; [lia|by eexists].
    + rewrite lookup_insert_ne by done. rewrite Hs. lia.
  - intros b id. destruct (decide (a = b)) as [<-|Hne].
    + rewrite lookup_insert_eq. intros [= <-]. rewrite lookup_insert_eq. by eexists.
    + rewrite lookup_insert_ne by done. intros (c & Hc' & <-)%Hi.
      rewrite lookup_insert_ne by congruence. by eexists.
  - intros id c o. destruct (decide (n = id)) as [<-|Hne].
    + rewrite lookup_insert_eq. by intros [= <-].
    + rewrite lookup_insert_ne by done. by apply Ho.
Qed.
Lemma numbered_with_open n o c st : numbered n st → ica_states st !! ica_id o = Some c →
  numbered n (with_open o (ica_contract_addr c) st).
Proof.
  intros [Hc Hr Hs Hi Ho] Hst. split; simpl; [done..| | |].
  - intros id. rewrite <-Hs. destruct (decide (ica_id o = id)) as [<-|Hne].
    + by rewrite lookup_insert_eq, Hst.
    + by rewrite lookup_insert_ne.
  - intros b id (c' & Hc' & <-)%Hi. destruct (decide (ica_id o = id)) as [<-|Hne].
    + rewrite lookup_insert_eq. eexists. split; [done|]. simpl. congruence.
    + rewrite lookup_insert_ne by done. by eexists.
  - intros id c' o'. destruct (decide (ica_id o = id)) as [<-|Hne].
    + rewrite lookup_insert_eq. by intros [= <-] [= <-].
    + rewrite lookup_insert_ne by done. by apply Ho.
Qed.
(** The controllers that exist stay where they are. *)
Definition controllers_kept st st' : Prop :=
  ∀ id c, ica_states st !! id = Some c → ∃ c', ica_states st' !! id = Some c' ∧ ica_contract_addr c' = ica_contract_addr c.
Lemma controllers_kept_refl st : controllers_kept st st.
Proof. intros ? c ?. by exists c. Qed.
Lemma with_controller_kept n a st : numbered n st → controllers_kept st (with_controller n a st).
Proof.
  intros Hn%numbered_fresh id c Hc. exists c. simpl. by rewrite lookup_insert_ne by congruence.
Qed.
Lemma with_open_kept o c st : ica_states st !! ica_id o = Some c →
  controllers_kept st (with_open o (ica_contract_addr c) st).
Proof.
  intros Hst id c' Hc. simpl. destruct (decide (ica_id o = id)) as [<-|Hne].
  - rewrite lookup_insert_eq. eexists. split; [done|]. simpl. congruence.
  - rewrite lookup_insert_ne by done. by eexists.
Qed.
End numbering.

(** ** What a call does *)

Section calls.
Context `{Semver, Api, Instantiate2, CwOwnable, !Factories, !ComparatorParse, !IcaController}.
Abbreviation OwnState := (State (bool * IcaOwnerStorage)).
Implicit Types s : OwnState.

(** The caller of an account's administration *)
Definition administers `{!Querier} (env : Env) (caller : Addr) s : Prop :=
  ∃ a, admin s = Some (Some a) ∧ is_admin_custom env caller a = true.
(** What is saved and sent by a message, and who may send it: the administrator
    creates the next controller, or sends an action by one of the controllers,
    and a controller reports to its own state. *)
Definition owner_call `{!Querier} (env : Env) (i : MessageInfo) (msg : IcaOwnerExecuteMsg) s
    (msgs : list (SubMsg CosmosMsg)) st' : Prop :=
  let st := owner_storage s in
  match msg with
  | CreateIcaContract salt options => administers env (sender i) s ∧ ∃ n code m a,
      ica_count st = Some n ∧ ica_controller_code_id st = Some code ∧ n + 1 < 2 ^ 64 ∧
      controller_instantiate2 env code (contract_address env) options
        ("icacontroller-" +:+ contract_address env +:+ "-" +:+ pretty n) (contract_address env)
        (default (pretty (seconds (time (block env)))) salt) = Some (m, a) ∧
      msgs = [send m] ∧ st' = with_controller n a st
  | ReceiveIcaCallback callback => msgs = [] ∧ ∃ id c,
      contract_addr_to_ica_id st !! sender i = Some id ∧ ica_states st !! id = Some c ∧
      st' = match callback with
            | OnChannelOpenAckCallback ch addr enc =>
                with_open (mkIcaState id addr enc (mkChannelState ch ChannelOpen)) (ica_contract_addr c) st
            | _ => st
            end
  | SendAction id m => administers env (sender i) s ∧ st' = st ∧ ∃ c m',
      ica_states st !! id = Some c ∧ controller_send (ica_contract_addr c) [m] "aloha" = Some m' ∧ msgs = [send m']
  end.
Lemma load_ica_Ok {A} (f : IcaOwnerStorage → option A) what s x s' :
  load_ica f what s = Ok (x, s') → s' = s ∧ f (owner_storage s) = Some x.
Proof. unfold load_ica. intros Hrun. by inv_ok. Qed.
Lemma assert_ica_admin_Ok `{!Querier} env i s u s' : assert_ica_admin env i s = Ok (u, s') → s' = s ∧ administers env (sender i) s.
Proof. unfold assert_ica_admin. intros Hrun. inv_ok. by apply assert_app_admin_Ok in Hrun. Qed.
Ltac loads := repeat match goal with
  | Hl : load_ica _ _ _ = Ok _ |- _ => apply load_ica_Ok in Hl as [-> Hl]
  | Ha : assert_ica_admin _ _ _ = Ok _ |- _ => apply assert_ica_admin_Ok in Ha as [-> Ha] end.
Lemma execute_call `{!Querier} env i msg s r s' : execute env i msg s = Ok (r, s') →
  owner_call env i msg s (messages r) (owner_storage s') ∧ base_state s' = base_state s ∧ admin s' = admin s.
Proof.
  destruct msg as [salt options|callback|id m]; simpl.
  - unfold create_ica_contract, update_owner. intros Hrun. inv_ok. loads.
    match goal with x : CosmosMsg * string |- _ => destruct x as [m a] end. inv_ok.
    match goal with Ha : add_u _ _ _ = Ok _ |- _ => apply add_u_Ok in Ha as [-> ?] end.
    split; [|by destruct s]. split; [done|]. eexists _, _, m, a. split_and!; done.
  - unfold ica_callback, update_owner. intros Hrun. inv_ok. loads.
    match goal with Hm : match ?c with _ => _ end _ = Ok _ |- _ => destruct c end; inv_ok;
      (split; [|by destruct s]; split; [done|]; by eexists _, _).
  - unfold send_action. intros Hrun. inv_ok. loads. split; [|done]. split; [done|]. split; [done|]. by eexists _, _.
Qed.

(** ** Reachable states *)

Inductive owner_reachable : OwnState → Prop :=
  | owner_init (Q : Querier) i code r s :
      instantiate i code (mkState None None None None (false, empty_owner)) = Ok (r, s) → owner_reachable s
  | owner_exec (Q : Querier) env i msg s r s' : owner_reachable s → execute env i msg s = Ok (r, s') → owner_reachable s'
  | owner_reply id s r s' : owner_reachable s → reply id s = Ok (r, s') → owner_reachable s'
  | owner_migrate s r s' : owner_reachable s → migrate s = Ok (r, s') → owner_reachable s'.
(** A call keeps the numbering and the controllers that exist. *)
Lemma owner_call_numbered `{!Querier} env i msg s msgs st' n : owner_call env i msg s msgs st' → numbered n (owner_storage s) →
  (∃ n', numbered n' st') ∧ controllers_kept (owner_storage s) st'.
Proof.
  intros Hcall Hn. destruct msg as [salt options|callback|id m]; simpl in Hcall.
  - destruct Hcall as (_ & n' & code & m & a & Hc & _ & Hlt & _ & _ & ->).
    assert (n' = n) as -> by (pose proof (n_count _ _ Hn); congruence).
    split; [eexists; by apply numbered_with_controller|by apply with_controller_kept].
  - destruct Hcall as (_ & id & c & _ & Hc & ->). destruct callback; [|split; [by eexists|apply controllers_kept_refl]..].
    split; [eexists; by apply numbered_with_open|by apply with_open_kept].
  - destruct Hcall as (_ & -> & _). split; [by eexists|apply controllers_kept_refl].
Qed.
Lemma save_module_data_Ok {E} s u s' : st_save_module_data (E:=E) MY_STANDALONE s = Ok (u, s') →
  custom s' = custom s ∧ base_state s' = base_state s ∧ admin s' = admin s.
Proof. unfold st_save_module_data. intros Hrun. by inv_ok. Qed.
Lemma save_version_Ok {E} s u s' : st_save_contract_version (E:=E) MY_STANDALONE s = Ok (u, s') →
  custom s' = custom s ∧ base_state s' = base_state s ∧ admin s' = admin s.
Proof. unfold st_save_contract_version. intros Hrun. by inv_ok. Qed.
Ltac saved := repeat match goal with
  | Hs : st_save_module_data _ _ = Ok _ |- _ => apply save_module_data_Ok in Hs as (? & ? & ?)
  | Hs : st_save_contract_version _ _ = Ok _ |- _ => apply save_version_Ok in Hs as (? & ? & ?) end.
Lemma instantiate_Ok `{!Querier} i code r s : instantiate i code (mkState None None None None (false, empty_owner)) = Ok (r, s) →
  numbered 0 (owner_storage s) ∧ ∃ a, base_state s = Some a ∧ admin s = Some (Some a).
Proof.
  unfold instantiate, update_owner, standalone_instantiate. intros Hr. inv_ok. saved. split; [|by eexists].
  pose proof (numbered_instantiate code). unfold owner_storage in *. simpl. simplify_eq/=.
  match goal with Hc : custom ?x = custom _ |- context [custom ?x] => by rewrite Hc; match goal with Hd : custom _ = _ |- _ => rewrite Hd end end.
Qed.
Lemma migrate_Ok s r s' : migrate s = Ok (r, s') →
  custom s' = custom s ∧ base_state s' = base_state s ∧ admin s' = admin s.
Proof. unfold migrate, standalone_migrate. intros Hr. inv_ok. saved. split_and!; congruence. Qed.
Lemma owner_reachable_inv s : owner_reachable s →
  (∃ n, numbered n (owner_storage s)) ∧ ∃ a, base_state s = Some a ∧ admin s = Some (Some a).
Proof.
  induction 1 as [Q i code r s Hr|Q env i msg s r s' _ [[n Hn] IH] Hr|id s r s' _ IH Hr|s r s' _ IH Hr].
  - apply instantiate_Ok in Hr as [Hn Ha]. by eauto.
  - apply execute_call in Hr as (Hr & -> & ->). split; [|done]. by eapply owner_call_numbered.
  - unfold reply in Hr. case_decide; [by inv_ok|done].
  - apply migrate_Ok in Hr as (Hc & -> & ->). unfold owner_storage. by rewrite Hc.
Qed.

(** The owner of ICA controllers is its account's and keeps its controllers.  In
    every reachable state the controllers are numbered from 0 up to the count and
    found by their addresses.  A message is what its specification says: only the
    administrator, the account in an administrator call or its top-level owner,
    creates a controller, with the next number, or has one send an action; a
    callback comes from a controller of the owner and can only open the account of
    that controller.  No controller is ever lost, renumbered or moved. *)
Theorem ica_owner_keeps_controllers (s : OwnState) (Hs : owner_reachable s) :
  (∃ n, numbered n (owner_storage s)) ∧
  ∃ a, base_state s = Some a ∧ ∀ (Q : Querier) env i msg r s', execute env i msg s = Ok (r, s') →
    base_state s' = Some a ∧ owner_call env i msg s (messages r) (owner_storage s') ∧
    (administers env (sender i) s ↔ (sender i = a ∧ assert_account_calling_to_as_admin_is_self env a = true) ∨
       query_top_level_owner_addr a = Ok (sender i)) ∧
    (∃ n', numbered n' (owner_storage s')) ∧ controllers_kept (owner_storage s) (owner_storage s').
Proof.
  destruct (owner_reachable_inv s Hs) as ([n Hn] & a & Hb & Ha). split; [by eexists|]. exists a. split; [done|].
  intros Q env i msg r s' Hrun. apply execute_call in Hrun as (Hcall & -> & _). split; [done|]. split; [done|].
  split; [|by eapply owner_call_numbered]. rewrite <-is_admin_custom_cases. unfold administers. rewrite Ha. naive_solver.
Qed.
End calls.

(** ** A run: two controllers, one of which opens its account *)

Module IcaOwnerExamples.
#[local] Existing Instance semver_ref.
#[local] Existing Instance api_ref.
#[local] Existing Instance instantiate2_ref.
#[local] Existing Instance RegistryExamples.ownable_ref.
#[local] Existing Instance ModuleExamples.comparators.
#[local] Existing Instance ModuleExamples.chain_admin.

#[local] Instance factories : Factories := λ a,
  if decide (a = "factory") then Some (ModuleFactory.mkState None None (Some "acc1")) else None.
(** A controller is at its label; it is created by a call of a deployer. *)
#[local] Instance controllers : IcaController := {|
  IbcChannel := string; TxEncoding := unit; ChannelOpenInitOptions := string;
  controller_instantiate2 _ _ _ options label _ salt := Some (WasmExecute "deployer" (Raw options) [], label +:+ salt);
  controller_send a msgs memo := Some (WasmExecute a (Raw memo) [])
|}.
Definition at_owner : Env := mkEnv (mkBlock 1 5000000000 "juno-1") "owner1".
Definition sent_by (a : Addr) : MessageInfo := mkInfo a [].
Definition created := instantiate (sent_by "factory") 9 (mkState None None None None (false, empty_owner)).
Definition o0 := commit (mkState None None None None (false, empty_owner)) created.
Definition creating (salt : option string) := execute at_owner (sent_by "acc1") (CreateIcaContract salt "options").
Definition o1 := commit o0 (creating None o0).
Definition o2 := commit o1 (creating (Some "a") o1).
Definition opening := execute at_owner (sent_by "icacontroller-owner1-05") (ReceiveIcaCallback (OnChannelOpenAckCallback "channel-3" "cosmos1abc" tt)).
Definition o3 := commit o2 (opening o2).
Definition acting := execute at_owner (sent_by "acc1") (SendAction 1 (WasmExecute "dex" (Raw "swap") [])).

Ltac evaluate := match goal with |- _ = ?b => vm_cast_no_check (eq_refl b) end.
Lemma owner_calls_Ok : is_ok created = true ∧ is_ok (creating None o0) = true ∧ is_ok (creating (Some "a") o1) = true ∧
  is_ok (opening o2) = true ∧ is_ok (acting o3) = true.
Proof. split_and!; evaluate. Qed.
Example account_opened : ica_state <$> ica_states (owner_storage o3) !! 0 =
  Some (Some (mkIcaState 0 "cosmos1abc" tt (mkChannelState "channel-3" ChannelOpen))).
Proof. evaluate. Qed.
Example action_sent : (λ x, messages x.1) <$> ok (acting o3) = Some [send (WasmExecute "icacontroller-owner1-1a" (Raw "aloha") [])].
Proof. evaluate. Qed.
(** Nobody else creates a controller, and others have nothing to report. *)
Example others_refused : (is_ok (execute at_owner (sent_by "bob") (CreateIcaContract None "options") o3),
  is_ok (execute at_owner (sent_by "bob") (ReceiveIcaCallback (OnTimeoutPacketCallback "")) o3)) = (false, false).
Proof. evaluate. Qed.
Lemma step_Ok env i m s : is_ok (execute env i m s) = true → ∃ r, execute env i m s = Ok (r, commit s (execute env i m s)).
Proof. destruct (execute _ _ m s) as [[r s']|e|]; [intros _; by exists r|done..]. Qed.
Lemma o3_reachable : owner_reachable o3.
Proof.
  destruct owner_calls_Ok as (H0 & H1 & H2 & H3 & _).
  destruct (step_Ok _ _ _ _ H1) as [r1 Hr1], (step_Ok _ _ _ _ H2) as [r2 Hr2], (step_Ok _ _ _ _ H3) as [r3 Hr3].
  assert (owner_reachable o0) as Ho0.
  { unfold o0. destruct created as [[r s]|e|] eqn:He; [|discriminate H0..]. exact (owner_init _ _ _ r s He). }
  exact (owner_exec _ _ _ _ o2 r3 o3 (owner_exec _ _ _ _ o1 r2 o2 (owner_exec _ _ _ _ o0 r1 o1 Ho0 Hr1) Hr2) Hr3).
Qed.
Lemma ica_owner_keeps_controllers_witness : ∃ a r s', acting o3 = Ok (r, s') ∧
  owner_call at_owner (sent_by "acc1") (SendAction 1 (WasmExecute "dex" (Raw "swap") [])) o3 (messages r) (owner_storage s') ∧
  base_state s' = Some a.
Proof.
  destruct (step_Ok _ _ _ _ (proj2 (proj2 (proj2 (proj2 owner_calls_Ok))))) as [r Hr].
  destruct (ica_owner_keeps_controllers o3 o3_reachable) as (_ & a & _ & Hall).
  destruct (Hall _ _ _ _ r _ Hr) as (Hb & Hc & _).
  exists a, r, (commit o3 (acting o3)). split; [exact Hr|]. split; [exact Hc|exact Hb].
Defined.
End IcaOwnerExamples.
