(* ===== verification/TendermintStakingProofs.v ===== *)
(** * Correctness of the tendermint staking adapter

    A request for all delegations of an account is its requests for each of them. *)

From S2P Require Import Prelude Cosmos Strings Objects Names AccountIds Fees ModuleFactory Ownership AnsObjects Ans AnsClient Registry Clients Account Ibc IbcClient Sdk SdkApis Adapter AdapterProofs DexProofs TendermintStaking.
From Stdlib Require Import Ascii String.
#[local] Open Scope string_scope.
#[local] Open Scope list_scope.
#[local] Open Scope Z_scope.

Section proofs.
Context `{Semver, Api, Instantiate2, CwOwnable, CoinsOps, Sha256}.
Context `{!Querier, !Registries, !Accounts, !ComparatorParse, !ChainStaking}.
Implicit Types s : Adapter.State unit.

Lemma handle_request_Ok env i account msg s r s' : handle_request env i (Some account) msg s = Ok (r, s') →
  s' = s ∧ ∃ msgs, request_messages (Some account) msg = Ok msgs ∧
    r = mkResponse "" [send (OnAccount account (Account.Execute msgs) [])].
Proof.
  unfold handle_request, executor_execute, execute_with_funds, execute_on_account. intros Hrun. inv_ok.
  rewrite join_singletons. split; [done|]. by eexists.
Qed.
Lemma handle_request_runs env i account msg s msgs : request_messages (Some account) msg = Ok msgs →
  handle_request env i (Some account) msg s = Ok (mkResponse "" [send (OnAccount account (Account.Execute msgs) [])], s).
Proof.
  intros Hm. unfold handle_request. unfold lift, mbind, M_bind. rewrite Hm. cbn. by rewrite join_singletons.
Qed.
(** An accepted request comes from the account, one of its authorised addresses or
    its owner, and has the account run the messages of the request. *)
Lemma tm_execute_Ok env i named msg s r s' :
  Adapter.execute STAKING_ADAPTER env i (Module_msg (mkRequest named msg)) s = Ok (r, s') →
  s' = s ∧ ∃ registry account msgs, Adapter.abstract_registry s = Ok registry ∧
    may_request s registry named (sender i) account ∧ request_messages (Some account) msg = Ok msgs ∧
    r = mkResponse "" [send (OnAccount account (Account.Execute msgs) [])].
Proof.
  intros Hrun. apply (local_adapter_execute_Ok STAKING_ADAPTER handle_request) in Hrun;
    [|intros d Hd; by apply elem_of_nil in Hd|done..].
  destruct Hrun as [(m & l & [=] & _)|(rq & registry & account & [= <-] & Hreg & Hmay & Hrun)].
  apply handle_request_Ok in Hrun as [-> (msgs & Hm & ->)]. split; [done|]. by eexists _, _, _.
Qed.
Lemma tm_granted env i named msg s registry account msgs : Adapter.abstract_registry s = Ok registry →
  may_request s registry named (sender i) account → request_messages (Some account) msg = Ok msgs →
  Adapter.execute STAKING_ADAPTER env i (Module_msg (mkRequest named msg)) s =
  Ok (mkResponse "" [send (OnAccount account (Account.Execute msgs) [])], s).
Proof.
  intros Hreg Hmay Hm. erewrite request_granted; [|done..]. by apply handle_request_runs.
Qed.

(** The request for everything, and the one for a validator *)
Inductive all_and_one : TendermintStakingExecuteMsg → (string → TendermintStakingExecuteMsg) → Prop :=
  | undelegates : all_and_one TmUndelegateAll (λ v, TmUndelegateFrom v None)
  | withdraws : all_and_one TmWithdrawAllRewards TmWithdrawDelegatorReward.
Lemma all_messages `{!ChainStakingLaws} all one account msgs : all_and_one all one →
  request_messages (Some account) all = Ok msgs →
  ∃ l, query_all_delegations account = Some l ∧
    Forall2 (λ v m, request_messages (Some account) (one v) = Ok [m]) l.*1 msgs.
Proof.
  intros Hall. destruct Hall; simpl; unfold undelegate_all, withdraw_all_rewards, query_r; intros Hrun; inv_ok.
  - match goal with Hq : query_all_delegations _ = Some ?l |- _ => exists l; split; [done|]; rename l into ds; rename Hq into Hl end.
    rewrite Forall2_fmap. apply Forall_Forall2_diag, Forall_forall. intros [v c] Hin. simpl.
    unfold undelegate_all_from, delegation_at, query_r. by rewrite (delegations_agree _ _ _ _ Hl Hin).
  - match goal with Hq : query_all_delegations _ = Some ?l |- _ => exists l; split; [done|]; rename l into ds end.
    rewrite Forall2_fmap. by apply Forall_Forall2_diag, Forall_true.
Qed.

(** Everything is each of them.  An accepted request to undelegate everything, or to
    withdraw all rewards, has the account run one message for every validator it
    has a delegation at, in the order of the chain and none twice: exactly the
    messages of the same sender's requests for those validators, one by one, each of
    which the adapter accepts. *)
Theorem all_is_each `{!ChainStakingLaws} env i named all one s r s' (Hall : all_and_one all one)
    (Hrun : Adapter.execute STAKING_ADAPTER env i (Module_msg (mkRequest named all)) s = Ok (r, s')) :
  s' = s ∧ ∃ registry account l msgs, Adapter.abstract_registry s = Ok registry ∧
    may_request s registry named (sender i) account ∧
    query_all_delegations account = Some l ∧ NoDup l.*1 ∧
    r = mkResponse "" [send (OnAccount account (Account.Execute msgs) [])] ∧
    Forall2 (λ v m, Adapter.execute STAKING_ADAPTER env i (Module_msg (mkRequest named (one v))) s =
      Ok (mkResponse "" [send (OnAccount account (Account.Execute [m]) [])], s)) l.*1 msgs.
Proof.
  apply tm_execute_Ok in Hrun as (-> & registry & account & msgs & Hreg & Hmay & Hm & ->). split; [done|].
  destruct (all_messages _ _ _ _ Hall Hm) as (l & Hl & Heach).
  exists registry, account, l, msgs. split_and!; try done; [by eapply delegations_distinct|].
  eapply Forall2_impl; [exact Heach|]. intros v m Hone. by eapply tm_granted.
Qed.
End proofs.

(** ** A tendermint staking adapter to evaluate

    The account "acc1" has delegations at two validators. *)

From S2P Require Import Prelude Cosmos Strings Objects Names AccountIds Fees ModuleFactory Ownership AnsObjects Ans AnsClient Registry RegistryAccess Clients Account Ibc IbcClient Sdk SdkApis Adapter AdapterProofs TendermintStaking AccountExamples ModuleExamples.

Module TendermintExamples.
#[local] Existing Instance semver_ref.
#[local] Existing Instance api_ref.
#[local] Existing Instance instantiate2_ref.
#[local] Existing Instance RegistryExamples.ownable_ref.
#[local] Existing Instance coins_ref.
#[local] Existing Instance sha256_ref.
#[local] Existing Instance ModuleExamples.comparators.
#[local] Existing Instance ModuleExamples.accounts.
#[local] Existing Instance ModuleExamples.chain_admin.
#[local] Existing Instance AccountExamples.AccountExamples.registries.
#[local] Instance staking_ref : ChainStaking := {|
  query_bonded_denom := Some "ujuno";
  query_delegation a v := Some (if decide (v = "val1") then Some (mkCoin "ujuno" 70)
    else if decide (v = "val2") then Some (mkCoin "ujuno" 30) else None);
  query_all_delegations _ := Some [("val1", mkCoin "ujuno" 70); ("val2", mkCoin "ujuno" 30)]
|}.
#[local] Instance staking_ref_laws : ChainStakingLaws.
Proof.
  split; simpl.
  - intros a l [= <-]. simpl. repeat constructor; [by intros ?%list_elem_of_singleton|by intros ?%elem_of_nil].
  - intros a l v c [= <-] [[= -> ->]|[[= -> ->]|?%elem_of_nil]%elem_of_cons]%elem_of_cons; [done..|done].
Qed.

Definition at_tm : Env := mkEnv (mkBlock 1 0 "juno-1") "tm".
Definition created := Adapter.instantiate STAKING_ADAPTER at_tm (mkInfo "bob" []) "deployer/reg" tt
  (Adapter.mkState None None None ∅ tt).
Definition s0 : Adapter.State unit := commit (Adapter.mkState None None None ∅ tt) created.
Definition asking (m : TendermintStakingExecuteMsg) :=
  Adapter.execute STAKING_ADAPTER at_tm (mkInfo "acc1" []) (Module_msg (mkRequest None m)) s0.

Ltac evaluate := match goal with |- _ = ?b => vm_cast_no_check (eq_refl b) end.
Lemma tm_created : is_ok created = true ∧ is_ok (asking TmUndelegateAll) = true.
Proof. split; evaluate. Qed.
Example tm_undelegates : (λ x, messages x.1) <$> ok (asking TmUndelegateAll) =
  Some [send (OnAccount "acc1" (Account.Execute [MsgStaking (Undelegate "val1" (mkCoin "ujuno" 70));
    MsgStaking (Undelegate "val2" (mkCoin "ujuno" 30))]) [])].
Proof. evaluate. Qed.
Example tm_not_delegated : asking (TmUndelegateFrom "val3" None) = Err (TmStd (StdMsg "OS not delegated to validator val3")).
Proof. evaluate. Qed.
Lemma tm_asking_Ok m : is_ok (asking m) = true → ∃ r s', asking m = Ok (r, s').
Proof. destruct (asking m) as [[r s']|e|]; [intros _; by exists r, s'|done..]. Qed.
Lemma all_is_each_witness : ∃ r, asking TmUndelegateAll = Ok (r, s0) ∧ ∃ l, List.length l = 2%nat ∧ NoDup l.*1 ∧
  query_all_delegations "acc1" = Some l.
Proof.
  destruct (tm_asking_Ok TmUndelegateAll (proj2 tm_created)) as (r & s' & Hr).
  destruct (all_is_each at_tm (mkInfo "acc1" []) None TmUndelegateAll _ s0 r s' undelegates Hr)
    as (Hs & registry & account & l & msgs & _ & _ & Hl & Hnd & _).
  exists r. split; [rewrite Hs in Hr; exact Hr|]. exists l. injection Hl as <-.
  split; [reflexivity|]. split; [exact Hnd|reflexivity].
Defined.
End TendermintExamples.
